(* ===== verification/_CoqProject ===== *)
-Q . S2P
Prelude.v
Text.v
Identifier.v
Json.v
Retry.v
TaskTypes.v
Chrono.v
Schedule.v
Outcome.v
Rows.v
Tables.v
Protocol.v
Fleet.v
Lifecycle.v
Dispatch.v
Triggers.v
Cascade.v
Capacity.v
Migrations.v
Store.v
Grants.v
Rounds.v
StoreSpec.v
Propagation.v
Registry.v
Durable.v
Control.v
Health.v
Supervisor.v
Runtime.v
Workers.v
Notifications.v
Waiting.v
Execution.v
Maintenance.v
Drain.v
Pace.v
Renewer.v
Recovery.v
Writer.v
RunLoop.v
Startup.v
Cli.v
Metrics.v
Python.v
PythonSpec.v
WebModel.v
Pages.v
Web.v
WebSpec.v
Processes.v
