(* ===== verification/Prelude.v ===== *)
(** pgtask: a durable task queue on PostgreSQL, verified in Rocq.

    * The program

    pgtask stores tasks in PostgreSQL.  Producers enqueue tasks through the
    [Store] (crate [pgtask-postgres]); a worker process (crate [pgtask-worker])
    claims tasks under leases, runs their handlers and writes the outcomes
    back.  All state that matters is in the database and is changed only by the
    SQL functions of the migrations, the storage protocol; the [Store] checks
    and converts arguments and rows around those functions, and the runtime
    composes [Store] calls in loops: claiming, renewing leases, recovering
    expired ones, batching transitions, materializing schedules, retention.  A
    handler can make durable calls (steps, sleeping, signals, child tasks and
    their results), whose checkpoints survive the attempt.

    * The files and the code they model

    - [Prelude]: [Result] and [Option] idioms, machine integers as [Z] with the
      ranges of their types and saturating and checked operations, [Duration]
      as nanoseconds, shared list and map lemmas, tactics ([ok_inv], [case_Z],
      [by_compute]) and the hint database.
    - [Text], [Json]: [String] as its scalar values with the UTF-8 length, and
      [serde_json::Value].
    - [Identifier]: [pgtask-core/src/identifier.rs].
    - [Retry]: [pgtask-core/src/retry.rs].
    - [TaskTypes]: [pgtask-core/src/task.rs] and the protocol range of [lib.rs].
    - [Chrono], [Schedule]: [pgtask-core/src/schedule.rs] over interfaces of the
      chrono and cron crates, which are type classes of operations and of the
      documented laws; a concrete instance shows that the laws can hold.
    - [Outcome]: [pgtask-worker/src/outcome.rs].
    - [Rows]: the row structs, [TryFrom] conversions and errors of
      [pgtask-postgres/src/store.rs].
    - [Tables], [Protocol]: the tables of the migrations as finite maps ([Db]),
      the row triggers on tasks ([after_update]: cancel the children, manage the
      idempotency key, resolve waiting parents), and the SQL functions in the
      version the last migration leaves, each a statement on [Db].  The
      environment [Env] of a statement has its time, the uuids it draws and the
      rows other transactions have locked.
    - [Fleet]: the SQL functions on workers, heartbeats and demand.
    - [Store]: the methods of [Store] in [pgtask-postgres/src/store.rs]; a method
      is a function on [Db] that answers a value or a [PostgresError].
      [Migrations]: [Store::migrate] as a machine of events of many callers in many
      processes.  [Grants]: [pgtask.configure_grants] with the migrations that
      extend it and [Store::configure_grants].  [Notifications]: the notification hub, its listeners and
      [wait_for_task_result], over the broadcast channel of tokio as a class with
      its documented laws.
    - [Propagation]: [pgtask-otel/src/propagation.rs], over a propagator of
      OpenTelemetry as a class with its laws; [Metrics]: [metrics.rs] beside it.
    - [Registry]: [pgtask-worker/src/registry.rs], the durable calls of
      [TaskContext] and the handler registry.
    - [Control], [Health], [Supervisor]: configuration, [Worker::new] and admission
      of [pgtask-worker/src/runtime.rs]; [pgtask-worker/src/health.rs] with the
      overload detector and the supervisor thread.
    - [Runtime]: the loops of [pgtask-worker/src/runtime.rs], one turn at a
      time, and the execution of a task against the class [TransitionWriter].
      [RunLoop] and [Writer] have the [select!] loops of [run_handlers] and
      [write_transitions] as step relations, [Renewer] and [Recovery] the loops of
      [renew_leases] and [recover_expired_leases] in time, over the interval of tokio
      as a class ([Pace]), [Startup] the beginning and the end
      of [Worker::run].
    - [Cli]: [pgtask-cli/src/main.rs].  [WebModel], [Pages], [Web]: the queries,
      pages and routes of [pgtask-web/src].  [Processes]: the programs
      [pgtask-bench/src/main.rs] and [smoke.rs] and [pgtask-web/src/main.rs].
    - [Python]: [sdks/python/src/lib.rs], with Python's exceptions as a heap of
      objects that refer to each other.

    * What is proved

    - [Lifecycle]: an abstract state machine of one task ([life_step], a step
      relation on the fields that make up its life) and a refinement: every
      protocol call moves every task along it, triggers included.  The lemmas are
      about any [Course], a choice of allowed steps that triggers stay on, so that
      other files can show more of single statements.  From the machine, by
      induction over reachable databases, the invariant of tasks; that a lease
      once lost is never valid again; that a stale lease changes nothing; that
      success is final; that retention deletes only what has expired.
    - [Dispatch]: which tasks a claim takes and in which order, idempotent
      enqueueing, and a result that is stored but cannot be delivered.
    - [Triggers], [Cascade]: when the triggers of a statement succeed, that
      their recursion reaches every descendant, and that no unfinished task has
      a finished parent.
    - [StoreSpec], [Rounds]: the answers of the batch methods, the round trip of
      a schedule, the delay until the next task, and that a failing schedule
      does not stop a round.
    - [Durable]: a committed step is replayed by every later attempt, whatever
      the database goes through in between.
    - [Execution]: [execute] is proved against [WriterLaws], the promise of a
      transition writer, and the batching writer discharges it: whatever a
      handler ends with is recorded.
    - [Maintenance]: claiming stays within the admission limit and hands over
      current leases, one recovery tick frees every expired lease, a renewal
      tick settles every lease.  [Renewer]: in every timed run of the renewal loop a
      lease is confirmed or given up within a bound, which an outage can push past
      the expiry of the lease.  [Recovery]: a lease nobody renews is over within a
      bound after it has expired, for good.
    - [Drain]: claiming, executing and the batching writer composed; a worker whose
      handlers do not suspend finishes every task of its queues in at most as many
      rounds as attempts are left, on the course [working].
    - [Grants]: a producer can add tasks and wake them and nothing else, an observer
      changes nothing, workers and administrators may call what they need, and an
      upgraded installation has the privileges of a new one.
    - [Capacity]: the counter of a queue covers its outstanding tasks in every
      reachable database, so the limit of a queue holds.
    - [Workers]: a handler version keeps its retry policy; what a demand sample
      counts bounds what a claim takes.
    - [Waiting]: who waits for the result of a task hears of its end, in every
      interleaving in which it is not more than the capacity of the channel behind.
    - [RunLoop], [Writer], [Startup], [Supervisor]: the handlers stay within the
      concurrency and a shutdown gives back what it aborts; requests are written in
      the order they were sent; a worker that has started is in the fleet and ready;
      an outage lowers the admission to its minimum.
    - [Migrations]: at most one caller of all processes migrates, and all can return.
    - [Propagation]: the trace context of the producer is that of the handler.
    - [WebSpec], [PythonSpec]: only an administrator changes anything and only with
      an entry of the audit, no data becomes markup, following the pages lists every
      row once; the search for a [NonRetryableError] ends on cyclic exceptions,
      errors of durable calls keep their kind through Python.
    - [Cli], [Metrics], [Processes]: a command that fails has changed nothing, the
      series of metrics are bounded, an accepted configuration of the benchmark
      starts workers and its cleanup ends.
    - [Schedule], [Outcome], [Retry], [Rows], [Identifier], [Health],
      [TaskTypes]: [materialize] refines the list of due occurrences; prepared
      errors fit the column and are cut as little as possible;
      [jsonb_text_len] is the length of the text PostgreSQL prints; bounds of
      delays and of admission; conversions of rows.

    Some theorems show behaviour the code should not have: see
    [latest_fails_off_occurrence], [claim_strands_batch],
    [large_result_blocks_completion], [overload_raises_manual_limit],
    [reclaimed_task_loses_its_renewal], [lagged_listener_misses_completion],
    [second_queue_looks_unserved], [outage_outlives_the_lease] and
    [tables_are_the_owners].

    * Bounds and fuel

    [after_update] recurses with the number of tasks plus one as fuel; [Cascade]
    proves it enough, since each level has fewer outstanding tasks.  Searches
    ([truncate_search], [latest_search]) have fuel that their specification
    theorems prove enough.  [drain] recurses on the batch budget, 16, which is
    the source's.  The search through a heap of exceptions has the number of its
    references plus two, a walk over the pages of a list its rows plus one, the
    cleanup of the benchmark its tasks plus one, [chunks] the length of the list;
    the theorems about each prove it enough.  The loops that need not end are step
    relations and have no fuel.  Times and the integers of the tables are unbounded
    where the SQL type is [timestamptz] or [bigint] and the code never reaches the
    bound; [u16], [u64] and [i64] conversions of the Rust code are range checks, and
    [usize] has 64 bits.

    * What is not modelled

    Connection pools and the wire protocol; the SQL of the migrations other than
    the functions, tables, triggers and privileges they leave; the timers of the
    loops other than renewal and recovery, which decide when a turn happens and not what it
    does; the plumbing that hands clones of the store and tokens to the loops of
    [Worker::run]; the internals of tokio, axum, clap,
    sqlx, OpenTelemetry and PyO3; what the programs print and how long they take;
    the clients in other languages.  The isolation of PostgreSQL is taken as it is
    used: a statement runs on the state its locks give it, and rows locked by
    others are skipped. *)

From Stdlib Require Export ZArith Lia Sorted.
From stdpp Require Export base numbers decidable option list_numbers gmap list.

Global Open Scope Z_scope.
Global Set Default Proof Using "Type".

(** * Rust's [Result] *)

Inductive result (E A : Type) : Type :=
| Ok (a : A)
| Err (e : E).
Arguments Ok {E A} a.
Arguments Err {E A} e.

Global Instance result_eq_dec E A `{EqDecision E, EqDecision A} : EqDecision (result E A).
Proof. solve_decision. Defined.

Global Instance result_ret E : MRet (result E) := fun A a => Ok a.
Global Instance result_bind E : MBind (result E) :=
  fun A B k r => match r with Ok a => k a | Err e => Err e end.
Global Instance result_fmap E : FMap (result E) :=
  fun A B f r => match r with Ok a => Ok (f a) | Err e => Err e end.

(** [r.map_err(f)], [o.ok_or(e)] and [o.map(f).transpose()]. *)
Definition map_err {E F A} (f : E -> F) (r : result E A) : result F A :=
  match r with Ok a => Ok a | Err e => Err (f e) end.
Definition ok_or {E A} (e : E) (o : option A) : result E A :=
  match o with Some a => Ok a | None => Err e end.
Definition transpose {E A} (o : option (result E A)) : result E (option A) :=
  match o with
  | None => Ok None
  | Some (Ok a) => Ok (Some a)
  | Some (Err e) => Err e
  end.
Definition is_ok {E A} (r : result E A) : bool :=
  match r with Ok _ => true | Err _ => false end.

Declare Scope rust_scope.
Delimit Scope rust_scope with rust.
Notation "'let?' x ':=' c 'in' k" := (mbind (fun x => k) c)
  (at level 10, x pattern, c at level 100, k at level 200) : rust_scope.
Notation "'guard?' b 'else' e ; k" := (if b then k else Err e)
  (at level 10, b at level 100, e at level 100, k at level 200) : rust_scope.
Global Open Scope rust_scope.

(** * Machine integers

    A Rust integer is a [Z] together with the range of its type; a conversion
    [T::try_from] is a range check. *)

Definition u16_max : Z := 65535.
Definition u32_max : Z := 4294967295.
Definition u64_max : Z := 18446744073709551615.
Definition i16_min : Z := -32768.
Definition i16_max : Z := 32767.
Definition i32_min : Z := -2147483648.
Definition i32_max : Z := 2147483647.
Definition i64_min : Z := -9223372036854775808.
Definition i64_max : Z := 9223372036854775807.

Definition in_range (lo hi z : Z) : bool := (lo <=? z) && (z <=? hi).
Definition try_from (lo hi z : Z) : option Z := if in_range lo hi z then Some z else None.

Definition try_u16 : Z -> option Z := try_from 0 u16_max.
Definition try_u32 : Z -> option Z := try_from 0 u32_max.
Definition try_u64 : Z -> option Z := try_from 0 u64_max.
Definition try_i32 : Z -> option Z := try_from i32_min i32_max.
Definition try_i64 : Z -> option Z := try_from i64_min i64_max.

(** [NonZeroUxx::new]. *)
Definition nonzero (z : Z) : option Z := if z =? 0 then None else Some z.

Definition saturate (lo hi z : Z) : Z := Z.max lo (Z.min hi z).
Definition u16_saturating_add (a b : Z) : Z := saturate 0 u16_max (a + b).
Definition u16_saturating_sub (a b : Z) : Z := saturate 0 u16_max (a - b).
Definition u64_saturating_sub (a b : Z) : Z := saturate 0 u64_max (a - b).
Definition i64_saturating_add (a b : Z) : Z := saturate i64_min i64_max (a + b).
Definition i64_saturating_sub (a b : Z) : Z := saturate i64_min i64_max (a - b).
(** [u32::saturating_pow]. *)
Definition u32_saturating_pow (b e : Z) : Z := Z.min (b ^ e) u32_max.

(** * [std::time::Duration], as a number of nanoseconds *)

Definition NANOS_PER_SEC : Z := 1000000000.
Definition NANOS_PER_MILLI : Z := 1000000.
Definition duration_max : Z := u64_max * NANOS_PER_SEC + (NANOS_PER_SEC - 1).
Definition wf_duration (d : Z) : Prop := 0 <= d <= duration_max.

Definition from_nanos (n : Z) : Z := n.
Definition from_millis (n : Z) : Z := n * NANOS_PER_MILLI.
Definition from_secs (n : Z) : Z := n * NANOS_PER_SEC.
Definition from_mins (n : Z) : Z := from_secs (60 * n).
Definition from_hours (n : Z) : Z := from_secs (3600 * n).
Definition as_millis (d : Z) : Z := d / NANOS_PER_MILLI.
Definition as_secs (d : Z) : Z := d / NANOS_PER_SEC.
Definition is_zero (d : Z) : bool := d =? 0.
Definition duration_saturating_mul (d k : Z) : Z := Z.min (d * k) duration_max.

(** * Tactics *)

(** [case_Z]: case analysis on the first integer comparison in sight. *)
Ltac case_Z :=
  match goal with
  | |- context [?a <=? ?b] => destruct (Z.leb_spec a b)
  | |- context [?a <? ?b] => destruct (Z.ltb_spec a b)
  | |- context [?a =? ?b] => destruct (Z.eqb_spec a b)
  | H : context [?a <=? ?b] |- _ => destruct (Z.leb_spec a b)
  | H : context [?a <? ?b] |- _ => destruct (Z.ltb_spec a b)
  | H : context [?a =? ?b] |- _ => destruct (Z.eqb_spec a b)
  end.

(** [ok_inv]: peel [let?] binds and guards off a hypothesis [_ = Ok _] or
    [_ = Err _]. *)
Ltac ok_inv :=
  repeat (match goal with
  | H : Ok _ = Ok _ |- _ => injection H as H; subst
  | H : Err _ = Err _ |- _ => injection H as H; subst
  | H : Ok _ = Err _ |- _ => discriminate H
  | H : Err _ = Ok _ |- _ => discriminate H
  | H : mret _ = _ |- _ => unfold mret, result_ret in H
  | H : mbind _ ?c = Ok _ |- _ =>
      let E := fresh "E" in destruct c eqn:E; cbn [mbind result_bind] in H
  | H : (if ?b then _ else Err _) = Ok _ |- _ =>
      let E := fresh "E" in destruct b eqn:E
  | H : (if ?b then Err _ else _) = Ok _ |- _ =>
      let E := fresh "E" in destruct b eqn:E
  end).

(** [by_compute]: a closed decidable goal, by evaluation. *)
Ltac by_compute :=
  solve [ vm_compute; repeat split; first [reflexivity | discriminate | (intros ?; discriminate)] ].

(** * Arithmetic lemmas *)

Create HintDb pgtask.

Lemma try_from_Some lo hi z : lo <= z <= hi -> try_from lo hi z = Some z.
Proof. intros ?. unfold try_from, in_range. repeat case_Z; simpl; lia || done. Qed.

Lemma try_from_inv lo hi z z' : try_from lo hi z = Some z' -> z' = z /\ lo <= z <= hi.
Proof. unfold try_from, in_range. repeat case_Z; simpl; intros [=]; lia. Qed.

Lemma try_from_None lo hi z : try_from lo hi z = None <-> z < lo \/ hi < z.
Proof. unfold try_from, in_range. repeat case_Z; simpl; split; (done || lia). Qed.

Lemma try_in_range {A} lo hi z (a b : A) : lo <= z <= hi -> (if in_range lo hi z then a else b) = a.
Proof. intros ?. unfold in_range. repeat case_Z; simpl; lia || done. Qed.

Lemma saturate_bounds lo hi z : lo <= hi -> lo <= saturate lo hi z <= hi.
Proof. unfold saturate. lia. Qed.

Lemma saturate_id lo hi z : lo <= z <= hi -> saturate lo hi z = z.
Proof. unfold saturate. lia. Qed.

#[export] Hint Resolve try_from_Some saturate_id : pgtask.

Lemma ok_or_inv {E A} (e : E) (o : option A) a : ok_or e o = Ok a -> o = Some a.
Proof. by destruct o; intros [=->]. Qed.

(** * Lists *)

(** Sum of a list of integers. *)
Definition sum_Z (l : list Z) : Z := foldr Z.add 0 l.

Lemma sum_Z_app l k : sum_Z (l ++ k) = sum_Z l + sum_Z k.
Proof. induction l as [|a l IH]; simpl; lia. Qed.

Lemma sum_Z_nonneg l : Forall (fun z => 0 <= z) l -> 0 <= sum_Z l.
Proof. induction 1; simpl; lia. Qed.

Lemma sum_Z_map_nonneg {A} (f : A -> Z) l : (forall a, 0 <= f a) -> 0 <= sum_Z (map f l).
Proof. intros Hf. induction l as [|a l IH]; simpl; [lia | specialize (Hf a); lia]. Qed.

Lemma sum_Z_map_le {A} (f g : A -> Z) l :
  (forall a, f a <= g a) -> sum_Z (map f l) <= sum_Z (map g l).
Proof. intros Hf. induction l as [|a l IH]; simpl; [lia | specialize (Hf a); lia]. Qed.

(** Length of a list as a machine integer. *)
Definition len {A} (l : list A) : Z := Z.of_nat (length l).

Lemma len_nonneg {A} (l : list A) : 0 <= len l.
Proof. unfold len. lia. Qed.

Lemma len_nil {A} : len (@nil A) = 0.
Proof. done. Qed.
Lemma len_cons {A} (a : A) l : len (a :: l) = 1 + len l.
Proof. unfold len. cbn [length]. lia. Qed.
Lemma len_app {A} (l k : list A) : len (l ++ k) = len l + len k.
Proof. unfold len. rewrite length_app. lia. Qed.
#[export] Hint Resolve len_nonneg : pgtask.

Lemma sorted_take {A} (R : A -> A -> Prop) n l : StronglySorted R l -> StronglySorted R (take n l).
Proof.
  intros H. revert n. induction H as [|a l Hl IH Ha]; intros [|n]; simpl; constructor; [done|].
  by apply Forall_take.
Qed.

Lemma forallb_Forall {A} (f : A -> bool) l : forallb f l = true <-> Forall (fun x => f x = true) l.
Proof.
  induction l as [|a l IH]; simpl; [by split; [constructor|]|].
  rewrite andb_true_iff, List.Forall_cons_iff, IH. done.
Qed.

(** The value of the first pair with a given key. *)
Fixpoint list_find_fst {A B} `{EqDecision A} (a : A) (l : list (A * B)) : option B :=
  match l with
  | [] => None
  | (a', b) :: l' => if decide (a' = a) then Some b else list_find_fst a l'
  end.

Lemma NoDup_fmap_fst_filter {K A} `{Countable K} (P : K * A -> Prop) `{forall x, Decision (P x)}
    (m : gmap K A) : NoDup (map fst (filter P (map_to_list m))).
Proof.
  pose proof (NoDup_fst_map_to_list m) as Hnd. revert Hnd.
  generalize (map_to_list m) as l. induction l as [|[k a] l IH]; [done|].
  change (map fst ((k, a) :: l)) with (k :: map fst l). intros [Hk Hl]%NoDup_cons.
  rewrite filter_cons. destruct (decide (P (k, a))); [|auto]. cbn. constructor; [|auto].
  intros Hin. apply Hk. apply list_elem_of_fmap in Hin as ([k' a'] & -> & Hin).
  apply list_elem_of_filter in Hin as [_ Hin]. apply list_elem_of_fmap. by exists (k', a').
Qed.

Lemma NoDup_map_filter {A B} (f : A -> B) (P : A -> Prop) `{forall x, Decision (P x)} l :
  NoDup (map f l) -> NoDup (map f (filter P l)).
Proof.
  induction l as [|a l IH]; [done|].
  change (map f (a :: l)) with (f a :: map f l). intros [Hk Hl]%NoDup_cons.
  rewrite filter_cons. destruct (decide (P a)); [|auto]. cbn. constructor; [|auto].
  intros (b & Hb & [_ Hin]%list_elem_of_filter)%list_elem_of_fmap. apply Hk.
  apply list_elem_of_fmap. by exists b.
Qed.

Lemma NoDup_map_inj {A B} (f : A -> B) l a b :
  NoDup (map f l) -> a ∈ l -> b ∈ l -> f a = f b -> a = b.
Proof.
  induction l as [|c l IH]; [by intros _ ?%not_elem_of_nil|].
  change (map f (c :: l)) with (f c :: map f l). intros [Hc Hl]%NoDup_cons Ha Hb Heq.
  assert (forall x, x ∈ l -> f x <> f c) as Hne.
  { intros x Hx Hf. apply Hc. rewrite <- Hf. apply list_elem_of_fmap. by exists x. }
  apply elem_of_cons in Ha as [->|Ha], Hb as [->|Hb]; [done| | |auto].
  - by destruct (Hne b Hb).
  - by destruct (Hne a Ha).
Qed.

Lemma list_find_fst_Some {A B} `{EqDecision A} (l : list (A * B)) a b :
  NoDup (map fst l) -> (a, b) ∈ l -> list_find_fst a l = Some b.
Proof.
  induction l as [|[a' b'] l IH]; [by intros _ ?%not_elem_of_nil|].
  cbn. intros [Hc Hl]%NoDup_cons [Heq|Hin]%elem_of_cons.
  - injection Heq as -> ->. by rewrite decide_True.
  - destruct (decide (a' = a)) as [->|]; [|auto]. destruct Hc. apply list_elem_of_fmap. by exists (a, b).
Qed.

Lemma list_find_fst_None {A B} `{EqDecision A} (l : list (A * B)) a :
  a ∉ map fst l -> list_find_fst a l = None.
Proof.
  induction l as [|[a' b'] l IH]; cbn; [done|]. intros [Hne Hni]%not_elem_of_cons.
  rewrite decide_False by done. auto.
Qed.
