(* ===== verification/Text.v ===== *)
(** Rust strings.  A [String] is the list of its Unicode scalar values; its
    [len()] is the number of UTF-8 bytes.  [str] turns an ASCII literal of the
    source into such a list. *)

From S2P Require Import Prelude.
From stdpp Require Export strings.
From Stdlib Require Import Strings.Ascii.

Global Open Scope Z_scope.

Abbreviation char := Z (only parsing).
Abbreviation rstring := (list Z) (only parsing).

(** A Unicode scalar value: what Rust's [char] can hold. *)
Definition valid_char (c : char) : bool :=
  (0 <=? c) && (c <? 1114112) && negb ((55296 <=? c) && (c <? 57344)).

Definition str (s : string) : rstring :=
  map (fun a => Z.of_N (N_of_ascii a)) (String.list_ascii_of_string s).
Arguments str s%_string_scope.

(** [char::len_utf8]. *)
Definition len_utf8 (c : char) : Z :=
  if c <? 128 then 1 else if c <? 2048 then 2 else if c <? 65536 then 3 else 4.

(** [str::len]. *)
Definition str_len (s : rstring) : Z := sum_Z (map len_utf8 s).

(** [char::is_ascii_alphanumeric]. *)
Definition is_ascii_alphanumeric (c : char) : bool :=
  ((48 <=? c) && (c <=? 57)) || ((65 <=? c) && (c <=? 90)) || ((97 <=? c) && (c <=? 122)).

(** Byte order on [str]: UTF-8 preserves the order of scalar values. *)
Fixpoint str_compare (s t : rstring) : comparison :=
  match s, t with
  | [], [] => Eq
  | [], _ :: _ => Lt
  | _ :: _, [] => Gt
  | a :: s', b :: t' =>
      match Z.compare a b with Eq => str_compare s' t' | c => c end
  end.

(** [str::is_char_boundary]. *)
Fixpoint is_char_boundary (s : rstring) (i : Z) : bool :=
  if i =? 0 then true
  else match s with
       | [] => false
       | c :: s' => if i <? len_utf8 c then false else is_char_boundary s' (i - len_utf8 c)
       end.

(** [String::truncate] at a character boundary. *)
Fixpoint truncate_at (s : rstring) (i : Z) : rstring :=
  match s with
  | [] => []
  | c :: s' => if i <? len_utf8 c then [] else c :: truncate_at s' (i - len_utf8 c)
  end.

(** [str::replace] of one character by a string. *)
Definition replace_char (c : char) (by_ : rstring) (s : rstring) : rstring :=
  flat_map (fun d => if d =? c then by_ else [d]) s.

Definition contains_char (c : char) (s : rstring) : bool := existsb (fun d => d =? c) s.

(** [str::split_once] on a set of characters. *)
Fixpoint split_once (p : char -> bool) (s : rstring) : option (rstring * rstring) :=
  match s with
  | [] => None
  | c :: s' =>
      if p c then Some ([], s')
      else match split_once p s' with
           | Some (a, b) => Some (c :: a, b)
           | None => None
           end
  end.

(** [str::trim_start_matches] on a set of characters. *)
Fixpoint trim_start_matches (p : char -> bool) (s : rstring) : rstring :=
  match s with
  | [] => []
  | c :: s' => if p c then trim_start_matches p s' else s
  end.

Definition starts_with (prefix s : rstring) : bool :=
  bool_decide (take (length prefix) s = prefix).

(** * Lemmas *)

Lemma len_utf8_bounds c : 1 <= len_utf8 c <= 4.
Proof. unfold len_utf8. repeat case_Z; lia. Qed.

Lemma str_len_nonneg s : 0 <= str_len s.
Proof. apply sum_Z_map_nonneg. intros c. pose proof (len_utf8_bounds c). lia. Qed.

Lemma str_len_nil_inv s : str_len s = 0 -> s = [].
Proof.
  destruct s as [|c s]; [done|]. unfold str_len; simpl. fold (str_len s).
  pose proof (len_utf8_bounds c). pose proof (str_len_nonneg s). lia.
Qed.

Lemma str_len_cons c s : str_len (c :: s) = len_utf8 c + str_len s.
Proof. done. Qed.

Lemma str_len_app s t : str_len (s ++ t) = str_len s + str_len t.
Proof. unfold str_len. by rewrite map_app, sum_Z_app. Qed.

#[export] Hint Resolve str_len_nonneg : pgtask.

(** Truncating at a boundary keeps exactly that many bytes. *)
Lemma truncate_at_boundary s i :
  0 <= i -> is_char_boundary s i = true -> str_len (truncate_at s i) = i.
Proof.
  revert i. induction s as [|c s IH]; intros i Hi; simpl.
  - case_Z; [by subst | done].
  - pose proof (len_utf8_bounds c). destruct (Z.eqb_spec i 0) as [->|].
    + intros _. case_Z; [done | lia].
    + case_Z; [done|]. intros Hb. rewrite str_len_cons, IH; [lia | lia | done].
Qed.

Lemma truncate_at_prefix s i : exists t, s = truncate_at s i ++ t.
Proof.
  revert i. induction s as [|c s IH]; intros i; simpl; [by exists []|].
  case_Z; [by exists (c :: s)|]. destruct (IH (i - len_utf8 c)) as [t Ht].
  exists t. simpl. by f_equal.
Qed.

Lemma truncate_at_len s i : 0 <= i -> str_len (truncate_at s i) <= i.
Proof.
  revert i. induction s as [|c s IH]; intros i Hi; simpl; [done|].
  case_Z; [done|]. rewrite str_len_cons. specialize (IH (i - len_utf8 c)). lia.
Qed.

Lemma truncate_at_Forall (P : char -> Prop) s i : Forall P s -> Forall P (truncate_at s i).
Proof.
  destruct (truncate_at_prefix s i) as [t Ht]. intros H. rewrite Ht in H.
  by apply Forall_app in H as [? _].
Qed.

(** Among any four consecutive byte positions one is a boundary. *)
Lemma boundary_near s i :
  0 <= i <= str_len s ->
  exists j, i - 3 <= j <= i /\ 0 <= j /\ is_char_boundary s j = true.
Proof.
  revert i. induction s as [|c s IH]; intros i Hi.
  - exists 0. unfold str_len in Hi; simpl in *. repeat split; lia || done.
  - rewrite str_len_cons in Hi. pose proof (len_utf8_bounds c).
    destruct (Z.ltb_spec i (len_utf8 c)).
    + exists 0. repeat split; lia || done.
    + destruct (IH (i - len_utf8 c)) as (j & ? & ? & Hj); [lia|].
      exists (j + len_utf8 c). repeat split; try lia. simpl.
      destruct (Z.eqb_spec (j + len_utf8 c) 0); [done|].
      case_Z; [lia|]. by replace (j + len_utf8 c - len_utf8 c) with j by lia.
Qed.

Lemma str_compare_eq s t : str_compare s t = Eq <-> s = t.
Proof.
  revert t. induction s as [|a s IH]; intros [|b t]; simpl; try done.
  destruct (Z.compare_spec a b) as [->| |]; [rewrite IH | |]; split; intros H';
    (by simplify_eq) || (by injection H'; lia).
Qed.

Lemma str_compare_antisym s t : str_compare t s = CompOpp (str_compare s t).
Proof.
  revert t. induction s as [|a s IH]; intros [|b t]; simpl; try done.
  rewrite (Z.compare_antisym a b). destruct (Z.compare a b); simpl; auto.
Qed.

Lemma str_compare_trans s t u :
  str_compare s t = Lt -> str_compare t u = Lt -> str_compare s u = Lt.
Proof.
  revert t u. induction s as [|a s IH]; intros [|b t] [|c u]; simpl; try done.
  destruct (Z.compare_spec a b), (Z.compare_spec b c), (Z.compare_spec a c);
    subst; try done; try lia; eauto.
Qed.

Lemma replace_char_gone c r s : contains_char c r = false -> contains_char c (replace_char c r s) = false.
Proof.
  intros Hr. unfold contains_char, replace_char in *. induction s as [|d s IH]; simpl; [done|].
  rewrite existsb_app, IH. destruct (Z.eqb_spec d c) as [->|Hne]; simpl.
  - by rewrite Hr.
  - case_Z; [lia | done].
Qed.

Lemma replace_char_id c r s : contains_char c s = false -> replace_char c r s = s.
Proof.
  unfold contains_char, replace_char. induction s as [|d s IH]; simpl; [done|].
  intros [H1 H2]%orb_false_iff. rewrite H1. simpl. by f_equal; auto.
Qed.

Lemma contains_char_Forall c s : contains_char c s = false <-> Forall (fun d => d <> c) s.
Proof.
  unfold contains_char. induction s as [|d s IH]; simpl; [done|].
  rewrite orb_false_iff, IH, Forall_cons. by rewrite Z.eqb_neq.
Qed.
