(* ===== verification/Identifier.v ===== *)
(** Identifiers: [pgtask-core/src/identifier.rs].

    Name validation with its three errors, the five name types the
    [name_type!] macro makes, and [HandlerVersion].  A validated name carries
    no more than its text, as in the source; [wf_name] is what the private
    field guarantees. *)

From S2P Require Import Prelude Text.

Definition MAX_QUEUE_NAME_BYTES : Z := 128.
Definition MAX_TASK_NAME_BYTES : Z := 255.

(** [NameError]; [kind] is the ['static str] the macro passes. *)
Inductive NameError : Type :=
| Empty (kind : rstring)
| TooLong (kind : rstring) (maximum actual : Z)
| UnsupportedCharacter (kind : rstring) (character : char).

(** The characters a name may hold. *)
Definition name_char (c : char) : bool :=
  is_ascii_alphanumeric c || (c =? 46) || (c =? 95) || (c =? 58) || (c =? 45).

Definition validate_name (value kind : rstring) (maximum : Z) : result NameError unit :=
  if bool_decide (value = []) then Err (Empty kind)
  else if maximum <? str_len value then Err (TooLong kind maximum (str_len value))
  else match find (fun character => negb (name_char character)) value with
       | Some character => Err (UnsupportedCharacter kind character)
       | None => Ok tt
       end.

(** The [new] of a [name_type!]: the validated text itself. *)
Definition name_new (kind : rstring) (maximum : Z) (value : rstring) : result NameError rstring :=
  let? _ := validate_name value kind maximum in
  Ok value.

Definition QueueName_new : rstring -> result NameError rstring :=
  name_new (str "queue name") MAX_QUEUE_NAME_BYTES.
Definition ScheduleName_new : rstring -> result NameError rstring :=
  name_new (str "schedule name") MAX_TASK_NAME_BYTES.
Definition SignalName_new : rstring -> result NameError rstring :=
  name_new (str "signal name") MAX_TASK_NAME_BYTES.
Definition StepName_new : rstring -> result NameError rstring :=
  name_new (str "step name") MAX_TASK_NAME_BYTES.
Definition TaskName_new : rstring -> result NameError rstring :=
  name_new (str "task name") MAX_TASK_NAME_BYTES.

(** [impl Default for QueueName]. *)
Definition QueueName_default : rstring := str "default".

(** [HandlerVersion] wraps a [NonZeroU32]; its default is [NonZeroU32::MIN]. *)
Definition HandlerVersion_default : Z := 1.
Definition wf_handler_version (v : Z) : Prop := 1 <= v <= u32_max.

(** The invariant of a validated name. *)
Definition wf_name (maximum : Z) (value : rstring) : Prop :=
  value <> [] /\ str_len value <= maximum /\ Forall (fun c => name_char c = true) value.

(** The check PostgreSQL makes of the same column,
    [name <> '' AND octet_length(name) <= n AND name ~ '^[A-Za-z0-9._:-]+$']. *)
Definition sql_name_char (c : char) : bool :=
  ((65 <=? c) && (c <=? 90)) || ((97 <=? c) && (c <=? 122)) || ((48 <=? c) && (c <=? 57))
  || (c =? 46) || (c =? 95) || (c =? 58) || (c =? 45).
Definition sql_name_check (maximum : Z) (name : rstring) : bool :=
  negb (bool_decide (name = [])) && (str_len name <=? maximum)
  && (negb (bool_decide (name = [])) && forallb sql_name_char name).

Lemma find_none_Forall {A} (p : A -> bool) l :
  find (fun x => negb (p x)) l = None <-> Forall (fun x => p x = true) l.
Proof.
  induction l as [|a l IH]; simpl; [done|]. rewrite Forall_cons.
  destruct (p a); simpl; naive_solver.
Qed.

Lemma validate_name_ok value kind maximum :
  validate_name value kind maximum = Ok tt <-> wf_name maximum value.
Proof.
  unfold validate_name, wf_name. case_bool_decide; [naive_solver|].
  case_Z; [split; [done | intros (?&?&?); lia]|].
  destruct (find _ _) eqn:E.
  - split; [done|]. intros (_&_&HF). apply find_none_Forall in HF. congruence.
  - apply find_none_Forall in E. naive_solver.
Qed.

Lemma name_new_ok kind maximum value n :
  name_new kind maximum value = Ok n <-> n = value /\ wf_name maximum value.
Proof.
  unfold name_new. rewrite <- (validate_name_ok value kind maximum).
  destruct (validate_name value kind maximum) as [[]|e]; cbn; naive_solver.
Qed.

Lemma name_char_sql c : name_char c = sql_name_char c.
Proof.
  unfold name_char, sql_name_char, is_ascii_alphanumeric.
  destruct (_ && _), (_ && _), (_ && _); done.
Qed.

Lemma sql_name_accepted kind maximum value :
  sql_name_check maximum value = true <-> name_new kind maximum value = Ok value.
Proof.
  rewrite name_new_ok. unfold wf_name, sql_name_check.
  rewrite !andb_true_iff, negb_true_iff, bool_decide_eq_false, Z.leb_le, forallb_forall.
  rewrite Forall_forall. setoid_rewrite list_elem_of_In.
  setoid_rewrite name_char_sql. tauto.
Qed.

(** A name type accepts a text exactly when the CHECK constraint of
    the PostgreSQL column it is stored in accepts it, so a name validated in
    Rust is never rejected by the schema and a name read back from the schema
    always converts; and the accepted name is the text itself. *)
Theorem name_new_agrees_with_schema kind maximum value :
  (is_ok (name_new kind maximum value) = true <-> sql_name_check maximum value = true) /\
  (forall n, name_new kind maximum value = Ok n -> n = value).
Proof.
  rewrite (sql_name_accepted kind). split.
  - destruct (name_new kind maximum value) as [n|] eqn:E; [|done].
    apply name_new_ok in E as [-> _]. done.
  - by intros n [-> _]%name_new_ok.
Qed.

(** Which error a rejected name gets: empty first, then too long
    with the byte length, then the first unsupported character, and the
    character reported is the first one of the text that is not allowed. *)
Lemma validate_name_error value kind maximum e :
  validate_name value kind maximum = Err e ->
  match e with
  | Empty k => k = kind /\ value = []
  | TooLong k m a => k = kind /\ m = maximum /\ a = str_len value /\ maximum < str_len value /\ value <> []
  | UnsupportedCharacter k c =>
      k = kind /\ str_len value <= maximum /\
      exists before after, value = before ++ c :: after /\ name_char c = false /\
        Forall (fun d => name_char d = true) before
  end.
Proof.
  unfold validate_name. case_bool_decide; [intros; ok_inv; naive_solver|].
  case_Z; [intros; ok_inv; naive_solver|].
  destruct (find _ _) as [c|] eqn:E; intros Hx; ok_inv.
  split; [done|]. split; [done|]. clear -E.
  induction value as [|d value IH]; simpl in E; [done|].
  destruct (name_char d) eqn:Hd; simpl in E.
  - destruct (IH E) as (b & a & -> & ? & ?). exists (d :: b), a. auto.
  - injection E as ->. exists [], value. auto.
Qed.
