(* ===== verification/Json.v ===== *)
(** JSON values: the [serde_json::Value] the program passes around.

    [serde_json] is used with its default features: an object is a
    [BTreeMap<String, Value>], so its entries are kept in key order and an
    insertion replaces.  A number is known to the program only by its printed
    form ([number.to_string()]), so that text is what the model keeps. *)

From S2P Require Import Prelude Text.

Inductive Value : Type :=
| VNull
| VBool (b : bool)
| VNumber (rendered : rstring)
| VString (text : rstring)
| VArray (items : list Value)
| VObject (fields : list (rstring * Value)).

(** Induction through the nested lists. *)
Section ValueInd.
Context (P : Value -> Prop).
Context (HNull : P VNull) (HBool : forall b, P (VBool b)) (HNumber : forall n, P (VNumber n))
  (HString : forall s, P (VString s))
  (HArray : forall l, Forall P l -> P (VArray l))
  (HObject : forall m, Forall (fun kv => P kv.2) m -> P (VObject m)).

Fixpoint Value_nested_ind (v : Value) : P v :=
  match v with
  | VNull => HNull
  | VBool b => HBool b
  | VNumber n => HNumber n
  | VString s => HString s
  | VArray l =>
      HArray l ((fix go l : Forall P l :=
        match l with
        | [] => List.Forall_nil _
        | x :: l' => List.Forall_cons _ _ _ (Value_nested_ind x) (go l')
        end) l)
  | VObject m =>
      HObject m ((fix go m : Forall (fun kv => P kv.2) m :=
        match m with
        | [] => List.Forall_nil _
        | (k, x) :: m' => List.Forall_cons (fun kv => P kv.2) (k, x) _ (Value_nested_ind x) (go m')
        end) m)
  end.
End ValueInd.

(** ** Objects as ordered maps *)

Fixpoint map_get (k : rstring) (m : list (rstring * Value)) : option Value :=
  match m with
  | [] => None
  | (k', v) :: m' => if bool_decide (k' = k) then Some v else map_get k m'
  end.

Fixpoint map_insert (k : rstring) (v : Value) (m : list (rstring * Value)) : list (rstring * Value) :=
  match m with
  | [] => [(k, v)]
  | (k', v') :: m' =>
      match str_compare k k' with
      | Lt => (k, v) :: m
      | Eq => (k, v) :: m'
      | Gt => (k', v') :: map_insert k v m'
      end
  end.

(** [collect::<Map<_, _>>()]: later entries replace earlier ones. *)
Definition map_collect (l : list (rstring * Value)) : list (rstring * Value) :=
  foldl (fun m kv => map_insert kv.1 kv.2 m) [] l.

(** [Value::get] on a key, [Value::as_str], [Value::is_boolean], [Value::as_object]. *)
Definition value_get (k : rstring) (v : Value) : option Value :=
  match v with VObject m => map_get k m | _ => None end.
Definition as_str (v : Value) : option rstring :=
  match v with VString s => Some s | _ => None end.
Definition is_boolean (v : Value) : bool :=
  match v with VBool _ => true | _ => false end.
Definition as_object (v : Value) : option (list (rstring * Value)) :=
  match v with VObject m => Some m | _ => None end.

(** The decimal text of a nonnegative integer, as [json!(n)] prints it. *)
Fixpoint digits_fuel (fuel : nat) (n : Z) (acc : rstring) : rstring :=
  match fuel with
  | O => acc
  | S f => let acc' := (48 + n mod 10) :: acc in
           if n <? 10 then acc' else digits_fuel f (n / 10) acc'
  end.
Definition decimal (n : Z) : rstring := digits_fuel (S (Z.to_nat (Z.log2 n))) n [].

Definition json_number (n : Z) : Value := VNumber (decimal n).

(** ** Lemmas *)

Lemma map_get_insert k v m : map_get k (map_insert k v m) = Some v.
Proof.
  induction m as [|[k' v'] m IH]; simpl; [by rewrite bool_decide_true|].
  destruct (str_compare k k') eqn:E; simpl.
  - by rewrite bool_decide_true.
  - by rewrite bool_decide_true.
  - rewrite bool_decide_false; [done|]. intros ->.
    by rewrite (proj2 (str_compare_eq k k)) in E.
Qed.

Lemma map_get_insert_ne k k' v m : k <> k' -> map_get k' (map_insert k v m) = map_get k' m.
Proof.
  intros Hne. induction m as [|[k2 v2] m IH]; simpl; [by rewrite bool_decide_false|].
  destruct (str_compare k k2) eqn:E; simpl.
  - apply str_compare_eq in E as ->. by rewrite !bool_decide_false.
  - by rewrite (bool_decide_false (k = k')).
  - by rewrite IH.
Qed.

Lemma map_insert_Forall (Q : rstring * Value -> Prop) k v m :
  Q (k, v) -> Forall Q m -> Forall Q (map_insert k v m).
Proof.
  intros Hkv. induction 1 as [|[k' v'] m HQ HF IH]; simpl; [by constructor|].
  destruct (str_compare k k'); repeat constructor; auto.
Qed.

Lemma map_collect_Forall (Q : rstring * Value -> Prop) l : Forall Q l -> Forall Q (map_collect l).
Proof.
  unfold map_collect. intros H. assert (Hnil : Forall Q []) by constructor. revert Hnil.
  generalize (@nil (rstring * Value)) as m.
  induction H as [|[k v] l HQ HF IH]; intros m Hm; simpl; [done|].
  apply IH. by apply map_insert_Forall.
Qed.

Lemma digits_fuel_S f n acc :
  digits_fuel (S f) n acc =
  if n <? 10 then (48 + n mod 10) :: acc else digits_fuel f (n / 10) ((48 + n mod 10) :: acc).
Proof. done. Qed.

Lemma digits_fuel_len f n acc :
  0 <= n < 10 ^ Z.of_nat (S f) -> str_len (digits_fuel (S f) n acc) <= Z.of_nat (S f) + str_len acc.
Proof.
  revert n acc. induction f as [|f IH]; intros n acc Hn; rewrite digits_fuel_S.
  all: pose proof (Z.mod_pos_bound n 10); assert (Hc : len_utf8 (48 + n mod 10) = 1)
    by (unfold len_utf8; case_Z; lia).
  - case_Z; [rewrite str_len_cons; lia | simpl in Hn; lia].
  - case_Z; [rewrite str_len_cons; lia|].
    rewrite Nat2Z.inj_succ, Z.pow_succ_r in Hn by lia.
    etransitivity; [apply IH | rewrite str_len_cons; lia].
    split; [apply Z.div_pos | apply Z.div_lt_upper_bound]; lia.
Qed.

Lemma digits_fuel_more f g n acc :
  0 <= n < 10 ^ Z.of_nat (S f) -> (f <= g)%nat -> digits_fuel (S g) n acc = digits_fuel (S f) n acc.
Proof.
  revert g n acc. induction f as [|f IH]; intros g n acc Hn Hg; rewrite !digits_fuel_S.
  - case_Z; [done | simpl in Hn; lia].
  - case_Z; [done|]. destruct g as [|g]; [lia|]. apply IH; [|lia].
    rewrite Nat2Z.inj_succ, Z.pow_succ_r in Hn by lia.
    split; [apply Z.div_pos | apply Z.div_lt_upper_bound]; lia.
Qed.

(** The fuel of [decimal] covers every digit. *)
Lemma decimal_fuel n : 0 <= n -> n < 10 ^ Z.of_nat (S (Z.to_nat (Z.log2 n))).
Proof.
  intros Hn. rewrite Nat2Z.inj_succ, Z2Nat.id by apply Z.log2_nonneg.
  destruct (decide (n = 0)) as [->|]; [vm_compute; done|].
  destruct (Z.log2_spec n) as [_ Hs]; [lia|]. eapply Z.lt_le_trans; [exact Hs|].
  apply Z.pow_le_mono_l. lia.
Qed.

(** A [usize] prints in at most twenty digits. *)
Lemma decimal_len n : 0 <= n <= u64_max -> str_len (decimal n) <= 20.
Proof.
  intros Hn. pose proof (decimal_fuel n ltac:(lia)) as Hf. unfold decimal, u64_max in *.
  set (k := Z.to_nat (Z.log2 n)) in *. destruct (decide (k <= 19)%nat).
  - pose proof (digits_fuel_len k n [] ltac:(lia)). change (str_len []) with 0 in *. lia.
  - rewrite (digits_fuel_more 19 k) by lia. apply (digits_fuel_len 19 n []). lia.
Qed.

Lemma decimal_digits n : 0 <= n -> Forall (fun c => 48 <= c <= 57) (decimal n).
Proof.
  intros Hn. unfold decimal. generalize (S (Z.to_nat (Z.log2 n))) as f. intros f.
  assert (Forall (fun c => 48 <= c <= 57) (@nil Z)) as Hacc by constructor. revert Hacc.
  generalize (@nil Z) as acc. revert n Hn. induction f as [|f IH]; intros n Hn acc Hacc; [done|].
  rewrite digits_fuel_S. pose proof (Z.mod_pos_bound n 10).
  case_Z; [constructor; [lia|done]|]. apply IH; [apply Z.div_pos; lia|]. constructor; [lia|done].
Qed.

(** ** Equality of JSON values, numbers by their text *)

Fixpoint value_eqb (v w : Value) : bool :=
  match v, w with
  | VNull, VNull => true
  | VBool a, VBool b => Bool.eqb a b
  | VNumber a, VNumber b | VString a, VString b => bool_decide (a = b)
  | VArray l, VArray k =>
      (fix go l k := match l, k with
                     | [], [] => true
                     | a :: l', b :: k' => value_eqb a b && go l' k'
                     | _, _ => false
                     end) l k
  | VObject l, VObject k =>
      (fix go l k := match l, k with
                     | [], [] => true
                     | (i, a) :: l', (j, b) :: k' => bool_decide (i = j) && value_eqb a b && go l' k'
                     | _, _ => false
                     end) l k
  | _, _ => false
  end.
