(* ===== verification/Retry.v ===== *)
(** Retry policies: [pgtask-core/src/retry.rs].

    [rand::rng().random_range(0..=n)] is an argument, [random_range n]; what
    the code relies on is that the sample lies in the range. *)

From S2P Require Import Prelude Text.

Inductive RetryPolicy : Type :=
| Never
| Fixed (delay : Z)
| Exponential (base_delay factor max_delay : Z).

Global Instance RetryPolicy_eq_dec : EqDecision RetryPolicy.
Proof. solve_decision. Defined.

(** What the field types guarantee. *)
Definition wf_policy (p : RetryPolicy) : Prop :=
  match p with
  | Never => True
  | Fixed delay => wf_duration delay
  | Exponential base_delay factor max_delay =>
      wf_duration base_delay /\ 0 <= factor <= u32_max /\ wf_duration max_delay
  end.

(** [impl Default for RetryPolicy]. *)
Definition RetryPolicy_default : RetryPolicy := Exponential (from_secs 1) 2 (from_mins 1).

(** The [ceiling_nanos] of the exponential branch of [delay_for]. *)
Definition ceiling_nanos (base_delay factor max_delay attempt : Z) : Z :=
  let multiplier := u32_saturating_pow factor (u16_saturating_sub attempt 1) in
  let ceiling := Z.min (duration_saturating_mul base_delay multiplier) max_delay in
  default u64_max (try_u64 ceiling).

Definition delay_for (random_range : Z -> Z) (p : RetryPolicy) (attempt : Z) : option Z :=
  match p with
  | Never => None
  | Fixed delay => Some delay
  | Exponential base_delay factor max_delay =>
      Some (from_nanos (random_range (ceiling_nanos base_delay factor max_delay attempt)))
  end.

(** ** Properties *)

Section RetryProofs.
Context (random_range : Z -> Z).
(** [random_range(0..=n)] yields a value of the range. *)
Hypothesis random_range_in : forall n, 0 <= n -> 0 <= random_range n <= n.

Lemma u32_saturating_pow_bounds b e : 0 <= b -> 0 <= u32_saturating_pow b e <= u32_max.
Proof.
  intros Hb. unfold u32_saturating_pow. pose proof (Z.pow_nonneg b e Hb). unfold u32_max. lia.
Qed.

(** The ceiling in closed form: neither the conversion to nanoseconds nor the
    saturation of the product can lower it below what the policy asks for. *)
Lemma ceiling_nanos_eq base factor max attempt :
  wf_policy (Exponential base factor max) -> 1 <= attempt <= u16_max ->
  ceiling_nanos base factor max attempt =
    Z.min (Z.min (base * Z.min (factor ^ (attempt - 1)) u32_max) max) u64_max.
Proof.
  intros (Hb & Hf & Hm) Ha. unfold ceiling_nanos, u16_saturating_sub, wf_duration in *.
  rewrite (saturate_id 0 u16_max (attempt - 1)) by lia.
  pose proof (u32_saturating_pow_bounds factor (attempt - 1) ltac:(lia)).
  unfold duration_saturating_mul. unfold u32_saturating_pow in *.
  set (m := Z.min (factor ^ (attempt - 1)) u32_max) in *.
  assert (0 <= base * m) by nia.
  replace (Z.min (Z.min (base * m) duration_max) max) with (Z.min (base * m) max) by lia.
  destruct (try_u64 (Z.min (base * m) max)) eqn:E.
  - apply try_from_inv in E as [-> ?]. simpl. lia.
  - apply try_from_None in E. simpl. lia.
Qed.

(** Exponential backoff is bounded: every delay is at most
    [base_delay * factor^(attempt - 1)] and at most [max_delay], for every
    attempt a [u16] can count, whatever saturates on the way. *)
Theorem delay_for_exponential_bounded base factor max attempt :
  wf_policy (Exponential base factor max) -> 1 <= attempt <= u16_max ->
  exists d, delay_for random_range (Exponential base factor max) attempt = Some d /\
    0 <= d <= max /\ d <= base * factor ^ (attempt - 1).
Proof using random_range_in.
  intros Hwf Ha. simpl. eexists. split; [reflexivity|]. unfold from_nanos.
  rewrite ceiling_nanos_eq by done. destruct Hwf as (Hb & Hf & Hm). unfold wf_duration in *.
  pose proof (Z.pow_nonneg factor (attempt - 1) ltac:(lia)).
  set (m := Z.min (factor ^ (attempt - 1)) u32_max).
  assert (0 <= m <= factor ^ (attempt - 1)) by (unfold m, u32_max; lia).
  assert (base * m <= base * factor ^ (attempt - 1)) by nia. assert (0 <= base * m) by nia.
  assert (0 <= u64_max) by (unfold u64_max; lia).
  pose proof (random_range_in (Z.min (Z.min (base * m) max) u64_max)). lia.
Qed.

(** The ceiling never shrinks from one attempt to the next, and
    it is exactly [max_delay] as soon as the saturated product reaches it
    (for every [max_delay] that fits in nanoseconds, about 584 years). *)
Theorem ceiling_nanos_monotone base factor max attempt :
  wf_policy (Exponential base factor max) -> 1 <= factor -> 1 <= attempt < u16_max ->
  ceiling_nanos base factor max attempt <= ceiling_nanos base factor max (attempt + 1) /\
  (max <= u64_max -> max <= base * Z.min (factor ^ (attempt - 1)) u32_max ->
   ceiling_nanos base factor max attempt = max).
Proof.
  intros Hwf Hf1 Ha. rewrite !ceiling_nanos_eq by (done || lia).
  destruct Hwf as (Hb & Hf & Hm). unfold wf_duration in *. split; [|lia].
  replace (attempt + 1 - 1) with (Z.succ (attempt - 1)) by lia. rewrite Z.pow_succ_r by lia.
  pose proof (Z.pow_pos_nonneg factor (attempt - 1) ltac:(lia) ltac:(lia)).
  assert (Z.min (factor ^ (attempt - 1)) u32_max
          <= Z.min (factor * factor ^ (attempt - 1)) u32_max) by nia.
  assert (base * Z.min (factor ^ (attempt - 1)) u32_max
          <= base * Z.min (factor * factor ^ (attempt - 1)) u32_max) by nia. lia.
Qed.
End RetryProofs.

Lemma delay_for_exponential_bounded_witness :
  exists d, delay_for (fun n => n) RetryPolicy_default 9 = Some d /\
    0 <= d <= from_mins 1 /\ d <= from_secs 1 * 2 ^ (9 - 1).
Proof.
  apply (delay_for_exponential_bounded (fun n => n)).
  - intros n Hn. lia.
  - vm_compute. repeat split; discriminate.
  - vm_compute. split; discriminate.
Defined.

Lemma ceiling_nanos_monotone_witness :
  ceiling_nanos (from_secs 1) 2 (from_mins 1) 9 <= ceiling_nanos (from_secs 1) 2 (from_mins 1) (9 + 1) /\
  (from_mins 1 <= u64_max -> from_mins 1 <= from_secs 1 * Z.min (2 ^ (9 - 1)) u32_max ->
   ceiling_nanos (from_secs 1) 2 (from_mins 1) 9 = from_mins 1).
Proof.
  apply (ceiling_nanos_monotone (from_secs 1) 2 (from_mins 1) 9).
  - vm_compute. repeat split; discriminate.
  - vm_compute. discriminate.
  - vm_compute. split; [discriminate | reflexivity].
Defined.
