(* ===== verification/TaskTypes.v ===== *)
(** The domain types of [pgtask-core]: [task.rs] and the protocol range of
    [lib.rs].  A [DateTime<Utc>] is a number of nanoseconds since the epoch, a
    [Uuid] the 128-bit number it is, and an [Option<NonZeroU64>] an option. *)

From S2P Require Import Prelude Text Identifier Json Retry.

Abbreviation time := Z (only parsing).
Abbreviation uuid := Z (only parsing).

(** ** Queues *)

Record QueueConfig := {
  qc_name : rstring;
  qc_terminal_retention : Z;
  qc_idempotency_retention : Z;
  qc_max_outstanding_tasks : option Z;
  qc_starvation_timeout : Z;
}.

Definition QueueConfig_new (name : rstring) : QueueConfig := {|
  qc_name := name;
  qc_terminal_retention := from_hours (7 * 24);
  qc_idempotency_retention := from_hours (30 * 24);
  qc_max_outstanding_tasks := None;
  qc_starvation_timeout := from_mins 5;
|}.

Record Queue := {
  q_name : rstring;
  q_terminal_retention : Z;
  q_idempotency_retention : Z;
  q_max_outstanding_tasks : option Z;
  q_starvation_timeout : Z;
  q_paused_at : option time;
  q_created_at : time;
  q_updated_at : time;
}.

(** ** Leases, workers, checkpoints and signals *)

Record LeaseRenewal := {
  lr_task_id : uuid;
  lr_attempt : Z;
  lr_lease_token : uuid;
}.

Global Instance LeaseRenewal_eq_dec : EqDecision LeaseRenewal.
Proof. solve_decision. Defined.

Record WorkerRecord := {
  wr_id : uuid;
  wr_queue_name : rstring;
  wr_version : rstring;
  wr_draining : bool;
  wr_started_at : time;
  wr_heartbeat_at : time;
  wr_expires_at : time;
  wr_capabilities : list (rstring * Z);
}.

Record Checkpoint := {
  cp_task_id : uuid;
  cp_handler_version : Z;
  cp_step_name : rstring;
  cp_occurrence : Z;
  cp_value : Value;
  cp_created_at : time;
}.

Record Signal := {
  sg_task_id : uuid;
  sg_name : rstring;
  sg_occurrence : Z;
  sg_value : Value;
  sg_created_at : time;
}.

(** ** Task states *)

Inductive TaskState : Type :=
| Pending
| Running
| Waiting
| Succeeded
| Failed
| Cancelled.

Global Instance TaskState_eq_dec : EqDecision TaskState.
Proof. solve_decision. Defined.

Definition state_as_str (s : TaskState) : rstring :=
  match s with
  | Pending => str "pending"
  | Running => str "running"
  | Waiting => str "waiting"
  | Succeeded => str "succeeded"
  | Failed => str "failed"
  | Cancelled => str "cancelled"
  end.

Definition is_terminal (s : TaskState) : bool :=
  match s with Succeeded | Failed | Cancelled => true | _ => false end.

Record TaskResult := {
  tr_state : TaskState;
  tr_result : option Value;
  tr_error : option Value;
  tr_completed_at : option time;
}.

(** ** Requests and tasks *)

Record EnqueueRequest := {
  er_task_name : rstring;
  er_handler_version : Z;
  er_payload : Value;
  er_queue_name : rstring;
  er_run_at : option time;
  er_priority : Z;
  er_max_attempts : Z;
  er_idempotency_key : option rstring;
  er_headers : list (rstring * Value);
}.

Definition EnqueueRequest_new (task_name : rstring) (payload : Value) : EnqueueRequest := {|
  er_task_name := task_name;
  er_handler_version := HandlerVersion_default;
  er_payload := payload;
  er_queue_name := QueueName_default;
  er_run_at := None;
  er_priority := 0;
  er_max_attempts := 5;
  er_idempotency_key := None;
  er_headers := [];
|}.

Record EnqueueResult := {
  eres_task_id : uuid;
  eres_created : bool;
}.

Record Task := {
  t_id : uuid;
  t_parent_task_id : option uuid;
  t_queue_name : rstring;
  t_task_name : rstring;
  t_handler_version : Z;
  t_payload : Value;
  t_headers : list (rstring * Value);
  t_state : TaskState;
  t_priority : Z;
  t_run_at : time;
  t_attempt : Z;
  t_failed_attempts : Z;
  t_max_attempts : Z;
  t_retry_policy : option RetryPolicy;
  t_lease_token : option uuid;
  t_lease_owner : option uuid;
  t_lease_expires_at : option time;
  t_created_at : time;
  t_updated_at : time;
  t_completed_at : option time;
  t_result : option Value;
  t_error : option Value;
}.

(** ** Storage protocol ranges *)

Record StorageProtocolRange := { minimum : Z; maximum : Z }.

Definition StorageProtocolRange_new (minimum maximum : Z) : option StorageProtocolRange :=
  if (minimum =? 0) || (maximum <? minimum) then None
  else Some {| minimum := minimum; maximum := maximum |}.

Definition overlaps (self other : StorageProtocolRange) : bool :=
  (minimum self <=? maximum other) && (minimum other <=? maximum self).

Definition STORAGE_PROTOCOL_RANGE : StorageProtocolRange := {| minimum := 1; maximum := 2 |}.
(** The worker crate's own range, [pgtask-worker/src/lib.rs]. *)
Definition WORKER_STORAGE_PROTOCOL_RANGE : StorageProtocolRange := {| minimum := 2; maximum := 2 |}.

Definition wf_range (r : StorageProtocolRange) : Prop :=
  1 <= minimum r <= maximum r /\ maximum r <= u32_max.

(** A version both sides speak. *)
Definition speaks (r : StorageProtocolRange) (v : Z) : Prop := minimum r <= v <= maximum r.

(** Two ranges [StorageProtocolRange::new] accepts overlap exactly
    when some protocol version lies in both, so a connection is refused only
    when client and database share no version. *)
Theorem overlaps_iff_shared_version a1 a2 b1 b2 r s :
  StorageProtocolRange_new a1 a2 = Some r -> StorageProtocolRange_new b1 b2 = Some s ->
  (overlaps r s = true <-> exists v, speaks r v /\ speaks s v).
Proof.
  unfold StorageProtocolRange_new, overlaps, speaks.
  destruct ((a1 =? 0) || (a2 <? a1)) eqn:Ea; [done|].
  destruct ((b1 =? 0) || (b2 <? b1)) eqn:Eb; [done|].
  intros [= <-] [= <-]. simpl. apply orb_false_iff in Ea as [_ Ea], Eb as [_ Eb].
  rewrite andb_true_iff, !Z.leb_le. split.
  - intros [? ?]. exists (Z.max a1 b1). lia.
  - intros (v & ? & ?). lia.
Qed.

Lemma overlaps_iff_shared_version_witness :
  overlaps STORAGE_PROTOCOL_RANGE WORKER_STORAGE_PROTOCOL_RANGE = true <->
  exists v, speaks STORAGE_PROTOCOL_RANGE v /\ speaks WORKER_STORAGE_PROTOCOL_RANGE v.
Proof.
  apply (overlaps_iff_shared_version 1 2 2 2); vm_compute; reflexivity.
Defined.
