(* ===== verification/Chrono.v ===== *)
(** The parts of the [chrono] and [cron] crates the program calls, as
    interfaces: the operations are parameters, and the laws are the documented
    behaviour the code relies on.

    A [DateTime<Utc>] and a [TimeDelta] are numbers of nanoseconds. *)

From S2P Require Import Prelude Text.

(** ** [chrono] *)

Class ChronoOps := {
  (** [DateTime::checked_add_signed]. *)
  checked_add_signed : Z -> Z -> option Z;
  (** [TimeDelta::from_std]. *)
  delta_from_std : Z -> option Z;
  (** [TimeDelta::num_milliseconds]. *)
  num_milliseconds : Z -> Z;
  (** [DateTime::timestamp]: whole seconds. *)
  timestamp : Z -> Z;
  (** [DateTime::from_timestamp(secs, 0)]. *)
  from_timestamp : Z -> option Z;
}.

Class ChronoLaws (C : ChronoOps) := {
  (** The representable dates, [MIN_UTC] to [MAX_UTC]. *)
  date_min : Z;
  date_max : Z;
  (** About 262 thousand years around the epoch. *)
  date_bounds : - (10 ^ 13 * NANOS_PER_SEC) <= date_min /\ date_max <= 10 ^ 13 * NANOS_PER_SEC;
  checked_add_signed_spec t d :
    checked_add_signed t d = if in_range date_min date_max (t + d) then Some (t + d) else None;
  (** [TimeDelta::MAX] is [i64::MAX] milliseconds. *)
  delta_from_std_spec d :
    0 <= d -> delta_from_std d = if d <=? i64_max * NANOS_PER_MILLI then Some d else None;
  num_milliseconds_spec d : num_milliseconds d = Z.quot d NANOS_PER_MILLI;
  timestamp_spec t : timestamp t = t / NANOS_PER_SEC;
  from_timestamp_spec s :
    from_timestamp s =
      if in_range date_min date_max (s * NANOS_PER_SEC) then Some (s * NANOS_PER_SEC) else None;
}.

Definition in_date_range {C} `{!ChronoLaws C} (t : Z) : Prop := date_min <= t <= date_max.

(** ** [cron] *)

Class CronOps := {
  CronSchedule : Type;
  (** [CronSchedule::from_str], with the text of its error. *)
  cron_from_str : list Z -> result (list Z) CronSchedule;
  (** [schedule.after(&t).next()]. *)
  cron_after : CronSchedule -> Z -> option Z;
}.

Class CronLaws (K : CronOps) := {
  (** The next occurrence is strictly later, on a whole second. *)
  cron_after_gt c t o : cron_after c t = Some o -> t < o;
  cron_after_second c t o : cron_after c t = Some o -> o mod NANOS_PER_SEC = 0;
  (** It is the first one: it stays the answer until it is reached. *)
  cron_after_first c t u o : cron_after c t = Some o -> t <= u < o -> cron_after c u = Some o;
  (** A schedule that has run out stays run out. *)
  cron_after_none c t u : cron_after c t = None -> t <= u -> cron_after c u = None;
}.

(** ** A concrete instance of both, for witnesses

    Dates range over the years [chrono] documents; every cron expression is
    "every minute", which the laws allow. *)

#[export] Instance utc_ops : ChronoOps := {|
  checked_add_signed t d :=
    if in_range (-8334601228800 * NANOS_PER_SEC) (8210266876799 * NANOS_PER_SEC + 999999999) (t + d)
    then Some (t + d) else None;
  delta_from_std d := if d <=? i64_max * NANOS_PER_MILLI then Some d else None;
  num_milliseconds d := Z.quot d NANOS_PER_MILLI;
  timestamp t := t / NANOS_PER_SEC;
  from_timestamp s :=
    if in_range (-8334601228800 * NANOS_PER_SEC) (8210266876799 * NANOS_PER_SEC + 999999999)
         (s * NANOS_PER_SEC)
    then Some (s * NANOS_PER_SEC) else None;
|}.

#[export] Instance utc_laws : ChronoLaws utc_ops.
Proof.
  refine {| date_min := -8334601228800 * NANOS_PER_SEC;
            date_max := 8210266876799 * NANOS_PER_SEC + 999999999 |}; try reflexivity.
  vm_compute. split; discriminate.
Defined.

Definition MINUTE : Z := 60000000000.

#[export] Instance minutely_ops : CronOps := {|
  CronSchedule := unit;
  cron_from_str _ := Ok tt;
  cron_after _ t := Some ((t / MINUTE + 1) * MINUTE);
|}.

#[export] Instance minutely_laws : CronLaws minutely_ops.
Proof.
  constructor; simpl; unfold MINUTE, NANOS_PER_SEC in *.
  - intros [] t o [= <-]. pose proof (Z.mod_pos_bound t 60000000000).
    pose proof (Z.div_mod t 60000000000). lia.
  - intros [] t o [= <-].
    replace (_ * 60000000000) with ((t / 60000000000 + 1) * 60 * 1000000000) by lia.
    apply Z.mod_mul. lia.
  - intros [] t u o [= <-] Hu. do 3 f_equal.
    pose proof (Z.mod_pos_bound t 60000000000). pose proof (Z.div_mod t 60000000000).
    symmetry. apply (Z.div_unique _ _ _ (u - t / 60000000000 * 60000000000)); lia.
  - done.
Qed.
