(* ===== verification/Schedule.v ===== *)
(** Recurring schedules: [pgtask-core/src/schedule.rs].

    The definitions are the source's, over the [chrono] and [cron] interfaces
    of [Chrono].  The loops that are capped in the source recurse on what is
    left of the cap; the binary search of [latest_due] has fuel for every
    second between its bounds, which [latest_search_spec] shows is enough.

    The abstract specification is [due_from]: the list of occurrences from the
    cursor up to now, one [next_after] at a time.  [materialize_refines] shows
    that every misfire policy is a selection from that list. *)

From S2P Require Import Prelude Text Identifier Json TaskTypes Chrono.

Inductive ScheduleDefinition : Type :=
| Interval (every : Z)
| Cron (expression : rstring).

Inductive MisfirePolicy : Type :=
| Skip
| Latest
| CatchUp (limit : Z).

Definition MisfirePolicy_default : MisfirePolicy := Latest.

Inductive ScheduleError : Type :=
| ZeroInterval
| UnsupportedIntervalPrecision
| IntervalOutOfRange
| InvalidCronFieldCount
| InvalidCron (message : rstring)
| NoFutureOccurrence
| DateOutOfRange.

Record Materialization := {
  m_occurrences : list time;
  m_next_run_at : time;
  m_skipped : Z;
}.

Record ScheduleConfig := {
  sc_id : uuid;
  sc_name : rstring;
  sc_definition : ScheduleDefinition;
  sc_misfire_policy : MisfirePolicy;
  sc_task : EnqueueRequest;
  sc_start_at : option time;
}.

(** [ScheduleConfig::new]; the fresh [ScheduleId::new()] is the argument [id]. *)
Definition ScheduleConfig_new (id : uuid) (name : rstring) (definition : ScheduleDefinition)
    (task : EnqueueRequest) : ScheduleConfig := {|
  sc_id := id;
  sc_name := name;
  sc_definition := definition;
  sc_misfire_policy := MisfirePolicy_default;
  sc_task := task;
  sc_start_at := None;
|}.

Record Schedule := {
  s_config : ScheduleConfig;
  s_next_run_at : time;
  s_paused_at : option time;
  s_created_at : time;
  s_updated_at : time;
}.

Definition DUE_COUNT_LIMIT : Z := 10000.

Definition interval_milliseconds (every : Z) : result ScheduleError Z :=
  if is_zero every then Err ZeroInterval
  else if negb (every mod 1000000 =? 0) then Err UnsupportedIntervalPrecision
  else ok_or IntervalOutOfRange (try_i64 (as_millis every)).

(** [char::is_whitespace]. *)
Definition is_whitespace (c : char) : bool :=
  ((9 <=? c) && (c <=? 13)) || (c =? 32) || (c =? 133) || (c =? 160) || (c =? 5760)
  || ((8192 <=? c) && (c <=? 8202)) || (c =? 8232) || (c =? 8233) || (c =? 8239)
  || (c =? 8287) || (c =? 12288).

(** [split_whitespace().count()]: the number of maximal runs of other characters. *)
Fixpoint count_fields (in_field : bool) (s : rstring) : Z :=
  match s with
  | [] => 0
  | c :: s' =>
      if is_whitespace c then count_fields false s'
      else (if in_field then 0 else 1) + count_fields true s'
  end.

Section Definitions.
Context {C : ChronoOps} {K : CronOps}.

Definition parse_cron (expression : rstring) : result ScheduleError CronSchedule :=
  if negb (count_fields false expression =? 6) then Err InvalidCronFieldCount
  else map_err InvalidCron (cron_from_str (expression ++ str " *")).

(** [ScheduleDefinition::interval]. *)
Definition interval (every : Z) : result ScheduleError ScheduleDefinition :=
  let? _ := interval_milliseconds every in
  let? _ := ok_or IntervalOutOfRange (delta_from_std every) in
  Ok (Interval every).

(** [ScheduleDefinition::cron]. *)
Definition cron (expression : rstring) : result ScheduleError ScheduleDefinition :=
  let? _ := parse_cron expression in
  Ok (Cron expression).

Definition next_after (self : ScheduleDefinition) (after : time) : result ScheduleError time :=
  match self with
  | Interval every =>
      let? delta := ok_or IntervalOutOfRange (delta_from_std every) in
      ok_or DateOutOfRange (checked_add_signed after delta)
  | Cron expression =>
      let? schedule := parse_cron expression in
      ok_or NoFutureOccurrence (cron_after schedule after)
  end.

(** The walk of the cron branch of [due_count], with [remaining] counts left
    before [DUE_COUNT_LIMIT]. *)
Fixpoint due_count_walk (self : ScheduleDefinition) (remaining : nat) (count : Z)
    (occurrence now : time) : result ScheduleError Z :=
  match remaining with
  | O => Ok count
  | S remaining' =>
      if occurrence <=? now
      then let? next := next_after self occurrence in
           due_count_walk self remaining' (count + 1) next now
      else Ok count
  end.

Definition due_count (self : ScheduleDefinition) (first_due now : time) : result ScheduleError Z :=
  match self with
  | Interval every =>
      let? every_milliseconds := interval_milliseconds every in
      let elapsed_milliseconds := Z.max (num_milliseconds (now - first_due)) 0 in
      Ok (default 0 (try_u64 (Z.quot elapsed_milliseconds every_milliseconds)) + 1)
  | Cron _ => due_count_walk self (Z.to_nat DUE_COUNT_LIMIT) 0 first_due now
  end.

(** The binary search of [latest_due] over whole seconds: the final [low]. *)
Fixpoint latest_search (fuel : nat) (schedule : CronSchedule) (now : time) (low high : Z)
    : result ScheduleError Z :=
  if low + 1 <? high then
    match fuel with
    | O => Ok low
    | S fuel' =>
        let middle := low + (high - low) / 2 in
        let? middle := ok_or DateOutOfRange (from_timestamp middle) in
        let? next := ok_or NoFutureOccurrence (cron_after schedule middle) in
        if next <=? now then latest_search fuel' schedule now (timestamp middle) high
        else latest_search fuel' schedule now low (timestamp middle)
    end
  else Ok low.

Definition latest_due (self : ScheduleDefinition) (first_due now : time)
    : result ScheduleError time :=
  match self with
  | Interval every =>
      let? every_milliseconds := interval_milliseconds every in
      let elapsed_milliseconds := num_milliseconds (now - first_due) in
      let intervals := Z.quot elapsed_milliseconds every_milliseconds in
      ok_or DateOutOfRange
        (checked_add_signed first_due (intervals * every_milliseconds * NANOS_PER_MILLI))
  | Cron expression =>
      let? schedule := parse_cron expression in
      let low := i64_saturating_sub (timestamp first_due) 1 in
      let high := i64_saturating_add (timestamp now) 1 in
      let? low := latest_search (Z.to_nat (high - low)) schedule now low high in
      let? low := ok_or DateOutOfRange (from_timestamp low) in
      ok_or NoFutureOccurrence
        (match cron_after schedule low with
         | Some occurrence => if occurrence <=? now then Some occurrence else None
         | None => None
         end)
  end.

(** The catch-up loop of [materialize], with [remaining] pushes left before
    the limit. *)
Fixpoint catch_up (self : ScheduleDefinition) (remaining : nat) (occurrence now : time)
    : result ScheduleError (list time) :=
  match remaining with
  | O => Ok []
  | S remaining' =>
      if occurrence <=? now
      then let? next := next_after self occurrence in
           let? rest := catch_up self remaining' next now in
           Ok (occurrence :: rest)
      else Ok []
  end.

Definition materialize (self : ScheduleDefinition) (next_run_at now : time)
    (policy : MisfirePolicy) : result ScheduleError Materialization :=
  if now <? next_run_at
  then Ok {| m_occurrences := []; m_next_run_at := next_run_at; m_skipped := 0 |}
  else
    let? occurrences :=
      match policy with
      | Skip => Ok [next_run_at]
      | Latest => let? latest := latest_due self next_run_at now in Ok [latest]
      | CatchUp limit => catch_up self (Z.to_nat limit) next_run_at now
      end in
    let? due := due_count self next_run_at now in
    let? next := next_after self now in
    Ok {| m_skipped := u64_saturating_sub due (len occurrences);
          m_occurrences := occurrences;
          m_next_run_at := next |}.
End Definitions.

(** ** Specification *)

Section Specification.
Context {C : ChronoOps} {K : CronOps}.

(** [due_from self now t l]: [l] is the chain of occurrences from the cursor
    [t] up to [now]. *)
Inductive due_from (self : ScheduleDefinition) (now : time) : time -> list time -> Prop :=
| due_stop t : now < t -> due_from self now t []
| due_more t t' l :
    t <= now -> next_after self t = Ok t' -> due_from self now t' l ->
    due_from self now t (t :: l).

(** What each misfire policy keeps of the due occurrences. *)
Definition select (policy : MisfirePolicy) (l : list time) : list time :=
  match policy with
  | Skip => take 1 l
  | Latest => match list.last l with Some t => [t] | None => [] end
  | CatchUp limit => take (Z.to_nat limit) l
  end.

(** How many of [n] due occurrences the definition counts. *)
Definition counted (self : ScheduleDefinition) (n : Z) : Z :=
  match self with Interval _ => n | Cron _ => Z.min n DUE_COUNT_LIMIT end.

(** The definition came out of [ScheduleDefinition::interval] or [::cron]. *)
Definition constructed (self : ScheduleDefinition) : Prop :=
  match self with
  | Interval every => 0 <= every /\ interval every = Ok self
  | Cron expression => cron expression = Ok self
  end.

(** The cursor is an occurrence of the definition: any instant of an interval,
    the answer of [next_after] one second earlier for cron. *)
Definition on_occurrence (self : ScheduleDefinition) (t : time) : Prop :=
  match self with
  | Interval _ => True
  | Cron _ => next_after self (t - NANOS_PER_SEC) = Ok t
  end.
End Specification.

Section Theory.
Context {C : ChronoOps} {CL : ChronoLaws C} {K : CronOps} {KL : CronLaws K}.
#[local] Set Default Proof Using "All".

Lemma next_after_interval every t :
  0 <= every -> every <= i64_max * NANOS_PER_MILLI ->
  next_after (Interval every) t =
    if in_range date_min date_max (t + every) then Ok (t + every) else Err DateOutOfRange.
Proof.
  intros ? ?. unfold next_after. rewrite delta_from_std_spec by lia.
  destruct (Z.leb_spec every (i64_max * NANOS_PER_MILLI)); [|lia]. cbn.
  rewrite checked_add_signed_spec. by destruct (in_range _ _ _).
Qed.

Lemma constructed_interval every :
  constructed (Interval every) ->
  0 < every <= i64_max * NANOS_PER_MILLI /\
  exists ms, 0 < ms /\ every = ms * NANOS_PER_MILLI /\ interval_milliseconds every = Ok ms.
Proof.
  intros [H0 H]. unfold interval in H.
  destruct (interval_milliseconds every) as [ms|] eqn:Hms; [|done]. cbn in H.
  rewrite delta_from_std_spec in H by done.
  destruct (Z.leb_spec every (i64_max * NANOS_PER_MILLI)); [|done].
  pose proof Hms as Hms'. revert Hms. unfold interval_milliseconds, is_zero.
  destruct (Z.eqb_spec every 0); [done|].
  destruct (Z.eqb_spec (every mod 1000000) 0) as [Hmod|]; [|done]. cbn [negb].
  intros [Hms ?]%ok_or_inv%try_from_inv. unfold as_millis, NANOS_PER_MILLI in *.
  pose proof (Z.div_mod every 1000000). split; [lia|]. exists ms. split_and!; [lia..|done].
Qed.

Lemma constructed_cron e :
  constructed (Cron e) -> exists c, parse_cron e = Ok c.
Proof. cbn. unfold cron. destruct (parse_cron e) as [c|]; [eauto|done]. Qed.

Lemma next_after_cron e c t t' :
  parse_cron e = Ok c -> (next_after (Cron e) t = Ok t' <-> cron_after c t = Some t').
Proof.
  intros Hc. unfold next_after. rewrite Hc. cbn.
  destruct (cron_after c t); cbn; split; congruence.
Qed.

(** While the schedule continues after [now], every earlier instant has a
    successor. *)
Lemma next_after_total self t now n :
  constructed self -> date_min <= t <= now -> next_after self now = Ok n ->
  exists t', next_after self t = Ok t' /\ t < t' <= n.
Proof.
  intros Hself Ht Hn. destruct self as [every|e].
  - destruct (constructed_interval _ Hself) as [Hev _].
    rewrite next_after_interval in * by lia. unfold in_range in *.
    exists (t + every).
    destruct (Z.leb_spec date_min (now + every)), (Z.leb_spec (now + every) date_max);
      try done. injection Hn as <-.
    destruct (Z.leb_spec date_min (t + every)), (Z.leb_spec (t + every) date_max);
      try lia. split; [done|lia].
  - destruct (constructed_cron _ Hself) as [c Hc].
    rewrite (next_after_cron _ _ _ _ Hc) in Hn.
    destruct (cron_after c t) as [t'|] eqn:Ht'.
    + exists t'. rewrite (next_after_cron _ _ _ _ Hc). pose proof (cron_after_gt _ _ _ Ht').
      split_and!; [done..|]. destruct (Z.le_gt_cases t' now) as [?|?].
      * pose proof (cron_after_gt _ _ _ Hn). lia.
      * rewrite (cron_after_first _ _ now _ Ht') in Hn by lia. injection Hn as ->. lia.
    + rewrite (cron_after_none _ _ now Ht') in Hn by lia. done.
Qed.

Lemma next_after_gt self t t' :
  constructed self -> next_after self t = Ok t' -> t < t'.
Proof.
  intros Hself H. destruct self as [every|e].
  - destruct (constructed_interval _ Hself) as [Hev _].
    rewrite next_after_interval in H by lia.
    destruct (in_range _ _ _); [|done]. injection H as <-. lia.
  - destruct (constructed_cron _ Hself) as [c Hc].
    apply (next_after_cron _ _ _ _ Hc) in H. by apply cron_after_gt in H.
Qed.

Lemma due_from_exists self t now n :
  constructed self -> date_min <= t -> next_after self now = Ok n ->
  exists l, due_from self now t l.
Proof.
  intros Hself. remember (Z.to_nat (now - t + 1)) as k eqn:Hk. revert t Hk.
  induction (lt_wf k) as [k _ IH]. intros t -> Ht Hn.
  destruct (Z.le_gt_cases t now) as [Hle|?]; [|exists []; constructor; lia].
  destruct (next_after_total self t now n) as (t' & Hnext & Ht'); [done|lia|done|].
  destruct (IH (Z.to_nat (now - t' + 1)) ltac:(lia) t' eq_refl ltac:(lia) Hn) as [l Hl].
  exists (t :: l). by econstructor.
Qed.

(** *** What the chain looks like *)

Lemma due_from_nil_iff self now t l : due_from self now t l -> (l = [] <-> now < t).
Proof. destruct 1; split; try done; lia. Qed.

Lemma due_from_bounds self now t l :
  constructed self -> due_from self now t l -> Forall (fun o => t <= o <= now) l.
Proof.
  intros Hself. induction 1 as [|t t' l Ht Hn Hl IH]; [constructor|].
  apply next_after_gt in Hn; [|done]. constructor; [lia|].
  eapply Forall_impl; [exact IH|]. cbn. lia.
Qed.

Lemma due_from_sorted self now t l :
  constructed self -> due_from self now t l -> StronglySorted Z.lt l.
Proof.
  intros Hself. induction 1 as [|t t' l Ht Hn Hl IH]; constructor; [done|].
  apply next_after_gt in Hn; [|done]. apply due_from_bounds in Hl; [|done].
  eapply Forall_impl; [exact Hl|]. cbn. lia.
Qed.

Lemma due_from_interval every now t l :
  constructed (Interval every) -> due_from (Interval every) now t l -> t <= now ->
  len l = (now - t) / every + 1 /\ list.last l = Some (t + (now - t) / every * every).
Proof.
  intros Hc H. destruct (constructed_interval _ Hc) as [Hev _].
  induction H as [|t t' l Ht Hn Hl IH]; [lia|]. intros _.
  rewrite next_after_interval in Hn by lia.
  destruct (in_range _ _ _); [|done]. injection Hn as <-.
  destruct (Z.le_gt_cases (t + every) now) as [Hle|Hgt].
  - destruct (IH Hle) as [IHn IHl]. replace (now - t) with (now - (t + every) + 1 * every) by lia.
    rewrite Z.div_add by lia. split; [unfold len in *; simpl length; lia|].
    rewrite last_cons, IHl. f_equal. lia.
  - inversion Hl; subst; [|lia]. rewrite Z.div_small by lia. simpl. split; [done|f_equal; lia].
Qed.

(** *** The capped loops follow the chain *)

Lemma due_count_walk_spec self now t l n count :
  due_from self now t l ->
  due_count_walk self n count t now = Ok (count + Z.min (len l) (Z.of_nat n)).
Proof.
  intros H. revert n count. induction H as [t Ht|t t' l Ht Hn Hl IH]; intros [|n] count; cbn.
  - f_equal. unfold len. simpl. lia.
  - destruct (Z.leb_spec t now); [lia|]. f_equal. unfold len. simpl. lia.
  - f_equal. unfold len. lia.
  - destruct (Z.leb_spec t now); [|lia]. rewrite Hn. cbn. rewrite IH. f_equal.
    unfold len. cbn [length]. lia.
Qed.

Lemma catch_up_spec self now t l n :
  due_from self now t l -> catch_up self n t now = Ok (take n l).
Proof.
  intros H. revert n. induction H as [t Ht|t t' l Ht Hn Hl IH]; intros [|n]; cbn; try done.
  - destruct (Z.leb_spec t now); [lia|done].
  - destruct (Z.leb_spec t now); [|lia]. rewrite Hn. cbn. by rewrite IH.
Qed.

(** *** The binary search finds the last occurrence *)

(** What the search maintains about its bounds. *)
Definition search_inv (c : CronSchedule) (now : time) (low high : Z) : Prop :=
  low < high <= now / NANOS_PER_SEC + 1 /\ date_min <= low * NANOS_PER_SEC /\
  (exists o, cron_after c (low * NANOS_PER_SEC) = Some o /\ o <= now) /\
  (forall o p, high * NANOS_PER_SEC <= o <= now -> cron_after c o = Some p -> now < p).

Lemma second_floor now : now / NANOS_PER_SEC * NANOS_PER_SEC <= now.
Proof. pose proof (Z.mul_div_le now NANOS_PER_SEC). unfold NANOS_PER_SEC in *. lia. Qed.

Lemma latest_search_spec c now n fuel low high :
  cron_after c now = Some n -> now <= date_max ->
  high - low <= Z.of_nat fuel -> search_inv c now low high ->
  exists low', latest_search fuel c now low high = Ok low' /\ low <= low' /\
               search_inv c now low' (low' + 1).
Proof.
  intros Hn Hmax. revert low high. induction fuel as [|fuel IH]; intros low high Hf Hinv.
  { destruct Hinv as [? _]. lia. }
  cbn [latest_search]. destruct (Z.ltb_spec (low + 1) high) as [Hlt|Hge]; last first.
  { exists low. split_and!; [done|lia|]. by replace (low + 1) with high by (destruct Hinv; lia). }
  set (m := low + (high - low) / 2).
  assert (low < m < high) as Hm.
  { unfold m. pose proof (Z.div_mod (high - low) 2). pose proof (Z.mod_pos_bound (high - low) 2). lia. }
  destruct Hinv as (Hb & Hmin & Hlow & Hhigh).
  pose proof (second_floor now) as Hfl.
  assert (m * NANOS_PER_SEC <= now) as Hmn by (unfold NANOS_PER_SEC in *; nia).
  assert (low * NANOS_PER_SEC < m * NANOS_PER_SEC) by (unfold NANOS_PER_SEC in *; lia).
  rewrite from_timestamp_spec. unfold in_range.
  destruct (Z.leb_spec date_min (m * NANOS_PER_SEC)); [|lia].
  destruct (Z.leb_spec (m * NANOS_PER_SEC) date_max); [|lia]. cbn.
  rewrite timestamp_spec, Z.div_mul by done.
  destruct (cron_after c (m * NANOS_PER_SEC)) as [o|] eqn:Ho; cbn;
    [|by rewrite (cron_after_none _ _ _ Ho Hmn) in Hn].
  destruct (Z.leb_spec o now) as [Hle|Hgt].
  - destruct (IH m high) as (low' & ? & ? & ?); [lia| |exists low'; split_and!; [done|lia|done]].
    split_and!; [lia..| by exists o|done].
  - destruct (IH low m) as (low' & ? & ? & ?); [lia| |exists low'; split_and!; [done|lia|done]].
    split_and!; [lia..|done|]. intros q p Hq Hp.
    rewrite (cron_after_first _ _ q _ Ho) in Hp by lia. by injection Hp as <-.
Qed.

(** An occurrence on the chain with nothing due after it is the last one. *)
Lemma due_from_last e c now t l u o :
  parse_cron e = Ok c -> constructed (Cron e) ->
  due_from (Cron e) now t l -> cron_after c u = Some o -> t <= o <= now ->
  (forall p, cron_after c o = Some p -> now < p) -> list.last l = Some o.
Proof.
  intros Hc Hself H Hu Hto Hlast. induction H as [|t t' l Ht Hn Hl IH]; [lia|].
  apply (next_after_cron _ _ _ _ Hc) in Hn. rewrite last_cons.
  destruct (Z.eq_dec t o) as [->|Hne].
  { apply Hlast in Hn. inversion Hl; subst; [done|lia]. }
  rewrite IH; [done|]. split; [|lia]. destruct (Z.le_gt_cases t' o) as [?|Hgt]; [done|].
  destruct (Z.le_gt_cases t u) as [?|?].
  - pose proof (cron_after_gt _ _ _ Hu).
    rewrite (cron_after_first _ _ u _ Hn) in Hu by lia. injection Hu as ->. lia.
  - rewrite (cron_after_first _ _ t _ Hu) in Hn by lia. injection Hn as ->. lia.
Qed.

Lemma timestamp_bounds t :
  date_min <= t <= date_max -> i64_min + 1 < t / NANOS_PER_SEC < i64_max - 1.
Proof.
  intros ?. pose proof date_bounds. unfold NANOS_PER_SEC, i64_min, i64_max in *.
  pose proof (Z.div_mod t 1000000000). pose proof (Z.mod_pos_bound t 1000000000). lia.
Qed.

(** The value of [latest_due] for cron: the search from the second before the
    cursor. *)
Lemma latest_due_cron e c first now :
  parse_cron e = Ok c -> date_min <= first <= now -> now <= date_max ->
  let low := first / NANOS_PER_SEC - 1 in
  let high := now / NANOS_PER_SEC + 1 in
  latest_due (Cron e) first now =
    let? low := latest_search (Z.to_nat (high - low)) c now low high in
    let? low := ok_or DateOutOfRange (from_timestamp low) in
    ok_or NoFutureOccurrence
      (match cron_after c low with
       | Some occurrence => if occurrence <=? now then Some occurrence else None
       | None => None
       end).
Proof.
  intros Hc Hf Hn low high. unfold latest_due. rewrite Hc. cbn [mbind result_bind].
  rewrite !timestamp_spec. unfold i64_saturating_sub, i64_saturating_add.
  pose proof (timestamp_bounds first). pose proof (timestamp_bounds now).
  rewrite !saturate_id by lia. done.
Qed.

Lemma latest_due_cron_spec e c first now n l :
  parse_cron e = Ok c -> constructed (Cron e) -> on_occurrence (Cron e) first ->
  date_min + NANOS_PER_SEC <= first <= now -> now <= date_max ->
  next_after (Cron e) now = Ok n -> due_from (Cron e) now first l ->
  exists o, latest_due (Cron e) first now = Ok o /\ list.last l = Some o.
Proof.
  intros Hc Hself Hocc Hf Hmax Hn Hl. unfold on_occurrence in Hocc.
  rewrite !(next_after_cron _ _ _ _ Hc) in *.
  pose proof (cron_after_second _ _ _ Hocc) as Hsec.
  assert (first = first / NANOS_PER_SEC * NANOS_PER_SEC) as Hfirst.
  { pose proof (Z.div_mod first NANOS_PER_SEC). unfold NANOS_PER_SEC in *. lia. }
  assert (first / NANOS_PER_SEC <= now / NANOS_PER_SEC) by (apply Z.div_le_mono; [done|lia]).
  assert (0 < NANOS_PER_SEC) by done.
  rewrite (latest_due_cron e c) by (done || lia).
  destruct (latest_search_spec c now n
    (Z.to_nat (now / NANOS_PER_SEC + 1 - (first / NANOS_PER_SEC - 1)))
    (first / NANOS_PER_SEC - 1) (now / NANOS_PER_SEC + 1)) as (low & -> & Hlow & Hinv);
    [done..|lia| |].
  { split_and!; [lia..| |].
    - exists first. split; [|lia]. rewrite <- Hocc. f_equal. lia.
    - intros o p Ho _. pose proof (Z.mod_pos_bound now NANOS_PER_SEC).
      pose proof (Z.div_mod now NANOS_PER_SEC). lia. }
  destruct Hinv as (Hb & Hmin & (o & Ho & Hon) & Hhigh). pose proof (second_floor now).
  assert (low * NANOS_PER_SEC <= now) by (unfold NANOS_PER_SEC in *; nia).
  cbn. rewrite from_timestamp_spec, try_in_range by lia. cbn. rewrite Ho.
  destruct (Z.leb_spec o now); [|lia]. exists o. split; [done|].
  assert (first <= o).
  { destruct (Z.le_gt_cases first (low * NANOS_PER_SEC)).
    - pose proof (cron_after_gt _ _ _ Ho). lia.
    - rewrite (cron_after_first _ _ (low * NANOS_PER_SEC) _ Hocc) in Ho
        by (unfold NANOS_PER_SEC in *; lia). injection Ho as ->. lia. }
  eapply due_from_last; [done..|lia|]. intros p Hp. eapply Hhigh; [|done].
  pose proof (cron_after_second _ _ _ Ho). pose proof (cron_after_gt _ _ _ Ho).
  pose proof (Z.div_mod o NANOS_PER_SEC). split; [|done].
  unfold NANOS_PER_SEC in *. lia.
Qed.

Lemma elapsed_intervals first now every ms :
  first <= now -> 0 < ms -> every = ms * NANOS_PER_MILLI ->
  Z.quot (num_milliseconds (now - first)) ms = (now - first) / every.
Proof.
  intros ? ? ->. assert (0 < NANOS_PER_MILLI) by done.
  rewrite num_milliseconds_spec, (Z.quot_div_nonneg (now - first)) by lia.
  assert (0 <= (now - first) / NANOS_PER_MILLI) by (apply Z.div_pos; lia).
  rewrite Z.quot_div_nonneg by lia.
  rewrite Z.div_div by (done || lia). f_equal. unfold NANOS_PER_MILLI. lia.
Qed.

Lemma num_milliseconds_pos first now : first <= now -> 0 <= num_milliseconds (now - first).
Proof. intros ?. rewrite num_milliseconds_spec. apply Z.quot_pos; [lia|done]. Qed.

Lemma latest_due_spec self first now n l :
  constructed self -> on_occurrence self first ->
  date_min + NANOS_PER_SEC <= first <= now -> now <= date_max ->
  next_after self now = Ok n -> due_from self now first l ->
  exists o, latest_due self first now = Ok o /\ list.last l = Some o.
Proof.
  intros Hself Hocc Hf Hmax Hn Hl. destruct self as [every|e].
  - destruct (constructed_interval _ Hself) as (Hev & ms & Hms & Heq & Hok).
    destruct (due_from_interval _ _ _ _ Hself Hl ltac:(lia)) as [_ Hlast].
    exists (first + (now - first) / every * every). split; [|done].
    unfold latest_due. rewrite Hok. cbn. rewrite (elapsed_intervals _ _ every) by (lia || done).
    rewrite <- Z.mul_assoc, <- Heq, checked_add_signed_spec.
    pose proof (Z.mul_div_le (now - first) every).
    pose proof (Z.div_pos (now - first) every).
    assert (0 <= (now - first) / every * every) by nia.
    rewrite try_in_range; [done|]. unfold NANOS_PER_SEC in *. lia.
  - destruct (constructed_cron _ Hself) as [c Hc]. by eapply latest_due_cron_spec.
Qed.

Lemma due_count_spec self first now n l :
  constructed self -> date_min <= first <= now -> now <= date_max ->
  next_after self now = Ok n -> due_from self now first l ->
  due_count self first now = Ok (counted self (len l)) /\
  0 <= counted self (len l) <= u64_max.
Proof.
  intros Hself Hf Hmax Hn Hl. destruct self as [every|e].
  - destruct (constructed_interval _ Hself) as (Hev & ms & Hms & Heq & Hok).
    destruct (due_from_interval _ _ _ _ Hself Hl ltac:(lia)) as [Hlen _].
    unfold due_count. rewrite Hok. cbn.
    rewrite Z.max_l by (apply num_milliseconds_pos; lia).
    rewrite (elapsed_intervals _ _ every) by (lia || done).
    assert (0 <= (now - first) / every <= now - first) as Hq.
    { split; [apply Z.div_pos; lia|]. apply Z.div_le_upper_bound; nia. }
    assert ((now - first) / every < u64_max).
    { rewrite Heq. rewrite (Z.mul_comm ms), <- Z.div_div by (done || lia).
      apply Z.div_lt_upper_bound; [done|]. pose proof date_bounds.
      unfold NANOS_PER_SEC, u64_max, NANOS_PER_MILLI in *.
      assert ((now - first) / 1000000 < 18446744073709551615).
      { apply Z.div_lt_upper_bound; lia. }
      nia. }
    unfold try_u64. rewrite try_from_Some by lia. cbn. rewrite Hlen.
    split; [done|lia].
  - unfold due_count. rewrite (due_count_walk_spec _ _ _ l) by done. cbn [counted].
    pose proof (len_nonneg l). unfold DUE_COUNT_LIMIT, u64_max.
    split; [f_equal|]; lia.
Qed.

Lemma due_from_not_nil self now t l : due_from self now t l -> t <= now -> exists l', l = t :: l'.
Proof. destruct 1; [lia|eauto]. Qed.

Lemma select_len policy l : len (select policy l) <= len l.
Proof.
  unfold len. destruct policy as [| |k]; cbn [select]; rewrite ?length_take; [lia| |lia].
  destruct l as [|a l]; [simpl; lia|]. by destruct (list.last (a :: l)); simpl; lia.
Qed.

(** A cron answer is the answer one second before it. *)
Lemma next_on_occurrence self t n :
  constructed self -> next_after self t = Ok n -> on_occurrence self n.
Proof.
  intros Hself Hn. destruct self as [|e]; [done|].
  destruct (constructed_cron _ Hself) as [c Hc]. unfold on_occurrence.
  rewrite !(next_after_cron _ _ _ _ Hc) in *.
  destruct (Z.le_gt_cases t (n - NANOS_PER_SEC)).
  { eapply cron_after_first; [done|]. unfold NANOS_PER_SEC in *. lia. }
  pose proof (cron_after_second _ _ _ Hn) as Hs. pose proof (cron_after_gt _ _ _ Hn).
  destruct (cron_after c (n - NANOS_PER_SEC)) as [p|] eqn:Hp;
    [|rewrite (cron_after_none _ _ t Hp) in Hn by lia; done].
  pose proof (cron_after_second _ _ _ Hp) as Hps. pose proof (cron_after_gt _ _ _ Hp).
  assert (n <= p).
  { pose proof (Z.div_mod p NANOS_PER_SEC). pose proof (Z.div_mod n NANOS_PER_SEC).
    unfold NANOS_PER_SEC in *. lia. }
  rewrite <- Hn, (cron_after_first _ _ t _ Hp); [done|lia].
Qed.

Lemma materialize_select self next_run_at now policy n l :
  constructed self -> on_occurrence self next_run_at ->
  date_min + NANOS_PER_SEC <= next_run_at <= now -> now <= date_max ->
  next_after self now = Ok n -> due_from self now next_run_at l ->
  materialize self next_run_at now policy = Ok {|
    m_occurrences := select policy l;
    m_next_run_at := n;
    m_skipped := Z.max 0 (counted self (len l) - len (select policy l));
  |}.
Proof.
  intros Hself Hocc Hf Hmax Hn Hl. unfold materialize.
  destruct (Z.ltb_spec now next_run_at); [lia|].
  assert (date_min <= next_run_at) by (unfold NANOS_PER_SEC in *; lia).
  destruct (due_count_spec self next_run_at now n l) as [-> Hc]; [done|lia|done..|].
  rewrite Hn. cbn [mbind result_bind].
  assert (forall os, u64_saturating_sub (counted self (len l)) (len os) =
                     Z.max 0 (counted self (len l) - len (os : list time))) as Hsat.
  { intros os. unfold u64_saturating_sub, saturate. pose proof (len_nonneg os).
    unfold u64_max in *. lia. }
  destruct (due_from_not_nil _ _ _ _ Hl) as [l' ->]; [lia|].
  destruct policy as [| |k]; cbn [select mbind result_bind].
  - by rewrite Hsat.
  - destruct (latest_due_spec self next_run_at now n (next_run_at :: l')) as (o & -> & ->);
      [done..|]. cbn [mbind result_bind]. by rewrite Hsat.
  - rewrite (catch_up_spec _ _ _ _ _ Hl). cbn [mbind result_bind]. by rewrite Hsat.
Qed.
End Theory.

Section Claims.
Context {C : ChronoOps} {CL : ChronoLaws C} {K : CronOps} {KL : CronLaws K}.
#[local] Set Default Proof Using "All".


(** Successive rounds never produce an occurrence twice and never
    go back: whatever round [materialize] accepts, its occurrences are
    strictly increasing instants between the old cursor and [now], the new
    cursor lies after [now], and it is an occurrence again, so the next round
    starts from the same situation. *)
Theorem materialize_advances self next_run_at now policy m :
  constructed self -> on_occurrence self next_run_at ->
  date_min + NANOS_PER_SEC <= next_run_at -> now <= date_max ->
  materialize self next_run_at now policy = Ok m ->
  StronglySorted Z.lt (m_occurrences m) /\
  Forall (fun o => next_run_at <= o <= now) (m_occurrences m) /\
  now < m_next_run_at m /\ next_run_at <= m_next_run_at m /\
  on_occurrence self (m_next_run_at m).
Proof.
  intros Hself Hocc Hf Hmax Hm.
  destruct (Z.le_gt_cases next_run_at now) as [Hle|Hgt]; last first.
  { unfold materialize in Hm. destruct (Z.ltb_spec now next_run_at); [|lia].
    injection Hm as <-. cbn. split_and!; [constructor|constructor|lia|lia|done]. }
  assert (exists n, next_after self now = Ok n) as [n Hn].
  { unfold materialize in Hm. destruct (Z.ltb_spec now next_run_at); [lia|]. ok_inv. eauto. }
  destruct (due_from_exists self next_run_at now n) as [l Hl];
    [done|unfold NANOS_PER_SEC in *; lia|done|].
  rewrite (materialize_select _ _ _ _ n l) in Hm by (done || lia). ok_inv. cbn.
  pose proof (next_after_gt _ _ _ Hself Hn).
  pose proof (due_from_sorted _ _ _ _ Hself Hl) as Hsort.
  pose proof (due_from_bounds _ _ _ _ Hself Hl) as Hb.
  split_and!; [| |lia|lia|by eapply next_on_occurrence].
  - destruct policy as [| |k]; cbn [select]; [by apply sorted_take| |by apply sorted_take].
    destruct (list.last l); repeat constructor.
  - destruct policy as [| |k]; cbn [select]; [by apply Forall_take| |by apply Forall_take].
    destruct (list.last l) eqn:E; [|constructor].
    apply last_Some_elem_of in E. rewrite Forall_forall in Hb. constructor; [by apply Hb|done].
Qed.

Lemma latest_search_stuck c now o fuel low high :
  date_min <= low * NANOS_PER_SEC -> now <= date_max ->
  high <= now / NANOS_PER_SEC + 1 ->
  cron_after c (low * NANOS_PER_SEC) = Some o -> now < o ->
  latest_search fuel c now low high = Ok low.
Proof.
  intros Hmin Hmax Hhigh Ho Hno. revert high Hhigh.
  induction fuel as [|fuel IH]; intros high Hhigh; cbn [latest_search];
    destruct (Z.ltb_spec (low + 1) high); try done.
  set (m := low + (high - low) / 2).
  assert (low < m < high) as Hm.
  { unfold m. pose proof (Z.div_mod (high - low) 2). pose proof (Z.mod_pos_bound (high - low) 2). lia. }
  pose proof (second_floor now). assert (0 < NANOS_PER_SEC) by done.
  assert (low * NANOS_PER_SEC <= m * NANOS_PER_SEC <= now) by nia.
  rewrite from_timestamp_spec, try_in_range by lia. cbn.
  rewrite (cron_after_first _ _ (m * NANOS_PER_SEC) _ Ho) by lia. cbn.
  destruct (Z.leb_spec o now); [lia|]. rewrite timestamp_spec, Z.div_mul by done.
  apply IH. lia.
Qed.

(** A cursor that is not itself a cron occurrence, which is what a
    [start_at] between two occurrences gives, cannot be materialized under
    [Latest] until an occurrence passes: the search only considers
    occurrences, finds none due and reports [NoFutureOccurrence], although
    the same due cursor is a run under [Skip]. *)
Theorem latest_fails_off_occurrence e c next_run_at now o n :
  parse_cron e = Ok c ->
  date_min + 2 * NANOS_PER_SEC <= next_run_at <= now -> now <= date_max ->
  cron_after c ((next_run_at / NANOS_PER_SEC - 1) * NANOS_PER_SEC) = Some o -> now < o ->
  next_after (Cron e) now = Ok n ->
  materialize (Cron e) next_run_at now Latest = Err NoFutureOccurrence /\
  (exists m, materialize (Cron e) next_run_at now Skip = Ok m /\
             m_occurrences m = [next_run_at]).
Proof.
  intros Hc Hf Hmax Ho Hno Hn.
  assert (0 < NANOS_PER_SEC) by done.
  assert (date_min <= (next_run_at / NANOS_PER_SEC - 1) * NANOS_PER_SEC).
  { pose proof (Z.div_mod next_run_at NANOS_PER_SEC).
    pose proof (Z.mod_pos_bound next_run_at NANOS_PER_SEC). lia. }
  assert ((next_run_at / NANOS_PER_SEC - 1) * NANOS_PER_SEC <= next_run_at).
  { pose proof (second_floor next_run_at). lia. }
  unfold materialize. destruct (Z.ltb_spec now next_run_at); [lia|]. split.
  - rewrite (latest_due_cron e c) by (done || lia).
    rewrite (latest_search_stuck _ _ o) by (done || lia). cbn.
    rewrite from_timestamp_spec, try_in_range by lia. cbn. rewrite Ho.
    destruct (Z.leb_spec o now); [lia|]. done.
  - assert (constructed (Cron e)) as Hself by (cbn; unfold cron; rewrite Hc; done).
    destruct (due_from_exists (Cron e) next_run_at now n) as [l Hl]; [done|lia|done|].
    destruct (due_count_spec (Cron e) next_run_at now n l) as [-> _]; [done|lia|done..|].
    rewrite Hn. cbn. eauto.
Qed.
End Claims.

(** ** Witnesses, on the every-minute schedule *)

Definition every_minute : ScheduleDefinition := Cron (str "0 * * * * *").
Definition at_sec (s : Z) : time := s * NANOS_PER_SEC.


Lemma materialize_advances_witness :
  exists m, materialize every_minute (at_sec 60) (at_sec 200) (CatchUp 2) = Ok m /\
    StronglySorted Z.lt (m_occurrences m) /\
    Forall (fun o => at_sec 60 <= o <= at_sec 200) (m_occurrences m) /\
    at_sec 200 < m_next_run_at m /\ at_sec 60 <= m_next_run_at m /\
    on_occurrence every_minute (m_next_run_at m).
Proof.
  exists {| m_occurrences := [at_sec 60; at_sec 120]; m_next_run_at := at_sec 240; m_skipped := 1 |}.
  split; [by_compute|].
  apply (materialize_advances every_minute (at_sec 60) (at_sec 200) (CatchUp 2)); by_compute.
Defined.

(** The failure repeats: one retry delay later the cursor is off again. *)
Lemma latest_fails_off_occurrence_witness :
  materialize every_minute (at_sec 90) (at_sec 100) Latest = Err NoFutureOccurrence /\
  (exists m, materialize every_minute (at_sec 90) (at_sec 100) Skip = Ok m /\
             m_occurrences m = [at_sec 90]).
Proof.
  apply (latest_fails_off_occurrence (K := minutely_ops) (str "0 * * * * *") tt (at_sec 90) (at_sec 100)
           (at_sec 120) (at_sec 120)); by_compute.
Defined.

Example materialize_latest_minutes :
  materialize every_minute (at_sec 60) (at_sec 200) Latest = Ok {|
    m_occurrences := [at_sec 180]; m_next_run_at := at_sec 240; m_skipped := 2 |}.
Proof. vm_compute. reflexivity. Qed.
