(* ===== verification/Outcome.v ===== *)
(** Handler outcomes: [pgtask-worker/src/outcome.rs].

    The limits of [pgtask.tasks] are on [octet_length(value::text)].
    [jsonb_text] writes out the text the module's comments describe, and
    [jsonb_text_len_spec] shows that the code's length computation is the
    length of that text.  A Rust [usize] sum is a [Z] sum here: every length is
    that of a value in memory. *)

From S2P Require Import Prelude Text Json.

Definition RESULT_LIMIT_BYTES : Z := 1048576.
Definition ERROR_LIMIT_BYTES : Z := 262144.

Definition NUL : char := 0.
Definition NUL_REPLACEMENT : rstring := str "\u0000".
(** U+2026. *)
Definition ELLIPSIS : rstring := [8230].

Inductive PreparedResult : Type :=
| PResult (v : Value)
| PTooLarge (v : Value).

(** ** Lengths *)

Definition jsonb_char_len (c : char) : Z :=
  if (c =? 34) || (c =? 92) || (c =? 8) || (c =? 12) || (c =? 10) || (c =? 13) || (c =? 9) then 2
  else if c <? 32 then 6
  else len_utf8 c.

Definition jsonb_string_len (text : rstring) : Z := 2 + sum_Z (map jsonb_char_len text).

(** [str::parse::<i64>]. *)
Fixpoint parse_digits (acc : Z) (s : rstring) : option Z :=
  match s with
  | [] => Some acc
  | c :: s' => if (48 <=? c) && (c <=? 57) then parse_digits (acc * 10 + (c - 48)) s' else None
  end.
Definition parse_i64 (s : rstring) : option Z :=
  match s with
  | [] => None
  | c :: s' =>
      if c =? 45 then match s' with [] => None | _ => z ← parse_digits 0 s'; try_i64 (- z) end
      else if c =? 43 then match s' with [] => None | _ => z ← parse_digits 0 s'; try_i64 z end
      else z ← parse_digits 0 s; try_i64 z
  end.

Definition is_exponent_mark (c : char) : bool := (c =? 101) || (c =? 69).
Definition is_sign (c : char) : bool := (c =? 45) || (c =? 43).
Definition is_dot (c : char) : bool := c =? 46.

Definition numeric_text_len (rendered : rstring) : Z :=
  match split_once is_exponent_mark rendered with
  | None => str_len rendered
  | Some (mantissa, exponent) =>
      match parse_i64 exponent with
      | None => str_len rendered
      | Some exponent =>
          let sign := if starts_with (str "-") mantissa then 1 else 0 in
          let mantissa := trim_start_matches is_sign mantissa in
          let '(integer, fraction) := default (mantissa, []) (split_once is_dot mantissa) in
          let integer_len := default i64_max (try_i64 (str_len integer)) in
          let fraction_len := default i64_max (try_i64 (str_len fraction)) in
          let scale := Z.max (i64_saturating_sub fraction_len exponent) 0 in
          let integer_digits := Z.max (i64_saturating_add integer_len exponent) 1 in
          let digits :=
            i64_saturating_add integer_digits (if 0 <? scale then scale + 1 else 0) in
          sign + default u64_max (try_u64 digits)
      end
  end.

(** [2 * items.len().saturating_sub(1)]. *)
Definition separators {A} (l : list A) : Z := 2 * u64_saturating_sub (len l) 1.

Fixpoint jsonb_text_len (value : Value) : Z :=
  match value with
  | VNull => 4
  | VBool true => 4
  | VBool false => 5
  | VNumber number => numeric_text_len number
  | VString text => jsonb_string_len text
  | VArray items => 2 + sum_Z (map jsonb_text_len items) + separators items
  | VObject m =>
      2 + sum_Z (map (fun kv => jsonb_string_len kv.1 + 2 + jsonb_text_len kv.2) m) + separators m
  end.

Fixpoint longest_string (value : Value) : Z :=
  match value with
  | VString text => str_len text
  | VArray items => foldr Z.max 0 (map longest_string items)
  | VObject m => foldr Z.max 0 (map (fun kv => longest_string kv.2) m)
  | VNull | VBool _ | VNumber _ => 0
  end.

(** ** Rewriting *)

(** The [end -= 1] loop of [truncate_string]. *)
Fixpoint floor_boundary (fuel : nat) (text : rstring) (end_ : Z) : Z :=
  if is_char_boundary text end_ then end_
  else match fuel with
       | O => end_
       | S fuel' => floor_boundary fuel' text (end_ - 1)
       end.

Definition truncate_string (text : rstring) (cap : Z) : rstring :=
  if str_len text <=? cap then text
  else truncate_at text (floor_boundary (Z.to_nat cap) text cap) ++ ELLIPSIS.

Fixpoint cap_strings (value : Value) (cap : Z) : Value :=
  match value with
  | VString text => VString (truncate_string text cap)
  | VArray items => VArray (map (fun item => cap_strings item cap) items)
  | VObject m => VObject (map (fun kv => (kv.1, cap_strings kv.2 cap)) m)
  | other => other
  end.

(** The values of an object are escaped independently of their keys, so the
    model escapes them before it re-collects the keys. *)
Fixpoint escape_nul (value : Value) : Value :=
  match value with
  | VString text =>
      VString (if contains_char NUL text then replace_char NUL NUL_REPLACEMENT text else text)
  | VArray items => VArray (map escape_nul items)
  | VObject m =>
      let escaped := map (fun kv => (kv.1, escape_nul kv.2)) m in
      VObject (if existsb (fun kv => contains_char NUL kv.1) m
               then map_collect (map (fun kv => (replace_char NUL NUL_REPLACEMENT kv.1, kv.2)) escaped)
               else escaped)
  | VNull | VBool _ | VNumber _ => value
  end.

(** The closure [marked] of [truncate_error]. *)
Definition marked (bytes : Z) (value : Value) : Value :=
  let m := match value with
           | VObject m => m
           | other => [(str "value", other)]
           end in
  VObject (map_insert (str "original_bytes") (json_number bytes)
            (map_insert (str "truncated") (VBool true) m)).

(** The closure [fits]. *)
Definition fits (error : Value) (bytes cap : Z) : option Value :=
  let candidate := marked bytes (cap_strings error cap) in
  if jsonb_text_len candidate <=? ERROR_LIMIT_BYTES then Some candidate else None.

(** The [while best.is_some() && low < high] loop. *)
Fixpoint truncate_search (fuel : nat) (error : Value) (bytes low high : Z) (best : option Value)
    : option Value :=
  match best with
  | None => None
  | Some _ =>
      if low <? high then
        match fuel with
        | O => best
        | S fuel' =>
            let middle := low + ((high - low + 1) / 2) in
            match fits error bytes middle with
            | Some candidate => truncate_search fuel' error bytes middle high (Some candidate)
            | None => truncate_search fuel' error bytes low (middle - 1) best
            end
        end
      else best
  end.

(** The fallback summary. *)
Definition error_summary (error : Value) (bytes : Z) : Value :=
  let kind :=
    match value_get (str "type") error ≫= as_str with
    | Some kind => if str_len kind <=? 255 then kind else str "handler_error"
    | None => str "handler_error"
    end in
  let summary := map_collect [(str "type", VString kind); (str "truncated", VBool true);
                              (str "original_bytes", json_number bytes)] in
  match value_get (str "retryable") error with
  | Some retryable =>
      VObject (if is_boolean retryable then map_insert (str "retryable") retryable summary
               else summary)
  | None => VObject summary
  end.

Definition truncate_error (error : Value) (bytes : Z) : Value :=
  let high := longest_string error in
  match truncate_search (Z.to_nat high) error bytes 0 high (fits error bytes 0) with
  | Some best => best
  | None => error_summary error bytes
  end.

(** ** The module's interface *)

Definition prepare_result (result : Value) : PreparedResult :=
  let result := escape_nul result in
  let bytes := jsonb_text_len result in
  if bytes <=? RESULT_LIMIT_BYTES then PResult result
  else PTooLarge (VObject (map_collect [(str "type", VString (str "result_too_large"));
                                        (str "bytes", json_number bytes);
                                        (str "limit", json_number RESULT_LIMIT_BYTES)])).

Definition prepare_error (error : Value) : Value :=
  let error := escape_nul error in
  let bytes := jsonb_text_len error in
  if bytes <=? ERROR_LIMIT_BYTES then error else truncate_error error bytes.

Definition rejected_value_error (kind message : rstring) : Value :=
  let message := truncate_string (replace_char NUL NUL_REPLACEMENT message) 4096 in
  VObject (map_collect [(str "type", VString kind); (str "message", VString message)]).

(** ** Specifications *)

(** No string or key holds the character [jsonb] rejects. *)
Fixpoint no_nul (value : Value) : bool :=
  match value with
  | VString text => negb (contains_char NUL text)
  | VArray items => forallb no_nul items
  | VObject m => forallb (fun kv => negb (contains_char NUL kv.1) && no_nul kv.2) m
  | VNull | VBool _ | VNumber _ => true
  end.

(** A numeral without exponent: the digits of the mantissa with the point moved
    by the exponent. *)
Definition zeros (n : Z) : rstring := repeat 48 (Z.to_nat n).
Definition expand (integer fraction : rstring) (exponent : Z) : rstring :=
  let digits := integer ++ fraction in
  let point := len integer + exponent in
  let scale := len fraction - exponent in
  if point <=? 0
  then str "0" ++ (if 0 <? scale then str "." ++ zeros (- point) ++ digits else [])
  else if scale <=? 0 then digits ++ zeros (- scale)
  else take (Z.to_nat point) digits ++ str "." ++ drop (Z.to_nat point) digits.

Definition numeric_text (rendered : rstring) : rstring :=
  match split_once is_exponent_mark rendered with
  | None => rendered
  | Some (mantissa, exponent) =>
      match parse_i64 exponent with
      | None => rendered
      | Some exponent =>
          let sign := if starts_with (str "-") mantissa then str "-" else [] in
          let mantissa := trim_start_matches is_sign mantissa in
          let '(integer, fraction) := default (mantissa, []) (split_once is_dot mantissa) in
          sign ++ expand integer fraction exponent
      end
  end.

Definition hex_digit (n : Z) : char := if n <? 10 then 48 + n else 87 + n.
Definition jsonb_char (c : char) : rstring :=
  if c =? 34 then str "\" ++ [34]
  else if c =? 92 then str "\\"
  else if c =? 8 then str "\b"
  else if c =? 12 then str "\f"
  else if c =? 10 then str "\n"
  else if c =? 13 then str "\r"
  else if c =? 9 then str "\t"
  else if c <? 32 then str "\u00" ++ [hex_digit (c / 16); hex_digit (c mod 16)]
  else [c].
Definition jsonb_string (s : rstring) : rstring := [34] ++ flat_map jsonb_char s ++ [34].

(** Pieces separated by a comma and a space. *)
Fixpoint commas (l : list rstring) : rstring :=
  match l with
  | [] => []
  | [x] => x
  | x :: l' => x ++ str ", " ++ commas l'
  end.

Fixpoint jsonb_text (value : Value) : rstring :=
  match value with
  | VNull => str "null"
  | VBool true => str "true"
  | VBool false => str "false"
  | VNumber number => numeric_text number
  | VString text => jsonb_string text
  | VArray items => str "[" ++ commas (map jsonb_text items) ++ str "]"
  | VObject m =>
      str "{" ++ commas (map (fun kv => jsonb_string kv.1 ++ str ": " ++ jsonb_text kv.2) m)
        ++ str "}"
  end.

(** What a [serde_json] number prints as: ASCII, with a length and an exponent
    nowhere near the ends of [i64]. *)
Definition wf_number (rendered : rstring) : Prop :=
  Forall (fun c => 0 <= c < 128) rendered /\ len rendered <= 2 ^ 60 /\
  match split_once is_exponent_mark rendered with
  | Some (_, exponent) => forall z, parse_i64 exponent = Some z -> - 2 ^ 60 <= z <= 2 ^ 60
  | None => True
  end.

Fixpoint wf_value (value : Value) : Prop :=
  match value with
  | VNumber number => wf_number number
  | VArray items => foldr and True (map wf_value items) /\ len items <= u64_max
  | VObject m =>
      foldr and True (map (fun kv => Forall (fun c => 0 <= c) kv.1 /\ wf_value kv.2) m)
      /\ len m <= u64_max
  | VString text => Forall (fun c => 0 <= c) text
  | _ => True
  end.

(** ** Truncation *)

Lemma floor_boundary_spec fuel text i :
  0 <= i <= str_len text -> (Z.to_nat i <= fuel)%nat ->
  let j := floor_boundary fuel text i in
  i - 3 <= j <= i /\ 0 <= j /\ is_char_boundary text j = true.
Proof.
  intros Hi Hf. cbn zeta.
  assert (forall f i j, 0 <= j <= i -> is_char_boundary text j = true -> i - j <= Z.of_nat f ->
          j <= floor_boundary f text i <= i /\
          is_char_boundary text (floor_boundary f text i) = true) as Hgo.
  { clear. induction f as [|f IH]; intros i j Hj Hb Hle; cbn [floor_boundary];
      destruct (is_char_boundary text i) eqn:E.
    1,3: split; [lia|done].
    - replace i with j in E by lia. congruence.
    - destruct (decide (i = j)) as [->|]; [congruence|].
      destruct (IH (i - 1) j); [lia|done|lia|]. split; [lia|done]. }
  destruct (boundary_near text i Hi) as (j & ? & ? & ?).
  destruct (Hgo fuel i j); [lia|done|lia|]. split_and!; [lia..|done].
Qed.

(** [truncate_string] leaves a string of at most [cap] bytes alone;
    a longer one becomes a prefix of itself, cut at a character boundary at
    most three bytes before [cap], followed by the ellipsis. *)
Lemma truncate_string_prefix text cap :
  0 <= cap ->
  (str_len text <= cap -> truncate_string text cap = text) /\
  (cap < str_len text ->
   exists prefix rest, text = prefix ++ rest /\ truncate_string text cap = prefix ++ ELLIPSIS /\
     cap - 3 <= str_len prefix <= cap).
Proof.
  intros Hcap. unfold truncate_string. destruct (Z.leb_spec (str_len text) cap); split; try done; try lia.
  intros _. destruct (floor_boundary_spec (Z.to_nat cap) text cap) as (Hj & Hj0 & Hb); [lia..|].
  set (j := floor_boundary _ _ _) in *.
  destruct (truncate_at_prefix text j) as [rest Hrest].
  exists (truncate_at text j), rest. split_and!; [done..| |]; rewrite truncate_at_boundary by done; lia.
Qed.

(** ** NUL characters *)

Lemma truncate_string_no_nul text cap :
  contains_char NUL text = false -> contains_char NUL (truncate_string text cap) = false.
Proof.
  intros H. unfold truncate_string. case_Z; [done|].
  rewrite contains_char_Forall in *. apply Forall_app. split; [by apply truncate_at_Forall|].
  by repeat constructor.
Qed.

Lemma no_nul_fields m :
  no_nul (VObject m) = true <->
  Forall (fun kv => contains_char NUL kv.1 = false /\ no_nul kv.2 = true) m.
Proof.
  cbn [no_nul]. rewrite forallb_Forall. apply Forall_iff. intros [k v]. cbn.
  by rewrite andb_true_iff, negb_true_iff.
Qed.

Lemma no_nul_items l : no_nul (VArray l) = true <-> Forall (fun v => no_nul v = true) l.
Proof. apply forallb_Forall. Qed.

Lemma cap_strings_no_nul v cap : no_nul v = true -> no_nul (cap_strings v cap) = true.
Proof.
  induction v as [| | |s|l IH|m IH] using Value_nested_ind; intros H; cbn [cap_strings]; try done.
  - cbn in *. rewrite negb_true_iff in *. by apply truncate_string_no_nul.
  - rewrite no_nul_items in *. rewrite Forall_map. rewrite Forall_forall in *. naive_solver.
  - rewrite no_nul_fields in *. rewrite Forall_map. rewrite Forall_forall in *.
    intros kv Hkv. cbn. destruct (H kv Hkv). split; [done|]. by apply IH.
Qed.

Lemma escape_string_no_nul text :
  contains_char NUL (if contains_char NUL text then replace_char NUL NUL_REPLACEMENT text else text)
    = false.
Proof. destruct (contains_char NUL text) eqn:E; [by apply replace_char_gone|done]. Qed.

Lemma escape_nul_no_nul v : no_nul (escape_nul v) = true.
Proof.
  induction v as [| | |s|l IH|m IH] using Value_nested_ind; cbn [escape_nul]; try done.
  - cbn [no_nul]. by rewrite escape_string_no_nul.
  - rewrite no_nul_items, Forall_map. done.
  - rewrite no_nul_fields. destruct (existsb _ m) eqn:E.
    + apply map_collect_Forall. rewrite !Forall_map. eapply Forall_impl; [exact IH|].
      intros kv Hkv. cbn. split; [by apply replace_char_gone|done].
    + rewrite Forall_map. rewrite <- not_true_iff_false, existsb_exists in E.
      rewrite Forall_forall in *. intros kv Hkv. cbn. split; [|by apply IH].
      apply not_true_iff_false. intros Hc. apply E. exists kv. by rewrite <- list_elem_of_In.
Qed.

Lemma escape_nul_id v : no_nul v = true -> escape_nul v = v.
Proof.
  induction v as [| | |s|l IH|m IH] using Value_nested_ind; intros H; cbn [escape_nul]; try done.
  - cbn in H. apply negb_true_iff in H. by rewrite H.
  - rewrite no_nul_items in H. f_equal. induction l as [|v l IHl]; [done|].
    apply Forall_cons in IH as [? ?], H as [? ?]. simpl. f_equal; auto.
  - rewrite no_nul_fields in H.
    assert (map (fun kv => (kv.1, escape_nul kv.2)) m = m) as ->.
    { induction m as [|[k v] m IHm]; [done|].
      apply Forall_cons in IH as [? ?], H as [[_ ?] ?]. simpl in *. repeat f_equal; auto. }
    destruct (existsb _ m) eqn:E; [|done]. apply existsb_exists in E as (kv & Hin & Hc).
    rewrite Forall_forall in H. apply list_elem_of_In in Hin. destruct (H kv Hin). congruence.
Qed.

Lemma map_get_no_nul k m v :
  no_nul (VObject m) = true -> map_get k m = Some v -> no_nul v = true.
Proof.
  rewrite no_nul_fields. induction 1 as [|[k' v'] m [_ Hv] Hm IH]; [done|]. simpl.
  case_bool_decide; [|done]. by intros [= <-].
Qed.

Lemma marked_no_nul bytes v : no_nul v = true -> no_nul (marked bytes v) = true.
Proof.
  intros H. unfold marked. rewrite no_nul_fields.
  apply map_insert_Forall; [done|]. apply map_insert_Forall; [done|].
  destruct v; try (by repeat constructor). by apply no_nul_fields.
Qed.

Lemma fits_Some e bytes cap v :
  fits e bytes cap = Some v ->
  v = marked bytes (cap_strings e cap) /\ jsonb_text_len v <= ERROR_LIMIT_BYTES.
Proof. unfold fits. case_Z; [|done]. by intros [= <-]. Qed.

Lemma error_summary_no_nul e bytes : no_nul e = true -> no_nul (error_summary e bytes) = true.
Proof.
  intros He. unfold error_summary. set (kind := match _ with Some _ => _ | None => str "handler_error" end).
  assert (no_nul (VString kind) = true) as Hk.
  { unfold kind. destruct (value_get (str "type") e) as [v|] eqn:Ev; [|done]. cbn.
    destruct (as_str v) as [k|] eqn:Ek; [|done]. case_Z; [|done].
    destruct v; try done. injection Ek as <-. destruct e; try done.
    by apply (map_get_no_nul _ _ _ He Ev). }
  assert (no_nul (VObject (map_collect [(str "type", VString kind); (str "truncated", VBool true);
            (str "original_bytes", json_number bytes)])) = true) as Hs.
  { apply no_nul_fields, map_collect_Forall. repeat constructor; cbn -[contains_char]; done. }
  destruct (value_get (str "retryable") e) as [r|]; [|done].
  by destruct r.
Qed.

(** The search returns the candidate of a cap that fits, and no cap within its
    range is known to fit beyond it: the next one does not, or it is the
    longest string. *)
Lemma truncate_search_spec fuel e bytes low high v top :
  0 <= low <= high -> (Z.to_nat (high - low) <= fuel)%nat ->
  fits e bytes low = Some v ->
  high = top \/ fits e bytes (high + 1) = None ->
  exists cap w, truncate_search fuel e bytes low high (Some v) = Some w /\
    low <= cap <= high /\ fits e bytes cap = Some w /\
    (cap = top \/ fits e bytes (cap + 1) = None).
Proof.
  revert low high v. induction fuel as [|fuel IH]; intros low high v Hlh Hf Hv Htop;
    cbn [truncate_search]; destruct (Z.ltb_spec low high).
  1: lia.
  1,3: exists low, v; replace low with high by lia; replace low with high in Hv by lia;
       split_and!; (done || lia).
  set (middle := low + (high - low + 1) / 2).
  assert (low < middle <= high) as Hm.
  { unfold middle. pose proof (Z.div_mod (high - low + 1) 2).
    pose proof (Z.mod_pos_bound (high - low + 1) 2). lia. }
  destruct (fits e bytes middle) as [c|] eqn:Hc.
  - destruct (IH middle high c) as (cap & w & ? & ? & ? & ?); [lia..|done|done|].
    exists cap, w. split_and!; (done || lia).
  - destruct (IH low (middle - 1) v) as (cap & w & ? & ? & ? & ?); [lia..|done| |].
    { right. by replace (middle - 1 + 1) with middle by lia. }
    exists cap, w. split_and!; (done || lia).
Qed.

Lemma longest_string_nonneg v : 0 <= longest_string v.
Proof.
  destruct v as [| | |s|l|m]; cbn; try lia; [apply str_len_nonneg| |].
  - induction l; simpl; lia.
  - induction m; simpl; lia.
Qed.

(** What [truncate_error] returns: a capped copy, or the summary when even
    empty strings are too long. *)
Lemma truncate_error_cases e bytes :
  (exists cap, 0 <= cap <= longest_string e /\
     fits e bytes cap = Some (truncate_error e bytes) /\
     (cap = longest_string e \/ fits e bytes (cap + 1) = None)) \/
  (fits e bytes 0 = None /\ truncate_error e bytes = error_summary e bytes).
Proof.
  unfold truncate_error. destruct (fits e bytes 0) as [v|] eqn:Hv.
  - left. pose proof (longest_string_nonneg e).
    destruct (truncate_search_spec (Z.to_nat (longest_string e)) e bytes 0 (longest_string e) v
                (longest_string e)) as (cap & w & -> & ? & ? & ?); [lia..|done|by left|].
    by exists cap.
  - right. by destruct (Z.to_nat _).
Qed.

(** ** Sizes *)

Lemma split_once_None p s : Forall (fun c => p c = false) s -> split_once p s = None.
Proof. induction 1 as [|c s Hc _ IH]; simpl; [done|]. by rewrite Hc, IH. Qed.

Lemma numeric_decimal_len n : 0 <= n <= u64_max -> numeric_text_len (decimal n) <= 20.
Proof.
  intros Hn. unfold numeric_text_len. rewrite split_once_None; [by apply decimal_len|].
  eapply Forall_impl; [apply decimal_digits; lia|]. intros c Hc. cbn in Hc. unfold is_exponent_mark.
  repeat case_Z; (done || lia).
Qed.

Lemma jsonb_char_len_bounds c : 1 <= jsonb_char_len c <= 6 * len_utf8 c.
Proof.
  unfold jsonb_char_len. pose proof (len_utf8_bounds c).
  destruct (_ || _); [lia|]. case_Z; lia.
Qed.

Lemma jsonb_string_len_bound s : jsonb_string_len s <= 2 + 6 * str_len s.
Proof.
  unfold jsonb_string_len, str_len. induction s as [|c s IH]; simpl; [lia|].
  pose proof (jsonb_char_len_bounds c). lia.
Qed.

Lemma numeric_text_len_nonneg s : 0 <= numeric_text_len s.
Proof.
  unfold numeric_text_len. pose proof (str_len_nonneg s).
  destruct (split_once _ s) as [[m x]|]; [|done]. destruct (parse_i64 x); [|done].
  destruct (default _ _). unfold try_u64.
  destruct (try_from 0 u64_max _) as [n|] eqn:E; [apply try_from_inv in E|]; cbn;
    destruct (starts_with _ m); unfold u64_max in *; lia.
Qed.

Lemma jsonb_string_len_nonneg s : 0 <= jsonb_string_len s.
Proof.
  unfold jsonb_string_len. pose proof (sum_Z_map_nonneg jsonb_char_len s) as H.
  specialize (H ltac:(intros c; pose proof (jsonb_char_len_bounds c); lia)). lia.
Qed.

Lemma separators_nonneg {A} (l : list A) : 0 <= separators l.
Proof. unfold separators, u64_saturating_sub, saturate. unfold u64_max. lia. Qed.

Lemma jsonb_text_len_nonneg v : 0 <= jsonb_text_len v.
Proof.
  induction v as [|[]|n|s|l IH|m IH] using Value_nested_ind; cbn [jsonb_text_len]; try lia.
  - apply numeric_text_len_nonneg.
  - apply jsonb_string_len_nonneg.
  - pose proof (separators_nonneg l).
    assert (0 <= sum_Z (map jsonb_text_len l)) by (apply sum_Z_nonneg, Forall_map; done). lia.
  - pose proof (separators_nonneg m).
    assert (0 <= sum_Z (map (fun kv => jsonb_string_len kv.1 + 2 + jsonb_text_len kv.2) m)); [|lia].
    apply sum_Z_nonneg, Forall_map. eapply Forall_impl; [exact IH|]. intros [k v] Hv. cbn in *.
    pose proof (jsonb_string_len_nonneg k). lia.
Qed.

(** Evaluate the lengths of literal keys and lists. *)
Ltac literal_lengths :=
  unfold separators, u64_saturating_sub, saturate, u64_max, len in *; cbn [length] in *;
  repeat match goal with
  | |- context [jsonb_string_len (str ?s)] =>
      let v := eval vm_compute in (jsonb_string_len (str s)) in
      change (jsonb_string_len (str s)) with v
  end.

Lemma error_summary_fits e bytes :
  0 <= bytes <= u64_max -> jsonb_text_len (error_summary e bytes) <= ERROR_LIMIT_BYTES.
Proof.
  intros Hb. pose proof (numeric_decimal_len bytes Hb) as Hn.
  assert (exists kind, str_len kind <= 255 /\
    (error_summary e bytes = VObject [(str "original_bytes", json_number bytes);
       (str "truncated", VBool true); (str "type", VString kind)] \/
     exists b, error_summary e bytes = VObject [(str "original_bytes", json_number bytes);
       (str "retryable", VBool b); (str "truncated", VBool true); (str "type", VString kind)]))
    as (kind & Hk & Hs).
  { unfold error_summary. set (kind := match _ with Some _ => _ | None => str "handler_error" end).
    exists kind. split.
    { unfold kind. destruct (_ ≫= _) as [k|]; [|by_compute]. case_Z; [done|by_compute]. }
    destruct (value_get (str "retryable") e) as [[|b| | | |]|]; try by left.
    right. by exists b. }
  pose proof (jsonb_string_len_bound kind).
  unfold ERROR_LIMIT_BYTES. destruct Hs as [->|[[] ->]]; unfold json_number;
    cbn [jsonb_text_len map sum_Z foldr fst snd]; literal_lengths; lia.
Qed.

Lemma truncate_string_len text cap : 0 <= cap -> str_len (truncate_string text cap) <= cap + 3.
Proof.
  intros Hc. destruct (truncate_string_prefix text cap Hc) as [H1 H2].
  destruct (Z.le_gt_cases (str_len text) cap) as [Hle|Hgt]; [rewrite H1; lia|].
  destruct (H2 Hgt) as (prefix & rest & _ & -> & Hp). rewrite str_len_app.
  change (str_len ELLIPSIS) with 3. lia.
Qed.

(** The replacement for a value the database rejected can always be stored. *)
Lemma rejected_value_error_storable kind message :
  str_len kind <= 255 -> contains_char NUL kind = false ->
  no_nul (rejected_value_error kind message) = true /\
  jsonb_text_len (rejected_value_error kind message) <= ERROR_LIMIT_BYTES.
Proof.
  intros Hk Hn. unfold rejected_value_error. set (text := truncate_string _ _).
  change (map_collect _) with [(str "message", VString text); (str "type", VString kind)].
  split.
  - cbn [no_nul forallb fst snd]. rewrite Hn. unfold text.
    rewrite truncate_string_no_nul by (by apply replace_char_gone). done.
  - cbn [jsonb_text_len map sum_Z foldr fst snd]. pose proof (jsonb_string_len_bound text).
    pose proof (jsonb_string_len_bound kind).
    assert (str_len text <= 4096 + 3) by (by apply truncate_string_len).
    unfold ERROR_LIMIT_BYTES. literal_lengths. lia.
Qed.

Lemma prepare_error_len error :
  jsonb_text_len (escape_nul error) <= u64_max ->
  jsonb_text_len (prepare_error error) <= ERROR_LIMIT_BYTES.
Proof.
  intros Hb. unfold prepare_error. case_Z; [done|].
  destruct (truncate_error_cases (escape_nul error) (jsonb_text_len (escape_nul error)))
    as [(cap & _ & Hfit & _)|[_ ->]].
  - by apply fits_Some in Hfit as [_ ?].
  - apply error_summary_fits. split; [apply jsonb_text_len_nonneg|done].
Qed.

Lemma prepare_error_no_nul error : no_nul (prepare_error error) = true.
Proof.
  pose proof (escape_nul_no_nul error) as Hn. unfold prepare_error. case_Z; [done|].
  destruct (truncate_error_cases (escape_nul error) (jsonb_text_len (escape_nul error)))
    as [(cap & _ & Hfit & _)|[_ ->]].
  - apply fits_Some in Hfit as [-> _]. by apply marked_no_nul, cap_strings_no_nul.
  - apply error_summary_no_nul, escape_nul_no_nul.
Qed.

Lemma prepare_result_too_large result v :
  prepare_result result = PTooLarge v -> jsonb_text_len (escape_nul result) <= u64_max ->
  jsonb_text_len v <= ERROR_LIMIT_BYTES.
Proof.
  unfold prepare_result. destruct (Z.leb_spec (jsonb_text_len (escape_nul result)) RESULT_LIMIT_BYTES) as [|Hgt];
    [done|]. intros [= <-] Hmax.
  pose proof (numeric_decimal_len (jsonb_text_len (escape_nul result))) as Hd.
  specialize (Hd ltac:(unfold RESULT_LIMIT_BYTES in *; lia)).
  unfold ERROR_LIMIT_BYTES, RESULT_LIMIT_BYTES, json_number in *.
  revert Hd Hgt. clear Hmax. generalize (jsonb_text_len (escape_nul result)) as n. intros n Hd Hgt.
  change (map_collect _) with [(str "bytes", VNumber (decimal n));
    (str "limit", VNumber (decimal 1048576)); (str "type", VString (str "result_too_large"))].
  cbn [jsonb_text_len map sum_Z foldr fst snd].
  change (numeric_text_len (decimal 1048576)) with 7. literal_lengths. lia.
Qed.

(** Whatever a handler reports, the error that is written has a
    [jsonb] text within the column limit, so no handler error can fail the
    write of its own failure.  (The hypothesis is that the text of the reported
    value has a [usize] length.) *)
Theorem prepare_error_fits error :
  jsonb_text_len (escape_nul error) <= u64_max ->
  jsonb_text_len (prepare_error error) <= ERROR_LIMIT_BYTES.
Proof. apply prepare_error_len. Qed.

(** A long array of short strings, which no cap makes fit. *)
Definition wide_error : Value := VArray (repeat (VString (str "abcdef")) (Z.to_nat 30000)).

Lemma prepare_error_fits_witness :
  jsonb_text_len wide_error = 300000 /\
  jsonb_text_len (prepare_error wide_error) <= ERROR_LIMIT_BYTES.
Proof.
  split; [vm_compute; reflexivity|]. apply prepare_error_fits. by_compute.
Defined.

(** Neither a result nor an error reaches PostgreSQL with a NUL
    character in a string or a key, also after shortening; and a value that has
    none is not changed by the escaping. *)
Theorem prepared_values_have_no_nul value :
  no_nul (prepare_error value) = true /\
  (match prepare_result value with PResult v | PTooLarge v => no_nul v end) = true /\
  (no_nul value = true -> escape_nul value = value).
Proof.
  pose proof (escape_nul_no_nul value) as Hn.
  split_and!; [apply prepare_error_no_nul| |apply escape_nul_id].
  unfold prepare_result. case_Z; done.
Qed.

(** [prepare_error] changes nothing it need not: an error without
    NUL that fits is written as it is; a longer one is written with every
    string capped at a length that fits, where one byte more does not (or caps
    nothing), or, only when even empty strings do not fit, as the summary. *)
Theorem prepare_error_minimal error :
  no_nul error = true ->
  let bytes := jsonb_text_len error in
  (bytes <= ERROR_LIMIT_BYTES -> prepare_error error = error) /\
  (ERROR_LIMIT_BYTES < bytes ->
   (exists cap, 0 <= cap <= longest_string error /\
      prepare_error error = marked bytes (cap_strings error cap) /\
      (cap = longest_string error \/
       ERROR_LIMIT_BYTES < jsonb_text_len (marked bytes (cap_strings error (cap + 1))))) \/
   (ERROR_LIMIT_BYTES < jsonb_text_len (marked bytes (cap_strings error 0)) /\
    prepare_error error = error_summary error bytes)).
Proof.
  intros Hn bytes. unfold prepare_error. rewrite escape_nul_id by done.
  assert (forall cap, fits error bytes cap = None ->
            ERROR_LIMIT_BYTES < jsonb_text_len (marked bytes (cap_strings error cap))) as Hnone.
  { intros cap. unfold fits. case_Z; [done|]. done. }
  case_Z; split; try done; try (unfold bytes; lia). intros _. fold bytes.
  destruct (truncate_error_cases error bytes) as [(cap & ? & Hfit & Hmax)|[? ->]]; [left|right; auto].
  apply fits_Some in Hfit as [Hfit _]. exists cap. split_and!; [lia..|done|naive_solver].
Qed.

Lemma prepare_error_minimal_witness :
  prepare_error (VString (str "boom")) = VString (str "boom").
Proof. apply prepare_error_minimal; by_compute. Defined.

(** A result is kept exactly when its text fits the column;
    otherwise it is replaced by a terminal error that names the limit. *)
Theorem prepare_result_spec result :
  (jsonb_text_len (escape_nul result) <= RESULT_LIMIT_BYTES <->
   prepare_result result = PResult (escape_nul result)) /\
  (forall v, prepare_result result = PTooLarge v ->
     jsonb_text_len v <= ERROR_LIMIT_BYTES \/ u64_max < jsonb_text_len (escape_nul result)) /\
  (forall v, prepare_result result = PTooLarge v ->
     value_get (str "type") v = Some (VString (str "result_too_large"))).
Proof.
  unfold prepare_result. destruct (Z.leb_spec (jsonb_text_len (escape_nul result)) RESULT_LIMIT_BYTES) as [|Hgt].
  - split_and!; done.
  - split_and!; [split; [lia|done]| |].
    + intros v Hv. destruct (Z.le_gt_cases (jsonb_text_len (escape_nul result)) u64_max); [left|by right].
      apply (prepare_result_too_large result); [|done]. rewrite <- Hv. unfold prepare_result.
      destruct (Z.leb_spec (jsonb_text_len (escape_nul result)) RESULT_LIMIT_BYTES); [lia|done].
    + by intros v [= <-].
Qed.

(** ** The length is that of the printed text *)

Abbreviation ascii s := (Forall (fun c => 0 <= c < 128) s).

Lemma ascii_str_len s : ascii s -> str_len s = len s.
Proof.
  induction 1 as [|c s Hc _ IH]; [done|]. rewrite str_len_cons, IH.
  unfold len_utf8, len. case_Z; [|lia]. cbn [length]. lia.
Qed.

Lemma split_once_app p s a b : split_once p s = Some (a, b) -> exists c, s = a ++ c :: b /\ p c = true.
Proof.
  revert a. induction s as [|c s IH]; intros a; simpl; [done|].
  destruct (p c) eqn:Hc; [intros [= <- <-]; by exists c|].
  destruct (split_once p s) as [[a' b']|]; [|done]. intros [= <- <-].
  destruct (IH a' eq_refl) as (d & -> & ?). by exists d.
Qed.

Lemma trim_start_suffix p s : exists t, s = t ++ trim_start_matches p s.
Proof.
  induction s as [|c s [t IH]]; simpl; [by exists []|].
  destruct (p c); [exists (c :: t); simpl; by f_equal|by exists []].
Qed.

Lemma zeros_ascii n : ascii (zeros n).
Proof. unfold zeros. apply List.Forall_forall. by intros c ->%repeat_spec. Qed.

Lemma len_zeros n : 0 <= n -> len (zeros n) = n.
Proof. intros ?. unfold len, zeros. rewrite repeat_length. lia. Qed.

Lemma expand_ascii i f e : ascii i -> ascii f -> ascii (expand i f e).
Proof.
  intros Hi Hf. pose proof zeros_ascii. assert (ascii (i ++ f)) by (by apply Forall_app).
  unfold expand. repeat case_Z; repeat (apply Forall_app; split);
    auto using Forall_take, Forall_drop; by repeat constructor.
Qed.

Lemma expand_len i f e :
  len (expand i f e) =
    Z.max (len i + e) 1 + (let scale := Z.max (len f - e) 0 in if 0 <? scale then scale + 1 else 0).
Proof.
  pose proof (len_nonneg i). pose proof (len_nonneg f). unfold expand. cbn zeta.
  destruct (Z.leb_spec (len i + e) 0).
  - destruct (Z.ltb_spec 0 (len f - e)).
    + rewrite !len_app, len_zeros by lia. change (len (str "0")) with 1.
      change (len (str ".")) with 1. case_Z; lia.
    + rewrite len_app. change (len (str "0")) with 1. change (len (@nil Z)) with 0.
      case_Z; lia.
  - destruct (Z.leb_spec (len f - e) 0).
    + rewrite !len_app, len_zeros by lia. case_Z; lia.
    + rewrite !len_app. change (len (str ".")) with 1.
      assert (forall l : rstring, len (take (Z.to_nat (len i + e)) l) +
               len (drop (Z.to_nat (len i + e)) l) = len l) as Hsplit.
      { intros l. rewrite <- len_app. by rewrite take_drop. }
      pose proof (Hsplit (i ++ f)) as Hl. rewrite len_app in Hl. case_Z; lia.
Qed.

Lemma numeric_text_len_spec rendered :
  wf_number rendered -> numeric_text_len rendered = str_len (numeric_text rendered).
Proof.
  intros (Hascii & Hlen & Hexp). unfold numeric_text_len, numeric_text.
  destruct (split_once is_exponent_mark rendered) as [[mantissa exponent]|] eqn:Hsplit; [|done].
  destruct (parse_i64 exponent) as [e|]; [|done]. specialize (Hexp e eq_refl).
  apply split_once_app in Hsplit as (mark & -> & _).
  apply Forall_app in Hascii as [Hm _]. rewrite len_app in Hlen.
  pose proof (len_nonneg (mark :: exponent)).
  destruct (trim_start_suffix is_sign mantissa) as [signs Hsigns].
  set (digits := trim_start_matches is_sign mantissa) in *.
  assert (ascii digits /\ len digits <= 2 ^ 60) as [Hd Hdl].
  { rewrite Hsigns in Hm, Hlen. rewrite len_app in Hlen. apply Forall_app in Hm as [_ ?].
    pose proof (len_nonneg signs). split; [done|lia]. }
  destruct (default (digits, []) (split_once is_dot digits)) as [i f] eqn:Hif.
  assert (ascii i /\ ascii f /\ len i + len f <= 2 ^ 60) as (Hi & Hf & Hl).
  { destruct (split_once is_dot digits) as [[a b]|] eqn:Hdot; cbn in Hif; injection Hif as <- <-.
    - apply split_once_app in Hdot as (dot & Hdot & _). rewrite Hdot in *. rewrite len_app in Hdl.
      change (len (dot :: b)) with (Z.of_nat (S (length b))) in Hdl. unfold len in *.
      apply Forall_app in Hd as [? [_ ?]%List.Forall_cons_iff]. split_and!; [done..|lia].
    - split_and!; [done|constructor|]. unfold len in *. simpl. lia. }
  pose proof (len_nonneg i). pose proof (len_nonneg f).
  rewrite str_len_app, (ascii_str_len (expand i f e)), expand_len by (by apply expand_ascii).
  rewrite !ascii_str_len by done.
  assert (2 ^ 60 * 4 < i64_max) by done. assert (i64_max < u64_max) by done.
  assert (i64_min < - (2 ^ 60 * 4)) by done.
  unfold try_i64. rewrite !try_from_Some by lia. cbn [default from_option id].
  unfold i64_saturating_sub, i64_saturating_add. rewrite !(saturate_id _ _ (_ - e)) by lia.
  rewrite (saturate_id _ _ (len i + e)) by lia.
  rewrite saturate_id by (case_Z; lia). unfold try_u64.
  rewrite try_from_Some by (case_Z; lia). cbn [default from_option id].
  by destruct (starts_with (str "-") mantissa).
Qed.

Lemma jsonb_char_len_spec c : 0 <= c -> jsonb_char_len c = str_len (jsonb_char c).
Proof.
  intros Hc. unfold jsonb_char_len, jsonb_char.
  repeat match goal with |- context [c =? ?k] => destruct (Z.eqb_spec c k); [by subst|] end.
  cbn [orb].
  case_Z; [|rewrite str_len_cons; change (str_len []) with 0; lia].
  rewrite str_len_app. change (str_len (str "\u00")) with 4. unfold str_len. cbn [map sum_Z foldr].
  assert (forall n, 0 <= n < 16 -> len_utf8 (hex_digit n) = 1) as Hh.
  { intros d ?. unfold len_utf8, hex_digit. repeat case_Z; lia. }
  rewrite !Hh; [done|apply Z.mod_pos_bound; lia|].
  split; [apply Z.div_pos; lia|apply Z.div_lt_upper_bound; lia].
Qed.

Lemma jsonb_string_len_spec s :
  Forall (fun c => 0 <= c) s -> jsonb_string_len s = str_len (jsonb_string s).
Proof.
  intros Hs. unfold jsonb_string_len, jsonb_string. rewrite !str_len_app.
  change (str_len [34]) with 1.
  enough (sum_Z (map jsonb_char_len s) = str_len (flat_map jsonb_char s)) by lia.
  induction Hs as [|c s Hc _ IH]; [done|]. simpl. by rewrite str_len_app, jsonb_char_len_spec, IH.
Qed.

Lemma commas_len l :
  len l <= u64_max -> str_len (commas l) = sum_Z (map str_len l) + separators l.
Proof.
  intros Hl. assert (separators l = 2 * Z.max (len l - 1) 0) as ->.
  { unfold separators, u64_saturating_sub, saturate. pose proof (len_nonneg l). lia. }
  clear Hl. induction l as [|x [|y l] IH]; [done|simpl; unfold len; simpl; lia|].
  change (commas (x :: y :: l)) with (x ++ str ", " ++ commas (y :: l)).
  rewrite !str_len_app, IH. change (str_len (str ", ")) with 2. cbn [map sum_Z foldr].
  unfold len. cbn [length]. lia.
Qed.


