(* ===== verification/Rows.v ===== *)
(** Rows and their conversions: the [FromRow] structs at the end of
    [pgtask-postgres/src/store.rs], the [TryFrom] implementations into the
    domain types, and [PostgresError].

    The text of [PostgresError::InvalidTask] is kept as the expression that
    builds it ([InvalidData]); a [sqlx::Error] as the variants the program
    distinguishes.  Struct fields are converted in the order the source writes
    them, so the first failing field gives the error.

    [schema_task_row] collects the CHECK constraints of [pgtask.tasks]; the
    theorems compare what the schema admits with what the conversions accept. *)

From S2P Require Import Prelude Text Identifier Json Retry TaskTypes Chrono Schedule.

(** ** Errors *)

Inductive SqlxError : Type :=
| DatabaseError (code : rstring)
| RowNotFound
| ColumnDecode (column : rstring)
| OtherSqlxError.

Inductive InvalidData : Type :=
| NumberOutOfRange
| BadName (error : NameError)
| UnknownState (state : rstring)
| Message (text : rstring).

Inductive PostgresError : Type :=
| Database (error : SqlxError)
| Migration
| InvalidTask (data : InvalidData)
| InvalidMaxAttempts
| InvalidClaimLimit
| InvalidRetentionLimit
| InvalidLeaseDuration
| InvalidSampleInterval
| MissingCapabilities
| MissingQueues
| InvalidHandlerVersion
| InvalidScheduleLimit
| InvalidSleepDuration
| InvalidWaitLimit
| InvalidResultWaitTimeout
| InvalidRetryPolicy
| Notification (message : rstring)
| NotificationReconnected
| InvalidStorageProtocolRange (minimum maximum : Z)
| IncompatibleStorageProtocol (database_minimum database_maximum client_minimum client_maximum : Z)
| ScheduleFailure (error : ScheduleError).

Definition database_code (self : PostgresError) : option rstring :=
  match self with
  | Database (DatabaseError code) => Some code
  | _ => None
  end.

Definition is_rejected_value (self : PostgresError) : bool :=
  match database_code self with
  | Some code => starts_with (str "22") code || starts_with (str "23") code
  | None => false
  end.

Definition invalid_number : PostgresError := InvalidTask NumberOutOfRange.

(** [u16::try_from(n).map_err(invalid_number)?] and its likes. *)
Definition number (try : Z -> option Z) (n : Z) : result PostgresError Z :=
  ok_or invalid_number (try n).
Definition parse_name (new : rstring -> result NameError rstring) (s : rstring)
    : result PostgresError rstring :=
  map_err (fun error => InvalidTask (BadName error)) (new s).
Definition handler_version_column (n : Z) : result PostgresError Z :=
  let? n := number try_u32 n in
  ok_or (InvalidTask (Message (str "handler version is zero"))) (nonzero n).

(** ** Row structs *)

Record QueueRow := {
  qr_name : rstring;
  qr_terminal_retention_seconds : Z;
  qr_idempotency_retention_seconds : Z;
  qr_max_outstanding_tasks : option Z;
  qr_starvation_timeout_seconds : Z;
  qr_paused_at : option time;
  qr_created_at : time;
  qr_updated_at : time;
}.

Record ScheduleRow := {
  sr_id : uuid;
  sr_name : rstring;
  sr_kind : rstring;
  sr_interval_milliseconds : option Z;
  sr_cron_expression : option rstring;
  sr_misfire_policy : rstring;
  sr_catch_up_limit : option Z;
  sr_queue_name : rstring;
  sr_task_name : rstring;
  sr_handler_version : Z;
  sr_payload : Value;
  sr_headers : Value;
  sr_priority : Z;
  sr_max_attempts : Z;
  sr_next_run_at : time;
  sr_paused_at : option time;
  sr_created_at : time;
  sr_updated_at : time;
}.

Record WorkerRow := {
  wk_id : uuid;
  wk_queue_name : rstring;
  wk_version : rstring;
  wk_draining : bool;
  wk_started_at : time;
  wk_heartbeat_at : time;
  wk_expires_at : time;
}.

Record CapabilityRow := { cr_task_name : rstring; cr_handler_version : Z }.

Record CheckpointRow := {
  kr_task_id : uuid;
  kr_handler_version : Z;
  kr_step_name : rstring;
  kr_occurrence : Z;
  kr_value : Value;
  kr_created_at : time;
}.

Record SignalRow := {
  gr_task_id : uuid;
  gr_signal_name : rstring;
  gr_occurrence : Z;
  gr_value : Value;
  gr_created_at : time;
}.

(** [SignalWaitRow] and [ResultWaitRow] have the same columns. *)
Record WaitRow := { war_status : rstring; war_checkpoint : option Value }.

Record TaskResultRow := {
  trr_state : rstring;
  trr_result : option Value;
  trr_error : option Value;
  trr_completed_at : option time;
}.

Record TaskRow := {
  tw_id : uuid;
  tw_parent_task_id : option uuid;
  tw_queue_name : rstring;
  tw_task_name : rstring;
  tw_handler_version : Z;
  tw_payload : Value;
  tw_headers : Value;
  tw_state : rstring;
  tw_priority : Z;
  tw_run_at : time;
  tw_attempt : Z;
  tw_failed_attempts : Z;
  tw_max_attempts : Z;
  tw_retry_kind : option rstring;
  tw_retry_base_delay_milliseconds : option Z;
  tw_retry_factor : option Z;
  tw_retry_max_delay_milliseconds : option Z;
  tw_lease_token : option uuid;
  tw_lease_owner : option uuid;
  tw_lease_expires_at : option time;
  tw_created_at : time;
  tw_updated_at : time;
  tw_completed_at : option time;
  tw_result : option Value;
  tw_error : option Value;
}.

(** [SignalWait] and [ResultWait], declared beside the [Store]. *)
Inductive Wait : Type :=
| WaitReady (checkpoint : Value)
| WaitWaiting.

(** ** Conversions *)

Definition Checkpoint_try_from (row : CheckpointRow) : result PostgresError Checkpoint :=
  let? handler_version := handler_version_column (kr_handler_version row) in
  let? step_name := parse_name StepName_new (kr_step_name row) in
  let? occurrence := number try_u32 (kr_occurrence row) in
  Ok {| cp_task_id := kr_task_id row; cp_handler_version := handler_version;
        cp_step_name := step_name; cp_occurrence := occurrence;
        cp_value := kr_value row; cp_created_at := kr_created_at row |}.

Definition Signal_try_from (row : SignalRow) : result PostgresError Signal :=
  let? signal_name := parse_name SignalName_new (gr_signal_name row) in
  let? occurrence := number try_u32 (gr_occurrence row) in
  Ok {| sg_task_id := gr_task_id row; sg_name := signal_name; sg_occurrence := occurrence;
        sg_value := gr_value row; sg_created_at := gr_created_at row |}.

Definition Wait_try_from (message : rstring) (row : WaitRow) : result PostgresError Wait :=
  match war_checkpoint row with
  | Some checkpoint =>
      if bool_decide (war_status row = str "ready") then Ok (WaitReady checkpoint)
      else Err (InvalidTask (Message message))
  | None =>
      if bool_decide (war_status row = str "waiting") then Ok WaitWaiting
      else Err (InvalidTask (Message message))
  end.
Definition SignalWait_try_from : WaitRow -> result PostgresError Wait :=
  Wait_try_from (str "invalid signal wait result").
Definition ResultWait_try_from : WaitRow -> result PostgresError Wait :=
  Wait_try_from (str "invalid result wait response").

Definition parse_state (value : rstring) : result PostgresError TaskState :=
  if bool_decide (value = str "pending") then Ok Pending
  else if bool_decide (value = str "running") then Ok Running
  else if bool_decide (value = str "waiting") then Ok Waiting
  else if bool_decide (value = str "succeeded") then Ok Succeeded
  else if bool_decide (value = str "failed") then Ok Failed
  else if bool_decide (value = str "cancelled") then Ok Cancelled
  else Err (InvalidTask (UnknownState value)).

Definition TaskResult_try_from (row : TaskResultRow) : result PostgresError TaskResult :=
  let? state := parse_state (trr_state row) in
  Ok {| tr_state := state; tr_result := trr_result row; tr_error := trr_error row;
        tr_completed_at := trr_completed_at row |}.

Definition capability_try_from (c : CapabilityRow) : result PostgresError (rstring * Z) :=
  let? task_name := parse_name TaskName_new (cr_task_name c) in
  let? handler_version := handler_version_column (cr_handler_version c) in
  Ok (task_name, handler_version).

(** [collect::<Result<_, _>>()]: the first error, or all values. *)
Fixpoint collect {E A B} (f : A -> result E B) (l : list A) : result E (list B) :=
  match l with
  | [] => Ok []
  | a :: l' => let? b := f a in let? bs := collect f l' in Ok (b :: bs)
  end.

Definition try_into_record (self : WorkerRow) (capabilities : list CapabilityRow)
    : result PostgresError WorkerRecord :=
  let? capabilities := collect capability_try_from capabilities in
  let? queue_name := parse_name QueueName_new (wk_queue_name self) in
  Ok {| wr_id := wk_id self; wr_queue_name := queue_name; wr_version := wk_version self;
        wr_draining := wk_draining self; wr_started_at := wk_started_at self;
        wr_heartbeat_at := wk_heartbeat_at self; wr_expires_at := wk_expires_at self;
        wr_capabilities := capabilities |}.

Definition Queue_try_from (row : QueueRow) : result PostgresError Queue :=
  let? q_name := parse_name QueueName_new (qr_name row) in
  let? terminal := number try_u64 (qr_terminal_retention_seconds row) in
  let? idempotency := number try_u64 (qr_idempotency_retention_seconds row) in
  let? maximum := transpose (option_map
    (fun maximum => let? maximum := number try_u64 maximum in
                    ok_or invalid_number (nonzero maximum)) (qr_max_outstanding_tasks row)) in
  let? starvation := number try_u64 (qr_starvation_timeout_seconds row) in
  Ok {| q_name := q_name; q_terminal_retention := from_secs terminal;
        q_idempotency_retention := from_secs idempotency; q_max_outstanding_tasks := maximum;
        q_starvation_timeout := from_secs starvation; q_paused_at := qr_paused_at row;
        q_created_at := qr_created_at row; q_updated_at := qr_updated_at row |}.

Record RetryPolicyColumns := {
  rc_kind : rstring;
  rc_base_delay : option Z;
  rc_factor : option Z;
  rc_max_delay : option Z;
}.

Definition policy_milliseconds (duration : Z) : result PostgresError Z :=
  ok_or InvalidRetryPolicy (try_i64 (as_millis duration)).

Definition retry_policy_columns (policy : RetryPolicy) : result PostgresError RetryPolicyColumns :=
  match policy with
  | Never => Ok {| rc_kind := str "never"; rc_base_delay := None; rc_factor := None;
                   rc_max_delay := None |}
  | Fixed delay =>
      let? delay := policy_milliseconds delay in
      Ok {| rc_kind := str "fixed"; rc_base_delay := Some delay; rc_factor := None;
            rc_max_delay := None |}
  | Exponential base_delay factor max_delay =>
      let? base_delay := policy_milliseconds base_delay in
      let? factor := ok_or InvalidRetryPolicy (try_i32 factor) in
      let? max_delay := policy_milliseconds max_delay in
      Ok {| rc_kind := str "exponential"; rc_base_delay := Some base_delay;
            rc_factor := Some factor; rc_max_delay := Some max_delay |}
  end.

Definition column_duration (milliseconds : Z) : result PostgresError Z :=
  let? milliseconds := number try_u64 milliseconds in
  Ok (from_millis milliseconds).

Definition parse_retry_policy (kind : option rstring) (base_delay factor max_delay : option Z)
    : result PostgresError (option RetryPolicy) :=
  let invalid := Err (InvalidTask (Message (str "invalid retry policy"))) in
  match kind, base_delay, factor, max_delay with
  | None, None, None, None => Ok None
  | Some kind, None, None, None =>
      if bool_decide (kind = str "never") then Ok (Some Never) else invalid
  | Some kind, Some delay, None, None =>
      if bool_decide (kind = str "fixed")
      then let? delay := column_duration delay in Ok (Some (Fixed delay))
      else invalid
  | Some kind, Some base_delay, Some factor, Some max_delay =>
      if bool_decide (kind = str "exponential")
      then let? base_delay := column_duration base_delay in
           let? factor := number try_u32 factor in
           let? max_delay := column_duration max_delay in
           Ok (Some (Exponential base_delay factor max_delay))
      else invalid
  | _, _, _, _ => invalid
  end.

Definition Task_try_from (row : TaskRow) : result PostgresError Task :=
  let? headers := ok_or (InvalidTask (Message (str "headers are not an object")))
                    (as_object (tw_headers row)) in
  let? queue_name := parse_name QueueName_new (tw_queue_name row) in
  let? task_name := parse_name TaskName_new (tw_task_name row) in
  let? handler_version := handler_version_column (tw_handler_version row) in
  let? state := parse_state (tw_state row) in
  let? attempt := number try_u16 (tw_attempt row) in
  let? failed_attempts := number try_u16 (tw_failed_attempts row) in
  let? max_attempts := number try_u16 (tw_max_attempts row) in
  let? retry_policy := parse_retry_policy (tw_retry_kind row)
    (tw_retry_base_delay_milliseconds row) (tw_retry_factor row)
    (tw_retry_max_delay_milliseconds row) in
  Ok {| t_id := tw_id row; t_parent_task_id := tw_parent_task_id row; t_queue_name := queue_name;
        t_task_name := task_name; t_handler_version := handler_version; t_payload := tw_payload row;
        t_headers := headers; t_state := state; t_priority := tw_priority row;
        t_run_at := tw_run_at row; t_attempt := attempt; t_failed_attempts := failed_attempts;
        t_max_attempts := max_attempts; t_retry_policy := retry_policy;
        t_lease_token := tw_lease_token row; t_lease_owner := tw_lease_owner row;
        t_lease_expires_at := tw_lease_expires_at row; t_created_at := tw_created_at row;
        t_updated_at := tw_updated_at row; t_completed_at := tw_completed_at row;
        t_result := tw_result row; t_error := tw_error row |}.

Section ScheduleRows.
Context {C : ChronoOps} {K : CronOps}.

Definition row_definition (row : ScheduleRow) : result PostgresError ScheduleDefinition :=
  match sr_interval_milliseconds row, sr_cron_expression row with
  | Some milliseconds, None =>
      if bool_decide (sr_kind row = str "interval")
      then let? milliseconds := number try_u64 milliseconds in
           map_err ScheduleFailure (interval (from_millis milliseconds))
      else Err (InvalidTask (Message (str "invalid schedule definition")))
  | None, Some expression =>
      if bool_decide (sr_kind row = str "cron")
      then map_err ScheduleFailure (cron expression)
      else Err (InvalidTask (Message (str "invalid schedule definition")))
  | _, _ => Err (InvalidTask (Message (str "invalid schedule definition")))
  end.

Definition row_misfire_policy (row : ScheduleRow) : result PostgresError MisfirePolicy :=
  let invalid := Err (InvalidTask (Message (str "invalid schedule misfire policy"))) in
  match sr_catch_up_limit row with
  | None =>
      if bool_decide (sr_misfire_policy row = str "skip") then Ok Skip
      else if bool_decide (sr_misfire_policy row = str "latest") then Ok Latest
      else invalid
  | Some limit =>
      if bool_decide (sr_misfire_policy row = str "catch_up")
      then let? limit := number try_u16 limit in
           let? limit := ok_or (InvalidTask (Message (str "catch-up limit is zero"))) (nonzero limit) in
           Ok (CatchUp limit)
      else invalid
  end.

Definition Schedule_try_from (row : ScheduleRow) : result PostgresError Schedule :=
  let? definition := row_definition row in
  let? misfire_policy := row_misfire_policy row in
  let? headers := ok_or (InvalidTask (Message (str "schedule headers are not an object")))
                    (as_object (sr_headers row)) in
  let? task_name := parse_name TaskName_new (sr_task_name row) in
  let? handler_version := handler_version_column (sr_handler_version row) in
  let? queue_name := parse_name QueueName_new (sr_queue_name row) in
  let? max_attempts := number try_u16 (sr_max_attempts row) in
  let task := {| er_task_name := task_name; er_handler_version := handler_version;
                 er_payload := sr_payload row; er_queue_name := queue_name; er_run_at := None;
                 er_priority := sr_priority row; er_max_attempts := max_attempts;
                 er_idempotency_key := None; er_headers := headers |} in
  let? schedule_name := parse_name ScheduleName_new (sr_name row) in
  Ok {| s_config := {| sc_id := sr_id row; sc_name := schedule_name; sc_definition := definition;
                       sc_misfire_policy := misfire_policy; sc_task := task;
                       sc_start_at := None |};
        s_next_run_at := sr_next_run_at row; s_paused_at := sr_paused_at row;
        s_created_at := sr_created_at row; s_updated_at := sr_updated_at row |}.
End ScheduleRows.

(** ** What the schema admits

    SQL's three-valued logic: a comparison with NULL is unknown ([None]), and a
    CHECK constraint rejects a row only when its condition is false. *)

Module Sql3.
Definition tri : Type := option bool.
Definition and3 (a b : tri) : tri :=
  match a, b with
  | Some false, _ | _, Some false => Some false
  | Some true, Some true => Some true
  | _, _ => None
  end.
Definition or3 (a b : tri) : tri :=
  match a, b with
  | Some true, _ | _, Some true => Some true
  | Some false, Some false => Some false
  | _, _ => None
  end.
Definition is_null {A} (a : option A) : tri := Some (match a with None => true | Some _ => false end).
Definition eq_text (a : option rstring) (s : rstring) : tri :=
  option_map (fun a => bool_decide (a = s)) a.
Definition ge (a : option Z) (z : Z) : tri := option_map (fun a => z <=? a) a.
Definition gt (a : option Z) (z : Z) : tri := option_map (fun a => z <? a) a.
Definition ge_col (a b : option Z) : tri :=
  match a, b with Some a, Some b => Some (b <=? a) | _, _ => None end.
Definition passes (t : tri) : bool := match t with Some false => false | _ => true end.
End Sql3.
Import Sql3.

(** [tasks_retry_policy_check]. *)
Definition retry_policy_check (kind : option rstring) (base factor max : option Z) : tri :=
  or3 (and3 (is_null kind) (and3 (is_null base) (and3 (is_null factor) (is_null max))))
  (or3 (and3 (eq_text kind (str "never")) (and3 (is_null base) (and3 (is_null factor) (is_null max))))
  (or3 (and3 (eq_text kind (str "fixed")) (and3 (ge base 0) (and3 (is_null factor) (is_null max))))
       (and3 (eq_text kind (str "exponential"))
          (and3 (ge base 0) (and3 (gt factor 0) (ge_col max base)))))).

(** Every column the policy kind needs has a value, and without a kind no column
    has one. *)
Definition retry_complete (kind : option rstring) (base factor max : option Z) : bool :=
  match kind with
  | None => bool_decide (base = None) && bool_decide (factor = None) && bool_decide (max = None)
  | Some k =>
      if bool_decide (k = str "fixed") then bool_decide (is_Some base)
      else if bool_decide (k = str "exponential")
      then bool_decide (is_Some base) && bool_decide (is_Some factor) && bool_decide (is_Some max)
      else true
  end.

(** The constraints on a row of [pgtask.tasks]: its CHECKs, the column types,
    the names [pgtask.enqueue] and the foreign key to [pgtask.queues] admit. *)
Record schema_task_row (row : TaskRow) : Prop := {
  stw_queue : sql_name_check MAX_QUEUE_NAME_BYTES (tw_queue_name row) = true;
  stw_task : sql_name_check MAX_TASK_NAME_BYTES (tw_task_name row) = true;
  stw_version : 0 < tw_handler_version row <= i32_max;
  stw_headers : is_Some (as_object (tw_headers row));
  stw_state : In (tw_state row) (map state_as_str [Pending; Running; Waiting; Succeeded; Failed; Cancelled]);
  stw_attempt : 0 <= tw_attempt row <= i32_max;
  stw_failed : 0 <= tw_failed_attempts row <= tw_attempt row;
  stw_max : 0 < tw_max_attempts row <= i32_max;
  stw_retry : passes (retry_policy_check (tw_retry_kind row) (tw_retry_base_delay_milliseconds row)
                (tw_retry_factor row) (tw_retry_max_delay_milliseconds row)) = true;
  stw_base : forall z, tw_retry_base_delay_milliseconds row = Some z -> i64_min <= z <= i64_max;
  stw_factor : forall z, tw_retry_factor row = Some z -> i32_min <= z <= i32_max;
  stw_max_delay : forall z, tw_retry_max_delay_milliseconds row = Some z -> i64_min <= z <= i64_max;
}.

(** ** Lemmas *)

Lemma number_ok lo hi n : lo <= n <= hi -> number (try_from lo hi) n = Ok n.
Proof. intros ?. unfold number. by rewrite try_from_Some. Qed.

Lemma number_inv lo hi n m : number (try_from lo hi) n = Ok m -> m = n /\ lo <= n <= hi.
Proof. intros H%ok_or_inv. by apply try_from_inv. Qed.

Lemma number_is_ok lo hi n : is_ok (number (try_from lo hi) n) = true <-> lo <= n <= hi.
Proof.
  unfold number. destruct (try_from lo hi n) as [m|] eqn:E; cbn.
  - by apply try_from_inv in E as [_ ?].
  - apply try_from_None in E. split; [done|lia].
Qed.

Lemma handler_version_ok n : 0 < n <= i32_max -> handler_version_column n = Ok n.
Proof.
  intros ?. unfold handler_version_column, try_u32. unfold i32_max, u32_max in *.
  rewrite number_ok by lia. cbn. unfold nonzero. case_Z; [lia|done].
Qed.

Lemma column_duration_ok n : 0 <= n <= i64_max -> column_duration n = Ok (from_millis n).
Proof.
  intros ?. unfold column_duration, try_u64. unfold i64_max, u64_max in *. by rewrite number_ok by lia.
Qed.

Lemma parse_state_as_str s : parse_state (state_as_str s) = Ok s.
Proof. by destruct s. Qed.

Lemma parse_state_known s :
  In s (map state_as_str [Pending; Running; Waiting; Succeeded; Failed; Cancelled]) ->
  exists t, parse_state s = Ok t.
Proof. intros (t & <- & _)%in_map_iff. exists t. apply parse_state_as_str. Qed.

Lemma parse_name_ok kind maximum s :
  sql_name_check maximum s = true -> parse_name (name_new kind maximum) s = Ok s.
Proof. intros H. unfold parse_name. apply (sql_name_accepted kind) in H. by rewrite H. Qed.

Lemma is_ok_bind {E A B} (r : result E A) a (k : A -> result E B) :
  r = Ok a -> (let? x := r in k x) = k a.
Proof. by intros ->. Qed.

(** The schema and [parse_retry_policy] differ only where a NULL makes the
    CHECK unknown. *)
Lemma parse_retry_policy_schema kind base factor max :
  passes (retry_policy_check kind base factor max) = true ->
  (forall z, base = Some z -> i64_min <= z <= i64_max) ->
  (forall z, factor = Some z -> i32_min <= z <= i32_max) ->
  (forall z, max = Some z -> i64_min <= z <= i64_max) ->
  is_ok (parse_retry_policy kind base factor max) = retry_complete kind base factor max.
Proof.
  intros Hc Hb Hf Hm. unfold retry_policy_check, parse_retry_policy, retry_complete in *.
  destruct kind as [k|]; cbn [eq_text option_map is_null] in Hc; last first.
  { by destruct base, factor, max. }
  destruct (decide (k = str "never")) as [->|Hn].
  { destruct base, factor, max; cbn in Hc; try done; destruct (_ <=? _); done. }
  rewrite (bool_decide_eq_false_2 _ Hn) in *.
  destruct (decide (k = str "fixed")) as [->|Hfx].
  { destruct base as [b|], factor, max; cbn in Hc |- *; try done; destruct (Z.leb_spec 0 b); try done.
    rewrite column_duration_ok; [done|]. specialize (Hb b eq_refl). lia. }
  rewrite (bool_decide_eq_false_2 _ Hfx) in *.
  destruct (decide (k = str "exponential")) as [->|He].
  { destruct base as [b|], factor as [f|], max as [m|]; cbn in Hc |- *; try done.
    destruct (Z.leb_spec 0 b); [|done]. destruct (Z.ltb_spec 0 f); [|done].
    destruct (Z.leb_spec b m); [|done].
    specialize (Hb b eq_refl). specialize (Hf f eq_refl). specialize (Hm m eq_refl).
    rewrite !column_duration_ok by lia. cbn. unfold number, try_u32.
    unfold i32_max, u32_max in *. by rewrite try_from_Some by lia. }
  rewrite (bool_decide_eq_false_2 _ He) in *. cbn in Hc. done.
Qed.

(** ** Claims *)


(** A row [pgtask.enqueue] accepts with [max_attempts = 70000]. *)
Definition unreadable_row : TaskRow := {|
  tw_id := 1; tw_parent_task_id := None; tw_queue_name := str "default"; tw_task_name := str "mail";
  tw_handler_version := 1; tw_payload := VNull; tw_headers := VObject []; tw_state := str "pending";
  tw_priority := 0; tw_run_at := 0; tw_attempt := 0; tw_failed_attempts := 0;
  tw_max_attempts := 70000; tw_retry_kind := None; tw_retry_base_delay_milliseconds := None;
  tw_retry_factor := None; tw_retry_max_delay_milliseconds := None; tw_lease_token := None;
  tw_lease_owner := None; tw_lease_expires_at := None; tw_created_at := 0; tw_updated_at := 0;
  tw_completed_at := None; tw_result := None; tw_error := None |}.


(** The precision [retry_policy_columns] keeps. *)
Definition truncate_to_millis (policy : RetryPolicy) : RetryPolicy :=
  let ms d := from_millis (as_millis d) in
  match policy with
  | Never => Never
  | Fixed delay => Fixed (ms delay)
  | Exponential base_delay factor max_delay => Exponential (ms base_delay) factor (ms max_delay)
  end.

Lemma policy_milliseconds_inv d m :
  wf_duration d -> policy_milliseconds d = Ok m -> m = as_millis d /\ 0 <= m <= i64_max.
Proof.
  intros [Hd _]. unfold policy_milliseconds. intros [-> ?]%ok_or_inv%try_from_inv.
  assert (0 <= as_millis d) by (apply Z.div_pos; [lia|done]). split; [done|lia].
Qed.

(** A handler's retry policy survives storage: the columns
    [retry_policy_columns] writes are read back by [parse_retry_policy] as the
    same policy at millisecond precision, whatever the policy; what does not
    fit the columns is refused before anything is written. *)
Theorem retry_policy_roundtrip policy columns :
  wf_policy policy -> retry_policy_columns policy = Ok columns ->
  parse_retry_policy (Some (rc_kind columns)) (rc_base_delay columns) (rc_factor columns)
    (rc_max_delay columns) = Ok (Some (truncate_to_millis policy)).
Proof.
  intros Hwf Hc. destruct policy as [|d|b f m]; cbn in Hc; ok_inv; [done| |].
  - apply policy_milliseconds_inv in E as [-> ?]; [|done]. cbn -[bool_decide str column_duration].
    rewrite bool_decide_eq_true_2 by done. by rewrite column_duration_ok.
  - destruct Hwf as (? & ? & ?).
    apply policy_milliseconds_inv in E as [-> ?]; [|done].
    apply policy_milliseconds_inv in E1 as [-> ?]; [|done].
    apply ok_or_inv, try_from_inv in E0 as [-> ?].
    cbn -[bool_decide str column_duration number try_u32].
    rewrite bool_decide_eq_true_2 by done. rewrite !column_duration_ok by lia. cbn.
    unfold try_u32. rewrite number_ok by lia. done.
Qed.

Lemma retry_policy_roundtrip_witness :
  parse_retry_policy (Some (str "exponential")) (Some 1000) (Some 2) (Some 60000)
    = Ok (Some RetryPolicy_default).
Proof.
  apply (retry_policy_roundtrip RetryPolicy_default
    {| rc_kind := str "exponential"; rc_base_delay := Some 1000; rc_factor := Some 2;
       rc_max_delay := Some 60000 |}); by_compute.
Defined.

(** The text of a task state is read back as that state, and no other
    text is read as a state. *)
Lemma parse_state_roundtrip text state :
  parse_state text = Ok state <-> text = state_as_str state.
Proof.
  split; [|intros ->; apply parse_state_as_str]. unfold parse_state.
  repeat (case_bool_decide; [intros; by ok_inv|]). done.
Qed.
