(* ===== verification/Tables.v ===== *)
(** The database behind the [Store]: the tables of
    [pgtask-postgres/migrations/0001_initial.sql] as later migrations leave
    them, and the row triggers on [pgtask.tasks].

    A table is a finite map from its primary key.  A statement either returns
    the new tables or a SQLSTATE; a failed statement changes nothing, as its
    transaction rolls back.  Statements run one after another: each protocol
    function locks the rows it changes, and what [SKIP LOCKED] would skip is
    the argument [e_locked] of the environment.  [statement_timestamp()] is
    [e_now] and the n-th [gen_random_uuid()] of a statement [e_uuid n].

    A lease is its three columns, which every statement sets together.  Not
    kept: notifications ([pg_notify]), grants. *)

From S2P Require Import Prelude Text Identifier Json TaskTypes Outcome Rows.

(** ** Rows *)

Record Lease := { l_token : uuid; l_owner : uuid; l_expires_at : time }.

Record RetryColumns := {
  y_kind : option rstring;
  y_base_delay : option Z;
  y_factor : option Z;
  y_max_delay : option Z;
}.
Global Instance RetryColumns_eq_dec : EqDecision RetryColumns.
Proof. solve_decision. Defined.
Definition no_retry_columns : RetryColumns :=
  {| y_kind := None; y_base_delay := None; y_factor := None; y_max_delay := None |}.

(** The columns of [pgtask.tasks] that are only ever inserted. *)
Record TaskSpec := {
  sp_queue_name : rstring;
  sp_task_name : rstring;
  sp_handler_version : Z;
  sp_payload : Value;
  sp_headers : Value;
  sp_priority : Z;
  sp_idempotency_key : option rstring;
  sp_created_at : time;
  sp_scheduled : option (uuid * time);
}.

(** A row of [pgtask.tasks], without its key. *)
Record TaskRec := {
  k_spec : TaskSpec;
  k_parent : option uuid;
  k_state : TaskState;
  k_run_at : time;
  k_attempt : Z;
  k_failed_attempts : option Z;
  k_max_attempts : Z;
  k_retry : RetryColumns;
  k_lease : option Lease;
  k_cancel_requested_at : option time;
  k_updated_at : time;
  k_completed_at : option time;
  k_result : option Value;
  k_error : option Value;
}.

Definition k_queue_name (t : TaskRec) : rstring := sp_queue_name (k_spec t).

Inductive AttemptState : Type :=
| ARunning | ASucceeded | AFailed | ALost | ACancelled | ASuspended | AReleased.
Global Instance AttemptState_eq_dec : EqDecision AttemptState.
Proof. solve_decision. Defined.

Record AttemptRec := {
  a_token : uuid;
  a_worker : uuid;
  a_state : AttemptState;
  a_started_at : time;
  a_finished_at : option time;
  a_error : option Value;
}.

Record QueueRec := {
  u_terminal_retention : Z;
  u_idempotency_retention : Z;
  u_max : option Z;
  u_starvation : Z;
  u_capacity : Z;
  u_paused_at : option time;
  u_created_at : time;
  u_updated_at : time;
}.

Record KeyRec := { i_task : uuid; i_created_at : time; i_expires_at : option time }.

Record CheckpointRec := { c_value : Value; c_created_at : time }.

(** [pgtask.waits] and [pgtask.result_waits]. *)
Inductive WaitOutcome : Type := OSignal | OTimeout | OCancelled | OState (s : TaskState).
Record WaitRec := {
  w_signal_name : rstring;
  w_signal_occurrence : Z;
  w_timeout_at : option time;
  w_resolved : option (time * WaitOutcome);
}.
Record ResultWaitRec := {
  rw_result_task : uuid;
  rw_timeout_at : option time;
  rw_resolved : option (time * WaitOutcome);
}.

(** The [demand_*] columns of a queue once it has been sampled; before that they
    are null and zero. *)
Record DemandRec := {
  dm_sampled_at : time;
  dm_live_workers : Z;
  dm_routable_tasks : Z;
  dm_unroutable_tasks : Z;
}.

(** A row of [pgtask.administrator_audit], on a task or on a schedule. *)
Record AuditRec := {
  au_actor : rstring;
  au_action : rstring;
  au_task : option uuid;
  au_schedule : option uuid;
  au_occurred_at : time;
}.

(** The key of a step: task, handler version, step name, occurrence. *)
Abbreviation StepKey := (uuid * Z * rstring * Z)%type.
Definition step_task (k : StepKey) : uuid := k.1.1.1.

Record Db := {
  tasks : gmap Z TaskRec;
  attempts : gmap (Z * Z) AttemptRec;
  queues : gmap (list Z) QueueRec;
  keys : gmap (list Z * list Z) KeyRec;
  policies : gmap (list Z * list Z * Z) RetryColumns;
  checkpoints : gmap (Z * Z * list Z * Z) CheckpointRec;
  signals : gmap (Z * list Z * Z) CheckpointRec;
  waits : gmap (Z * Z * list Z * Z) WaitRec;
  result_waits : gmap (Z * Z * list Z * Z) ResultWaitRec;
  schedules : gmap Z ScheduleRow;
  audit : list AuditRec;
  workers : gmap Z WorkerRow;
  worker_capabilities : gset (Z * list Z * Z);
  demand : gmap (list Z) DemandRec;
}.

Record Env := {
  e_now : time;
  e_uuid : nat -> uuid;
  e_locked : gset Z;
}.

Definition set_tasks (x : gmap Z TaskRec) (d : Db) : Db :=
  {| tasks := x; attempts := attempts d; queues := queues d; keys := keys d; policies := policies d;
     checkpoints := checkpoints d; signals := signals d; waits := waits d;
     result_waits := result_waits d; schedules := schedules d; audit := audit d; workers := workers d;
     worker_capabilities := worker_capabilities d; demand := demand d |}.
Definition set_attempts (x : gmap (Z * Z) AttemptRec) (d : Db) : Db :=
  {| tasks := tasks d; attempts := x; queues := queues d; keys := keys d; policies := policies d;
     checkpoints := checkpoints d; signals := signals d; waits := waits d;
     result_waits := result_waits d; schedules := schedules d; audit := audit d; workers := workers d;
     worker_capabilities := worker_capabilities d; demand := demand d |}.
Definition set_queues (x : gmap (list Z) QueueRec) (d : Db) : Db :=
  {| tasks := tasks d; attempts := attempts d; queues := x; keys := keys d; policies := policies d;
     checkpoints := checkpoints d; signals := signals d; waits := waits d;
     result_waits := result_waits d; schedules := schedules d; audit := audit d; workers := workers d;
     worker_capabilities := worker_capabilities d; demand := demand d |}.
Definition set_keys (x : gmap (list Z * list Z) KeyRec) (d : Db) : Db :=
  {| tasks := tasks d; attempts := attempts d; queues := queues d; keys := x; policies := policies d;
     checkpoints := checkpoints d; signals := signals d; waits := waits d;
     result_waits := result_waits d; schedules := schedules d; audit := audit d; workers := workers d;
     worker_capabilities := worker_capabilities d; demand := demand d |}.
Definition set_checkpoints (x : gmap (Z * Z * list Z * Z) CheckpointRec) (d : Db) : Db :=
  {| tasks := tasks d; attempts := attempts d; queues := queues d; keys := keys d;
     policies := policies d; checkpoints := x; signals := signals d; waits := waits d;
     result_waits := result_waits d; schedules := schedules d; audit := audit d; workers := workers d;
     worker_capabilities := worker_capabilities d; demand := demand d |}.
Definition set_signals (x : gmap (Z * list Z * Z) CheckpointRec) (d : Db) : Db :=
  {| tasks := tasks d; attempts := attempts d; queues := queues d; keys := keys d;
     policies := policies d; checkpoints := checkpoints d; signals := x; waits := waits d;
     result_waits := result_waits d; schedules := schedules d; audit := audit d; workers := workers d;
     worker_capabilities := worker_capabilities d; demand := demand d |}.
Definition set_waits (x : gmap (Z * Z * list Z * Z) WaitRec) (d : Db) : Db :=
  {| tasks := tasks d; attempts := attempts d; queues := queues d; keys := keys d;
     policies := policies d; checkpoints := checkpoints d; signals := signals d; waits := x;
     result_waits := result_waits d; schedules := schedules d; audit := audit d; workers := workers d;
     worker_capabilities := worker_capabilities d; demand := demand d |}.
Definition set_result_waits (x : gmap (Z * Z * list Z * Z) ResultWaitRec) (d : Db) : Db :=
  {| tasks := tasks d; attempts := attempts d; queues := queues d; keys := keys d;
     policies := policies d; checkpoints := checkpoints d; signals := signals d; waits := waits d;
     result_waits := x; schedules := schedules d; audit := audit d; workers := workers d;
     worker_capabilities := worker_capabilities d; demand := demand d |}.
Definition set_audit (x : list AuditRec) (d : Db) : Db :=
  {| tasks := tasks d; attempts := attempts d; queues := queues d; keys := keys d;
     policies := policies d; checkpoints := checkpoints d; signals := signals d; waits := waits d;
     result_waits := result_waits d; schedules := schedules d; audit := x; workers := workers d;
     worker_capabilities := worker_capabilities d; demand := demand d |}.
Definition set_policies (x : gmap (list Z * list Z * Z) RetryColumns) (d : Db) : Db :=
  {| tasks := tasks d; attempts := attempts d; queues := queues d; keys := keys d;
     policies := x; checkpoints := checkpoints d; signals := signals d; waits := waits d;
     result_waits := result_waits d; schedules := schedules d; audit := audit d; workers := workers d;
     worker_capabilities := worker_capabilities d; demand := demand d |}.
Definition set_workers (x : gmap Z WorkerRow) (y : gset (Z * list Z * Z)) (d : Db) : Db :=
  {| tasks := tasks d; attempts := attempts d; queues := queues d; keys := keys d;
     policies := policies d; checkpoints := checkpoints d; signals := signals d; waits := waits d;
     result_waits := result_waits d; schedules := schedules d; audit := audit d; workers := x;
     worker_capabilities := y; demand := demand d |}.
Definition set_demand (x : gmap (list Z) DemandRec) (d : Db) : Db :=
  {| tasks := tasks d; attempts := attempts d; queues := queues d; keys := keys d;
     policies := policies d; checkpoints := checkpoints d; signals := signals d; waits := waits d;
     result_waits := result_waits d; schedules := schedules d; audit := audit d; workers := workers d;
     worker_capabilities := worker_capabilities d; demand := x |}.
Definition set_schedules (x : gmap Z ScheduleRow) (d : Db) : Db :=
  {| tasks := tasks d; attempts := attempts d; queues := queues d; keys := keys d;
     policies := policies d; checkpoints := checkpoints d; signals := signals d; waits := waits d;
     result_waits := result_waits d; schedules := x; audit := audit d; workers := workers d;
     worker_capabilities := worker_capabilities d; demand := demand d |}.

Definition empty_db : Db :=
  {| tasks := ∅; attempts := ∅; queues := ∅; keys := ∅; policies := ∅; checkpoints := ∅;
     signals := ∅; waits := ∅; result_waits := ∅; schedules := ∅; audit := []; workers := ∅;
     worker_capabilities := ∅; demand := ∅ |}.

(** ** Errors, intervals, JSON columns *)

Abbreviation sqlstate := (list Z) (only parsing).
Definition invalid_parameter : sqlstate := str "22023".
Definition untranslatable_character : sqlstate := str "22P05".
Definition not_null_violation : sqlstate := str "23502".
Definition foreign_key_violation : sqlstate := str "23503".
Definition unique_violation : sqlstate := str "23505".
Definition check_violation : sqlstate := str "23514".
Definition capacity_reached : sqlstate := str "PT001".

Abbreviation stmt A := (result sqlstate (Db * A)%type) (only parsing).

Definition milliseconds (n : Z) : Z := n * NANOS_PER_MILLI.
Definition seconds (n : Z) : Z := n * NANOS_PER_SEC.

(** A [jsonb] parameter: PostgreSQL refuses [\u0000]. *)
Definition jsonb (v : Value) : result sqlstate Value :=
  if no_nul v then Ok v else Err untranslatable_character.
(** [CHECK (octet_length(v::text) <= n)]. *)
Definition size_check (n : Z) (v : option Value) : result sqlstate unit :=
  match v with
  | None => Ok tt
  | Some v => if jsonb_text_len v <=? n then Ok tt else Err check_violation
  end.
Definition CHECKPOINT_LIMIT : Z := 1048576.
Definition HEADERS_LIMIT : Z := 65536.
Definition PAYLOAD_LIMIT : Z := 1048576.

(** A nullable column inside [jsonb_build_object]. *)
Definition or_null (v : option Value) : Value := default VNull v.

(** [uuid::text]. *)
Definition hex_text (digits : nat) (n : Z) : rstring :=
  map (fun i => hex_digit (n / 16 ^ Z.of_nat i mod 16)) (rev (seq 0 digits)).
Definition uuid_text (u : uuid) : rstring :=
  hex_text 8 (u / 2 ^ 96) ++ str "-" ++ hex_text 4 (u / 2 ^ 80) ++ str "-" ++
  hex_text 4 (u / 2 ^ 64) ++ str "-" ++ hex_text 4 (u / 2 ^ 48) ++ str "-" ++ hex_text 12 u.

(** Monadic fold: statements applied to a list of rows in order. *)
Fixpoint foldM {E S A} (f : S -> A -> result E S) (s : S) (l : list A) : result E S :=
  match l with
  | [] => Ok s
  | a :: l' => let? s := f s a in foldM f s l'
  end.

(** ** Row updates of [pgtask.tasks] *)

Definition outstanding (s : TaskState) : bool := negb (is_terminal s).

(** [state = 'running' AND attempt = p_attempt AND lease_token = p_lease_token]. *)
Definition holds_lease (attempt : Z) (token : uuid) (t : TaskRec) : bool :=
  bool_decide (k_state t = Running) && (k_attempt t =? attempt)
  && match k_lease t with Some l => l_token l =? token | None => false end.

(** [COALESCE(failed_attempts, (SELECT count( * ) ... IN ('failed', 'lost')))]. *)
Definition charged (a : AttemptRec) : bool :=
  match a_state a with AFailed | ALost => true | _ => false end.
Definition failures (d : Db) (id : uuid) (t : TaskRec) : Z :=
  match k_failed_attempts t with
  | Some n => n
  | None => len (filter (fun ka : Z * Z * AttemptRec => ka.1.1 = id /\ charged ka.2 = true)
                   (map_to_list (attempts d)))
  end.

Definition coalesce {A} (a b : option A) : option A := match a with Some _ => a | None => b end.
Definition coalesce_retry (a b : RetryColumns) : RetryColumns := {|
  y_kind := coalesce (y_kind a) (y_kind b);
  y_base_delay := coalesce (y_base_delay a) (y_base_delay b);
  y_factor := coalesce (y_factor a) (y_factor b);
  y_max_delay := coalesce (y_max_delay a) (y_max_delay b);
|}.
Definition retry_columns_check (y : RetryColumns) : bool :=
  Sql3.passes (retry_policy_check (y_kind y) (y_base_delay y) (y_factor y) (y_max_delay y)).

Definition cancel_row (now : time) (error : Value) (t : TaskRec) : TaskRec := {|
  k_spec := k_spec t; k_parent := k_parent t; k_state := Cancelled; k_run_at := k_run_at t;
  k_attempt := k_attempt t; k_failed_attempts := k_failed_attempts t;
  k_max_attempts := k_max_attempts t; k_retry := k_retry t; k_lease := None;
  k_cancel_requested_at := Some now; k_updated_at := now; k_completed_at := Some now;
  k_result := k_result t; k_error := Some error |}.

(** [SET state = 'pending', run_at = now, updated_at = now]. *)
Definition wake_row (now : time) (t : TaskRec) : TaskRec := {|
  k_spec := k_spec t; k_parent := k_parent t; k_state := Pending; k_run_at := now;
  k_attempt := k_attempt t; k_failed_attempts := k_failed_attempts t;
  k_max_attempts := k_max_attempts t; k_retry := k_retry t; k_lease := k_lease t;
  k_cancel_requested_at := k_cancel_requested_at t; k_updated_at := now;
  k_completed_at := k_completed_at t; k_result := k_result t; k_error := k_error t |}.

Definition finish_attempt (state : AttemptState) (now : time) (error : option Value)
    (a : AttemptRec) : AttemptRec := {|
  a_token := a_token a; a_worker := a_worker a; a_state := state; a_started_at := a_started_at a;
  a_finished_at := Some now; a_error := error |}.

Definition put_task (id : uuid) (t : TaskRec) (d : Db) : Db := set_tasks (<[id := t]> (tasks d)) d.
Definition alter_attempt (f : AttemptRec -> AttemptRec) (id : uuid) (attempt : Z) (d : Db) : Db :=
  set_attempts (alter f (id, attempt) (attempts d)) d.

(** ** Triggers *)

Definition set_capacity (n : Z) (u : QueueRec) : QueueRec := {|
  u_terminal_retention := u_terminal_retention u;
  u_idempotency_retention := u_idempotency_retention u; u_max := u_max u;
  u_starvation := u_starvation u; u_capacity := n; u_paused_at := u_paused_at u;
  u_created_at := u_created_at u; u_updated_at := u_updated_at u |}.

Definition release_capacity (queue : rstring) (d : Db) : Db :=
  set_queues (alter (fun u => match u_max u with
                              | Some _ => set_capacity (Z.max (u_capacity u - 1) 0) u
                              | None => u
                              end) queue (queues d)) d.

Definition take_capacity (queue : rstring) (d : Db) : result sqlstate Db :=
  match queues d !! queue with
  | Some u =>
      match u_max u with
      | Some maximum =>
          if u_capacity u <? maximum
          then Ok (set_queues (<[queue := set_capacity (u_capacity u + 1) u]> (queues d)) d)
          else Err capacity_reached
      | None => Ok d
      end
  | None => Ok d
  end.

(** [enforce_queue_capacity], before an UPDATE OF state from [old] (None for an
    INSERT) to [new]. *)
Definition enforce_queue_capacity (old : option TaskState) (new : TaskState) (queue : rstring)
    (d : Db) : result sqlstate Db :=
  match old with
  | Some old =>
      if outstanding old && is_terminal new then Ok (release_capacity queue d)
      else if outstanding old || is_terminal new then Ok d
      else take_capacity queue d
  | None => if is_terminal new then Ok d else take_capacity queue d
  end.

(** UPDATE of one row with the state among its columns: the BEFORE trigger, then
    the row. *)
Definition update_task (id : uuid) (old new : TaskRec) (d : Db) : result sqlstate Db :=
  let? d := enforce_queue_capacity (Some (k_state old)) (k_state new) (k_queue_name new) d in
  Ok (put_task id new d).

Definition finishes (old new : TaskRec) : bool := outstanding (k_state old) && is_terminal (k_state new).
Definition reopens (old new : TaskRec) : bool := is_terminal (k_state old) && outstanding (k_state new).

Definition set_expiry (e : option time) (i : KeyRec) : KeyRec :=
  {| i_task := i_task i; i_created_at := i_created_at i; i_expires_at := e |}.

Definition update_key (f : KeyRec -> KeyRec) (id : uuid) (t : TaskRec) (d : Db) : Db :=
  match sp_idempotency_key (k_spec t) with
  | None => d
  | Some key => set_keys (alter (fun i => if i_task i =? id then f i else i)
                            (k_queue_name t, key) (keys d)) d
  end.

Definition manage_idempotency_key (now : time) (id : uuid) (old new : TaskRec) (d : Db) : Db :=
  if finishes old new then
    let retention := option_map (fun u => seconds (u_idempotency_retention u))
                       (queues d !! k_queue_name new) in
    update_key (set_expiry (option_map (fun r => default now (k_completed_at new) + r) retention)) id new d
  else if reopens old new then update_key (set_expiry None) id new d
  else d.

(** INSERT of a checkpoint, [ON CONFLICT DO UPDATE SET value = checkpoints.value]:
    the value in place afterwards.  The CHECK applies to the proposed row. *)
Definition insert_checkpoint (now : time) (k : StepKey) (v : Value) (d : Db) : stmt Value :=
  let? _ := size_check CHECKPOINT_LIMIT (Some v) in
  match checkpoints d !! k with
  | Some c => Ok (d, c_value c)
  | None => Ok (set_checkpoints (<[k := {| c_value := v; c_created_at := now |}]> (checkpoints d)) d, v)
  end.

Definition outcome_json (state : rstring) (result error : option Value) : Value :=
  VObject (map_collect [(str "state", VString state); (str "result", or_null result);
                        (str "error", or_null error)]).

Definition resolve_result_wait (now : time) (o : WaitOutcome) (w : ResultWaitRec) : ResultWaitRec :=
  {| rw_result_task := rw_result_task w; rw_timeout_at := rw_timeout_at w; rw_resolved := Some (now, o) |}.
Definition resolve_wait (now : time) (o : WaitOutcome) (w : WaitRec) : WaitRec :=
  {| w_signal_name := w_signal_name w; w_signal_occurrence := w_signal_occurrence w;
     w_timeout_at := w_timeout_at w; w_resolved := Some (now, o) |}.

(** Wake a waiting task: a state update that neither takes nor frees capacity. *)
Definition wake_task (now : time) (id : uuid) (d : Db) : Db :=
  match tasks d !! id with
  | Some t => if bool_decide (k_state t = Waiting) then put_task id (wake_row now t) d else d
  | None => d
  end.

(** The open result waits on [id] whose task is waiting. *)
Definition matching_result_waits (id : uuid) (d : Db) : list StepKey :=
  map fst (filter (fun kw : StepKey * ResultWaitRec =>
    rw_result_task kw.2 = id /\ rw_resolved kw.2 = None /\
    k_state <$> (tasks d !! step_task kw.1) = Some Waiting) (map_to_list (result_waits d))).

Definition resolve_one (now : time) (new : TaskRec) (d : Db) (k : StepKey) : result sqlstate Db :=
  let? (d, _) := insert_checkpoint now k
    (outcome_json (state_as_str (k_state new)) (k_result new) (k_error new)) d in
  let d := wake_task now (step_task k) d in
  Ok (set_result_waits (alter (resolve_result_wait now (OState (k_state new))) k (result_waits d)) d).

Definition close_waits_of (now : time) (id : uuid) (d : Db) : Db :=
  set_waits
    (map_imap (fun k w => Some (if bool_decide (step_task k = id /\ w_resolved w = None)
                                then resolve_wait now OCancelled w else w)) (waits d))
  (set_result_waits
    (map_imap (fun k w => Some (if bool_decide (step_task k = id /\ rw_resolved w = None)
                                then resolve_result_wait now OCancelled w else w)) (result_waits d)) d).

Definition resolve_task_result (now : time) (id : uuid) (new : TaskRec) (d : Db) : result sqlstate Db :=
  let? d := foldM (resolve_one now new) d (matching_result_waits id d) in
  Ok (close_waits_of now id d).

(** The outstanding tasks [id] owns. *)
Definition owned_children (id : uuid) (d : Db) : list (uuid * TaskRec) :=
  filter (fun kt : uuid * TaskRec => k_parent kt.2 = Some id /\ outstanding (k_state kt.2) = true)
    (map_to_list (tasks d)).

Definition parent_finished (id : uuid) (state : TaskState) : Value :=
  VObject (map_collect [(str "type", VString (str "parent_finished"));
                        (str "parent_task_id", VString (uuid_text id));
                        (str "parent_state", VString (state_as_str state))]).

(** UPDATE ... SET state = 'cancelled' of the rows [l], and their attempts that
    still run. *)
Definition cancel_rows (now : time) (error : Value) (l : list (uuid * TaskRec)) (d : Db)
    : result sqlstate Db :=
  let? d := foldM (fun d '(id, t) => update_task id t (cancel_row now error t) d) d l in
  Ok (foldl (fun d '(id, t) =>
        alter_attempt (fun a => if bool_decide (a_state a = ARunning)
                                then finish_attempt ACancelled now (Some error) a else a)
          id (k_attempt t) d) d l).

(** The AFTER triggers of one updated row, in the order of their names:
    [cancel_owned_children], [manage_idempotency_key], [resolve_task_result].
    Cancelling children fires their triggers in turn; the fuel is the number of
    tasks, and a level below [cancel_owned_children] has fewer outstanding ones. *)
Fixpoint after_update (fuel : nat) (now : time) (id : uuid) (old new : TaskRec) (d : Db)
    : result sqlstate Db :=
  if finishes old new then
    match fuel with
    | O => Ok d
    | S fuel' =>
        let children := owned_children id d in
        let error := parent_finished id (k_state new) in
        let? d := cancel_rows now error children d in
        let? d := foldM (fun d '(cid, t) => after_update fuel' now cid t (cancel_row now error t) d)
                    d children in
        resolve_task_result now id new (manage_idempotency_key now id old new d)
    end
  else Ok (manage_idempotency_key now id old new d).

Definition trigger_fuel (d : Db) : nat := S (size (tasks d)).

(** A whole UPDATE statement on rows [l] (key, old row, new row), with [between]
    the other data-modifying parts of the statement: rows first, then
    [between], then the AFTER triggers row by row. *)
Definition update_rows (now : time) (l : list (uuid * TaskRec * TaskRec)) (between : Db -> Db)
    (d : Db) : result sqlstate Db :=
  let? d := foldM (fun d '(id, old, new) => update_task id old new d) d l in
  let d := between d in
  foldM (fun d '(id, old, new) => after_update (trigger_fuel d) now id old new d) d l.
