(* ===== verification/Protocol.v ===== *)
(** The storage protocol: the SQL functions of
    [pgtask-postgres/migrations] the [Store] calls, in the version the last
    migration leaves.  Each is a statement on [Tables.Db].

    [claim], [fail_task], [recover_expired] and [admin_retry_task] as rewritten
    by migration 0006; [renew_leases] and [wait_for_result] by 0005 and 0013;
    [complete_tasks] and [fail_tasks] of 0010; [release_tasks] of 0015. *)

From stdpp Require Import sorting.
From S2P Require Import Prelude Text Identifier Json TaskTypes Outcome Rows Tables.

(** ** Queues *)

Definition new_queue (now : time) : QueueRec := {|
  u_terminal_retention := 604800; u_idempotency_retention := 2592000; u_max := None;
  u_starvation := 300; u_capacity := 0; u_paused_at := None; u_created_at := now;
  u_updated_at := now |}.

(** [INSERT INTO pgtask.queues (name) ... ON CONFLICT DO NOTHING]. *)
Definition ensure_queue (now : time) (queue : rstring) (d : Db) : Db :=
  match queues d !! queue with
  | Some _ => d
  | None => set_queues (<[queue := new_queue now]> (queues d)) d
  end.

Definition outstanding_in (queue : rstring) (d : Db) : Z :=
  len (filter (fun kt : uuid * TaskRec =>
        k_queue_name kt.2 = queue /\ outstanding (k_state kt.2) = true) (map_to_list (tasks d))).

Definition queue_checks (u : QueueRec) : bool :=
  (0 <=? u_terminal_retention u) && (0 <=? u_idempotency_retention u)
  && match u_max u with Some m => 0 <? m | None => true end
  && (0 <=? u_starvation u) && (0 <=? u_capacity u).

Definition put_queue (e : Env) (queue : rstring) (terminal idempotency : Z) (maximum : option Z)
    (starvation : Z) (d : Db) : stmt QueueRec :=
  let capacity :=
    match maximum with
    | None => 0
    | Some _ =>
        match queues d !! queue with
        | Some u => match u_max u with
                    | Some _ => u_capacity u
                    | None => outstanding_in queue d
                    end
        | None => outstanding_in queue d
        end
    end in
  let u := {| u_terminal_retention := terminal; u_idempotency_retention := idempotency;
              u_max := maximum; u_starvation := starvation; u_capacity := capacity;
              u_paused_at := queues d !! queue ≫= u_paused_at;
              u_created_at := default (e_now e) (u_created_at <$> queues d !! queue);
              u_updated_at := e_now e |} in
  guard? sql_name_check MAX_QUEUE_NAME_BYTES queue && queue_checks u else check_violation;
  Ok (set_queues (<[queue := u]> (queues d)) d, u).

Definition set_queue_paused (e : Env) (queue : rstring) (paused : bool) (d : Db)
    : stmt (option QueueRec) :=
  match queues d !! queue with
  | None => Ok (d, None)
  | Some u =>
      let u' := {| u_terminal_retention := u_terminal_retention u;
                   u_idempotency_retention := u_idempotency_retention u; u_max := u_max u;
                   u_starvation := u_starvation u; u_capacity := u_capacity u;
                   u_paused_at := if paused then Some (default (e_now e) (u_paused_at u)) else None;
                   u_created_at := u_created_at u; u_updated_at := e_now e |} in
      Ok (set_queues (<[queue := u']> (queues d)) d, Some u')
  end.

(** ** Enqueue *)

Definition new_task (now : time) (spec : TaskSpec) (run_at max_attempts : Z) (retry : RetryColumns)
    : TaskRec := {|
  k_spec := spec; k_parent := None; k_state := Pending; k_run_at := run_at; k_attempt := 0;
  k_failed_attempts := Some 0; k_max_attempts := max_attempts; k_retry := retry; k_lease := None;
  k_cancel_requested_at := None; k_updated_at := now; k_completed_at := None; k_result := None;
  k_error := None |}.

(** INSERT INTO pgtask.tasks: the BEFORE triggers ([enforce_queue_capacity],
    [snapshot_task_retry_policy]), the CHECKs, the primary key. *)
Definition insert_task (now : time) (id : uuid) (spec : TaskSpec) (run_at max_attempts : Z) (d : Db)
    : result sqlstate Db :=
  let? d := enforce_queue_capacity None Pending (sp_queue_name spec) d in
  let retry := default no_retry_columns
    (policies d !! (sp_queue_name spec, sp_task_name spec, sp_handler_version spec)) in
  let? _ := size_check PAYLOAD_LIMIT (Some (sp_payload spec)) in
  let? _ := size_check HEADERS_LIMIT (Some (sp_headers spec)) in
  guard? retry_columns_check retry && (0 <? sp_handler_version spec) && (0 <? max_attempts)
    else check_violation;
  match tasks d !! id with
  | Some _ => Err unique_violation
  | None => Ok (put_task id (new_task now spec run_at max_attempts retry) d)
  end.

(** Reserve an idempotency key: the task it names and whether that is the
    candidate. *)
Definition reserve_key (now : time) (queue key : rstring) (candidate : uuid) (d : Db) : Db * uuid * bool :=
  let fresh := {| i_task := candidate; i_created_at := now; i_expires_at := None |} in
  match keys d !! (queue, key) with
  | None => (set_keys (<[(queue, key) := fresh]> (keys d)) d, candidate, true)
  | Some i =>
      match i_expires_at i with
      | Some expiry => if expiry <=? now
                       then (set_keys (<[(queue, key) := fresh]> (keys d)) d, candidate, true)
                       else (d, i_task i, false)
      | None => (d, i_task i, false)
      end
  end.

Definition enqueue (e : Env) (task_name : rstring) (payload : Value) (queue_name : rstring)
    (handler_version : Z) (run_at : option time) (priority max_attempts : Z)
    (idempotency_key : option rstring) (headers : Value) (d : Db) : stmt (uuid * bool) :=
  let? payload := jsonb payload in
  let? headers := jsonb headers in
  guard? sql_name_check MAX_TASK_NAME_BYTES task_name else invalid_parameter;
  guard? sql_name_check MAX_QUEUE_NAME_BYTES queue_name else invalid_parameter;
  guard? 0 <? handler_version else invalid_parameter;
  guard? 0 <? max_attempts else invalid_parameter;
  guard? bool_decide (is_Some (as_object headers)) else invalid_parameter;
  let now := e_now e in
  let candidate := e_uuid e 0 in
  let d := ensure_queue now queue_name d in
  let '(d, id, mine) :=
    match idempotency_key with
    | Some key => reserve_key now queue_name key candidate d
    | None => (d, candidate, true)
    end in
  if mine then
    let spec := {| sp_queue_name := queue_name; sp_task_name := task_name;
                   sp_handler_version := handler_version; sp_payload := payload;
                   sp_headers := headers; sp_priority := priority;
                   sp_idempotency_key := idempotency_key; sp_created_at := now;
                   sp_scheduled := None |} in
    let? d := insert_task now id spec (default now run_at) max_attempts d in
    Ok (d, (id, true))
  else Ok (d, (id, false)).

(** ** Claim *)

Abbreviation capabilities := (list (list Z * Z)) (only parsing).

Definition capable (caps : capabilities) (t : TaskRec) : bool :=
  bool_decide ((sp_task_name (k_spec t), sp_handler_version (k_spec t)) ∈ caps).

(** The WHERE clause both candidate queries share, with the latest [run_at]. *)
Definition claimable (d : Db) (queue : rstring) (caps : capabilities) (due : time)
    (kt : uuid * TaskRec) : bool :=
  bool_decide (k_queue_name kt.2 = queue) && bool_decide (k_state kt.2 = Pending)
  && (k_run_at kt.2 <=? due) && (failures d kt.1 kt.2 <? k_max_attempts kt.2)
  && capable caps kt.2.

(** [ORDER BY tasks.run_at, tasks.id]. *)
Definition run_at_le (a b : uuid * TaskRec) : Prop :=
  k_run_at a.2 < k_run_at b.2 \/ (k_run_at a.2 = k_run_at b.2 /\ a.1 <= b.1).
Global Instance run_at_le_dec : RelDecision run_at_le.
Proof. intros a b. unfold run_at_le. solve_decision. Defined.

(** [ORDER BY tasks.priority DESC, tasks.run_at, tasks.id]. *)
Definition priority_le (a b : uuid * TaskRec) : Prop :=
  sp_priority (k_spec b.2) < sp_priority (k_spec a.2)
  \/ (sp_priority (k_spec b.2) = sp_priority (k_spec a.2) /\ run_at_le a b).
Global Instance priority_le_dec : RelDecision priority_le.
Proof. intros a b. unfold priority_le. solve_decision. Defined.

(** SELECT ... WHERE p ORDER BY R FOR UPDATE SKIP LOCKED LIMIT n, on tasks. *)
Definition select_tasks (e : Env) (d : Db) (p : uuid * TaskRec -> bool)
    (R : uuid * TaskRec -> uuid * TaskRec -> Prop) `{!RelDecision R} (limit : Z)
    : list (uuid * TaskRec) :=
  take (Z.to_nat limit)
    (merge_sort R (filter (fun kt => p kt = true /\ kt.1 ∉ e_locked e) (map_to_list (tasks d)))).

Definition starved (e : Env) (d : Db) (queue : rstring) (caps : capabilities) (limit : Z)
    (u : QueueRec) : list (uuid * TaskRec) :=
  select_tasks e d (claimable d queue caps (e_now e - seconds (u_starvation u))) run_at_le
    (if 0 <? limit then 1 else 0).

Definition candidates (e : Env) (d : Db) (queue : rstring) (caps : capabilities) (limit : Z)
    : list (uuid * TaskRec) :=
  match queues d !! queue with
  | Some u =>
      match u_paused_at u with
      | Some _ => []
      | None =>
          let first := starved e d queue caps limit u in
          first ++ select_tasks e d
            (fun kt => claimable d queue caps (e_now e) kt && negb (bool_decide (kt.1 ∈ map fst first)))
            priority_le (Z.max (limit - len first) 0)
      end
  | None => []
  end.

Definition claim_row (e : Env) (d : Db) (worker : uuid) (lease_ms : Z) (token : uuid)
    (id : uuid) (t : TaskRec) : TaskRec := {|
  k_spec := k_spec t; k_parent := k_parent t; k_state := Running; k_run_at := k_run_at t;
  k_attempt := k_attempt t + 1; k_failed_attempts := Some (failures d id t);
  k_max_attempts := k_max_attempts t;
  k_retry := coalesce_retry (k_retry t) (default no_retry_columns
    (policies d !! (k_queue_name t, sp_task_name (k_spec t), sp_handler_version (k_spec t))));
  k_lease := Some {| l_token := token; l_owner := worker;
                     l_expires_at := e_now e + milliseconds lease_ms |};
  k_cancel_requested_at := k_cancel_requested_at t; k_updated_at := e_now e;
  k_completed_at := k_completed_at t; k_result := k_result t; k_error := k_error t |}.

Definition new_attempt (now : time) (worker token : uuid) : AttemptRec := {|
  a_token := token; a_worker := worker; a_state := ARunning; a_started_at := now;
  a_finished_at := None; a_error := None |}.

(** The candidates with their claimed rows; the n-th gets the n-th random token. *)
Definition claimed_rows (e : Env) (d : Db) (worker : uuid) (lease_ms : Z)
    (l : list (uuid * TaskRec)) : list (uuid * TaskRec * TaskRec) :=
  imap (fun n kt => (kt.1, kt.2, claim_row e d worker lease_ms (e_uuid e n) kt.1 kt.2)) l.

Definition insert_attempts (now : time) (worker : uuid) (l : list (uuid * TaskRec * TaskRec)) (d : Db)
    : result sqlstate Db :=
  foldM (fun d '(id, old, new) =>
    match attempts d !! (id, k_attempt new) with
    | Some _ => Err unique_violation
    | None => Ok (set_attempts (<[(id, k_attempt new) :=
                new_attempt now worker (default 0 (l_token <$> k_lease new))]> (attempts d)) d)
    end) d l.

Definition claim (e : Env) (queue : rstring) (worker : uuid) (caps : capabilities) (limit lease_ms : Z)
    (d : Db) : stmt (list (uuid * TaskRec)) :=
  let rows := claimed_rows e d worker lease_ms (candidates e d queue caps limit) in
  guard? forallb (fun r => retry_columns_check (k_retry r.2)) rows else check_violation;
  let? d := update_rows (e_now e) rows id d in
  let? d := insert_attempts (e_now e) worker rows d in
  Ok (d, map (fun r => (r.1.1, r.2)) rows).

(** ** Lease-owned transitions *)

Definition renew_row (e : Env) (lease_ms : Z) (t : TaskRec) : TaskRec := {|
  k_spec := k_spec t; k_parent := k_parent t; k_state := k_state t; k_run_at := k_run_at t;
  k_attempt := k_attempt t; k_failed_attempts := k_failed_attempts t;
  k_max_attempts := k_max_attempts t; k_retry := k_retry t;
  k_lease := option_map (fun l => {| l_token := l_token l; l_owner := l_owner l;
                                     l_expires_at := e_now e + milliseconds lease_ms |}) (k_lease t);
  k_cancel_requested_at := k_cancel_requested_at t; k_updated_at := e_now e;
  k_completed_at := k_completed_at t; k_result := k_result t; k_error := k_error t |}.

(** The rows of a batch of leases that are still held, once each. *)
Fixpoint held_leases (leases : list LeaseRenewal) (seen : list uuid) (d : Db)
    : list (uuid * TaskRec) :=
  match leases with
  | [] => []
  | l :: leases' =>
      match tasks d !! lr_task_id l with
      | Some t =>
          if holds_lease (lr_attempt l) (lr_lease_token l) t && negb (bool_decide (lr_task_id l ∈ seen))
          then (lr_task_id l, t) :: held_leases leases' (lr_task_id l :: seen) d
          else held_leases leases' seen d
      | None => held_leases leases' seen d
      end
  end.

Definition renew_leases (e : Env) (leases : list LeaseRenewal) (lease_ms : Z) (d : Db)
    : stmt (list uuid) :=
  let held := filter (fun kt : uuid * TaskRec => k_cancel_requested_at kt.2 = None)
                (held_leases leases [] d) in
  Ok (foldl (fun d '(id, t) => put_task id (renew_row e lease_ms t) d) d held, map fst held).

Definition release_row (now : time) (t : TaskRec) : TaskRec := {|
  k_spec := k_spec t; k_parent := k_parent t; k_state := Pending; k_run_at := now;
  k_attempt := k_attempt t; k_failed_attempts := k_failed_attempts t;
  k_max_attempts := k_max_attempts t; k_retry := k_retry t; k_lease := None;
  k_cancel_requested_at := k_cancel_requested_at t; k_updated_at := now;
  k_completed_at := k_completed_at t; k_result := k_result t; k_error := k_error t |}.

(** [SET state = s, finished_at = now] (and [error = err] where given) of the
    attempts of the updated rows. *)
Definition finish_attempts (f : uuid -> AttemptRec -> AttemptRec)
    (l : list (uuid * TaskRec * TaskRec)) (d : Db) : Db :=
  foldl (fun d '(id, old, new) => alter_attempt (f id) id (k_attempt old) d) d l.

Definition release_tasks (e : Env) (leases : list LeaseRenewal) (d : Db) : stmt (list uuid) :=
  let now := e_now e in
  let rows := map (fun kt => (kt.1, kt.2, release_row now kt.2)) (held_leases leases [] d) in
  let? d := update_rows now rows
    (finish_attempts (fun _ a => finish_attempt AReleased now (a_error a) a) rows) d in
  Ok (d, map (fun r => r.1.1) rows).

Definition complete_row (now : time) (result : option Value) (t : TaskRec) : TaskRec := {|
  k_spec := k_spec t; k_parent := k_parent t; k_state := Succeeded; k_run_at := k_run_at t;
  k_attempt := k_attempt t; k_failed_attempts := k_failed_attempts t;
  k_max_attempts := k_max_attempts t; k_retry := k_retry t; k_lease := None;
  k_cancel_requested_at := k_cancel_requested_at t; k_updated_at := now;
  k_completed_at := Some now; k_result := result; k_error := None |}.

Record Completion := { co_lease : LeaseRenewal; co_result : option Value }.

(** The still-held leases among distinct requests, with their requests. *)
Definition held_requests {A} (lease : A -> LeaseRenewal) (d : Db) (l : list A)
    : list (A * TaskRec) :=
  omap (fun a => match tasks d !! lr_task_id (lease a) with
                 | Some t => if holds_lease (lr_attempt (lease a)) (lr_lease_token (lease a)) t
                             then Some (a, t) else None
                 | None => None
                 end) l.

Definition complete_tasks (e : Env) (l : list Completion) (d : Db) : stmt (list bool) :=
  let now := e_now e in
  let? _ := collect (fun c => match co_result c with Some v => fmap Some (jsonb v) | None => Ok None end) l in
  guard? bool_decide (NoDup (map (fun c => lr_task_id (co_lease c)) l)) else invalid_parameter;
  let held := held_requests co_lease d l in
  let rows := map (fun ct => (lr_task_id (co_lease ct.1), ct.2, complete_row now (co_result ct.1) ct.2)) held in
  let? _ := collect (fun r => size_check RESULT_LIMIT_BYTES (k_result r.2)) rows in
  let? d' := update_rows now rows
    (finish_attempts (fun _ a => finish_attempt ASucceeded now None a) rows) d in
  Ok (d', map (fun c => bool_decide (lr_task_id (co_lease c) ∈ map (fun r => r.1.1) rows)) l).

(** [complete_task] is the statement of [complete_tasks] on one row. *)
Definition complete_task (e : Env) (lease : LeaseRenewal) (result : option Value) (d : Db) : stmt bool :=
  let? (d, done) := complete_tasks e [{| co_lease := lease; co_result := result |}] d in
  Ok (d, default false (head done)).

Record Failure := { fa_lease : LeaseRenewal; fa_error : Value; fa_retry_ms : option Z }.

(** Whether a failed or lost attempt leaves budget for another. *)
Definition retries (d : Db) (id : uuid) (t : TaskRec) : bool := failures d id t + 1 <? k_max_attempts t.

Definition fail_row (now : time) (d : Db) (id : uuid) (error : Value) (retry_ms : option Z)
    (t : TaskRec) : TaskRec :=
  let again := match retry_ms with Some _ => retries d id t | None => false end in {|
  k_spec := k_spec t; k_parent := k_parent t; k_state := if again then Pending else Failed;
  k_run_at := match retry_ms with Some ms => now + milliseconds ms | None => k_run_at t end;
  k_attempt := k_attempt t; k_failed_attempts := Some (failures d id t + 1);
  k_max_attempts := k_max_attempts t; k_retry := k_retry t; k_lease := None;
  k_cancel_requested_at := k_cancel_requested_at t; k_updated_at := now;
  k_completed_at := if again then None else Some now; k_result := k_result t;
  k_error := Some error |}.

Definition fail_tasks (e : Env) (l : list Failure) (d : Db) : stmt (list (option TaskState)) :=
  let now := e_now e in
  let? _ := collect (fun f => jsonb (fa_error f)) l in
  guard? bool_decide (NoDup (map (fun f => lr_task_id (fa_lease f)) l)) else invalid_parameter;
  let held := held_requests fa_lease d l in
  let rows := map (fun ft => (lr_task_id (fa_lease ft.1), ft.2,
                fail_row now d (lr_task_id (fa_lease ft.1)) (fa_error ft.1) (fa_retry_ms ft.1) ft.2)) held in
  let? _ := collect (fun r => size_check ERROR_LIMIT_BYTES (k_error r.2)) rows in
  let? d' := update_rows now rows (fun d => foldl (fun d r =>
      alter_attempt (finish_attempt AFailed now (k_error r.2)) r.1.1 (k_attempt r.1.2) d) d rows) d in
  Ok (d', map (fun f => k_state <$>
            list_find_fst (lr_task_id (fa_lease f)) (map (fun r => (r.1.1, r.2)) rows)) l).

Definition fail_task (e : Env) (lease : LeaseRenewal) (error : Value) (retry_ms : option Z) (d : Db)
    : stmt (option TaskState) :=
  let? (d, states) := fail_tasks e [{| fa_lease := lease; fa_error := error; fa_retry_ms := retry_ms |}] d in
  Ok (d, default None (head states)).

(** ** Recovery and administration *)

(** [ORDER BY tasks.lease_expires_at, tasks.id]. *)
Definition lease_expiry (t : TaskRec) : Z := default 0 (l_expires_at <$> k_lease t).
Definition expiry_le (a b : uuid * TaskRec) : Prop :=
  lease_expiry a.2 < lease_expiry b.2 \/ (lease_expiry a.2 = lease_expiry b.2 /\ a.1 <= b.1).
Global Instance expiry_le_dec : RelDecision expiry_le.
Proof. intros a b. unfold expiry_le. solve_decision. Defined.

Definition lease_expired : Value := VObject [(str "type", VString (str "lease_expired"))].

Definition recover_row (now : time) (d : Db) (id : uuid) (t : TaskRec) : TaskRec :=
  let again := retries d id t in {|
  k_spec := k_spec t; k_parent := k_parent t; k_state := if again then Pending else Failed;
  k_run_at := if again then now else k_run_at t;
  k_attempt := k_attempt t; k_failed_attempts := Some (failures d id t + 1);
  k_max_attempts := k_max_attempts t; k_retry := k_retry t; k_lease := None;
  k_cancel_requested_at := k_cancel_requested_at t; k_updated_at := now;
  k_completed_at := if again then None else Some now; k_result := k_result t;
  k_error := Some lease_expired |}.

Definition expired (now : time) (queue : rstring) (kt : uuid * TaskRec) : bool :=
  bool_decide (k_queue_name kt.2 = queue) && bool_decide (k_state kt.2 = Running)
  && match k_lease kt.2 with Some l => l_expires_at l <=? now | None => false end.

Definition recover_expired (e : Env) (queue : rstring) (limit : Z) (d : Db) : stmt Z :=
  let now := e_now e in
  let rows := map (fun kt => (kt.1, kt.2, recover_row now d kt.1 kt.2))
                (select_tasks e d (expired now queue) expiry_le limit) in
  let? d := update_rows now rows
    (finish_attempts (fun _ => finish_attempt ALost now (Some lease_expired)) rows) d in
  Ok (d, len rows).

(** UPDATE ... SET state = 'cancelled' of one row by its key, if outstanding,
    with its running attempt and the AFTER triggers. *)
Definition cancel_outstanding (e : Env) (error : Value) (id : uuid) (d : Db) : stmt (option TaskRec) :=
  match tasks d !! id with
  | Some t =>
      if outstanding (k_state t) then
        let now := e_now e in
        let new := cancel_row now error t in
        let? d := cancel_rows now error [(id, t)] d in
        let? d := after_update (trigger_fuel d) now id t new d in
        Ok (d, Some new)
      else Ok (d, None)
  | None => Ok (d, None)
  end.

Definition cancelled_error : Value := VObject [(str "type", VString (str "cancelled"))].

Definition cancel_task (e : Env) (id : uuid) (d : Db) : stmt (option TaskRec) :=
  cancel_outstanding e cancelled_error id d.

Definition valid_actor (actor : rstring) : bool :=
  negb (bool_decide (actor = [])) && (str_len actor <=? 255).

Definition record_audit (now : time) (actor action : rstring) (task schedule : option uuid) (d : Db) : Db :=
  set_audit (audit d ++ [{| au_actor := actor; au_action := action; au_task := task;
                            au_schedule := schedule; au_occurred_at := now |}]) d.

Definition admin_cancel_task (e : Env) (id : uuid) (actor : rstring) (d : Db) : stmt bool :=
  guard? valid_actor actor else invalid_parameter;
  let? (d, changed) := cancel_task e id d in
  match changed with
  | Some _ => Ok (record_audit (e_now e) actor (str "task.cancel") (Some id) None d, true)
  | None => Ok (d, false)
  end.

Definition retry_row (now : time) (d : Db) (id : uuid) (t : TaskRec) : TaskRec := {|
  k_spec := k_spec t; k_parent := k_parent t; k_state := Pending; k_run_at := now;
  k_attempt := k_attempt t; k_failed_attempts := k_failed_attempts t;
  k_max_attempts := Z.max (k_max_attempts t) (failures d id t + 1); k_retry := k_retry t;
  k_lease := None; k_cancel_requested_at := None; k_updated_at := now; k_completed_at := None;
  k_result := None; k_error := None |}.

Definition admin_retry_task (e : Env) (id : uuid) (actor : rstring) (d : Db) : stmt bool :=
  guard? valid_actor actor else invalid_parameter;
  match tasks d !! id with
  | Some t =>
      if bool_decide (k_state t = Failed \/ k_state t = Cancelled) then
        let? d := update_rows (e_now e) [(id, t, retry_row (e_now e) d id t)] (fun d => d) d in
        Ok (record_audit (e_now e) actor (str "task.retry") (Some id) None d, true)
      else Ok (d, false)
  | None => Ok (d, false)
  end.

(** ** Checkpoints, sleeps and waits *)

(** [SELECT ... FROM pgtask.tasks WHERE id = ... AND lease_token = ... FOR UPDATE]. *)
Definition active (lease : LeaseRenewal) (d : Db) : option TaskRec :=
  match tasks d !! lr_task_id lease with
  | Some t => if holds_lease (lr_attempt lease) (lr_lease_token lease) t then Some t else None
  | None => None
  end.

Definition step_key (lease : LeaseRenewal) (t : TaskRec) (step : rstring) (occurrence : Z) : StepKey :=
  (lr_task_id lease, sp_handler_version (k_spec t), step, occurrence).

Definition step_checks (step : rstring) (occurrence : Z) : bool :=
  sql_name_check MAX_TASK_NAME_BYTES step && (0 <=? occurrence).

Definition commit_checkpoint (e : Env) (lease : LeaseRenewal) (step : rstring) (occurrence : Z)
    (value : Value) (d : Db) : stmt (option (StepKey * CheckpointRec)) :=
  let? value := jsonb value in
  match active lease d with
  | Some t =>
      guard? step_checks step occurrence else check_violation;
      let k := step_key lease t step occurrence in
      let? (d, _) := insert_checkpoint (e_now e) k value d in
      Ok (d, (k,.) <$> checkpoints d !! k)
  | None => Ok (d, None)
  end.

Definition get_checkpoint (k : StepKey) (d : Db) : option CheckpointRec := checkpoints d !! k.

(** Leave the running state without an outcome: to [Pending] at [run_at], or to
    [Waiting]. *)
Definition park_row (now : time) (state : TaskState) (run_at : time) (t : TaskRec) : TaskRec := {|
  k_spec := k_spec t; k_parent := k_parent t; k_state := state; k_run_at := run_at;
  k_attempt := k_attempt t; k_failed_attempts := k_failed_attempts t;
  k_max_attempts := k_max_attempts t; k_retry := k_retry t; k_lease := None;
  k_cancel_requested_at := k_cancel_requested_at t; k_updated_at := now;
  k_completed_at := k_completed_at t; k_result := k_result t; k_error := k_error t |}.

Definition park (now : time) (lease : LeaseRenewal) (t : TaskRec) (state : TaskState) (run_at : time)
    (d : Db) : result sqlstate Db :=
  let? d := update_rows now [(lr_task_id lease, t, park_row now state run_at t)] (fun d => d) d in
  Ok (alter_attempt (fun a => finish_attempt ASuspended now (a_error a) a)
        (lr_task_id lease) (lr_attempt lease) d).

(** A [timestamptz] inside JSON; its text is not used by the program's logic. *)
Definition wake_json (text : time -> rstring) (wake_at : time) : Value :=
  VObject [(str "wake_at", VString (text wake_at))].

Definition suspend_task (text : time -> rstring) (e : Env) (lease : LeaseRenewal) (step : rstring)
    (occurrence : Z) (wake_at : option time) (delay_ms : option Z) (d : Db) : stmt (option time) :=
  guard? negb (Bool.eqb (bool_decide (wake_at = None)) (bool_decide (delay_ms = None))) else invalid_parameter;
  guard? (match delay_ms with Some ms => 0 <=? ms | None => true end) else invalid_parameter;
  match active lease d with
  | Some t =>
      let target := default (e_now e + milliseconds (default 0 delay_ms)) wake_at in
      guard? step_checks step occurrence else check_violation;
      let k := step_key lease t step occurrence in
      match checkpoints d !! k with
      | Some _ => Ok (d, None)
      | None =>
          let? (d, _) := insert_checkpoint (e_now e) k (wake_json text target) d in
          let? d := park (e_now e) lease t Pending target d in
          Ok (d, Some target)
      end
  | None => Ok (d, None)
  end.

Definition signal_json (value : Value) : Value :=
  VObject (map_collect [(str "outcome", VString (str "signal")); (str "value", value)]).
Definition timeout_json : Value := VObject [(str "outcome", VString (str "timeout"))].

(** INSERT INTO waits, re-arming a leftover row of the same key; another open
    wait of the task violates [waits_active_task_idx]. *)
Definition arm_wait (k : StepKey) (w : WaitRec) (d : Db) : result sqlstate Db :=
  if bool_decide (Exists (fun kw : StepKey * WaitRec =>
       step_task kw.1 = step_task k /\ kw.1 <> k /\ w_resolved kw.2 = None) (map_to_list (waits d)))
  then Err unique_violation
  else Ok (set_waits (<[k := w]> (waits d)) d).

Definition deadline (now : time) (timeout_ms : option Z) : option time :=
  option_map (fun ms => now + milliseconds ms) timeout_ms.

Definition wait_for_signal (e : Env) (lease : LeaseRenewal) (step : rstring) (occurrence : Z)
    (signal : rstring) (signal_occurrence : Z) (timeout_ms : option Z) (d : Db) : stmt (option WaitRow) :=
  let now := e_now e in
  guard? (match timeout_ms with Some ms => 0 <=? ms | None => true end) else invalid_parameter;
  match active lease d with
  | None => Ok (d, None)
  | Some t =>
      let k := step_key lease t step occurrence in
      match checkpoints d !! k with
      | Some c => Ok (d, Some {| war_status := str "ready"; war_checkpoint := Some (c_value c) |})
      | None =>
          match signals d !! (lr_task_id lease, signal, signal_occurrence) with
          | Some s =>
              guard? step_checks step occurrence else check_violation;
              let? (d, v) := insert_checkpoint now k (signal_json (c_value s)) d in
              Ok (d, Some {| war_status := str "ready"; war_checkpoint := Some v |})
          | None =>
              guard? step_checks step occurrence && step_checks signal signal_occurrence
                else check_violation;
              let? d := arm_wait k {| w_signal_name := signal; w_signal_occurrence := signal_occurrence;
                                      w_timeout_at := deadline now timeout_ms; w_resolved := None |} d in
              let? d := park now lease t Waiting (k_run_at t) d in
              Ok (d, Some {| war_status := str "waiting"; war_checkpoint := None |})
          end
      end
  end.

(** Resolve a signal wait: checkpoint, wake the task, mark the wait. *)
Definition resolve_signal_wait (now : time) (v : Value) (o : WaitOutcome) (d : Db) (k : StepKey)
    : result sqlstate Db :=
  let? (d, _) := insert_checkpoint now k v d in
  let d := wake_task now (step_task k) d in
  Ok (set_waits (alter (resolve_wait now o) k (waits d)) d).

Definition emit_signal (e : Env) (id : uuid) (signal : rstring) (occurrence : Z) (value : Value) (d : Db)
    : stmt CheckpointRec :=
  let now := e_now e in
  let? value := jsonb value in
  let? _ := size_check CHECKPOINT_LIMIT (Some value) in
  guard? step_checks signal occurrence else check_violation;
  guard? bool_decide (is_Some (tasks d !! id)) else foreign_key_violation;
  let s := default {| c_value := value; c_created_at := now |} (signals d !! (id, signal, occurrence)) in
  let d := set_signals (<[(id, signal, occurrence) := s]> (signals d)) d in
  let matching := map fst (filter (fun kw : StepKey * WaitRec =>
      step_task kw.1 = id /\ w_signal_name kw.2 = signal /\ w_signal_occurrence kw.2 = occurrence
      /\ w_resolved kw.2 = None) (map_to_list (waits d))) in
  let? d := foldM (resolve_signal_wait now (signal_json (c_value s)) OSignal) d matching in
  Ok (d, s).

(** [ORDER BY timeout_at, task_id]. *)
Definition timeout_le (a b : StepKey * time) : Prop :=
  a.2 < b.2 \/ (a.2 = b.2 /\ step_task a.1 <= step_task b.1).
Global Instance timeout_le_dec : RelDecision timeout_le.
Proof. intros a b. unfold timeout_le. solve_decision. Defined.

Definition due_waits {W} (timeout : W -> option time) (open : W -> bool) (e : Env) (limit : Z)
    (m : gmap (Z * Z * list Z * Z) W) : list StepKey :=
  map fst (take (Z.to_nat limit) (merge_sort timeout_le
    (omap (fun kw : StepKey * W =>
       match timeout kw.2 with
       | Some t => if open kw.2 && (t <=? e_now e) && negb (bool_decide (step_task kw.1 ∈ e_locked e))
                   then Some (kw.1, t) else None
       | None => None
       end) (map_to_list m)))).

Definition recover_wait_timeouts (e : Env) (limit : Z) (d : Db) : stmt Z :=
  let due := due_waits w_timeout_at (fun w => bool_decide (w_resolved w = None)) e limit (waits d) in
  let? d := foldM (resolve_signal_wait (e_now e) timeout_json OTimeout) d due in
  Ok (d, len (remove_dups (map step_task due))).

Definition arm_result_wait (k : StepKey) (w : ResultWaitRec) (d : Db) : result sqlstate Db :=
  if bool_decide (Exists (fun kw : StepKey * ResultWaitRec =>
       step_task kw.1 = step_task k /\ kw.1 <> k /\ rw_resolved kw.2 = None) (map_to_list (result_waits d)))
  then Err unique_violation
  else Ok (set_result_waits (<[k := w]> (result_waits d)) d).

Definition wait_for_result (e : Env) (lease : LeaseRenewal) (step : rstring) (occurrence : Z)
    (child : uuid) (timeout_ms : option Z) (d : Db) : stmt (option WaitRow) :=
  let now := e_now e in
  guard? negb (lr_task_id lease =? child) else invalid_parameter;
  guard? (match timeout_ms with Some ms => 0 <? ms | None => true end) else invalid_parameter;
  match active lease d with
  | None => Ok (d, None)
  | Some t =>
      let k := step_key lease t step occurrence in
      match checkpoints d !! k with
      | Some c => Ok (d, Some {| war_status := str "ready"; war_checkpoint := Some (c_value c) |})
      | None =>
          match tasks d !! child with
          | Some c =>
              guard? bool_decide (k_parent c = Some (lr_task_id lease)) else invalid_parameter;
              guard? step_checks step occurrence else check_violation;
              if is_terminal (k_state c) then
                let? (d, v) := insert_checkpoint now k
                  (outcome_json (state_as_str (k_state c)) (k_result c) (k_error c)) d in
                Ok (d, Some {| war_status := str "ready"; war_checkpoint := Some v |})
              else
                let? d := arm_result_wait k {| rw_result_task := child;
                            rw_timeout_at := deadline now timeout_ms; rw_resolved := None |} d in
                let? d := park now lease t Waiting (k_run_at t) d in
                Ok (d, Some {| war_status := str "waiting"; war_checkpoint := None |})
          | None => Err invalid_parameter
          end
      end
  end.

Definition result_wait_timeout (parent : uuid) : Value :=
  VObject (map_collect [(str "type", VString (str "result_wait_timeout"));
                        (str "parent_task_id", VString (uuid_text parent))]).

(** One round of the loop of [recover_result_wait_timeouts]. *)
Definition time_out_result_wait (e : Env) (d : Db) (k : StepKey) : result sqlstate Db :=
  let now := e_now e in
  let? (d, _) := insert_checkpoint now k (outcome_json (str "timeout") None None) d in
  let child := rw_result_task <$> result_waits d !! k in
  let d := set_result_waits (alter (resolve_result_wait now OTimeout) k (result_waits d)) d in
  let d := wake_task now (step_task k) d in
  match child with
  | Some child => let? (d, _) := cancel_outstanding e (result_wait_timeout (step_task k)) child d in Ok d
  | None => Ok d
  end.

Definition recover_result_wait_timeouts (e : Env) (limit : Z) (d : Db) : stmt Z :=
  let due := due_waits rw_timeout_at (fun w => bool_decide (rw_resolved w = None)) e limit
               (result_waits d) in
  let? d := foldM (time_out_result_wait e) d due in
  Ok (d, len due).

(** ** Child tasks *)

(** The hexadecimal digits of a [uuid] text, hyphens aside. *)
Definition hex_value (c : char) : Z := if c <? 58 then c - 48 else c - 87.
Definition parse_uuid (s : rstring) : uuid :=
  foldl (fun acc c => if c =? 45 then acc else acc * 16 + hex_value c) 0 s.

(** The tasks above [id], itself included, up to [fuel] levels. *)
Fixpoint ancestors (fuel : nat) (id : uuid) (d : Db) : list uuid :=
  match fuel, tasks d !! id with
  | S fuel', Some t =>
      id :: match k_parent t with Some parent => ancestors fuel' parent d | None => [] end
  | _, _ => []
  end.

Definition adopt_row (parent : uuid) (t : TaskRec) : TaskRec := {|
  k_spec := k_spec t; k_parent := coalesce (k_parent t) (Some parent); k_state := k_state t;
  k_run_at := k_run_at t; k_attempt := k_attempt t; k_failed_attempts := k_failed_attempts t;
  k_max_attempts := k_max_attempts t; k_retry := k_retry t; k_lease := k_lease t;
  k_cancel_requested_at := k_cancel_requested_at t; k_updated_at := k_updated_at t;
  k_completed_at := k_completed_at t; k_result := k_result t; k_error := k_error t |}.

(** [UPDATE ... SET parent_task_id = parent WHERE id = child AND parent_task_id
    IS NULL], then the check that the child is the parent's. *)
Definition adopt (parent child : uuid) (d : Db) : result sqlstate Db :=
  match tasks d !! child with
  | Some t =>
      let t' := adopt_row parent t in
      guard? bool_decide (k_parent t' = Some parent) && negb (parent =? child) else check_violation;
      Ok (put_task child t' d)
  | None => Err check_violation
  end.

Definition spawn_key (parent : uuid) (version : Z) (step : rstring) (occurrence : Z) : rstring :=
  str "pgtask:spawn:" ++ uuid_text parent ++ str ":" ++ decimal version ++ str ":" ++ step ++ str ":"
    ++ decimal occurrence.

Definition spawn_task (e : Env) (lease : LeaseRenewal) (step : rstring) (occurrence : Z)
    (task_name : rstring) (payload : Value) (queue_name : rstring) (handler_version : Z)
    (run_at : option time) (priority max_attempts : Z) (headers : Value) (d : Db)
    : stmt (option (uuid * bool)) :=
  let? payload := jsonb payload in
  let? headers := jsonb headers in
  match active lease d with
  | None => Ok (d, None)
  | Some t =>
      let k := step_key lease t step occurrence in
      let parent := lr_task_id lease in
      match checkpoints d !! k with
      | Some c =>
          match value_get (str "task_id") (c_value c) ≫= as_str with
          | Some text =>
              let? d := adopt parent (parse_uuid text) d in
              Ok (d, Some (parse_uuid text, false))
          | None => Err check_violation
          end
      | None =>
          let? (d, (child, created)) := enqueue e task_name payload queue_name handler_version run_at
            priority max_attempts
            (Some (spawn_key parent (sp_handler_version (k_spec t)) step occurrence)) headers d in
          guard? negb (bool_decide (child ∈ ancestors (size (tasks d)) parent d)) else check_violation;
          let? d := adopt parent child d in
          guard? step_checks step occurrence else check_violation;
          let? (d, _) := insert_checkpoint (e_now e) k
            (VObject [(str "task_id", VString (uuid_text child))]) d in
          Ok (d, Some (child, created))
      end
  end.

(** ** Retention *)

(** [ORDER BY tasks.completed_at, tasks.id]. *)
Definition completion (t : TaskRec) : Z := default 0 (k_completed_at t).
Definition completion_le (a b : uuid * TaskRec) : Prop :=
  completion a.2 < completion b.2 \/ (completion a.2 = completion b.2 /\ a.1 <= b.1).
Global Instance completion_le_dec : RelDecision completion_le.
Proof. intros a b. unfold completion_le. solve_decision. Defined.

Definition has_children (id : uuid) (d : Db) : bool :=
  bool_decide (Exists (fun kt : uuid * TaskRec => k_parent kt.2 = Some id) (map_to_list (tasks d))).

Definition deletable (e : Env) (queue : rstring) (d : Db) (kt : uuid * TaskRec) : bool :=
  bool_decide (k_queue_name kt.2 = queue) && is_terminal (k_state kt.2)
  && match k_completed_at kt.2, queues d !! queue with
     | Some completed, Some u => completed <=? e_now e - seconds (u_terminal_retention u)
     | _, _ => false
     end
  && negb (has_children kt.1 d).

(** DELETE of one task: the cascades, then [preserve_deleted_idempotency_key]. *)
Definition delete_task (now : time) (d : Db) (kt : uuid * TaskRec) : Db :=
  let id := kt.1 in
  let d := {| tasks := delete id (tasks d);
              attempts := filter (fun x => x.1.1 <> id) (attempts d);
              queues := queues d; keys := keys d; policies := policies d;
              checkpoints := filter (fun x => step_task x.1 <> id) (checkpoints d);
              signals := filter (fun x => x.1.1.1 <> id) (signals d);
              waits := filter (fun x => step_task x.1 <> id) (waits d);
              result_waits := filter (fun x => step_task x.1 <> id /\ rw_result_task x.2 <> id)
                                (result_waits d);
              schedules := schedules d; audit := audit d; workers := workers d;
              worker_capabilities := worker_capabilities d; demand := demand d |} in
  let retention := option_map (fun u => seconds (u_idempotency_retention u))
                     (queues d !! k_queue_name kt.2) in
  update_key (fun i => set_expiry (coalesce (i_expires_at i) (option_map (Z.add now) retention)) i)
    id kt.2 d.

Definition delete_expired_terminal (e : Env) (queue : rstring) (limit : Z) (d : Db) : stmt Z :=
  let rows := select_tasks e d (deletable e queue d) completion_le limit in
  Ok (foldl (delete_task (e_now e)) d rows, len rows).

(** [ORDER BY expires_at, idempotency_key]; the byte order of keys. *)
Definition key_le (a b : (list Z * list Z) * KeyRec) : Prop :=
  match i_expires_at a.2, i_expires_at b.2 with
  | Some x, Some y => x < y \/ (x = y /\ str_compare a.1.2 b.1.2 <> Gt)
  | _, _ => False
  end.
Global Instance key_le_dec : RelDecision key_le.
Proof. intros [a [? ? []]] [b [? ? []]]; unfold key_le; simpl; solve_decision. Defined.

Definition key_expired (now : time) (i : KeyRec) : bool :=
  match i_expires_at i with Some t => t <=? now | None => false end.

Definition delete_expired_idempotency_keys (e : Env) (queue : rstring) (limit : Z) (d : Db) : stmt Z :=
  let rows := take (Z.to_nat limit) (merge_sort key_le
    (filter (fun ki : (list Z * list Z) * KeyRec =>
       ki.1.1 = queue /\ key_expired (e_now e) ki.2 = true)
       (map_to_list (keys d)))) in
  Ok (set_keys (foldl (fun m ki => delete ki.1 m) (keys d) rows) d, len rows).

(** ** Schedules *)

Definition schedule_checks (r : ScheduleRow) : bool :=
  sql_name_check MAX_TASK_NAME_BYTES (sr_name r)
  && match sr_interval_milliseconds r with Some ms => 0 <? ms | None => true end
  && match sr_catch_up_limit r with Some n => (0 <? n) && (n <=? 65535) | None => true end
  && sql_name_check MAX_TASK_NAME_BYTES (sr_task_name r)
  && (0 <? sr_handler_version r) && (0 <? sr_max_attempts r)
  && (jsonb_text_len (sr_payload r) <=? PAYLOAD_LIMIT)
  && bool_decide (is_Some (as_object (sr_headers r))) && (jsonb_text_len (sr_headers r) <=? HEADERS_LIMIT)
  && ((bool_decide (sr_kind r = str "interval") && bool_decide (is_Some (sr_interval_milliseconds r))
       && bool_decide (sr_cron_expression r = None))
      || (bool_decide (sr_kind r = str "cron") && bool_decide (sr_interval_milliseconds r = None)
          && bool_decide (is_Some (sr_cron_expression r))))
  && ((bool_decide (sr_misfire_policy r = str "catch_up") && bool_decide (is_Some (sr_catch_up_limit r)))
      || (bool_decide (sr_misfire_policy r ∈ [str "skip"; str "latest"])
          && bool_decide (sr_catch_up_limit r = None))).

(** The columns [put_schedule] compares before it overwrites a schedule. *)
Definition same_schedule (a b : ScheduleRow) : bool :=
  bool_decide (sr_kind a = sr_kind b)
  && bool_decide (sr_interval_milliseconds a = sr_interval_milliseconds b)
  && bool_decide (sr_cron_expression a = sr_cron_expression b)
  && bool_decide (sr_misfire_policy a = sr_misfire_policy b)
  && bool_decide (sr_catch_up_limit a = sr_catch_up_limit b)
  && bool_decide (sr_queue_name a = sr_queue_name b) && bool_decide (sr_task_name a = sr_task_name b)
  && (sr_handler_version a =? sr_handler_version b) && value_eqb (sr_payload a) (sr_payload b)
  && value_eqb (sr_headers a) (sr_headers b) && (sr_priority a =? sr_priority b)
  && (sr_max_attempts a =? sr_max_attempts b).

(** The stored row [old] with the definition of [r]. *)
Definition overwrite_schedule (now : time) (old r : ScheduleRow) : ScheduleRow := {|
  sr_id := sr_id old; sr_name := sr_name old; sr_kind := sr_kind r;
  sr_interval_milliseconds := sr_interval_milliseconds r; sr_cron_expression := sr_cron_expression r;
  sr_misfire_policy := sr_misfire_policy r; sr_catch_up_limit := sr_catch_up_limit r;
  sr_queue_name := sr_queue_name r; sr_task_name := sr_task_name r;
  sr_handler_version := sr_handler_version r; sr_payload := sr_payload r; sr_headers := sr_headers r;
  sr_priority := sr_priority r; sr_max_attempts := sr_max_attempts r;
  sr_next_run_at := sr_next_run_at r; sr_paused_at := sr_paused_at old;
  sr_created_at := sr_created_at old; sr_updated_at := now |}.

Definition reschedule (now next : time) (r : ScheduleRow) : ScheduleRow := {|
  sr_id := sr_id r; sr_name := sr_name r; sr_kind := sr_kind r;
  sr_interval_milliseconds := sr_interval_milliseconds r; sr_cron_expression := sr_cron_expression r;
  sr_misfire_policy := sr_misfire_policy r; sr_catch_up_limit := sr_catch_up_limit r;
  sr_queue_name := sr_queue_name r; sr_task_name := sr_task_name r;
  sr_handler_version := sr_handler_version r; sr_payload := sr_payload r; sr_headers := sr_headers r;
  sr_priority := sr_priority r; sr_max_attempts := sr_max_attempts r; sr_next_run_at := next;
  sr_paused_at := sr_paused_at r; sr_created_at := sr_created_at r; sr_updated_at := now |}.

Definition pause_schedule (now : time) (paused : bool) (r : ScheduleRow) : ScheduleRow := {|
  sr_id := sr_id r; sr_name := sr_name r; sr_kind := sr_kind r;
  sr_interval_milliseconds := sr_interval_milliseconds r; sr_cron_expression := sr_cron_expression r;
  sr_misfire_policy := sr_misfire_policy r; sr_catch_up_limit := sr_catch_up_limit r;
  sr_queue_name := sr_queue_name r; sr_task_name := sr_task_name r;
  sr_handler_version := sr_handler_version r; sr_payload := sr_payload r; sr_headers := sr_headers r;
  sr_priority := sr_priority r; sr_max_attempts := sr_max_attempts r;
  sr_next_run_at := sr_next_run_at r;
  sr_paused_at := if paused then Some (default now (sr_paused_at r)) else None;
  sr_created_at := sr_created_at r; sr_updated_at := now |}.

Definition schedule_named (name : rstring) (d : Db) : option ScheduleRow :=
  snd <$> find (fun kr : Z * ScheduleRow => bool_decide (sr_name kr.2 = name)) (map_to_list (schedules d)).

(** [r] carries the parameters, its timestamps those of an insertion. *)
Definition put_schedule (e : Env) (r : ScheduleRow) (d : Db) : stmt ScheduleRow :=
  let? _ := jsonb (sr_payload r) in
  let? _ := jsonb (sr_headers r) in
  guard? sql_name_check MAX_QUEUE_NAME_BYTES (sr_queue_name r) else check_violation;
  let d := ensure_queue (e_now e) (sr_queue_name r) d in
  guard? schedule_checks r else check_violation;
  match schedule_named (sr_name r) d with
  | Some old =>
      if same_schedule old r then Ok (d, old)
      else let new := overwrite_schedule (e_now e) old r in
           Ok (set_schedules (<[sr_id old := new]> (schedules d)) d, new)
  | None =>
      match schedules d !! sr_id r with
      | Some _ => Err unique_violation
      | None => Ok (set_schedules (<[sr_id r := r]> (schedules d)) d, r)
      end
  end.

Definition set_schedule_paused (e : Env) (id : uuid) (paused : bool) (d : Db) : stmt (option ScheduleRow) :=
  match schedules d !! id with
  | Some r => let r' := pause_schedule (e_now e) paused r in
              Ok (set_schedules (<[id := r']> (schedules d)) d, Some r')
  | None => Ok (d, None)
  end.

Definition admin_set_schedule_paused (e : Env) (id : uuid) (paused : bool) (actor : rstring) (d : Db)
    : stmt bool :=
  guard? valid_actor actor else invalid_parameter;
  let? (d, changed) := set_schedule_paused e id paused d in
  match changed with
  | Some _ =>
      Ok (record_audit (e_now e) actor (if paused then str "schedule.pause" else str "schedule.resume")
            None (Some id) d, true)
  | None => Ok (d, false)
  end.

Definition delete_schedule (id : uuid) (d : Db) : stmt bool :=
  Ok (set_schedules (delete id (schedules d)) d, bool_decide (is_Some (schedules d !! id))).

(** [ORDER BY next_run_at, id]. *)
Definition due_le (a b : uuid * ScheduleRow) : Prop :=
  sr_next_run_at a.2 < sr_next_run_at b.2 \/ (sr_next_run_at a.2 = sr_next_run_at b.2 /\ a.1 <= b.1).
Global Instance due_le_dec : RelDecision due_le.
Proof. intros a b. unfold due_le. solve_decision. Defined.

Definition claim_due_schedules (e : Env) (limit : Z) (d : Db) : list ScheduleRow :=
  map snd (take (Z.to_nat limit) (merge_sort due_le
    (filter (fun kr : uuid * ScheduleRow =>
       sr_paused_at kr.2 = None /\ sr_next_run_at kr.2 <= e_now e /\ kr.1 ∉ e_locked e)
       (map_to_list (schedules d))))).

(** INSERT of one occurrence, [ON CONFLICT (schedule_id, scheduled_for) DO
    NOTHING]: the BEFORE trigger has run by the time the conflict is seen. *)
Definition occurrence_exists (id : uuid) (occurrence : time) (d : Db) : bool :=
  existsb (fun kt : uuid * TaskRec => bool_decide (sp_scheduled (k_spec kt.2) = Some (id, occurrence)))
    (map_to_list (tasks d)).

Definition schedule_spec (now : time) (r : ScheduleRow) (occurrence : time) : TaskSpec := {|
  sp_queue_name := sr_queue_name r; sp_task_name := sr_task_name r;
  sp_handler_version := sr_handler_version r; sp_payload := sr_payload r; sp_headers := sr_headers r;
  sp_priority := sr_priority r; sp_idempotency_key := None; sp_created_at := now;
  sp_scheduled := Some (sr_id r, occurrence) |}.

Definition insert_occurrence (e : Env) (r : ScheduleRow) (st : Db * Z) (n_occ : nat * time)
    : result sqlstate (Db * Z) :=
  let '(d, inserted) := st in
  let '(n, occurrence) := n_occ in
  if occurrence_exists (sr_id r) occurrence d then
    let? d := enforce_queue_capacity None Pending (sr_queue_name r) d in
    Ok (d, inserted)
  else
    let? d := insert_task (e_now e) (e_uuid e n) (schedule_spec (e_now e) r occurrence) occurrence
                (sr_max_attempts r) d in
    Ok (d, inserted + 1).

Definition allowed_count (r : ScheduleRow) (occurrences : list time) (d : Db) : Z :=
  match queues d !! sr_queue_name r with
  | Some u => match u_max u with
              | Some maximum => Z.max (Z.min (len occurrences) (maximum - u_capacity u)) 0
              | None => len occurrences
              end
  | None => len occurrences
  end.

Definition materialize_schedule (e : Env) (id : uuid) (expected : time) (occurrences : list time)
    (next_run_at : time) (d : Db) : stmt Z :=
  match schedules d !! id with
  | Some r =>
      if bool_decide (sr_paused_at r = None) && (sr_next_run_at r =? expected) then
        let allowed := Z.to_nat (allowed_count r occurrences d) in
        let next := default next_run_at (occurrences !! allowed) in
        let d := set_schedules (<[id := reschedule (e_now e) next r]> (schedules d)) d in
        foldM (insert_occurrence e r) (d, 0) (imap pair (take allowed occurrences))
      else Ok (d, 0)
  | None => Ok (d, 0)
  end.

(** ** Batches and delays *)

(** The environment of the n-th call inside one statement: the same timestamp,
    the next random identifier. *)
Definition nth_call (n : nat) (e : Env) : Env :=
  {| e_now := e_now e; e_uuid := fun k => e_uuid e (n + k)%nat; e_locked := e_locked e |}.

(** [enqueue_many]: [enqueue] for each element of the array in order, with the
    element's index.  [timestamptz_of_text] is the cast of the text of
    [run_at].  The whole array is one [jsonb] parameter. *)
Definition enqueue_element (timestamptz_of_text : time -> time) (e : Env)
    (st : Db * list (Z * uuid * bool)) (n_request : nat * EnqueueRequest)
    : result sqlstate (Db * list (Z * uuid * bool)) :=
  let '(d, rows) := st in
  let '(n, request) := n_request in
  let? (d, (id, created)) := enqueue (nth_call n e) (er_task_name request) (er_payload request)
    (er_queue_name request) (er_handler_version request)
    (option_map timestamptz_of_text (er_run_at request)) (er_priority request)
    (er_max_attempts request) (er_idempotency_key request) (VObject (er_headers request)) d in
  Ok (d, rows ++ [(Z.of_nat n, id, created)]).

Definition request_no_nul (request : EnqueueRequest) : bool :=
  no_nul (er_payload request) && no_nul (VObject (er_headers request))
  && match er_idempotency_key request with Some key => no_nul (VString key) | None => true end.

Definition enqueue_many (timestamptz_of_text : time -> time) (e : Env) (l : list EnqueueRequest) (d : Db)
    : stmt (list (Z * uuid * bool)) :=
  guard? forallb request_no_nul l else untranslatable_character;
  foldM (enqueue_element timestamptz_of_text e) (d, []) (imap pair l).

(** [GREATEST(0, ceil(EXTRACT(epoch FROM min(deadline) - now) * 1000))], and no
    row without a deadline. *)
Definition earliest (l : list time) : option time :=
  match l with [] => None | t :: l' => Some (foldl Z.min t l') end.
Definition delay_until (now deadline : time) : Z := Z.max 0 (- ((now - deadline) / NANOS_PER_MILLI)).

Definition next_schedule_delay_milliseconds (e : Env) (d : Db) : option Z :=
  delay_until (e_now e) <$>
    earliest (omap (fun kr : uuid * ScheduleRow =>
      match sr_paused_at kr.2 with None => Some (sr_next_run_at kr.2) | Some _ => None end)
      (map_to_list (schedules d))).

Definition next_wait_delay_milliseconds (e : Env) (d : Db) : option Z :=
  delay_until (e_now e) <$>
    earliest (omap (fun kw : StepKey * WaitRec =>
                match w_resolved kw.2 with None => w_timeout_at kw.2 | Some _ => None end)
                (map_to_list (waits d))
              ++ omap (fun kw : StepKey * ResultWaitRec =>
                   match rw_resolved kw.2 with None => rw_timeout_at kw.2 | Some _ => None end)
                   (map_to_list (result_waits d))).

Definition next_task_delay_milliseconds (e : Env) (queue : rstring) (caps : capabilities) (d : Db)
    : option Z :=
  let open := match queues d !! queue with
              | Some u => bool_decide (u_paused_at u = None)
              | None => false
              end in
  delay_until (e_now e) <$>
    earliest (omap (fun kt : uuid * TaskRec =>
      if bool_decide (k_queue_name kt.2 = queue) && bool_decide (k_state kt.2 = Pending)
         && (failures d kt.1 kt.2 <? k_max_attempts kt.2) && open && capable caps kt.2
      then Some (k_run_at kt.2) else None) (map_to_list (tasks d))).
