(* ===== verification/Fleet.v ===== *)
(** The fleet of workers in the storage protocol: registration, heartbeats,
    demand, and the retention of worker rows.

    SQL functions of [pgtask-postgres/migrations]: [register_worker],
    [heartbeat_worker], [live_worker_count] and [queue_demand] of 0001,
    [sample_queue_demand] of 0004 and [delete_expired_workers] of 0014. *)

From stdpp Require Import sorting.
From S2P Require Import Prelude Text Identifier Json TaskTypes Rows Tables Protocol.

(** ** Registration *)

(** One element of the arrays [register_worker] unnests together. *)
Abbreviation HandlerPolicy := (list Z * Z * RetryColumns)%type (only parsing).

(** [INSERT INTO pgtask.workers ... ON CONFLICT (id) DO UPDATE]. *)
Definition upsert_worker (now : time) (id : uuid) (queue version : rstring) (expires_at : time)
    (old : option WorkerRow) : WorkerRow := {|
  wk_id := id; wk_queue_name := queue; wk_version := version; wk_draining := false;
  wk_started_at := default now (wk_started_at <$> old); wk_heartbeat_at := now;
  wk_expires_at := expires_at |}.

(** The capabilities of the worker replaced by [requested]. *)
Definition replace_capabilities (id : uuid) (requested : list HandlerPolicy) (caps : gset (Z * list Z * Z))
    : gset (Z * list Z * Z) :=
  filter (fun c => c.1.1 <> id) caps ∪ list_to_set (map (fun r => (id, r.1.1, r.1.2)) requested).

(** No policy of the queue is other than requested. *)
Definition policies_agree (queue : rstring) (d : Db) (r : HandlerPolicy) : bool :=
  match policies d !! (queue, r.1.1, r.1.2) with
  | Some y => bool_decide (y = r.2)
  | None => true
  end.

Definition put_policy (queue : rstring) (m : gmap (list Z * list Z * Z) RetryColumns) (r : HandlerPolicy)
    : gmap (list Z * list Z * Z) RetryColumns :=
  match m !! (queue, r.1.1, r.1.2) with
  | Some _ => m
  | None => <[(queue, r.1.1, r.1.2) := r.2]> m
  end.

Definition register_worker (e : Env) (id : uuid) (queue version : rstring) (requested : list HandlerPolicy)
    (ttl_ms : Z) (d : Db) : stmt unit :=
  guard? negb (bool_decide (requested = [])) else invalid_parameter;
  guard? bool_decide (NoDup (map fst requested)) else invalid_parameter;
  guard? 0 <? ttl_ms else invalid_parameter;
  guard? sql_name_check MAX_QUEUE_NAME_BYTES queue else check_violation;
  let now := e_now e in
  let d := ensure_queue now queue d in
  let worker := upsert_worker now id queue version (now + milliseconds ttl_ms) (workers d !! id) in
  guard? forallb (fun r => 0 <? r.1.2) requested else check_violation;
  let d := set_workers (<[id := worker]> (workers d))
             (replace_capabilities id requested (worker_capabilities d)) d in
  guard? forallb (policies_agree queue d) requested else check_violation;
  guard? forallb (fun r => bool_decide (is_Some (y_kind r.2))) requested else not_null_violation;
  guard? forallb (fun r => retry_columns_check r.2) requested else check_violation;
  Ok (set_policies (foldl (put_policy queue) (policies d) requested) d, tt).

(** ** Heartbeats *)

Definition beat (now : time) (ttl_ms : Z) (draining : bool) (w : WorkerRow) : WorkerRow := {|
  wk_id := wk_id w; wk_queue_name := wk_queue_name w; wk_version := wk_version w;
  wk_draining := draining; wk_started_at := wk_started_at w; wk_heartbeat_at := now;
  wk_expires_at := now + milliseconds ttl_ms |}.

Definition heartbeat_worker (e : Env) (id : uuid) (ttl_ms : Z) (draining : bool) (d : Db) : stmt bool :=
  match workers d !! id with
  | Some w =>
      if 0 <? ttl_ms
      then Ok (set_workers (<[id := beat (e_now e) ttl_ms draining w]> (workers d)) (worker_capabilities d) d, true)
      else Ok (d, false)
  | None => Ok (d, false)
  end.

Definition live (now : time) (w : WorkerRow) : bool := now <? wk_expires_at w.

Definition live_workers (now : time) (queue : rstring) (d : Db) : list (uuid * WorkerRow) :=
  filter (fun kw : uuid * WorkerRow => wk_queue_name kw.2 = queue /\ live now kw.2 = true)
    (map_to_list (workers d)).

Definition live_worker_count (e : Env) (queue : rstring) (d : Db) : Z := len (live_workers (e_now e) queue d).

(** ** Demand *)

(** [EXISTS (SELECT 1 FROM pgtask.workers JOIN pgtask.worker_capabilities ...)]:
    a live worker of the queue that is not draining can run the task. *)
Definition routable (now : time) (d : Db) (t : TaskRec) : bool :=
  existsb (fun kw : uuid * WorkerRow =>
    bool_decide (wk_queue_name kw.2 = k_queue_name t) && negb (wk_draining kw.2) && live now kw.2
    && bool_decide ((kw.1, sp_task_name (k_spec t), sp_handler_version (k_spec t)) ∈ worker_capabilities d))
    (map_to_list (workers d)).

(** The due tasks of a queue that is not paused. *)
Definition ready_tasks (now : time) (queue : rstring) (d : Db) : list (uuid * TaskRec) :=
  match queues d !! queue with
  | Some u =>
      match u_paused_at u with
      | Some _ => []
      | None => filter (fun kt : uuid * TaskRec =>
          k_queue_name kt.2 = queue /\ k_state kt.2 = Pending /\ k_run_at kt.2 <= now) (map_to_list (tasks d))
      end
  | None => []
  end.

(** [count( * ) FILTER (WHERE p)]. *)
Definition count_where {A} (p : A -> bool) (l : list A) : Z := len (filter (fun a => p a = true) l).

(** [queue_demand]: ready, capable and unroutable tasks. *)
Definition queue_demand (e : Env) (queue : rstring) (caps : list (list Z * Z)) (d : Db)
    : result sqlstate (Z * Z * Z) :=
  guard? negb (bool_decide (caps = [])) else invalid_parameter;
  let ready := ready_tasks (e_now e) queue d in
  Ok (len ready, count_where (fun kt => capable caps kt.2) ready,
      count_where (fun kt => negb (routable (e_now e) d kt.2)) ready).

(** The row [sample_queue_demand] returns: whether it sampled, and the counts. *)
Abbreviation Sample := (bool * Z * Z * Z)%type (only parsing).

Definition last_sample (queue : rstring) (d : Db) : Sample :=
  match demand d !! queue with
  | Some s => (false, dm_live_workers s, dm_routable_tasks s, dm_unroutable_tasks s)
  | None => (false, 0, 0, 0)
  end.

(** The sample is younger than nine tenths of the interval. *)
Definition sample_fresh (now : time) (interval_ms : Z) (queue : rstring) (d : Db) : bool :=
  match demand d !! queue with
  | Some s => now - milliseconds (interval_ms - Z.quot interval_ms 10) <? dm_sampled_at s
  | None => false
  end.

(** [advisory_lock] is what [pg_try_advisory_xact_lock] answers, and [row_lock]
    whether the UPDATE got the row before its lock timeout. *)
Definition sample_queue_demand (e : Env) (advisory_lock row_lock : bool) (queue : rstring) (interval_ms : Z)
    (d : Db) : stmt Sample :=
  guard? 0 <? interval_ms else invalid_parameter;
  let now := e_now e in
  match queues d !! queue with
  | None => Ok (d, (false, 0, 0, 0))
  | Some _ =>
      if negb advisory_lock || sample_fresh now interval_ms queue d then Ok (d, last_sample queue d)
      else
        let ready := ready_tasks now queue d in
        let live := len (live_workers now queue d) in
        let routable_tasks := count_where (fun kt => routable now d kt.2) ready in
        let unroutable_tasks := len ready - routable_tasks in
        if row_lock
        then Ok (set_demand (<[queue := {| dm_sampled_at := now; dm_live_workers := live;
                                           dm_routable_tasks := routable_tasks;
                                           dm_unroutable_tasks := unroutable_tasks |}]> (demand d)) d,
                 (true, live, routable_tasks, unroutable_tasks))
        else Ok (d, last_sample queue d)
  end.

(** ** Retention *)

(** [ORDER BY workers.expires_at, workers.id]. *)
Definition worker_expiry_le (a b : uuid * WorkerRow) : Prop :=
  wk_expires_at a.2 < wk_expires_at b.2 \/ (wk_expires_at a.2 = wk_expires_at b.2 /\ a.1 <= b.1).
Global Instance worker_expiry_le_dec : RelDecision worker_expiry_le.
Proof. intros a b. unfold worker_expiry_le. solve_decision. Defined.

Definition expired_workers (e : Env) (grace_ms limit : Z) (d : Db) : list (uuid * WorkerRow) :=
  take (Z.to_nat limit) (merge_sort worker_expiry_le
    (filter (fun kw : uuid * WorkerRow =>
       wk_expires_at kw.2 <= e_now e - milliseconds grace_ms /\ kw.1 ∉ e_locked e) (map_to_list (workers d)))).

(** DELETE of workers, with the cascade to their capabilities. *)
Definition delete_expired_workers (e : Env) (grace_ms limit : Z) (d : Db) : stmt Z :=
  let rows := expired_workers e grace_ms limit d in
  Ok (set_workers (foldl (fun m kw => delete kw.1 m) (workers d) rows)
        (filter (fun c => c.1.1 ∉ map fst rows) (worker_capabilities d)) d, len rows).

(** ** The calls together *)

Inductive fleet_call : Type :=
| FRegister (id : uuid) (queue version : rstring) (requested : list HandlerPolicy) (ttl_ms : Z)
| FHeartbeat (id : uuid) (ttl_ms : Z) (draining : bool)
| FSample (advisory_lock row_lock : bool) (queue : rstring) (interval_ms : Z)
| FDeleteWorkers (grace_ms limit : Z).

Definition exec_fleet (c : fleet_call) (e : Env) (d : Db) : result sqlstate Db :=
  match c with
  | FRegister id q v r ms => fst <$> register_worker e id q v r ms d
  | FHeartbeat id ms draining => fst <$> heartbeat_worker e id ms draining d
  | FSample a r q ms => fst <$> sample_queue_demand e a r q ms d
  | FDeleteWorkers ms limit => fst <$> delete_expired_workers e ms limit d
  end.

(** They leave the tasks and what hangs on them alone. *)
Lemma exec_fleet_tables c e d d' :
  exec_fleet c e d = Ok d' ->
  tasks d' = tasks d /\ attempts d' = attempts d /\ checkpoints d' = checkpoints d /\ keys d' = keys d /\
  waits d' = waits d /\ result_waits d' = result_waits d /\ schedules d' = schedules d.
Proof.
  destruct c; cbn [exec_fleet]; intros H.
  - destruct (register_worker _ _ _ _ _ _ _) as [[d1 u]|] eqn:E; [|done]. injection H as <-.
    unfold register_worker in E. ok_inv. unfold ensure_queue in *. case_match; by simplify_eq.
  - unfold heartbeat_worker in H. repeat case_match; by simplify_eq/=.
  - unfold sample_queue_demand in H. repeat case_match; by simplify_eq/=.
  - by injection H as <-.
Qed.

(** A policy is stored once. *)
Lemma put_policy_keeps queue m r : m ⊆ put_policy queue m r.
Proof. unfold put_policy. case_match; [done|]. by apply insert_subseteq. Qed.

Lemma put_policies_keep queue l : forall m, m ⊆ foldl (put_policy queue) m l.
Proof.
  induction l as [|r l IH]; intros m; cbn; [done|]. etransitivity; [apply put_policy_keeps|apply IH].
Qed.

Lemma exec_fleet_policies c e d d' : exec_fleet c e d = Ok d' -> policies d ⊆ policies d'.
Proof.
  destruct c; cbn [exec_fleet]; intros H.
  - destruct (register_worker _ _ _ _ _ _ _) as [[d1 u]|] eqn:E; [|done]. injection H as <-.
    unfold register_worker in E. ok_inv. simplify_eq. cbn. etransitivity; [|apply put_policies_keep].
    unfold ensure_queue. by case_match.
  - unfold heartbeat_worker in H. repeat case_match; by simplify_eq/=.
  - unfold sample_queue_demand in H. repeat case_match; by simplify_eq/=.
  - by injection H as <-.
Qed.
