(* ===== verification/Lifecycle.v ===== *)
(** The task lifecycle: an abstract state machine, and the proof that the
    storage protocol implements it.

    [Life] is what the machine sees of a task row; [life_step] lists every
    transition the protocol may make.  [exec_refines] shows that every protocol
    call moves every task along the machine (or not at all) and creates tasks
    only in its initial state, triggers included.  Invariants, fencing and
    finality are then properties of the machine, by induction on its steps. *)

From stdpp Require Import sorting relations.
From S2P Require Import Prelude Text Identifier Json TaskTypes Outcome Rows Tables Protocol Fleet.

(** ** The machine *)

Record Life := {
  li_state : TaskState;
  li_attempt : Z;
  li_failed : Z;
  li_max : Z;
  li_token : option uuid;
  li_completed : bool;
  li_result : option Value;
}.

Definition move (l : Life) (state : TaskState) (token : option uuid) (completed : bool) : Life := {|
  li_state := state; li_attempt := li_attempt l; li_failed := li_failed l; li_max := li_max l;
  li_token := token; li_completed := completed; li_result := li_result l |}.

Definition charge (l : Life) (state : TaskState) (completed : bool) : Life := {|
  li_state := state; li_attempt := li_attempt l; li_failed := li_failed l + 1; li_max := li_max l;
  li_token := None; li_completed := completed; li_result := li_result l |}.

Definition initial (max_attempts : Z) : Life := {|
  li_state := Pending; li_attempt := 0; li_failed := 0; li_max := max_attempts; li_token := None;
  li_completed := false; li_result := None |}.

Inductive life_step : Life -> Life -> Prop :=
| ls_claim l token :
    li_state l = Pending -> li_failed l < li_max l ->
    life_step l {| li_state := Running; li_attempt := li_attempt l + 1; li_failed := li_failed l;
                   li_max := li_max l; li_token := Some token; li_completed := li_completed l;
                   li_result := li_result l |}
| ls_park l : li_state l = Running -> life_step l (move l Pending None (li_completed l))
| ls_wait l : li_state l = Running -> life_step l (move l Waiting None (li_completed l))
| ls_wake l : li_state l = Waiting -> life_step l (move l Pending (li_token l) (li_completed l))
| ls_succeed l result :
    li_state l = Running ->
    life_step l {| li_state := Succeeded; li_attempt := li_attempt l; li_failed := li_failed l;
                   li_max := li_max l; li_token := None; li_completed := true; li_result := result |}
| ls_retry l :
    li_state l = Running -> li_failed l + 1 < li_max l -> life_step l (charge l Pending false)
| ls_fail l : li_state l = Running -> life_step l (charge l Failed true)
| ls_cancel l : outstanding (li_state l) = true -> life_step l (move l Cancelled None true)
| ls_reopen l :
    li_state l = Failed \/ li_state l = Cancelled ->
    life_step l {| li_state := Pending; li_attempt := li_attempt l; li_failed := li_failed l;
                   li_max := Z.max (li_max l) (li_failed l + 1); li_token := None;
                   li_completed := false; li_result := None |}.

Abbreviation life_steps := (rtc life_step).

(** *** Invariants of the machine *)

(** The attempt in progress is not charged yet. *)
Definition in_progress (s : TaskState) : Z := match s with Running => 1 | _ => 0 end.

Record life_inv (l : Life) : Prop := {
  inv_lease : li_state l = Running <-> is_Some (li_token l);
  inv_completed : is_terminal (li_state l) = li_completed l;
  inv_failed : 0 <= li_failed l <= li_max l;
  inv_attempt : li_failed l + in_progress (li_state l) <= li_attempt l;
  inv_budget : is_terminal (li_state l) = false -> li_failed l < li_max l;
  inv_result : li_state l <> Succeeded -> li_result l = None;
}.

Lemma no_token (s : TaskState) : s <> Running -> s = Running <-> is_Some (@None uuid).
Proof. intros ?. split; [done|]. by intros [? ?]. Qed.

Lemma life_inv_initial n : 0 < n -> life_inv (initial n).
Proof. intros Hn. constructor; cbn; [by apply no_token|done|lia|lia|lia|done]. Qed.

Lemma life_inv_step l l' : life_step l l' -> life_inv l -> life_inv l'.
Proof.
  intros Hs [Hl Hc Hf Ha Hb Hr]. destruct Hs as
    [[s a f m tok c r] t Hst Hlt|[s a f m tok c r] Hst|[s a f m tok c r] Hst|[s a f m tok c r] Hst
    |[s a f m tok c r] r' Hst|[s a f m tok c r] Hst Hlt|[s a f m tok c r] Hst|[s a f m tok c r] Hst
    |[s a f m tok c r] Hst]; cbn in *; try subst s; cbn in *; try specialize (Hb eq_refl).
  all: constructor; cbn; try done; try lia; try (by apply no_token); try (intros _; by apply Hr).
  - rewrite <- Hl. by split.
  - destruct s; cbn in *; lia.
  - intros _. apply Hr. by destruct s.
  - destruct Hst as [-> | ->]; cbn in *; lia.
Qed.

Lemma life_inv_steps l l' : life_steps l l' -> life_inv l -> life_inv l'.
Proof. induction 1; eauto using life_inv_step. Qed.

(** *** Fencing and finality of the machine *)

(** The lease of attempt [a] is over. *)
Definition fenced (a : Z) (l : Life) : Prop :=
  a <= li_attempt l /\ ~ (li_state l = Running /\ li_attempt l = a).

Lemma fenced_step a l l' : life_step l l' -> fenced a l -> fenced a l'.
Proof.
  intros Hs [Ha Hn]. destruct Hs; split; cbn; try lia; try (by intros [? ?]).
Qed.

Lemma fenced_steps a l l' : life_steps l l' -> fenced a l -> fenced a l'.
Proof. induction 1; eauto using fenced_step. Qed.

Lemma succeeded_final l l' : life_steps l l' -> li_state l = Succeeded -> l' = l.
Proof.
  intros Hs Hst. inversion Hs as [|? l1 ? Hstep]; subst; [done|].
  exfalso. destruct Hstep as [? ? Hx|? Hx|? Hx|? Hx|? ? Hx|? Hx|? Hx|? Hx|? Hx]; rewrite Hst in Hx;
    try done. by destruct Hx.
Qed.

Lemma counters_step l l' :
  life_step l l' -> li_attempt l <= li_attempt l' /\ li_failed l <= li_failed l' /\ li_max l <= li_max l'.
Proof. destruct 1; cbn; lia. Qed.

Lemma counters_steps l l' :
  life_steps l l' -> li_attempt l <= li_attempt l' /\ li_failed l <= li_failed l' /\ li_max l <= li_max l'.
Proof. induction 1 as [|l l1 l2 Hs _ IH]; [lia|]. apply counters_step in Hs. lia. Qed.

(** ** The protocol moves tasks along the machine *)

Definition life (t : TaskRec) : Life := {|
  li_state := k_state t; li_attempt := k_attempt t;
  li_failed := default 0 (k_failed_attempts t); li_max := k_max_attempts t;
  li_token := l_token <$> k_lease t; li_completed := bool_decide (is_Some (k_completed_at t));
  li_result := k_result t |}.

(** The counter has a value: its column defaults to 0, and migration 0007 filled
    the rows that were there before. *)
Definition known (t : TaskRec) : Prop := is_Some (k_failed_attempts t).

Definition wf (d : Db) : Prop := map_Forall (fun _ t => known t) (tasks d).

(** The steps a statement may take tasks, and how it may create them.  A statement can
    take more steps than it means to: its triggers cancel children and wake parents. *)
Record Course := {
  cr_step : Life -> Life -> Prop;
  cr_new : Life -> Prop;
  cr_new_step l l' : cr_new l -> cr_step l l' -> cr_new l';
  cr_cancel l : outstanding (li_state l) = true -> cr_step l (move l Cancelled None true);
  cr_wake l : li_state l = Waiting -> cr_step l (move l Pending (li_token l) (li_completed l));
}.

Section Along.
Context (C : Course).

Lemma cr_new_steps l l' : cr_new C l -> rtc (cr_step C) l l' -> cr_new C l'.
Proof. intros Hn Hs. induction Hs as [|l l1 l2 Hstep _ IH]; [done|]. by eapply IH, cr_new_step. Qed.

Definition row_evolves_by (t t' : TaskRec) : Prop :=
  known t' /\ k_spec t' = k_spec t /\ rtc (cr_step C) (life t) (life t').

Definition grows_by (d d' : Db) : Prop :=
  forall id, match tasks d !! id with
             | Some t => exists t', tasks d' !! id = Some t' /\ row_evolves_by t t'
             | None => forall t', tasks d' !! id = Some t' ->
                         known t' /\ cr_new C (life t')
             end.

Lemma row_evolves_refl_by t : known t -> row_evolves_by t t.
Proof. intros ?. split_and!; [done..|apply rtc_refl]. Qed.

Lemma row_evolves_trans_by t1 t2 t3 : row_evolves_by t1 t2 -> row_evolves_by t2 t3 -> row_evolves_by t1 t3.
Proof.
  intros (? & Hs & ?) (? & Hs' & ?). split_and!; [done|congruence|by etrans].
Qed.

Lemma row_evolves_once_by t t' :
  known t' -> k_spec t' = k_spec t -> cr_step C (life t) (life t') -> row_evolves_by t t'.
Proof. intros. split_and!; [done..|by apply rtc_once]. Qed.

Lemma grows_tasks_by d d' : wf d -> tasks d' = tasks d -> grows_by d d'.
Proof.
  intros Hwf Ht id. rewrite Ht. destruct (tasks d !! id) as [t|] eqn:E; [|done].
  exists t. split; [done|]. apply row_evolves_refl_by. by apply (Hwf id).
Qed.

Lemma grows_trans_by d1 d2 d3 : grows_by d1 d2 -> grows_by d2 d3 -> grows_by d1 d3.
Proof.
  intros H12 H23 id. specialize (H12 id). specialize (H23 id).
  destruct (tasks d1 !! id) as [t1|].
  - destruct H12 as (t2 & E2 & R12). rewrite E2 in H23. destruct H23 as (t3 & E3 & R23).
    exists t3. split; [done|]. by eapply row_evolves_trans_by.
  - destruct (tasks d2 !! id) as [t2|] eqn:E2; [|done].
    destruct H23 as (t3 & E3 & (Hk & _ & Hs)). rewrite E3. intros ? [= <-].
    destruct (H12 t2 eq_refl) as [_ Hn]. split; [done|]. by eapply cr_new_steps.
Qed.

Lemma grows_wf_by d d' : grows_by d d' -> wf d'.
Proof.
  intros Hg id t' Ht'. specialize (Hg id). destruct (tasks d !! id) as [t|].
  - destruct Hg as (t2 & E2 & (Hk & _ & _)). congruence.
  - by destruct (Hg t' Ht') as [? _].
Qed.

Lemma grows_put_by d id t t' :
  wf d -> tasks d !! id = Some t -> row_evolves_by t t' -> grows_by d (put_task id t' d).
Proof.
  intros Hwf Ht Hr id'. cbn. destruct (decide (id = id')) as [<-|Hne].
  - rewrite Ht. exists t'. by rewrite lookup_insert_eq.
  - rewrite lookup_insert_ne by done. destruct (tasks d !! id') as [t2|] eqn:E; [|done].
    exists t2. split; [done|]. apply row_evolves_refl_by. by apply (Hwf id').
Qed.

(** *** Statements compose *)

Lemma foldM_grows_by {A} (f : Db -> A -> result sqlstate Db) l d d' :
  (forall d a d', wf d -> f d a = Ok d' -> grows_by d d') ->
  wf d -> foldM f d l = Ok d' -> grows_by d d'.
Proof.
  intros Hf. revert d. induction l as [|a l IH]; intros d Hwf H; cbn in H; ok_inv.
  - by apply grows_tasks_by.
  - assert (grows_by d a0) as Hg by eauto. eapply grows_trans_by; [done|]. apply IH; [|done].
    by eapply grows_wf_by.
Qed.

Lemma capacity_tasks old new queue d d' :
  enforce_queue_capacity old new queue d = Ok d' -> tasks d' = tasks d.
Proof.
  unfold enforce_queue_capacity, take_capacity.
  repeat case_match; intros; ok_inv; done.
Qed.

Lemma update_task_tasks id old new d d' :
  update_task id old new d = Ok d' -> tasks d' = <[id := new]> (tasks d).
Proof. unfold update_task. intros H. ok_inv. cbn. by rewrite (capacity_tasks _ _ _ _ _ E). Qed.

(** The rows of a statement: distinct keys, the old rows in place, each moving
    along the machine. *)
Definition moves_by (d : Db) (l : list (uuid * TaskRec * TaskRec)) : Prop :=
  NoDup (map (fun r => r.1.1) l) /\
  Forall (fun r => tasks d !! r.1.1 = Some r.1.2 /\ row_evolves_by r.1.2 r.2) l.

Lemma update_moves_grows_by l d d' :
  wf d -> moves_by d l ->
  foldM (fun d '(id, old, new) => update_task id old new d) d l = Ok d' -> grows_by d d'.
Proof.
  revert d. induction l as [|[[id old] new] l IH]; intros d Hwf [Hnd Hall] H;
    cbn [foldM] in H; ok_inv.
  - by apply grows_tasks_by.
  - apply update_task_tasks in E. apply NoDup_cons in Hnd as [Hni Hnd].
    apply Forall_cons in Hall as [[Hid Hr] Hall]. cbn in Hid, Hr, Hni.
    assert (grows_by d a) as Hg.
    { eapply grows_trans_by; [apply (grows_put_by d id old new); done|].
      apply grows_tasks_by; [|done]. by eapply grows_wf_by, grows_put_by. }
    eapply grows_trans_by; [done|]. apply IH; [by eapply grows_wf_by| |done].
    split; [done|]. rewrite E. apply Forall_forall. intros r Hr'.
    rewrite Forall_forall in Hall. destruct (Hall r Hr') as [Hid' ?]. split; [|done].
    rewrite lookup_insert_ne; [done|]. intros ->. apply Hni. apply list_elem_of_fmap. eauto.
Qed.

Lemma alter_attempt_tasks f id n d : tasks (alter_attempt f id n d) = tasks d.
Proof. done. Qed.

Lemma foldl_tasks {A} (f : Db -> A -> Db) l d :
  (forall d a, tasks (f d a) = tasks d) -> tasks (foldl f d l) = tasks d.
Proof. intros Hf. revert d. induction l as [|a l IH]; intros d; cbn; [done|]. by rewrite IH. Qed.

Lemma life_cancel_by now error t :
  outstanding (k_state t) = true -> known t -> row_evolves_by t (cancel_row now error t).
Proof. intros Ho Hk. apply row_evolves_once_by; [done..|]. by apply (cr_cancel C (life t)). Qed.

Lemma cancel_rows_grows_by now error l d d' :
  wf d -> NoDup (map fst l) ->
  Forall (fun kt => tasks d !! kt.1 = Some kt.2 /\ outstanding (k_state kt.2) = true) l ->
  cancel_rows now error l d = Ok d' -> grows_by d d'.
Proof.
  intros Hwf Hnd Hall H. unfold cancel_rows in H. ok_inv.
  assert (grows_by d a) as Hg.
  { eapply (update_moves_grows_by (map (fun kt => (kt.1, kt.2, cancel_row now error kt.2)) l)).
    - done.
    - split; [by rewrite map_map|]. rewrite Forall_map. eapply Forall_impl; [exact Hall|].
      intros [id t] [Hid Ho]. split; [done|]. apply life_cancel_by; [done|]. by apply (Hwf id).
    - rewrite <- E. clear. revert d. induction l as [|[id t] l IH]; intros d; [done|].
      cbn [foldM map fst snd]. destruct (update_task id t _ d); [|done]. apply IH. }
  eapply grows_trans_by; [done|]. apply grows_tasks_by; [by eapply grows_wf_by|].
  apply foldl_tasks. by intros ? [? ?].
Qed.

Lemma wake_task_grows_by now id d : wf d -> grows_by d (wake_task now id d).
Proof.
  intros Hwf. unfold wake_task. destruct (tasks d !! id) as [t|] eqn:E; [|by apply grows_tasks_by].
  case_bool_decide as Hs; [|by apply grows_tasks_by]. eapply grows_put_by; [done..|].
  apply row_evolves_once_by; [exact (Hwf id t E)|done|]. by apply (cr_wake C (life t)).
Qed.

Lemma insert_checkpoint_tasks now k v d d' v' :
  insert_checkpoint now k v d = Ok (d', v') -> tasks d' = tasks d.
Proof. unfold insert_checkpoint. intros H. ok_inv. destruct (checkpoints d !! k); by ok_inv. Qed.

Lemma resolve_one_grows_by now new d k d' : wf d -> resolve_one now new d k = Ok d' -> grows_by d d'.
Proof.
  intros Hwf H. unfold resolve_one in H. destruct (insert_checkpoint _ _ _ _) as [[d1 v]|] eqn:E; [|done].
  cbn [mbind result_bind] in H. ok_inv. apply insert_checkpoint_tasks in E.
  assert (grows_by d d1) by (by apply grows_tasks_by).
  eapply grows_trans_by; [done|]. eapply grows_trans_by; [apply wake_task_grows_by; by eapply grows_wf_by|].
  apply grows_tasks_by; [|done]. eapply grows_wf_by, wake_task_grows_by. by eapply grows_wf_by.
Qed.

Lemma resolve_task_result_grows_by now id new d d' :
  wf d -> resolve_task_result now id new d = Ok d' -> grows_by d d'.
Proof.
  intros Hwf H. unfold resolve_task_result in H. ok_inv.
  apply foldM_grows_by in E; [|intros; by eapply resolve_one_grows_by|done].
  eapply grows_trans_by; [done|]. apply grows_tasks_by; [by eapply grows_wf_by|done].
Qed.

Lemma update_key_tasks f id t d : tasks (update_key f id t d) = tasks d.
Proof. unfold update_key. by destruct (sp_idempotency_key _). Qed.

Lemma manage_key_tasks now id old new d : tasks (manage_idempotency_key now id old new d) = tasks d.
Proof. unfold manage_idempotency_key. repeat case_match; try done; apply update_key_tasks. Qed.

Lemma owned_children_spec id d :
  NoDup (map fst (owned_children id d)) /\
  Forall (fun kt => tasks d !! kt.1 = Some kt.2 /\ outstanding (k_state kt.2) = true)
    (owned_children id d).
Proof.
  unfold owned_children. split.
  - apply NoDup_fmap_fst_filter.
  - apply Forall_forall. intros [cid t] [[_ Ho] Hin]%list_elem_of_filter. split; [|done].
    by apply elem_of_map_to_list in Hin.
Qed.

Lemma after_update_grows_by fuel now id old new d d' :
  wf d -> after_update fuel now id old new d = Ok d' -> grows_by d d'.
Proof.
  revert id old new d d'. induction fuel as [|fuel IH]; intros id old new d d' Hwf H; cbn in H.
  all: destruct (finishes old new); [|injection H as <-; apply grows_tasks_by; [done|apply manage_key_tasks]].
  - injection H as <-. by apply grows_tasks_by.
  - destruct (cancel_rows _ _ _ _) as [d1|] eqn:E1; [|done]. cbn [mbind result_bind] in H.
    destruct (foldM _ d1 _) as [d2|] eqn:E2; [|done]. cbn [mbind result_bind] in H.
    destruct (owned_children_spec id d) as [Hnd Hall].
    pose proof (cancel_rows_grows_by _ _ _ _ _ Hwf Hnd Hall E1) as G1.
    apply foldM_grows_by in E2; [|intros ? [cid t] ? Hwf' Hx; by eapply IH|by eapply grows_wf_by].
    apply resolve_task_result_grows_by in H; last first.
    { intros i t. rewrite manage_key_tasks. by apply (grows_wf_by _ _ E2). }
    eapply grows_trans_by; [exact G1|]. eapply grows_trans_by; [exact E2|].
    eapply grows_trans_by; [|exact H]. apply grows_tasks_by; [by eapply grows_wf_by|apply manage_key_tasks].
Qed.

Lemma update_rows_grows_by now l between d d' :
  wf d -> moves_by d l -> (forall d, tasks (between d) = tasks d) ->
  update_rows now l between d = Ok d' -> grows_by d d'.
Proof.
  intros Hwf Hm Hb H. unfold update_rows in H. ok_inv.
  apply update_moves_grows_by in E; [|done..].
  assert (grows_by a (between a)) as Gb by (apply grows_tasks_by; [by eapply grows_wf_by|done]).
  apply foldM_grows_by in H; [|intros ? [[id old] new] ? ? Hx; by eapply after_update_grows_by|by eapply grows_wf_by].
  eapply grows_trans_by; [done|]. by eapply grows_trans_by.
Qed.
End Along.

(** All steps of the machine, and new tasks at its beginning. *)
Definition any_course : Course.
Proof.
  refine {| cr_step := life_step; cr_new l := exists n, 0 < n /\ life_steps (initial n) l;
            cr_cancel := ls_cancel; cr_wake := ls_wake |}.
  intros l l' (n & Hn & Hs) Hstep. exists n. split; [done|]. by eapply rtc_r.
Defined.

Abbreviation row_evolves := (row_evolves_by any_course).
Abbreviation row_evolves_refl := (row_evolves_refl_by any_course).
Abbreviation row_evolves_trans := (row_evolves_trans_by any_course).
Abbreviation row_evolves_once := (row_evolves_once_by any_course).
Abbreviation grows := (grows_by any_course).
Abbreviation grows_tasks := (grows_tasks_by any_course).
Abbreviation grows_trans := (grows_trans_by any_course).
Abbreviation grows_wf := (grows_wf_by any_course).
Abbreviation grows_put := (grows_put_by any_course).
Abbreviation foldM_grows := (foldM_grows_by any_course).
Abbreviation moves := (moves_by any_course).
Abbreviation update_moves_grows := (update_moves_grows_by any_course).
Abbreviation life_cancel := (life_cancel_by any_course).
Abbreviation cancel_rows_grows := (cancel_rows_grows_by any_course).
Abbreviation wake_task_grows := (wake_task_grows_by any_course).
Abbreviation resolve_one_grows := (resolve_one_grows_by any_course).
Abbreviation resolve_task_result_grows := (resolve_task_result_grows_by any_course).
Abbreviation after_update_grows := (after_update_grows_by any_course).
Abbreviation update_rows_grows := (update_rows_grows_by any_course).

(** A course on which a worker can claim tasks and record their outcomes. *)
Class Works (C : Course) : Prop := {
  works_claim l token :
    li_state l = Pending -> li_failed l < li_max l ->
    cr_step C l {| li_state := Running; li_attempt := li_attempt l + 1; li_failed := li_failed l;
                   li_max := li_max l; li_token := Some token; li_completed := li_completed l;
                   li_result := li_result l |};
  works_succeed l result :
    li_state l = Running ->
    cr_step C l {| li_state := Succeeded; li_attempt := li_attempt l; li_failed := li_failed l;
                   li_max := li_max l; li_token := None; li_completed := true; li_result := result |};
  works_retry l :
    li_state l = Running -> li_failed l + 1 < li_max l -> cr_step C l (charge l Pending false);
  works_fail l : li_state l = Running -> cr_step C l (charge l Failed true);
}.
Global Instance any_course_works : Works any_course.
Proof. split; intros; by constructor. Qed.

(** *** The rows each statement selects *)

Lemma failures_known d id t : known t -> failures d id t = default 0 (k_failed_attempts t).
Proof. intros [n Hn]. unfold failures. by rewrite Hn. Qed.

Lemma select_tasks_perm e d p R `{!RelDecision R} limit :
  exists rest, select_tasks e d p R limit ++ rest ≡ₚ
    filter (fun kt => p kt = true /\ kt.1 ∉ e_locked e) (map_to_list (tasks d)).
Proof.
  unfold select_tasks. eexists. rewrite take_drop. apply merge_sort_Permutation.
Qed.

Lemma select_tasks_spec e d p R `{!RelDecision R} limit :
  NoDup (map fst (select_tasks e d p R limit)) /\
  Forall (fun kt => tasks d !! kt.1 = Some kt.2 /\ p kt = true /\ kt.1 ∉ e_locked e)
    (select_tasks e d p R limit).
Proof.
  destruct (select_tasks_perm e d p R limit) as [rest Hp]. split.
  - pose proof (NoDup_fmap_fst_filter (fun kt => p kt = true /\ kt.1 ∉ e_locked e) (tasks d)) as Hnd.
    rewrite <- Hp in Hnd. change (NoDup ((select_tasks e d p R limit ++ rest).*1)) in Hnd.
    rewrite fmap_app in Hnd. by apply NoDup_app in Hnd as [? _].
  - apply Forall_forall. intros kt Hin.
    assert (kt ∈ filter (fun kt => p kt = true /\ kt.1 ∉ e_locked e) (map_to_list (tasks d))) as Hf.
    { rewrite <- Hp. apply elem_of_app. by left. }
    apply list_elem_of_filter in Hf as [[? ?] Hf]. destruct kt. by apply elem_of_map_to_list in Hf.
Qed.

Lemma claimable_spec d queue caps due kt :
  claimable d queue caps due kt = true ->
  k_queue_name kt.2 = queue /\ k_state kt.2 = Pending /\ k_run_at kt.2 <= due /\
  failures d kt.1 kt.2 < k_max_attempts kt.2 /\ capable caps kt.2 = true.
Proof.
  unfold claimable. rewrite !andb_true_iff, !bool_decide_eq_true, Z.leb_le, Z.ltb_lt. tauto.
Qed.

(** Every candidate is claimable now; none is a candidate twice. *)
Lemma candidates_spec e d queue caps limit :
  NoDup (map fst (candidates e d queue caps limit)) /\
  Forall (fun kt => tasks d !! kt.1 = Some kt.2 /\ (kt.1 ∉ e_locked e) /\
     exists due, claimable d queue caps due kt = true) (candidates e d queue caps limit).
Proof.
  unfold candidates. destruct (queues d !! queue) as [u|]; [|by split; constructor].
  destruct (u_paused_at u); [by split; constructor|].
  set (first := starved _ _ _ _ _ _).
  destruct (select_tasks_spec e d (claimable d queue caps (e_now e - seconds (u_starvation u)))
              run_at_le (if 0 <? limit then 1 else 0)) as [Hn1 Hf1].
  fold (starved e d queue caps limit u) in Hn1, Hf1. fold first in Hn1, Hf1.
  set (p := fun kt => claimable d queue caps (e_now e) kt && negb (bool_decide (kt.1 ∈ map fst first))).
  destruct (select_tasks_spec e d p priority_le (Z.max (limit - len first) 0)) as [Hn2 Hf2].
  split.
  - rewrite map_app. apply NoDup_app. split_and!; [done| |done]. intros id Hi1 Hi2.
    apply list_elem_of_fmap in Hi2 as (kt & -> & Hin). rewrite Forall_forall in Hf2.
    destruct (Hf2 kt Hin) as (_ & Hp & _). unfold p in Hp.
    apply andb_true_iff in Hp as [_ Hp]. apply negb_true_iff, bool_decide_eq_false in Hp. done.
  - apply Forall_app. split.
    + eapply Forall_impl; [exact Hf1|]. intros kt (? & ? & ?). split_and!; [done..|by eexists].
    + eapply Forall_impl; [exact Hf2|]. intros kt (? & Hp & ?). unfold p in Hp.
      apply andb_true_iff in Hp as [? _]. split_and!; [done..|by eexists].
Qed.

Lemma holds_lease_spec a tok t :
  holds_lease a tok t = true <->
  k_state t = Running /\ k_attempt t = a /\ (l_token <$> k_lease t) = Some tok.
Proof.
  unfold holds_lease. rewrite !andb_true_iff, bool_decide_eq_true, Z.eqb_eq.
  destruct (k_lease t) as [l|]; cbn; [rewrite Z.eqb_eq|]; naive_solver.
Qed.

Lemma held_leases_spec leases seen d :
  NoDup (map fst (held_leases leases seen d)) /\
  Forall (fun kt => tasks d !! kt.1 = Some kt.2 /\ k_state kt.2 = Running /\ (kt.1 ∉ seen) /\
     exists l, l ∈ leases /\ lr_task_id l = kt.1 /\
       holds_lease (lr_attempt l) (lr_lease_token l) kt.2 = true) (held_leases leases seen d).
Proof.
  revert seen. induction leases as [|l leases IH]; intros seen; cbn [held_leases]; [by split; constructor|].
  assert (forall kt, (exists l', (l' ∈ leases) /\ lr_task_id l' = kt.1 /\
     holds_lease (lr_attempt l') (lr_lease_token l') kt.2 = true) ->
     exists l', l' ∈ l :: leases /\ lr_task_id l' = kt.1 /\
     holds_lease (lr_attempt l') (lr_lease_token l') kt.2 = true) as Hmore by set_solver.
  destruct (tasks d !! lr_task_id l) as [t|] eqn:Et.
  2: { destruct (IH seen) as [? HF]. split; [done|]. eapply Forall_impl; [exact HF|].
       intros kt (? & ? & ? & ?). auto. }
  destruct (holds_lease _ _ t && _) eqn:E.
  - apply andb_true_iff in E as [Hh Hs]. apply negb_true_iff, bool_decide_eq_false in Hs.
    destruct (IH (lr_task_id l :: seen)) as [Hnd HF]. split.
    + cbn. constructor; [|done]. intros ([k t'] & Hk & Hin)%list_elem_of_fmap.
      rewrite Forall_forall in HF. destruct (HF _ Hin) as (_ & _ & Hns & _). cbn in *. set_solver.
    + constructor.
      * split_and!; [done|by apply holds_lease_spec in Hh as [? _]|done|]. exists l. set_solver.
      * eapply Forall_impl; [exact HF|]. intros kt (? & ? & ? & ?). split_and!; [done..|set_solver|auto].
  - destruct (IH seen) as [? HF]. split; [done|]. eapply Forall_impl; [exact HF|].
    intros kt (? & ? & ? & ?). auto.
Qed.

Lemma held_requests_spec {A} (lease : A -> LeaseRenewal) d l :
  NoDup (map (fun a => lr_task_id (lease a)) l) ->
  NoDup (map (fun at_ => lr_task_id (lease at_.1)) (held_requests lease d l)) /\
  Forall (fun at_ => at_.1 ∈ l /\ tasks d !! lr_task_id (lease at_.1) = Some at_.2 /\
     holds_lease (lr_attempt (lease at_.1)) (lr_lease_token (lease at_.1)) at_.2 = true)
    (held_requests lease d l).
Proof.
  induction l as [|a l IH]; intros Hnd; [by split; constructor|].
  cbn in Hnd. apply NoDup_cons in Hnd as [Hni Hnd]. destruct (IH Hnd) as [Hn HF].
  assert (Forall (fun at_ => at_.1 ∈ a :: l /\ tasks d !! lr_task_id (lease at_.1) = Some at_.2 /\
     holds_lease (lr_attempt (lease at_.1)) (lr_lease_token (lease at_.1)) at_.2 = true)
    (held_requests lease d l)) as HF'.
  { eapply Forall_impl; [exact HF|]. intros x (? & ? & ?). split_and!; [set_solver|done..]. }
  unfold held_requests in *. cbn [omap list_omap].
  destruct (tasks d !! lr_task_id (lease a)) as [t|] eqn:Et; [|done].
  destruct (holds_lease _ _ t) eqn:Eh; [|done]. split.
  - cbn. constructor; [|done]. intros (x & Hx & Hin)%list_elem_of_fmap. apply Hni.
    rewrite Forall_forall in HF. destruct (HF _ Hin) as (? & _). rewrite Hx. apply list_elem_of_fmap.
    eauto.
  - constructor; [|done]. split_and!; [set_solver|done..].
Qed.

(** *** Each call *)

Lemma life_claim_by C `{!Works C} e d worker ms token id t :
  k_state t = Pending -> failures d id t < k_max_attempts t -> known t ->
  row_evolves_by C t (claim_row e d worker ms token id t).
Proof.
  intros Hs Hf Hk. apply row_evolves_once_by; [by eexists|done|].
  rewrite failures_known in Hf by done. unfold life at 2. cbn. rewrite failures_known by done.
  by apply (works_claim (life t)).
Qed.
Abbreviation life_claim := (life_claim_by any_course).

Lemma life_charge_fail_by C `{!Works C} now d id error retry_ms t :
  k_state t = Running -> known t -> row_evolves_by C t (fail_row now d id error retry_ms t).
Proof.
  intros Hs Hk. apply row_evolves_once_by; [by eexists|done|]. unfold life at 2, fail_row. cbn.
  unfold retries. rewrite failures_known by done.
  destruct retry_ms as [ms|]; [|by apply (works_fail (life t))].
  destruct (Z.ltb_spec (default 0 (k_failed_attempts t) + 1) (k_max_attempts t));
    [by apply (works_retry (life t))|by apply (works_fail (life t))].
Qed.
Abbreviation life_charge_fail := (life_charge_fail_by any_course).

Lemma life_charge_lost now d id t :
  k_state t = Running -> known t -> row_evolves t (recover_row now d id t).
Proof.
  intros Hs Hk. apply row_evolves_once; [by eexists|done|]. unfold life at 2, recover_row. cbn.
  unfold retries. rewrite failures_known by done.
  destruct (Z.ltb_spec (default 0 (k_failed_attempts t) + 1) (k_max_attempts t));
    [by apply (ls_retry (life t))|by apply (ls_fail (life t))].
Qed.

Lemma life_retry now d id t :
  k_state t = Failed \/ k_state t = Cancelled -> known t -> row_evolves t (retry_row now d id t).
Proof.
  intros Hs Hk. apply row_evolves_once; [done..|]. unfold life at 2, retry_row. cbn.
  rewrite failures_known by done. by apply (ls_reopen (life t)).
Qed.

Lemma put_queue_grows e q a b c s d d' u :
  wf d -> put_queue e q a b c s d = Ok (d', u) -> grows d d'.
Proof. intros ? H. unfold put_queue in H. ok_inv. simplify_eq. by apply grows_tasks. Qed.

Lemma set_queue_paused_grows e q p d d' u :
  wf d -> set_queue_paused e q p d = Ok (d', u) -> grows d d'.
Proof.
  intros ? H. unfold set_queue_paused in H. destruct (queues d !! q); ok_inv; simplify_eq; by apply grows_tasks.
Qed.

Lemma ensure_queue_tasks now q d : tasks (ensure_queue now q d) = tasks d.
Proof. unfold ensure_queue. by destruct (queues d !! q). Qed.

Lemma reserve_key_tasks now q key id d : tasks (reserve_key now q key id d).1.1 = tasks d.
Proof. unfold reserve_key. repeat case_match; done. Qed.

Lemma insert_task_grows now id spec run_at max d d' :
  wf d -> insert_task now id spec run_at max d = Ok d' -> grows d d'.
Proof.
  intros Hwf H. unfold insert_task in H. ok_inv. apply capacity_tasks in E.
  apply andb_true_iff in E2 as [_ Hmax%Z.ltb_lt].
  destruct (tasks a !! id) eqn:Eid; [done|]. ok_inv. intros id'. cbn. rewrite E in *.
  destruct (decide (id = id')) as [<-|Hne].
  - rewrite Eid, lookup_insert_eq. intros ? [= <-]. split; [by eexists|]. exists max.
    split; [done|]. apply rtc_refl.
  - rewrite lookup_insert_ne by done. destruct (tasks d !! id') as [t|] eqn:Et; [|done].
    exists t. split; [done|]. apply row_evolves_refl. by apply (Hwf id').
Qed.

Lemma enqueue_grows e tn p q v r pr max key h d d' x :
  wf d -> enqueue e tn p q v r pr max key h d = Ok (d', x) -> grows d d'.
Proof.
  intros Hwf H. unfold enqueue in H. ok_inv.
  set (d1 := ensure_queue (e_now e) q d) in *.
  assert (tasks d1 = tasks d) as T1 by apply ensure_queue_tasks.
  destruct (match key with Some key => _ | None => _ end) as [[d2 id] mine] eqn:Ek.
  assert (tasks d2 = tasks d) as T2.
  { rewrite <- T1. destruct key as [key|].
    - pose proof (reserve_key_tasks (e_now e) q key (e_uuid e 0) d1) as Hr. by rewrite Ek in Hr.
    - by injection Ek as <- _ _. }
  assert (grows d d2) as G by (by apply grows_tasks).
  destruct mine; ok_inv; simplify_eq; [|done].
  eapply grows_trans; [done|]. eapply insert_task_grows; [by eapply grows_wf|done].
Qed.

Lemma insert_attempts_tasks now w l d d' : insert_attempts now w l d = Ok d' -> tasks d' = tasks d.
Proof.
  unfold insert_attempts. revert d. induction l as [|[[id old] new] l IH]; intros d H;
    cbn [foldM] in H; [by ok_inv|].
  destruct (attempts d !! (id, k_attempt new)); cbn in H; [done|]. by rewrite (IH _ H).
Qed.

Lemma claim_grows_by C `{!Works C} e q w caps limit ms d d' rows :
  wf d -> claim e q w caps limit ms d = Ok (d', rows) -> grows_by C d d'.
Proof.
  intros Hwf H. unfold claim in H. ok_inv. simplify_eq.
  set (rows := claimed_rows e d w ms (candidates e d q caps limit)) in *.
  apply insert_attempts_tasks in E1.
  apply (update_rows_grows_by C) in E0; [|done| |done].
  - eapply grows_trans_by; [done|]. apply grows_tasks_by; [by eapply grows_wf_by|done].
  - destruct (candidates_spec e d q caps limit) as [Hnd HF]. unfold rows, claimed_rows. split.
    + assert (forall (f : nat -> uuid * TaskRec -> TaskRec) l,
        map (fun r : uuid * TaskRec * TaskRec => r.1.1) (imap (fun n kt => (kt.1, kt.2, f n kt)) l) = map fst l) as ->.
      { intros f l. revert f. induction l as [|kt l IH]; intros f; [done|]. cbn. f_equal.
        apply (IH (fun n => f (S n))). }
      done.
    + apply Forall_forall. intros r (n & kt & -> & Hin)%elem_of_lookup_imap_1. cbn.
      rewrite Forall_forall in HF. apply list_elem_of_lookup_2 in Hin.
      destruct (HF _ Hin) as (Hid & _ & due & Hc). split; [done|].
      apply claimable_spec in Hc as (_ & ? & _ & ? & _). apply (life_claim_by C); [done..|]. by apply (Hwf kt.1).
Qed.
Definition claim_grows := claim_grows_by any_course.

Lemma renew_grows e leases ms d d' ids :
  wf d -> renew_leases e leases ms d = Ok (d', ids) -> grows d d'.
Proof.
  intros Hwf H. unfold renew_leases in H. injection H as <- _.
  set (held := filter _ _).
  destruct (held_leases_spec leases [] d) as [Hnd HF].
  assert (NoDup (map fst held) /\ Forall (fun kt => tasks d !! kt.1 = Some kt.2) held) as [Hnd' HF'].
  { unfold held. split; [by apply NoDup_map_filter|]. apply Forall_forall.
    intros kt [_ Hin]%list_elem_of_filter. rewrite Forall_forall in HF. by destruct (HF _ Hin). }
  clear HF Hnd. clearbody held. rename held into l. revert d Hwf Hnd' HF'.
  induction l as [|[id t] l IH]; intros d Hwf Hnd HF; cbn [foldl]; [by apply grows_tasks|].
  cbn in Hnd. apply NoDup_cons in Hnd as [Hni Hnd]. apply Forall_cons in HF as [Hid HF]. cbn in Hid.
  assert (grows d (put_task id (renew_row e ms t) d)) as G.
  { eapply grows_put; [done..|]. assert (known t) by (by apply (Hwf id)).
    split_and!; [done..|]. replace (life (renew_row e ms t)) with (life t); [apply rtc_refl|].
    unfold life. cbn. f_equal. by destruct (k_lease t). }
  eapply grows_trans; [done|]. apply IH; [by eapply grows_wf|done|].
  apply Forall_forall. intros kt Hin. rewrite Forall_forall in HF. cbn.
  rewrite lookup_insert_ne; [by apply HF|]. intros ->. apply Hni. apply list_elem_of_fmap. eauto.
Qed.

Lemma finish_attempts_tasks f l d : tasks (finish_attempts f l d) = tasks d.
Proof. apply foldl_tasks. by intros ? [[? ?] ?]. Qed.

Lemma release_grows e leases d d' ids :
  wf d -> release_tasks e leases d = Ok (d', ids) -> grows d d'.
Proof.
  intros Hwf H. unfold release_tasks in H. ok_inv. simplify_eq.
  apply update_rows_grows in E; [done|done| |intros; apply finish_attempts_tasks].
  destruct (held_leases_spec leases [] d) as [Hnd HF]. split; [by rewrite map_map|].
  rewrite Forall_map. eapply Forall_impl; [exact HF|]. intros [id t] (Hid & Hs & _). split; [done|].
  apply row_evolves_once; [exact (Hwf id t Hid)|done|]. by apply (ls_park (life t)).
Qed.

Lemma complete_tasks_grows_by C `{!Works C} e l d d' r :
  wf d -> complete_tasks e l d = Ok (d', r) -> grows_by C d d'.
Proof.
  intros Hwf H. unfold complete_tasks in H. ok_inv. simplify_eq. apply bool_decide_eq_true in E0.
  apply (update_rows_grows_by C) in E2; [done|done| |intros; apply finish_attempts_tasks].
  destruct (held_requests_spec co_lease d l E0) as [Hnd HF]. split; [by rewrite map_map|].
  rewrite Forall_map. eapply Forall_impl; [exact HF|]. intros [c t] (_ & Hid & Hh). split; [done|].
  apply holds_lease_spec in Hh as [Hs _].
  apply row_evolves_once_by; [exact (Hwf _ t Hid)|done|].
  by apply (works_succeed (life t)).
Qed.
Definition complete_tasks_grows := complete_tasks_grows_by any_course.

Lemma fail_tasks_grows_by C `{!Works C} e l d d' r :
  wf d -> fail_tasks e l d = Ok (d', r) -> grows_by C d d'.
Proof.
  intros Hwf H. unfold fail_tasks in H. ok_inv. simplify_eq. apply bool_decide_eq_true in E0.
  apply (update_rows_grows_by C) in E2; [done|done| |intros; by apply foldl_tasks].
  destruct (held_requests_spec fa_lease d l E0) as [Hnd HF]. split; [by rewrite map_map|].
  rewrite Forall_map. eapply Forall_impl; [exact HF|]. intros [c t] (_ & Hid & Hh). split; [done|].
  apply holds_lease_spec in Hh as [Hs _]. apply (life_charge_fail_by C); [done|]. exact (Hwf _ t Hid).
Qed.
Definition fail_tasks_grows := fail_tasks_grows_by any_course.

Lemma recover_expired_grows e q limit d d' n :
  wf d -> recover_expired e q limit d = Ok (d', n) -> grows d d'.
Proof.
  intros Hwf H. unfold recover_expired in H. ok_inv. simplify_eq.
  apply update_rows_grows in E; [done|done| |intros; apply finish_attempts_tasks].
  destruct (select_tasks_spec e d (expired (e_now e) q) expiry_le limit) as [Hnd HF].
  split; [by rewrite map_map|].
  rewrite Forall_map. eapply Forall_impl; [exact HF|]. intros [id t] (Hid & Hp & _). split; [done|].
  apply life_charge_lost; [|exact (Hwf _ t Hid)]. unfold expired in Hp.
  rewrite !andb_true_iff, bool_decide_eq_true in Hp. cbn in *.
  destruct Hp as [[_ Hp] _]. by apply bool_decide_eq_true in Hp.
Qed.

Lemma cancel_outstanding_grows e error id d d' r :
  wf d -> cancel_outstanding e error id d = Ok (d', r) -> grows d d'.
Proof.
  intros Hwf H. unfold cancel_outstanding in H.
  destruct (tasks d !! id) as [t|] eqn:Et; [|ok_inv; simplify_eq; by apply grows_tasks].
  destruct (outstanding (k_state t)) eqn:Ho; [|ok_inv; simplify_eq; by apply grows_tasks].
  ok_inv. simplify_eq. apply cancel_rows_grows in E; [|done|by apply NoDup_singleton|by repeat constructor].
  eapply grows_trans; [done|]. eapply after_update_grows; [by eapply grows_wf|done].
Qed.

Lemma admin_cancel_grows e id actor d d' r :
  wf d -> admin_cancel_task e id actor d = Ok (d', r) -> grows d d'.
Proof.
  intros Hwf H. unfold admin_cancel_task, cancel_task in H. ok_inv.
  destruct (cancel_outstanding _ _ _ _) as [[d1 c]|] eqn:Ec; [|done]. cbn [mbind result_bind] in H.
  apply cancel_outstanding_grows in Ec; [|done].
  destruct c; ok_inv; simplify_eq; [|done]. eapply grows_trans; [done|].
  apply grows_tasks; [by eapply grows_wf|done].
Qed.

Lemma admin_retry_grows e id actor d d' r :
  wf d -> admin_retry_task e id actor d = Ok (d', r) -> grows d d'.
Proof.
  intros Hwf H. unfold admin_retry_task in H. ok_inv.
  destruct (tasks d !! id) as [t|] eqn:Et; [|ok_inv; simplify_eq; by apply grows_tasks].
  case_bool_decide as Hs; [|ok_inv; simplify_eq; by apply grows_tasks]. ok_inv. simplify_eq.
  apply update_rows_grows in E0; [|done| |done].
  - eapply grows_trans; [done|]. apply grows_tasks; [by eapply grows_wf|done].
  - split; [by apply NoDup_singleton|]. constructor; [|done]. split; [done|].
    apply life_retry; [done|]. exact (Hwf _ t Et).
Qed.

Lemma active_spec lease d t :
  active lease d = Some t ->
  tasks d !! lr_task_id lease = Some t /\ holds_lease (lr_attempt lease) (lr_lease_token lease) t = true.
Proof.
  unfold active. destruct (tasks d !! lr_task_id lease) as [t'|]; [|done].
  destruct (holds_lease _ _ t') eqn:E; [|done]. by intros [= <-].
Qed.

Lemma park_grows now lease t state run_at d d' :
  wf d -> tasks d !! lr_task_id lease = Some t -> k_state t = Running ->
  state = Pending \/ state = Waiting -> park now lease t state run_at d = Ok d' -> grows d d'.
Proof.
  intros Hwf Ht Hs Hst H. unfold park in H. ok_inv.
  apply update_rows_grows in E; [|done| |done].
  - eapply grows_trans; [done|]. apply grows_tasks; [by eapply grows_wf|done].
  - split; [by apply NoDup_singleton|]. constructor; [|done]. split; [done|].
    apply row_evolves_once; [exact (Hwf _ t Ht)|done|].
    destruct Hst as [-> | ->]; [by apply (ls_park (life t))|by apply (ls_wait (life t))].
Qed.

Lemma commit_checkpoint_grows e lease step occ v d d' r :
  wf d -> commit_checkpoint e lease step occ v d = Ok (d', r) -> grows d d'.
Proof.
  intros Hwf H. unfold commit_checkpoint in H. ok_inv.
  destruct (active lease d) as [t|]; [|ok_inv; simplify_eq; by apply grows_tasks]. ok_inv.
  destruct (insert_checkpoint _ _ _ _) as [[d1 v1]|] eqn:Ei; [|done]. cbn [mbind result_bind] in H. ok_inv. simplify_eq.
  apply grows_tasks; [done|]. by eapply insert_checkpoint_tasks.
Qed.

Lemma suspend_grows text e lease step occ w ms d d' r :
  wf d -> suspend_task text e lease step occ w ms d = Ok (d', r) -> grows d d'.
Proof.
  intros Hwf H. unfold suspend_task in H. ok_inv.
  destruct (active lease d) as [t|] eqn:Ea; [|ok_inv; simplify_eq; by apply grows_tasks]. ok_inv.
  destruct (checkpoints d !! _); [ok_inv; simplify_eq; by apply grows_tasks|].
  destruct (insert_checkpoint _ _ _ _) as [[d1 v1]|] eqn:Ei; [|done]. cbn [mbind result_bind] in H. ok_inv. simplify_eq.
  apply insert_checkpoint_tasks in Ei. apply active_spec in Ea as [Ht [Hs _]%holds_lease_spec].
  assert (grows d d1) by (by apply grows_tasks). eapply grows_trans; [done|].
  eapply park_grows; [by eapply grows_wf|by rewrite Ei|done|by left|done].
Qed.

Lemma resolve_signal_wait_grows now v o d k d' :
  wf d -> resolve_signal_wait now v o d k = Ok d' -> grows d d'.
Proof.
  intros Hwf H. unfold resolve_signal_wait in H.
  destruct (insert_checkpoint _ _ _ _) as [[d1 v1]|] eqn:E; [|done].
  cbn [mbind result_bind] in H. ok_inv. apply insert_checkpoint_tasks in E.
  assert (grows d d1) by (by apply grows_tasks).
  eapply grows_trans; [done|]. eapply grows_trans; [apply wake_task_grows; by eapply grows_wf|].
  apply grows_tasks; [|done]. eapply grows_wf, wake_task_grows. by eapply grows_wf.
Qed.

Lemma wait_for_signal_grows e lease step occ s so ms d d' r :
  wf d -> wait_for_signal e lease step occ s so ms d = Ok (d', r) -> grows d d'.
Proof.
  intros Hwf H. unfold wait_for_signal in H. ok_inv.
  destruct (active lease d) as [t|] eqn:Ea; [|ok_inv; simplify_eq; by apply grows_tasks].
  destruct (checkpoints d !! _); [ok_inv; simplify_eq; by apply grows_tasks|].
  destruct (signals d !! _) as [sg|]; ok_inv.
  - destruct (insert_checkpoint _ _ _ _) as [[d1 v1]|] eqn:Ei; [|done]. cbn [mbind result_bind] in H. ok_inv. simplify_eq.
    apply grows_tasks; [done|]. by eapply insert_checkpoint_tasks.
  - simplify_eq. apply active_spec in Ea as [Ht [Hs _]%holds_lease_spec].
    assert (tasks a = tasks d) as Ta by (unfold arm_wait in *; repeat case_match; by ok_inv).
    assert (grows d a) by (by apply grows_tasks). eapply grows_trans; [done|].
    eapply park_grows; [by eapply grows_wf|by rewrite Ta|done|by right|done].
Qed.

Lemma emit_signal_grows e id s occ v d d' r :
  wf d -> emit_signal e id s occ v d = Ok (d', r) -> grows d d'.
Proof.
  intros Hwf H. unfold emit_signal in H. ok_inv. simplify_eq.
  apply foldM_grows in E3; [|intros; by eapply resolve_signal_wait_grows|done]. done.
Qed.

Lemma recover_wait_timeouts_grows e limit d d' n :
  wf d -> recover_wait_timeouts e limit d = Ok (d', n) -> grows d d'.
Proof.
  intros Hwf H. unfold recover_wait_timeouts in H. ok_inv. simplify_eq.
  eapply foldM_grows; [|done|done]. intros; by eapply resolve_signal_wait_grows.
Qed.

Lemma wait_for_result_grows e lease step occ child ms d d' r :
  wf d -> wait_for_result e lease step occ child ms d = Ok (d', r) -> grows d d'.
Proof.
  intros Hwf H. unfold wait_for_result in H. ok_inv.
  destruct (active lease d) as [t|] eqn:Ea; [|ok_inv; simplify_eq; by apply grows_tasks].
  destruct (checkpoints d !! _); [ok_inv; simplify_eq; by apply grows_tasks|].
  destruct (tasks d !! child) as [c|]; [|done]. ok_inv. destruct (is_terminal (k_state c)).
  - destruct (insert_checkpoint _ _ _ _) as [[d1 v1]|] eqn:Ei; [|done]. cbn [mbind result_bind] in H. ok_inv. simplify_eq.
    apply grows_tasks; [done|]. by eapply insert_checkpoint_tasks.
  - ok_inv. simplify_eq. apply active_spec in Ea as [Ht [Hs _]%holds_lease_spec].
    assert (tasks a = tasks d) as Ta by (unfold arm_result_wait in *; repeat case_match; by ok_inv).
    assert (grows d a) by (by apply grows_tasks). eapply grows_trans; [done|].
    eapply park_grows; [by eapply grows_wf|by rewrite Ta|done|by right|done].
Qed.

Lemma time_out_result_wait_grows e d k d' :
  wf d -> time_out_result_wait e d k = Ok d' -> grows d d'.
Proof.
  intros Hwf H. unfold time_out_result_wait in H.
  destruct (insert_checkpoint _ _ _ _) as [[d1 v1]|] eqn:Ei; [|done]. cbn [mbind result_bind] in H.
  apply insert_checkpoint_tasks in Ei. assert (grows d d1) as G1 by (by apply grows_tasks).
  set (d2 := set_result_waits _ d1) in H.
  assert (grows d1 d2) as G2 by (apply grows_tasks; [by eapply grows_wf|done]).
  assert (grows d2 (wake_task (e_now e) (step_task k) d2)) as G3
    by (apply wake_task_grows; by eapply grows_wf).
  apply (grows_trans _ _ _ G1), (grows_trans _ _ _ G2), (grows_trans _ _ _ G3).
  destruct (rw_result_task <$> _) as [child|];
    [|ok_inv; apply grows_tasks; [eapply grows_wf, G3|done]].
  destruct (cancel_outstanding _ _ _ _) as [[d3 c]|] eqn:Ec; [|done]. cbn [mbind result_bind] in H. ok_inv.
  eapply cancel_outstanding_grows; [eapply grows_wf, G3|done].
Qed.

Lemma recover_result_wait_timeouts_grows e limit d d' n :
  wf d -> recover_result_wait_timeouts e limit d = Ok (d', n) -> grows d d'.
Proof.
  intros Hwf H. unfold recover_result_wait_timeouts in H. ok_inv. simplify_eq.
  eapply foldM_grows; [|done|done]. intros; by eapply time_out_result_wait_grows.
Qed.

Lemma adopt_grows parent child d d' : wf d -> adopt parent child d = Ok d' -> grows d d'.
Proof.
  intros Hwf H. unfold adopt in H. destruct (tasks d !! child) as [t|] eqn:Et; [|done]. ok_inv.
  eapply grows_put; [done..|]. assert (known t) by exact (Hwf _ t Et).
  split_and!; [done..|]. apply rtc_refl.
Qed.

Lemma spawn_grows e lease step occ tn p q v r pr max h d d' x :
  wf d -> spawn_task e lease step occ tn p q v r pr max h d = Ok (d', x) -> grows d d'.
Proof.
  intros Hwf H. unfold spawn_task in H. ok_inv.
  destruct (active lease d) as [t|] eqn:Ea; [|ok_inv; simplify_eq; by apply grows_tasks].
  destruct (checkpoints d !! _) as [c|].
  - destruct (value_get _ _ ≫= as_str) as [text|]; [|done]. ok_inv. simplify_eq. by eapply adopt_grows.
  - destruct (enqueue _ _ _ _ _ _ _ _ _ _ _) as [[d1 [child created]]|] eqn:Ee; [|done].
    cbn [mbind result_bind] in H. ok_inv.
    destruct (insert_checkpoint _ _ _ _) as [[d2 v2]|] eqn:Ei; [|done]. cbn [mbind result_bind] in H. ok_inv. simplify_eq.
    apply enqueue_grows in Ee; [|done]. apply adopt_grows in E2; [|by eapply grows_wf].
    apply insert_checkpoint_tasks in Ei.
    eapply grows_trans; [done|]. eapply grows_trans; [done|]. apply grows_tasks; [by eapply grows_wf|done].
Qed.

Lemma put_schedule_grows e r d d' r' : wf d -> put_schedule e r d = Ok (d', r') -> grows d d'.
Proof.
  intros Hwf H. unfold put_schedule in H. ok_inv.
  repeat case_match; ok_inv; simplify_eq; apply grows_tasks; try done; apply ensure_queue_tasks.
Qed.

Lemma set_schedule_paused_grows e id p d d' r :
  wf d -> set_schedule_paused e id p d = Ok (d', r) -> grows d d'.
Proof.
  intros Hwf H. unfold set_schedule_paused in H.
  case_match; ok_inv; simplify_eq; by apply grows_tasks.
Qed.

Lemma insert_occurrence_grows e r d n x d' n' :
  wf d -> insert_occurrence e r (d, n) x = Ok (d', n') -> grows d d'.
Proof.
  intros Hwf H. unfold insert_occurrence in H. destruct x as [i occurrence].
  destruct (occurrence_exists _ _ _); ok_inv; simplify_eq.
  - apply grows_tasks; [done|]. by eapply capacity_tasks.
  - by eapply insert_task_grows.
Qed.

Lemma admin_set_schedule_paused_tables e id p a d d' b :
  admin_set_schedule_paused e id p a d = Ok (d', b) ->
  tasks d' = tasks d /\ checkpoints d' = checkpoints d /\ policies d' = policies d.
Proof.
  intros H. unfold admin_set_schedule_paused, set_schedule_paused in H. ok_inv.
  repeat case_match; ok_inv; by simplify_eq.
Qed.

Lemma admin_set_schedule_paused_grows e id p a d d' b :
  wf d -> admin_set_schedule_paused e id p a d = Ok (d', b) -> grows d d'.
Proof. intros ? H. apply admin_set_schedule_paused_tables in H as [H _]. by apply grows_tasks. Qed.

Lemma materialize_grows e id x os next d d' n :
  wf d -> materialize_schedule e id x os next d = Ok (d', n) -> grows d d'.
Proof.
  intros Hwf H. unfold materialize_schedule in H.
  destruct (schedules d !! id) as [r|]; [|ok_inv; simplify_eq; by apply grows_tasks].
  destruct (_ && _); [|ok_inv; simplify_eq; by apply grows_tasks].
  match type of H with foldM _ (?d1, _) _ = _ =>
    assert (grows d d1) as G by (by apply grows_tasks); revert G H; generalize d1, 0 end.
  generalize (imap pair (take (Z.to_nat (allowed_count r os d)) os)) as l.
  induction l as [|a l IH]; intros d1 m G H; cbn [foldM] in H; [ok_inv; by simplify_eq|].
  destruct (insert_occurrence e r (d1, m) a) as [[d2 m2]|] eqn:E; [|done]. cbn [mbind result_bind] in H.
  eapply IH; [|exact H]. eapply grows_trans; [exact G|].
  eapply insert_occurrence_grows; [by eapply grows_wf|done].
Qed.

(** ** Protocol calls and reachable databases *)

Inductive call : Type :=
| CPutQueue (queue : rstring) (terminal idempotency : Z) (maximum : option Z) (starvation : Z)
| CSetQueuePaused (queue : rstring) (paused : bool)
| CEnqueue (task_name : rstring) (payload : Value) (queue : rstring) (version : Z)
    (run_at : option time) (priority max_attempts : Z) (key : option rstring) (headers : Value)
| CClaim (queue : rstring) (worker : uuid) (caps : list (list Z * Z)) (limit lease_ms : Z)
| CRenew (leases : list LeaseRenewal) (lease_ms : Z)
| CRelease (leases : list LeaseRenewal)
| CComplete (completions : list Completion)
| CFail (failures : list Failure)
| CRecover (queue : rstring) (limit : Z)
| CCancel (id : uuid)
| CAdminCancel (id : uuid) (actor : rstring)
| CAdminRetry (id : uuid) (actor : rstring)
| CCheckpoint (lease : LeaseRenewal) (step : rstring) (occurrence : Z) (value : Value)
| CSuspend (text : time -> rstring) (lease : LeaseRenewal) (step : rstring) (occurrence : Z)
    (wake_at : option time) (delay_ms : option Z)
| CWaitSignal (lease : LeaseRenewal) (step : rstring) (occurrence : Z) (signal : rstring)
    (signal_occurrence : Z) (timeout_ms : option Z)
| CEmit (id : uuid) (signal : rstring) (occurrence : Z) (value : Value)
| CRecoverWaits (limit : Z)
| CWaitResult (lease : LeaseRenewal) (step : rstring) (occurrence : Z) (child : uuid)
    (timeout_ms : option Z)
| CRecoverResultWaits (limit : Z)
| CSpawn (lease : LeaseRenewal) (step : rstring) (occurrence : Z) (task_name : rstring)
    (payload : Value) (queue : rstring) (version : Z) (run_at : option time)
    (priority max_attempts : Z) (headers : Value)
| CDeleteKeys (queue : rstring) (limit : Z)
| CPutSchedule (row : ScheduleRow)
| CPauseSchedule (id : uuid) (paused : bool)
| CDeleteSchedule (id : uuid)
| CMaterialize (id : uuid) (expected : time) (occurrences : list time) (next_run_at : time)
| CAdminPauseSchedule (id : uuid) (paused : bool) (actor : rstring)
| CFleet (c : fleet_call).

Definition exec (c : call) (e : Env) (d : Db) : result sqlstate Db :=
  match c with
  | CPutQueue q a b m s => fst <$> put_queue e q a b m s d
  | CSetQueuePaused q p => fst <$> set_queue_paused e q p d
  | CEnqueue tn p q v r pr mx k h => fst <$> enqueue e tn p q v r pr mx k h d
  | CClaim q w caps l ms => fst <$> claim e q w caps l ms d
  | CRenew ls ms => fst <$> renew_leases e ls ms d
  | CRelease ls => fst <$> release_tasks e ls d
  | CComplete l => fst <$> complete_tasks e l d
  | CFail l => fst <$> fail_tasks e l d
  | CRecover q l => fst <$> recover_expired e q l d
  | CCancel id => fst <$> cancel_task e id d
  | CAdminCancel id a => fst <$> admin_cancel_task e id a d
  | CAdminRetry id a => fst <$> admin_retry_task e id a d
  | CCheckpoint l s o v => fst <$> commit_checkpoint e l s o v d
  | CSuspend text l s o w ms => fst <$> suspend_task text e l s o w ms d
  | CWaitSignal l s o sg so ms => fst <$> wait_for_signal e l s o sg so ms d
  | CEmit id s o v => fst <$> emit_signal e id s o v d
  | CRecoverWaits l => fst <$> recover_wait_timeouts e l d
  | CWaitResult l s o c ms => fst <$> wait_for_result e l s o c ms d
  | CRecoverResultWaits l => fst <$> recover_result_wait_timeouts e l d
  | CSpawn l s o tn p q v r pr mx h => fst <$> spawn_task e l s o tn p q v r pr mx h d
  | CDeleteKeys q l => fst <$> delete_expired_idempotency_keys e q l d
  | CPutSchedule r => fst <$> put_schedule e r d
  | CPauseSchedule id p => fst <$> set_schedule_paused e id p d
  | CDeleteSchedule id => fst <$> delete_schedule id d
  | CMaterialize id x os n => fst <$> materialize_schedule e id x os n d
  | CAdminPauseSchedule id p a => fst <$> admin_set_schedule_paused e id p a d
  | CFleet c => exec_fleet c e d
  end.

Lemma fst_ok {A} (r : result sqlstate (Db * A)) d : (fst <$> r) = Ok d -> exists a, r = Ok (d, a).
Proof. destruct r as [[d' a]|]; intros [= <-]. by exists a. Qed.

Lemma exec_grows c e d d' : wf d -> exec c e d = Ok d' -> grows d d'.
Proof.
  intros Hwf H. destruct c; [apply fst_ok in H as [x H]..|].
  27: { apply exec_fleet_tables in H as [H _]. by apply grows_tasks. }
  21: { unfold delete_expired_idempotency_keys in H. ok_inv. simplify_eq. by apply grows_tasks. }
  23: { unfold delete_schedule in H. ok_inv. simplify_eq. by apply grows_tasks. }
  all: eauto using put_queue_grows, set_queue_paused_grows, enqueue_grows, claim_grows, renew_grows,
    release_grows, complete_tasks_grows, fail_tasks_grows, recover_expired_grows,
    cancel_outstanding_grows, admin_cancel_grows, admin_retry_grows, commit_checkpoint_grows,
    suspend_grows, wait_for_signal_grows, emit_signal_grows, recover_wait_timeouts_grows,
    wait_for_result_grows, recover_result_wait_timeouts_grows, spawn_grows, put_schedule_grows,
    set_schedule_paused_grows, materialize_grows, admin_set_schedule_paused_grows.
Qed.

(** One call of the protocol, or one round of retention. *)
Inductive db_step (d d' : Db) : Prop :=
| step_call c e : exec c e d = Ok d' -> db_step d d'
| step_retention e queue limit n : delete_expired_terminal e queue limit d = Ok (d', n) -> db_step d d'.

Definition call_step (d d' : Db) : Prop := exists c e, exec c e d = Ok d'.

Lemma calls_grow d d' : rtc call_step d d' -> wf d -> grows d d'.
Proof.
  induction 1 as [d|d d1 d2 (c & e & Hs) _ IH]; intros Hwf; [by apply grows_tasks|].
  pose proof (exec_grows _ _ _ _ Hwf Hs). eapply grows_trans; [done|]. apply IH. by eapply grows_wf.
Qed.

(** *** Retention *)

Lemma delete_task_tasks now d kt : tasks (delete_task now d kt) = delete kt.1 (tasks d).
Proof. unfold delete_task. by rewrite update_key_tasks. Qed.

Lemma delete_tasks_lookup now l d id t :
  tasks (foldl (delete_task now) d l) !! id = Some t -> tasks d !! id = Some t /\ id ∉ map fst l.
Proof.
  revert d. induction l as [|kt l IH]; intros d H; cbn in H.
  - split; [done|]. by apply not_elem_of_nil.
  - apply IH in H as [H Hni]. rewrite delete_task_tasks in H.
    apply lookup_delete_Some in H as [Hne H]. split; [done|]. cbn. set_solver.
Qed.

Lemma delete_tasks_keep now l d id t :
  tasks d !! id = Some t -> id ∉ map fst l -> tasks (foldl (delete_task now) d l) !! id = Some t.
Proof.
  revert d. induction l as [|kt l IH]; intros d H Hni; cbn in *; [done|].
  apply IH; [|set_solver]. rewrite delete_task_tasks. apply lookup_delete_Some. set_solver.
Qed.

(** *** Invariants of reachable databases *)

Definition db_inv (d : Db) : Prop :=
  forall id t, tasks d !! id = Some t -> known t /\ life_inv (life t).

Lemma grows_inv d d' : db_inv d -> grows d d' -> db_inv d'.
Proof.
  intros Hinv Hg id t' Ht'. specialize (Hg id). destruct (tasks d !! id) as [t|] eqn:Et.
  - destruct Hg as (t2 & E2 & (Hk & _ & Hs)). rewrite E2 in Ht'. injection Ht' as <-.
    split; [done|]. eapply life_inv_steps; [done|]. by destruct (Hinv id t Et).
  - destruct (Hg t' Ht') as (Hk & n & Hn & Hs). split; [done|].
    eapply life_inv_steps; [done|]. by apply life_inv_initial.
Qed.

Lemma db_inv_wf d : db_inv d -> wf d.
Proof. intros H id t Ht. by destruct (H id t Ht). Qed.

Lemma db_inv_step d d' : db_step d d' -> db_inv d -> db_inv d'.
Proof.
  intros [c e Hs|e q limit n Hs] Hinv.
  - eapply grows_inv; [done|]. eapply exec_grows; [by apply db_inv_wf|done].
  - unfold delete_expired_terminal in Hs. injection Hs as <- _. intros id t Ht.
    apply delete_tasks_lookup in Ht as [Ht _]. eauto.
Qed.

Lemma db_inv_steps d d' : rtc db_step d d' -> db_inv d -> db_inv d'.
Proof. induction 1; eauto using db_inv_step. Qed.

Lemma db_inv_reachable d : rtc db_step empty_db d -> db_inv d.
Proof. intros H. eapply db_inv_steps; [exact H|]. by intros id t. Qed.

(** *** A lease that is not held *)

Lemma held_requests_none {A} (lease : A -> LeaseRenewal) d a :
  active (lease a) d = None -> held_requests lease d [a] = [].
Proof.
  unfold active, held_requests. cbn. destruct (tasks d !! _) as [t|]; [|done].
  by destruct (holds_lease _ _ t).
Qed.

Lemma held_leases_none lease d : active lease d = None -> held_leases [lease] [] d = [].
Proof.
  unfold active. cbn. destruct (tasks d !! _) as [t|]; [|done]. by destruct (holds_lease _ _ t).
Qed.

(** ** Claims *)


(** Claim C2.  In every database the protocol and retention can reach from an
    empty one, each task satisfies the lifecycle invariant: it is running
    exactly when it holds a lease, it has a completion time exactly when its
    state is terminal, the attempts charged to it never exceed [max_attempts]
    nor the attempts started, a task that is not finished always has budget
    left, so none is stuck outside the reach of a claim, and only a succeeded
    task has a result. *)
Theorem reachable_tasks_satisfy_invariant d id t :
  rtc db_step empty_db d -> tasks d !! id = Some t -> life_inv (life t).
Proof. intros H Ht. by destruct (db_inv_reachable d H id t Ht). Qed.

(** Claim C3.  Fencing is permanent: once the lease of attempt [a] is over (the
    task was completed, failed, parked, released, recovered or cancelled, or is
    already on a later attempt), no sequence of protocol calls ever makes that
    attempt's lease valid again, whatever token it is presented with, so a
    worker that lost its lease can never write an outcome later. *)
Theorem fencing_is_permanent d d' id t a token t' :
  wf d -> rtc call_step d d' -> tasks d !! id = Some t ->
  a <= k_attempt t -> ~ (k_state t = Running /\ k_attempt t = a) ->
  tasks d' !! id = Some t' -> holds_lease a token t' = false.
Proof.
  intros Hwf Hs Ht Ha Hn Ht'. pose proof (calls_grow _ _ Hs Hwf id) as Hg. rewrite Ht in Hg.
  destruct Hg as (t2 & E2 & (_ & _ & Hsteps)). rewrite E2 in Ht'. injection Ht' as <-.
  destruct (fenced_steps a _ _ Hsteps) as [_ Hf]; [by split|].
  apply not_true_iff_false. intros (? & ? & _)%holds_lease_spec. by apply Hf.
Qed.

(** Claim C4.  A worker whose lease is no longer the one in the row changes
    nothing: completing, failing, renewing, releasing, checkpointing, sleeping,
    waiting and spawning all answer negatively and leave every table as it
    was. *)
Theorem stale_lease_changes_nothing e d lease :
  active lease d = None ->
  (forall result d' b, complete_task e lease result d = Ok (d', b) -> d' = d /\ b = false) /\
  (forall error ms d' s, fail_task e lease error ms d = Ok (d', s) -> d' = d /\ s = None) /\
  (forall ms d' ids, renew_leases e [lease] ms d = Ok (d', ids) -> d' = d /\ ids = []) /\
  (forall d' ids, release_tasks e [lease] d = Ok (d', ids) -> d' = d /\ ids = []) /\
  (forall step occ v d' r, commit_checkpoint e lease step occ v d = Ok (d', r) -> d' = d /\ r = None) /\
  (forall text step occ w ms d' r,
     suspend_task text e lease step occ w ms d = Ok (d', r) -> d' = d /\ r = None) /\
  (forall step occ s so ms d' r,
     wait_for_signal e lease step occ s so ms d = Ok (d', r) -> d' = d /\ r = None) /\
  (forall step occ child ms d' r,
     wait_for_result e lease step occ child ms d = Ok (d', r) -> d' = d /\ r = None) /\
  (forall step occ tn p q v ra pr mx h d' r,
     spawn_task e lease step occ tn p q v ra pr mx h d = Ok (d', r) -> d' = d /\ r = None).
Proof.
  intros Ha. pose proof (held_leases_none _ _ Ha) as Hl. split_and!; intros *; intros H.
  - unfold complete_task, complete_tasks in H.
    rewrite (held_requests_none co_lease) in H by done. cbn in H.
    destruct result as [v|]; [destruct (jsonb v)|]; cbn in H; ok_inv; simplify_eq; done.
  - unfold fail_task, fail_tasks in H. rewrite (held_requests_none fa_lease) in H by done. cbn in H.
    destruct (jsonb error); cbn in H; ok_inv; simplify_eq; done.
  - unfold renew_leases in H. rewrite Hl in H. cbn in H. ok_inv; simplify_eq; done.
  - unfold release_tasks in H. rewrite Hl in H. cbn in H. ok_inv; simplify_eq; done.
  - unfold commit_checkpoint in H. rewrite Ha in H. ok_inv; simplify_eq; done.
  - unfold suspend_task in H. rewrite Ha in H. ok_inv; simplify_eq; done.
  - unfold wait_for_signal in H. rewrite Ha in H. ok_inv; simplify_eq; done.
  - unfold wait_for_result in H. rewrite Ha in H. ok_inv; simplify_eq; done.
  - unfold spawn_task in H. rewrite Ha in H. ok_inv; simplify_eq; done.
Qed.

(** Success is final: a succeeded task keeps its state and its result
    under every sequence of protocol calls (an administrator can only retry
    failed and cancelled tasks). *)
Theorem success_is_final d d' id t :
  wf d -> rtc call_step d d' -> tasks d !! id = Some t -> k_state t = Succeeded ->
  exists t', tasks d' !! id = Some t' /\ k_state t' = Succeeded /\ k_result t' = k_result t /\
    k_attempt t' = k_attempt t.
Proof.
  intros Hwf Hs Ht Hst. pose proof (calls_grow _ _ Hs Hwf id) as Hg. rewrite Ht in Hg.
  destruct Hg as (t' & E & (_ & _ & Hsteps)). exists t'. split; [done|].
  apply succeeded_final in Hsteps; [|done]. unfold life in Hsteps. injection Hsteps. intros.
  split_and!; congruence.
Qed.

(** Retention deletes only what it may: a task is gone after
    [delete_expired_terminal] only if it was in that queue, finished for longer
    than the queue's retention, without children, and not locked by another
    transaction; every other task keeps its row, and at most [limit] are
    deleted. *)
Theorem retention_deletes_only_expired e queue limit d d' n :
  0 <= limit -> delete_expired_terminal e queue limit d = Ok (d', n) ->
  n <= limit /\
  forall id t, tasks d !! id = Some t ->
    (tasks d' !! id = Some t \/
     (tasks d' !! id = None /\ deletable e queue d (id, t) = true /\ id ∉ e_locked e)).
Proof.
  intros Hlim H. unfold delete_expired_terminal in H. injection H as <- <-.
  set (rows := select_tasks _ _ _ _ _). split.
  { unfold rows, select_tasks, len. rewrite length_take. lia. }
  destruct (select_tasks_spec e d (deletable e queue d) completion_le limit) as [Hnd HF].
  fold rows in Hnd, HF. intros id t Ht.
  destruct (decide (id ∈ map fst rows)) as [Hin|Hni]; [right|left; by apply delete_tasks_keep].
  apply list_elem_of_fmap in Hin as ([id' t'] & Hid & Hin). cbn in Hid. subst id'.
  rewrite Forall_forall in HF. destruct (HF _ Hin) as (Ht' & Hp & Hl). cbn in Ht', Hl.
  rewrite Ht in Ht'. injection Ht' as <-. split_and!; [|done..].
  apply eq_None_not_Some. intros [t2 Ht2]. apply delete_tasks_lookup in Ht2 as [_ Hni].
  apply Hni. apply list_elem_of_fmap. by exists (id, t).
Qed.

(** ** Witnesses: one task enqueued, claimed and completed *)

Definition demo_env (now first : Z) : Env :=
  {| e_now := now; e_uuid := fun n => first + Z.of_nat n; e_locked := ∅ |}.
Definition demo_enqueue : call :=
  CEnqueue (str "mail") VNull (str "default") 1 None 0 5 (Some (str "k")) (VObject []).
Definition demo_claim : call := CClaim (str "default") 7 [(str "mail", 1)] 10 30000.
Definition demo_lease : LeaseRenewal := {| lr_task_id := 100; lr_attempt := 1; lr_lease_token := 200 |}.
Definition demo_complete : call := CComplete [{| co_lease := demo_lease; co_result := Some VNull |}].
Definition run (c : call) (e : Env) (d : Db) : Db := match exec c e d with Ok d' => d' | Err _ => d end.
Definition demo1 : Db := run demo_enqueue (demo_env 10 100) empty_db.
Definition demo2 : Db := run demo_claim (demo_env 20 200) demo1.
Definition demo3 : Db := run demo_complete (demo_env 30 300) demo2.
Definition demo_row (d : Db) : TaskRec :=
  default (new_task 0 {| sp_queue_name := []; sp_task_name := []; sp_handler_version := 0;
    sp_payload := VNull; sp_headers := VNull; sp_priority := 0; sp_idempotency_key := None;
    sp_created_at := 0; sp_scheduled := None |} 0 0 no_retry_columns) (tasks d !! 100).

Lemma demo_steps :
  exec demo_enqueue (demo_env 10 100) empty_db = Ok demo1 /\
  exec demo_claim (demo_env 20 200) demo1 = Ok demo2 /\
  exec demo_complete (demo_env 30 300) demo2 = Ok demo3.
Proof. vm_compute. auto. Qed.

Lemma demo_reachable :
  rtc db_step empty_db demo1 /\ rtc db_step empty_db demo2 /\ rtc db_step empty_db demo3.
Proof.
  destruct demo_steps as (H1 & H2 & H3).
  assert (rtc db_step empty_db demo1) as R1 by (eapply rtc_once, step_call, H1).
  assert (rtc db_step empty_db demo2) as R2 by (eapply rtc_r; [exact R1|]; eapply step_call, H2).
  split_and!; [done..|]. eapply rtc_r; [exact R2|]. eapply step_call, H3.
Qed.

Lemma demo_wf : wf demo1 /\ wf demo2 /\ wf demo3.
Proof. destruct demo_reachable as (? & ? & ?). split_and!; by apply db_inv_wf, db_inv_reachable. Qed.


Lemma reachable_tasks_satisfy_invariant_witness :
  k_state (demo_row demo2) = Running /\ life_inv (life (demo_row demo2)).
Proof.
  split; [vm_compute; reflexivity|].
  apply (reachable_tasks_satisfy_invariant demo2 100); [apply demo_reachable|vm_compute; reflexivity].
Defined.

(** After the completion the same lease is refused. *)
Lemma fencing_is_permanent_witness : holds_lease 1 200 (demo_row demo3) = false.
Proof.
  apply (fencing_is_permanent demo3 demo3 100 (demo_row demo3) 1 200);
    [apply demo_wf|apply rtc_refl|vm_compute; reflexivity|vm_compute; discriminate| |vm_compute; reflexivity].
  intros [H _]. vm_compute in H. discriminate.
Defined.

Lemma stale_lease_changes_nothing_witness :
  active demo_lease demo3 = None /\
  forall result d' b,
    complete_task (demo_env 40 400) demo_lease result demo3 = Ok (d', b) -> d' = demo3 /\ b = false.
Proof.
  split; [vm_compute; reflexivity|].
  apply (stale_lease_changes_nothing (demo_env 40 400) demo3 demo_lease). vm_compute. reflexivity.
Defined.

Lemma success_is_final_witness :
  exists t', tasks demo3 !! 100 = Some t' /\ k_state t' = Succeeded /\ k_result t' = Some VNull /\
    k_attempt t' = 1.
Proof.
  apply (success_is_final demo3 demo3 100 (demo_row demo3));
    [apply demo_wf|apply rtc_refl|vm_compute; reflexivity..].
Defined.

(** A week later the task is gone, a second earlier it is not. *)
Lemma retention_deletes_only_expired_witness :
  let e := demo_env (seconds 604800 + 30) 0 in
  let d' := match delete_expired_terminal e (str "default") 10 demo3 with Ok (d', _) => d' | Err _ => demo3 end in
  1 <= 10 /\ forall id t, tasks demo3 !! id = Some t ->
    (tasks d' !! id = Some t \/
     (tasks d' !! id = None /\ deletable e (str "default") demo3 (id, t) = true /\ id ∉ e_locked e)).
Proof.
  cbn zeta. apply (retention_deletes_only_expired _ _ _ demo3); [lia|vm_compute; reflexivity].
Defined.
