(* ===== verification/Dispatch.v ===== *)
(** What the protocol hands out: the order of [claim], idempotent [enqueue],
    and the delivery of results to waiting parents. *)

From stdpp Require Import sorting.
From S2P Require Import Prelude Text Identifier Json TaskTypes.
From S2P Require Import Outcome Rows Tables Protocol Lifecycle.

(** ** Selection *)

Global Instance run_at_le_total : Total run_at_le.
Proof. intros a b. unfold run_at_le. lia. Qed.
Global Instance run_at_le_trans : Transitive run_at_le.
Proof. intros a b c. unfold run_at_le. lia. Qed.
Global Instance priority_le_total : Total priority_le.
Proof. intros a b. unfold priority_le, run_at_le. lia. Qed.
Global Instance priority_le_trans : Transitive priority_le.
Proof. intros a b c. unfold priority_le, run_at_le. lia. Qed.

Lemma StronglySorted_app_rel {A} (R : A -> A -> Prop) l k a b :
  StronglySorted R (l ++ k) -> a ∈ l -> b ∈ k -> R a b.
Proof.
  induction l as [|x l IH]; cbn; intros Hs Ha Hb; [by apply not_elem_of_nil in Ha|].
  inversion Hs as [|? ? Hs' Hall]; subst. apply elem_of_cons in Ha as [->|Ha]; [|by apply IH].
  rewrite Forall_forall in Hall. apply Hall. apply elem_of_app. by right.
Qed.

Section Select.
Context (e : Env) (d : Db) (p : uuid * TaskRec -> bool)
  (R : uuid * TaskRec -> uuid * TaskRec -> Prop) `{!RelDecision R, !Total R, !Transitive R}
  (limit : Z).
#[local] Set Default Proof Using "All".

Definition selectable (kt : uuid * TaskRec) : Prop :=
  tasks d !! kt.1 = Some kt.2 /\ p kt = true /\ kt.1 ∉ e_locked e.

Lemma select_tasks_len : 0 <= limit -> len (select_tasks e d p R limit) <= limit.
Proof. intros ?. unfold select_tasks, len. rewrite length_take. lia. Qed.

Lemma selectable_split :
  exists rest, StronglySorted R (select_tasks e d p R limit ++ rest) /\
    (forall kt, selectable kt <-> kt ∈ select_tasks e d p R limit ++ rest) /\
    (rest <> [] -> len (select_tasks e d p R limit) = Z.max limit 0).
Proof.
  unfold select_tasks. set (l := merge_sort R _). exists (drop (Z.to_nat limit) l).
  rewrite take_drop. split_and!.
  - apply StronglySorted_merge_sort; apply _.
  - intros [id t]. unfold l. rewrite (merge_sort_Permutation R), list_elem_of_filter.
    rewrite elem_of_map_to_list. unfold selectable. cbn. tauto.
  - intros Hne. unfold len. rewrite length_take.
    assert (Z.to_nat limit < length l)%nat as Hlt; [|lia].
    destruct (decide (Z.to_nat limit < length l)%nat); [done|].
    exfalso. apply Hne. apply drop_ge. lia.
Qed.

(** What is left out comes after everything selected, and something is left
    out only when the limit is reached. *)
Lemma select_tasks_first kt kt' :
  kt ∈ select_tasks e d p R limit -> selectable kt' -> kt' ∉ select_tasks e d p R limit -> R kt kt'.
Proof.
  destruct selectable_split as (rest & Hs & Hsel & _). intros Hin Hk Hni.
  apply Hsel, elem_of_app in Hk as [Hk|Hk]; [done|]. by eapply StronglySorted_app_rel.
Qed.

Lemma select_tasks_all kt :
  0 <= limit -> len (select_tasks e d p R limit) < limit -> selectable kt ->
  kt ∈ select_tasks e d p R limit.
Proof.
  destruct selectable_split as (rest & _ & Hsel & Hfull). intros Hl Hlt Hk.
  apply Hsel, elem_of_app in Hk as [Hk|Hk]; [done|].
  rewrite Hfull in Hlt; [lia|]. intros ->. by apply not_elem_of_nil in Hk.
Qed.
End Select.

(** ** Plain updates *)

Lemma manage_key_plain now id old new d :
  is_terminal (k_state old) = false -> is_terminal (k_state new) = false ->
  manage_idempotency_key now id old new d = d.
Proof.
  intros Ho Hn. unfold manage_idempotency_key, finishes, reopens, outstanding. by rewrite Ho, Hn.
Qed.

Lemma after_update_plain fuel now id old new d :
  is_terminal (k_state old) = false -> is_terminal (k_state new) = false ->
  after_update fuel now id old new d = Ok d.
Proof.
  intros Ho Hn. destruct fuel; cbn [after_update]; unfold finishes, outstanding;
    rewrite Ho, Hn; cbn [negb andb]; by rewrite manage_key_plain.
Qed.

Lemma update_task_plain id old new d :
  is_terminal (k_state old) = false -> is_terminal (k_state new) = false ->
  update_task id old new d = Ok (put_task id new d).
Proof.
  intros Ho Hn. unfold update_task, enforce_queue_capacity, outstanding. by rewrite Ho, Hn.
Qed.

(** A statement that neither finishes nor reopens a task writes its rows and
    nothing else. *)
Lemma update_rows_plain now l between d :
  Forall (fun r => is_terminal (k_state r.1.2) = false /\ is_terminal (k_state r.2) = false) l ->
  update_rows now l between d = Ok (between (foldl (fun d r => put_task r.1.1 r.2 d) d l)).
Proof.
  intros HF. unfold update_rows.
  assert (forall d, foldM (fun d '(id, old, new) => update_task id old new d) d l =
            Ok (foldl (fun d r => put_task r.1.1 r.2 d) d l)) as ->.
  { induction HF as [|[[id old] new] l [Ho Hn] _ IH]; intros d0; [done|]. cbn [fst snd] in Ho, Hn.
    cbn [foldM foldl fst snd]. rewrite update_task_plain by done. apply IH. }
  cbn [mbind result_bind]. generalize (between (foldl (fun d r => put_task r.1.1 r.2 d) d l)) as d0.
  induction HF as [|[[id old] new] l [Ho Hn] _ IH]; intros d0; [done|]. cbn [fst snd] in Ho, Hn.
  cbn [foldM]. rewrite after_update_plain by done. apply IH.
Qed.

Lemma foldl_put_other l : forall d id,
  id ∉ map (fun r : uuid * TaskRec * TaskRec => r.1.1) l ->
  tasks (foldl (fun d r => put_task r.1.1 r.2 d) d l) !! id = tasks d !! id.
Proof.
  induction l as [|r l IH]; intros d id Hn; [done|]. cbn in *. rewrite IH by set_solver.
  cbn. rewrite lookup_insert_ne; [done|set_solver].
Qed.

Lemma foldl_put_lookup l d id old new :
  NoDup (map (fun r : uuid * TaskRec * TaskRec => r.1.1) l) -> (id, old, new) ∈ l ->
  tasks (foldl (fun d r => put_task r.1.1 r.2 d) d l) !! id = Some new.
Proof.
  revert d. induction l as [|[[id' old'] new'] l IH]; intros d Hnd Hin; [by apply not_elem_of_nil in Hin|].
  cbn in Hnd. apply NoDup_cons in Hnd as [Hni Hnd]. cbn [foldl fst snd].
  apply elem_of_cons in Hin as [[= <- <- <-]|Hin]; [|by apply IH].
  rewrite foldl_put_other by done. cbn. by rewrite lookup_insert_eq.
Qed.

Lemma insert_attempts_keep now w l d d' k x :
  insert_attempts now w l d = Ok d' -> attempts d !! k = Some x -> attempts d' !! k = Some x.
Proof.
  unfold insert_attempts. revert d.
  induction l as [|[[i o] n] l IH]; intros d H Hx; cbn [foldM] in H; [by ok_inv|].
  destruct (attempts d !! (i, k_attempt n)) eqn:E; [done|]. cbn [mbind result_bind] in H.
  eapply IH; [exact H|]. cbn. rewrite lookup_insert_ne; [done|]. intros <-. congruence.
Qed.

Lemma insert_attempts_lookup now w l d d' id old new :
  insert_attempts now w l d = Ok d' -> (id, old, new) ∈ l ->
  attempts d' !! (id, k_attempt new) =
    Some (new_attempt now w (default 0 (l_token <$> k_lease new))).
Proof.
  intros H Hin. revert d H. induction l as [|[[id' old'] new'] l IH]; intros d H;
    [by apply not_elem_of_nil in Hin|].
  unfold insert_attempts in H. cbn [foldM] in H.
  destruct (attempts d !! (id', k_attempt new')) eqn:Ea; [done|].
  cbn [mbind result_bind] in H. apply elem_of_cons in Hin as [[= <- <- <-]|Hin].
  - eapply insert_attempts_keep; [exact H|]. cbn. by rewrite lookup_insert_eq.
  - by eapply IH.
Qed.

(** ** Claims on [claim] *)

Lemma claimed_rows_fst e d w ms l : map (fun r => r.1.1) (claimed_rows e d w ms l) = map fst l.
Proof.
  unfold claimed_rows.
  enough (forall (f : nat -> uuid * TaskRec -> TaskRec) l,
    map (fun r : uuid * TaskRec * TaskRec => r.1.1) (imap (fun n kt => (kt.1, kt.2, f n kt)) l) = map fst l)
    as Hg by apply Hg.
  intros f k. revert f. induction k as [|kt k IH]; intros f; [done|]. cbn. f_equal.
  apply (IH (fun n => f (S n))).
Qed.

Lemma claimed_rows_elem e d w ms l r :
  r ∈ claimed_rows e d w ms l ->
  exists n kt, (kt ∈ l) /\ r = (kt.1, kt.2, claim_row e d w ms (e_uuid e n) kt.1 kt.2).
Proof.
  intros (n & kt & -> & Hn)%elem_of_lookup_imap_1. exists n, kt. split; [|done].
  by eapply list_elem_of_lookup_2.
Qed.

Lemma claimable_weaken d q caps due due' kt :
  due <= due' -> claimable d q caps due kt = true -> claimable d q caps due' kt = true.
Proof.
  intros Hle. unfold claimable. rewrite !andb_true_iff, !Z.leb_le. intros ((((? & ?) & ?) & ?) & ?).
  split_and!; try done. lia.
Qed.

(** The two parts of the candidates. *)
Lemma candidates_parts e d q caps limit :
  0 <= limit ->
  candidates e d q caps limit = [] /\ (forall u, queues d !! q = Some u -> is_Some (u_paused_at u)) \/
  exists u first rest, queues d !! q = Some u /\ u_paused_at u = None /\
    candidates e d q caps limit = first ++ rest /\ len first <= 1 /\
    first = starved e d q caps limit u /\
    rest = select_tasks e d
      (fun kt => claimable d q caps (e_now e) kt && negb (bool_decide (kt.1 ∈ map fst first)))
      priority_le (limit - len first) /\ 0 <= limit - len first.
Proof.
  intros Hl. unfold candidates. destruct (queues d !! q) as [u|] eqn:Eq; [|left; by split].
  destruct (u_paused_at u) eqn:Ep; [left; split; [done|]; intros ? [= <-]; by rewrite Ep|].
  right. set (first := starved e d q caps limit u).
  assert (len first <= 1 /\ len first <= limit) as [H1 H2].
  { unfold first, starved. destruct (Z.ltb_spec 0 limit).
    - pose proof (select_tasks_len e d (claimable d q caps (e_now e - seconds (u_starvation u))) run_at_le 1).
      lia.
    - pose proof (select_tasks_len e d (claimable d q caps (e_now e - seconds (u_starvation u))) run_at_le 0).
      lia. }
  exists u, first. eexists. split_and!; try done; try lia. by rewrite Z.max_l by lia.
Qed.

Lemma candidates_len e d q caps limit : 0 <= limit -> len (candidates e d q caps limit) <= limit.
Proof.
  intros Hl. destruct (candidates_parts e d q caps limit Hl) as [[-> _]|(u & f & r & _ & _ & -> & H)].
  - done.
  - destruct H as (_ & _ & -> & H). rewrite len_app.
    pose proof (select_tasks_len e d (fun kt => claimable d q caps (e_now e) kt &&
      negb (bool_decide (kt.1 ∈ map fst f))) priority_le (limit - len f) H). lia.
Qed.

Lemma candidates_claimable e d q caps limit :
  0 <= limit -> (forall u, queues d !! q = Some u -> 0 <= u_starvation u) ->
  Forall (fun kt => claimable d q caps (e_now e) kt = true) (candidates e d q caps limit).
Proof.
  intros Hl Hst. destruct (candidates_parts e d q caps limit Hl)
    as [[-> _]|(u & f & r & Hq & _ & -> & (_ & -> & -> & _))]; [constructor|].
  specialize (Hst u Hq). apply Forall_app. split.
  - destruct (select_tasks_spec e d (claimable d q caps (e_now e - seconds (u_starvation u))) run_at_le
      (if 0 <? limit then 1 else 0)) as [_ HF].
    eapply Forall_impl; [exact HF|]. intros kt (_ & Hc & _).
    eapply claimable_weaken; [|exact Hc]. unfold seconds, NANOS_PER_SEC. lia.
  - match goal with |- Forall _ (select_tasks e d ?p ?R ?n) =>
      destruct (select_tasks_spec e d p R n) as [_ HF] end.
    eapply Forall_impl; [exact HF|]. intros kt (_ & Hc & _). by apply andb_true_iff in Hc as [? _].
Qed.

Lemma claim_inv e q w caps limit ms d d' rows :
  claim e q w caps limit ms d = Ok (d', rows) ->
  let l := claimed_rows e d w ms (candidates e d q caps limit) in
  rows = map (fun r => (r.1.1, r.2)) l /\
  tasks d' = tasks (foldl (fun d r => put_task r.1.1 r.2 d) d l) /\
  exists d1, insert_attempts (e_now e) w l d1 = Ok d'.
Proof.
  intros H. unfold claim in H. ok_inv. simplify_eq. cbn zeta.
  rewrite update_rows_plain in E0; last first.
  { apply Forall_forall. intros r (n & kt & Hin & ->)%claimed_rows_elem. split; [|done].
    destruct (candidates_spec e d q caps limit) as [_ HF]. rewrite Forall_forall in HF.
    destruct (HF _ Hin) as (_ & _ & due & Hc). apply claimable_spec in Hc as (_ & Hs & _).
    cbn [fst snd]. by rewrite Hs. }
  injection E0 as <-. split; [done|]. split; [|by eexists]. by apply insert_attempts_tasks in E1.
Qed.


Lemma row_elem (d : Db) l (kt : uuid * TaskRec) :
  Forall (fun kt => tasks d !! kt.1 = Some kt.2) l -> tasks d !! kt.1 = Some kt.2 ->
  kt.1 ∈ map fst l -> kt ∈ l.
Proof.
  intros HF Ht ([id t] & Hid & Hin)%list_elem_of_fmap. rewrite Forall_forall in HF.
  pose proof (HF _ Hin) as Ht'. destruct kt as [id' t']. cbn in *. subst id'. congruence.
Qed.

Lemma candidates_rows e d q caps limit :
  Forall (fun kt => tasks d !! kt.1 = Some kt.2) (candidates e d q caps limit).
Proof.
  destruct (candidates_spec e d q caps limit) as [_ HF]. eapply Forall_impl; [exact HF|]. by intros kt [? _].
Qed.


(** ** Idempotent enqueue *)

Lemma take_capacity_keys q d d' : take_capacity q d = Ok d' -> keys d' = keys d.
Proof. unfold take_capacity. repeat case_match; intros; ok_inv; done. Qed.

Lemma insert_task_keys now id spec r mx d d' : insert_task now id spec r mx d = Ok d' -> keys d' = keys d.
Proof.
  unfold insert_task, enforce_queue_capacity. cbn [is_terminal]. intros H. ok_inv.
  apply take_capacity_keys in E. destruct (tasks a !! id); by ok_inv.
Qed.

Lemma ensure_queue_keys now q d : keys (ensure_queue now q d) = keys d.
Proof. unfold ensure_queue. by destruct (queues d !! q). Qed.

(** The key names the task that will run for it. *)
Definition key_live (now : time) (i : KeyRec) : Prop :=
  match i_expires_at i with Some t => now < t | None => True end.

Lemma enqueue_key e tn p q v r pr mx key h d d' id created :
  enqueue e tn p q v r pr mx (Some key) h d = Ok (d', (id, created)) ->
  (forall i, keys d !! (q, key) = Some i -> key_live (e_now e) i ->
     id = i_task i /\ created = false /\ tasks d' = tasks d /\ keys d' = keys d) /\
  (created = true -> keys d' !! (q, key) =
     Some {| i_task := id; i_created_at := e_now e; i_expires_at := None |}).
Proof.
  intros H. unfold enqueue in H. ok_inv. unfold reserve_key in H. rewrite ensure_queue_keys in H.
  destruct (keys d !! (q, key)) as [i|] eqn:Ei.
  - destruct (i_expires_at i) as [t|] eqn:Et.
    + destruct (Z.leb_spec t (e_now e)); ok_inv; simplify_eq.
      * split; [intros ? [= <-] Hl; unfold key_live in Hl; rewrite Et in Hl; lia|]. intros _.
        apply insert_task_keys in E6. rewrite E6. cbn. by rewrite lookup_insert_eq.
      * split; [|done]. intros ? [= <-] _. split_and!; [done..|apply ensure_queue_tasks|apply ensure_queue_keys].
    + ok_inv; simplify_eq. split; [|done]. intros ? [= <-] _.
      split_and!; [done..|apply ensure_queue_tasks|apply ensure_queue_keys].
  - ok_inv; simplify_eq. split; [done|]. intros _.
    apply insert_task_keys in E6. rewrite E6. cbn. by rewrite lookup_insert_eq.
Qed.


Definition demo_again : stmt (uuid * bool) :=
  enqueue (demo_env 50 500) (str "other") (VBool true) (str "default") 2 None 3 1 (Some (str "k"))
    (VObject []) demo1.


(** ** Delivery of results *)

(** The checkpoint a finished child leaves wraps its result and its error. *)
Lemma outcome_json_len s r x :
  jsonb_text_len (outcome_json s r x) =
    34 + jsonb_string_len s + jsonb_text_len (or_null r) + jsonb_text_len (or_null x).
Proof.
  unfold outcome_json.
  change (map_collect _) with [(str "error", or_null x); (str "result", or_null r);
    (str "state", VString s)].
  cbn [jsonb_text_len map sum_Z foldr fst snd]. literal_lengths. lia.
Qed.

Lemma resolve_one_too_large now new d k v :
  k_state new = Succeeded -> k_result new = Some v -> k_error new = None ->
  CHECKPOINT_LIMIT - 49 < jsonb_text_len v -> resolve_one now new d k = Err check_violation.
Proof.
  intros Hs Hr He Hl. unfold resolve_one, insert_checkpoint, size_check.
  rewrite Hs, Hr, He, outcome_json_len. cbn [or_null default from_option id].
  change (jsonb_string_len (state_as_str Succeeded)) with 11. change (jsonb_text_len VNull) with 4.
  case_Z; [lia|done].
Qed.

Lemma after_update_too_large fuel now id old new d v k :
  finishes old new = true -> owned_children id d = [] ->
  k_state new = Succeeded -> k_result new = Some v -> k_error new = None ->
  CHECKPOINT_LIMIT - 49 < jsonb_text_len v ->
  k ∈ matching_result_waits id (manage_idempotency_key now id old new d) ->
  after_update (S fuel) now id old new d = Err check_violation.
Proof.
  intros Hf Hc Hs Hr He Hl Hk. cbn [after_update]. rewrite Hf, Hc. cbn.
  unfold resolve_task_result. destruct (matching_result_waits _ _) as [|k' ks];
    [by apply not_elem_of_nil in Hk|].
  cbn [foldM]. by rewrite (resolve_one_too_large _ _ _ _ v).
Qed.

Lemma elem_of_owned_children id d cid c :
  (cid, c) ∈ owned_children id d <->
  tasks d !! cid = Some c /\ k_parent c = Some id /\ outstanding (k_state c) = true.
Proof. unfold owned_children. rewrite list_elem_of_filter, elem_of_map_to_list. cbn. tauto. Qed.

Lemma elem_of_matching id d k w :
  result_waits d !! k = Some w -> rw_result_task w = id -> rw_resolved w = None ->
  (k_state <$> tasks d !! step_task k) = Some Waiting -> k ∈ matching_result_waits id d.
Proof.
  intros Hw Ht Hr Hs. unfold matching_result_waits. apply list_elem_of_fmap. exists (k, w).
  split; [done|]. apply list_elem_of_filter. split; [done|]. by apply elem_of_map_to_list.
Qed.

Lemma update_key_result_waits f id t d : result_waits (update_key f id t d) = result_waits d.
Proof. unfold update_key. by destruct (sp_idempotency_key _). Qed.

Lemma manage_key_result_waits now id old new d :
  result_waits (manage_idempotency_key now id old new d) = result_waits d.
Proof. unfold manage_idempotency_key. repeat case_match; try done; apply update_key_result_waits. Qed.

Lemma list_nil_elem {A} (l : list A) : (forall a, a ∉ l) -> l = [].
Proof. destruct l as [|a l]; [done|]. intros H. destruct (H a). set_solver. Qed.

(** [complete_task] on a lease that is held: one row, its attempt, its
    triggers. *)
Lemma complete_task_held e lease v d t :
  active lease d = Some t -> no_nul v = true -> jsonb_text_len v <= RESULT_LIMIT_BYTES ->
  let rows := [(lr_task_id lease, t, complete_row (e_now e) (Some v) t)] in
  complete_task e lease (Some v) d =
    let? d' := update_rows (e_now e) rows
      (finish_attempts (fun _ a => finish_attempt ASucceeded (e_now e) None a) rows) d in
    Ok (d', true).
Proof.
  intros [Ht Hh]%active_spec Hv Hle rows. unfold complete_task, complete_tasks.
  cbn [collect co_result co_lease map]. unfold jsonb. rewrite Hv.
  cbn [fmap result_fmap mbind result_bind]. rewrite bool_decide_eq_true_2 by apply NoDup_singleton.
  assert (held_requests co_lease d [{| co_lease := lease; co_result := Some v |}] =
    [({| co_lease := lease; co_result := Some v |}, t)]) as ->.
  { unfold held_requests. cbn [omap list_omap co_lease]. by rewrite Ht, Hh. }
  cbn [map collect fst snd co_lease co_result].
  assert (size_check RESULT_LIMIT_BYTES (k_result (complete_row (e_now e) (Some v) t)) = Ok tt) as ->.
  { unfold size_check, complete_row. cbn [k_result].
    destruct (Z.leb_spec (jsonb_text_len v) RESULT_LIMIT_BYTES); [done|lia]. }
  cbn [mbind result_bind]. fold rows. destruct (update_rows _ _ _ _) as [d'|]; [|done].
  cbn [mbind result_bind head default from_option id].
  rewrite bool_decide_eq_true_2 by set_solver. done.
Qed.

(** A result that [pgtask.tasks] accepts can still make the
    completion fail: when the parent already waits for the child, finishing the
    child writes the result into the parent's checkpoint, wrapped in an object
    49 bytes longer, and the checkpoint has the same size limit as the result.
    A result within the last 49 bytes of the limit is therefore refused by the
    statement that completes the task, although [prepare_result] lets it
    through. *)
Theorem large_result_blocks_completion e d lease t v k w :
  active lease d = Some t -> no_nul v = true ->
  CHECKPOINT_LIMIT - 49 < jsonb_text_len v <= RESULT_LIMIT_BYTES ->
  owned_children (lr_task_id lease) d = [] ->
  result_waits d !! k = Some w -> rw_result_task w = lr_task_id lease -> rw_resolved w = None ->
  step_task k <> lr_task_id lease -> (k_state <$> tasks d !! step_task k) = Some Waiting ->
  prepare_result v = PResult v /\ complete_task e lease (Some v) d = Err check_violation.
Proof.
  intros Ha Hv [Hl Hle] Hc Hw Hwt Hwr Hne Hs. split.
  { unfold prepare_result. rewrite escape_nul_id by done.
    destruct (Z.leb_spec (jsonb_text_len v) RESULT_LIMIT_BYTES); [done|lia]. }
  destruct (active_spec _ _ _ Ha) as [Ht Hh]. apply holds_lease_spec in Hh as Hrun.
  destruct Hrun as [Hrun _].
  rewrite (complete_task_held e lease v d t) by done.
  set (id := lr_task_id lease) in *. set (new := complete_row (e_now e) (Some v) t).
  unfold update_rows. cbn [foldM]. unfold update_task, enforce_queue_capacity. rewrite Hrun.
  change (is_terminal (k_state new)) with true. cbn [outstanding is_terminal negb andb mbind result_bind].
  match goal with |- context [after_update ?f ?n ?i ?o ?w ?dd] => set (d2 := dd) end.
  assert (tasks d2 = <[id := new]> (tasks d)) as T2 by done.
  assert (result_waits d2 = result_waits d) as R2 by done.
  unfold trigger_fuel. rewrite (after_update_too_large _ _ _ _ _ _ v k); try done.
  - unfold finishes. by rewrite Hrun.
  - apply list_nil_elem. intros [cid c] Hin. apply elem_of_owned_children in Hin as (Hcid & Hp & Ho).
    rewrite T2 in Hcid. apply lookup_insert_Some in Hcid as [[-> <-]|[_ Hcid]]; [done|].
    apply (not_elem_of_nil (cid, c)). rewrite <- Hc. by apply elem_of_owned_children.
  - eapply elem_of_matching; [by rewrite manage_key_result_waits, R2|done|done|].
    rewrite manage_key_tasks, T2, lookup_insert_ne by done. done.
Qed.

(** ** Witnesses *)



(** The parent 100 claims, spawns 300 and waits for it; 300 is then claimed. *)
Definition family1 : Db :=
  run (CSpawn demo_lease (str "child") 0 (str "mail") VNull (str "default") 1 None 0 5 (VObject []))
    (demo_env 21 300) demo2.
Definition family2 : Db := run (CWaitResult demo_lease (str "wait") 0 300 None) (demo_env 22 0) family1.
Definition family3 : Db := run demo_claim (demo_env 23 400) family2.
Definition child_lease : LeaseRenewal := {| lr_task_id := 300; lr_attempt := 1; lr_lease_token := 400 |}.

(** 5165 numbers of 201 digits and a string: 1048550 bytes. *)
Definition large_result : Value :=
  VArray (VString (repeat 97 51) :: repeat (VNumber (str "1e200")) (Z.to_nat 5165)).

Lemma large_result_blocks_completion_witness :
  jsonb_text_len large_result = 1048550 /\
  prepare_result large_result = PResult large_result /\
  complete_task (demo_env 24 0) child_lease (Some large_result) family3 = Err check_violation.
Proof.
  split; [vm_compute; reflexivity|].
  destruct (active child_lease family3) as [t|] eqn:Ht; [|vm_compute in Ht; discriminate].
  apply (large_result_blocks_completion _ _ _ t _ (100, 1, str "wait", 0)
           {| rw_result_task := 300; rw_timeout_at := None; rw_resolved := None |});
    [exact Ht|vm_compute; reflexivity|vm_compute; split; [reflexivity|discriminate]
    |vm_compute; reflexivity..|vm_compute; discriminate|vm_compute; reflexivity].
Defined.
