(* ===== verification/Triggers.v ===== *)
(** The triggers on [pgtask.tasks] as a whole: which errors a statement can get
    from them, and what they leave behind when a task finishes.

    A statement that finishes a task runs its triggers in the same transaction,
    so a trigger that fails takes the statement with it.  The only error they
    raise is a checkpoint that is too large, and a failed or cancelled task
    never causes it. *)

From S2P Require Import Prelude Text Identifier Json TaskTypes Outcome Rows Tables Protocol.
From S2P Require Import Lifecycle Dispatch.

(** ** Errors of triggers *)

(** The outcome of the row fits a checkpoint. *)
Definition small_outcome (t : TaskRec) : Prop :=
  jsonb_text_len (outcome_json (state_as_str (k_state t)) (k_result t) (k_error t)) <= CHECKPOINT_LIMIT.

Lemma state_text_len s : jsonb_string_len (state_as_str s) <= 11.
Proof. by destruct s. Qed.

Lemma small_error t err :
  k_result t = None -> k_error t = Some err -> jsonb_text_len err <= ERROR_LIMIT_BYTES -> small_outcome t.
Proof.
  intros Hr He Hl. unfold small_outcome. rewrite Hr, He, outcome_json_len.
  pose proof (state_text_len (k_state t)). cbn. unfold ERROR_LIMIT_BYTES, CHECKPOINT_LIMIT in *. lia.
Qed.

Lemma str_len_bound s : str_len s <= 4 * len s.
Proof.
  unfold len. induction s as [|c s IH]; [done|]. rewrite str_len_cons. cbn [length].
  pose proof (len_utf8_bounds c). lia.
Qed.

Lemma parent_finished_len id s : jsonb_text_len (parent_finished id s) <= ERROR_LIMIT_BYTES.
Proof.
  unfold parent_finished.
  change (map_collect _) with [(str "parent_state", VString (state_as_str s));
    (str "parent_task_id", VString (uuid_text id)); (str "type", VString (str "parent_finished"))].
  cbn [jsonb_text_len map sum_Z foldr fst snd].
  pose proof (state_text_len s). pose proof (jsonb_string_len_bound (uuid_text id)).
  assert (str_len (uuid_text id) <= 144) by (apply (str_len_bound (uuid_text id))).
  unfold ERROR_LIMIT_BYTES. literal_lengths. lia.
Qed.

(** A state update that does not reopen the task needs no capacity. *)
Lemma update_task_ok id old new d :
  reopens old new = false -> exists d', update_task id old new d = Ok d'.
Proof.
  unfold reopens, update_task, enforce_queue_capacity, outstanding.
  destruct (is_terminal (k_state old)), (is_terminal (k_state new)); cbn; try done; eauto.
Qed.

Lemma foldM_ok {S A E} (P : S -> Prop) (f : S -> A -> result E S) l s :
  P s -> (forall s a, P s -> a ∈ l -> exists s', f s a = Ok s' /\ P s') ->
  exists s', foldM f s l = Ok s' /\ P s'.
Proof.
  revert s. induction l as [|a l IH]; intros s Hs Hf; cbn [foldM]; [eauto|].
  destruct (Hf s a Hs ltac:(set_solver)) as (s1 & -> & Hs1). cbn [mbind result_bind].
  apply IH; [done|]. intros s2 b ? ?. apply Hf; [done|set_solver].
Qed.

Lemma foldM_err {S A E} (P : E -> Prop) (f : S -> A -> result E S) l s err :
  (forall s a err, a ∈ l -> f s a = Err err -> P err) -> foldM f s l = Err err -> P err.
Proof.
  revert s. induction l as [|a l IH]; intros s Hf H; cbn [foldM] in H; [done|].
  destruct (f s a) as [s1|err1] eqn:E1; cbn [mbind result_bind] in H.
  - eapply IH; [|done]. intros. eapply Hf; [|done]. set_solver.
  - injection H as ->. eapply Hf; [|done]. set_solver.
Qed.

Lemma cancel_rows_ok now error l d : exists d', cancel_rows now error l d = Ok d'.
Proof.
  unfold cancel_rows.
  destruct (foldM_ok (fun _ => True) (fun d '(id, t) => update_task id t (cancel_row now error t) d) l d)
    as (d' & -> & _); [done| |by eexists].
  intros d1 [id t] _ _. destruct (update_task_ok id t (cancel_row now error t) d1) as [d2 ->]; [|eauto].
  unfold reopens. cbn. by rewrite andb_false_r.
Qed.

Lemma resolve_one_ok now new d k : small_outcome new -> exists d', resolve_one now new d k = Ok d'.
Proof.
  intros Hs. unfold resolve_one, insert_checkpoint, size_check. unfold small_outcome in Hs.
  case_Z; [|lia]. cbn [mbind result_bind]. destruct (checkpoints d !! k); cbn; eauto.
Qed.

Lemma resolve_one_err now new d k c : resolve_one now new d k = Err c -> c = check_violation.
Proof.
  unfold resolve_one, insert_checkpoint, size_check. case_Z; cbn [mbind result_bind]; [|by intros [= <-]].
  by destruct (checkpoints d !! k).
Qed.

Lemma resolve_task_result_ok now id new d :
  small_outcome new -> exists d', resolve_task_result now id new d = Ok d'.
Proof.
  intros Hs. unfold resolve_task_result.
  destruct (foldM_ok (fun _ => True) (resolve_one now new) (matching_result_waits id d) d)
    as (d' & -> & _); [done| |by eexists].
  intros d1 k _ _. destruct (resolve_one_ok now new d1 k Hs) as [? ->]. eauto.
Qed.

Lemma child_outcome_small now id s d kt :
  db_inv d -> kt ∈ owned_children id d -> small_outcome (cancel_row now (parent_finished id s) kt.2).
Proof.
  intros Hinv Hin. destruct kt as [cid t]. apply elem_of_owned_children in Hin as (Ht & _ & Ho).
  destruct (Hinv cid t Ht) as [_ Hl]. eapply small_error; [|done|apply parent_finished_len]. cbn.
  apply (inv_result _ Hl). cbn. intros Hs. by rewrite Hs in Ho.
Qed.

(** The triggers of a row with a small outcome succeed. *)
Lemma after_update_ok fuel now id old new d :
  db_inv d -> small_outcome new -> exists d', after_update fuel now id old new d = Ok d'.
Proof.
  revert id old new d. induction fuel as [|fuel IH]; intros id old new d Hinv Hs; cbn [after_update];
    destruct (finishes old new); try by eexists.
  pose proof (owned_children_spec id d) as [Hnd HF].
  destruct (cancel_rows_ok now (parent_finished id (k_state new)) (owned_children id d) d) as [d1 E1].
  rewrite E1. cbn [mbind result_bind].
  pose proof (cancel_rows_grows _ _ _ _ _ (db_inv_wf _ Hinv) Hnd HF E1) as G1.
  destruct (foldM_ok db_inv (fun d '(cid, t) => after_update fuel now cid t
    (cancel_row now (parent_finished id (k_state new)) t) d) (owned_children id d) d1) as (d2 & E2 & Hinv2).
  - by eapply grows_inv.
  - intros d0 [cid t] Hinv0 Hin.
    destruct (IH cid t (cancel_row now (parent_finished id (k_state new)) t) d0 Hinv0) as [d' E].
    { by apply (child_outcome_small now id (k_state new) d (cid, t)). }
    exists d'. split; [done|]. eapply grows_inv; [exact Hinv0|].
    eapply after_update_grows; [by apply db_inv_wf|done].
  - rewrite E2. cbn [mbind result_bind]. by apply resolve_task_result_ok.
Qed.

(** Whatever the row, a trigger fails only on a checkpoint that is too large. *)
Lemma after_update_err fuel now id old new d c :
  after_update fuel now id old new d = Err c -> c = check_violation.
Proof.
  revert id old new d c. induction fuel as [|fuel IH]; intros id old new d c H; cbn [after_update] in H;
    destruct (finishes old new); try done.
  destruct (cancel_rows_ok now (parent_finished id (k_state new)) (owned_children id d) d) as [d1 E1].
  rewrite E1 in H. cbn [mbind result_bind] in H.
  destruct (foldM _ d1 _) as [d2|c2] eqn:E2; cbn [mbind result_bind] in H.
  - unfold resolve_task_result in H. destruct (foldM (resolve_one now new) _ _) as [d3|c3] eqn:E3; [done|].
    injection H as ->. eapply (foldM_err (fun c => c = check_violation)); [|exact E3].
    intros ? ? ? _. apply resolve_one_err.
  - injection H as ->. eapply (foldM_err (fun c => c = check_violation)); [|exact E2].
    intros ? [cid t] ? _. apply IH.
Qed.

(** *** Statements *)

Lemma update_moves_ok l d :
  Forall (fun r => reopens r.1.2 r.2 = false) l ->
  exists d', foldM (fun d '(id, old, new) => update_task id old new d) d l = Ok d'.
Proof.
  intros HF. rewrite Forall_forall in HF.
  destruct (foldM_ok (fun _ => True) (fun d '(id, old, new) => update_task id old new d) l d)
    as (d' & -> & _); [done| |by eexists].
  intros d1 [[id old] new] _ Hin. destruct (update_task_ok id old new d1 (HF _ Hin)) as [? ->]. eauto.
Qed.

Lemma update_rows_ok now l between d :
  db_inv d -> moves d l -> (forall d, tasks (between d) = tasks d) ->
  Forall (fun r => reopens r.1.2 r.2 = false /\ small_outcome r.2) l ->
  exists d', update_rows now l between d = Ok d'.
Proof.
  intros Hinv Hm Hb HF. unfold update_rows.
  destruct (update_moves_ok l d) as [d1 E1].
  { eapply Forall_impl; [exact HF|]. by intros ? [? _]. }
  rewrite E1. cbn [mbind result_bind].
  pose proof (update_moves_grows _ _ _ (db_inv_wf _ Hinv) Hm E1) as G1.
  destruct (foldM_ok db_inv (fun d '(id, old, new) => after_update (trigger_fuel d) now id old new d)
    l (between d1)) as (d' & -> & _); [| |by eexists].
  - intros id t. rewrite Hb. by apply (grows_inv d d1).
  - intros d0 [[id old] new] Hinv0 Hin. rewrite Forall_forall in HF. destruct (HF _ Hin) as [_ Hs].
    destruct (after_update_ok (trigger_fuel d0) now id old new d0 Hinv0 Hs) as [d' E]. exists d'.
    split; [done|]. eapply grows_inv; [exact Hinv0|]. by eapply after_update_grows; [apply db_inv_wf|].
Qed.

Lemma update_rows_err now l between d c :
  Forall (fun r => reopens r.1.2 r.2 = false) l ->
  update_rows now l between d = Err c -> c = check_violation.
Proof.
  intros HF H. unfold update_rows in H. destruct (update_moves_ok l d HF) as [d1 E1].
  rewrite E1 in H. cbn [mbind result_bind] in H.
  eapply (foldM_err (fun c => c = check_violation)); [|exact H].
  intros ? [[id old] new] ? _. apply after_update_err.
Qed.

Lemma collect_ok {E A B} (f : A -> result E B) l :
  Forall (fun a => is_ok (f a) = true) l -> exists l', collect f l = Ok l'.
Proof.
  induction 1 as [|a l Ha _ [l' IH]]; cbn [collect]; [by eexists|].
  destruct (f a); [|done]. rewrite IH. cbn. by eexists.
Qed.

(** The one row of a single completion or failure. *)
Lemma held_one {A} (lease : A -> LeaseRenewal) d a :
  held_requests lease d [a] = match active (lease a) d with Some t => [(a, t)] | None => [] end.
Proof.
  unfold held_requests, active. cbn. destruct (tasks d !! _) as [t|]; [|done]. by destruct (holds_lease _ _ t).
Qed.

(** Writing a failure whose error can be stored never fails. *)
Lemma fail_task_total e lease error ms d :
  db_inv d -> no_nul error = true -> jsonb_text_len error <= ERROR_LIMIT_BYTES ->
  exists d' s, fail_task e lease error ms d = Ok (d', s).
Proof.
  intros Hinv Hn Hl. unfold fail_task, fail_tasks. unfold jsonb. cbn [collect fa_error]. rewrite Hn.
  cbn [mbind result_bind]. rewrite bool_decide_eq_true_2 by apply NoDup_singleton.
  rewrite held_one. cbn [fa_lease].
  destruct (active lease d) as [t|] eqn:Ea; [|cbn; by eexists _, _].
  apply active_spec in Ea as [Ht Hh]. apply holds_lease_spec in Hh as [Hst _].
  cbn [map collect fst snd fa_lease fa_error fa_retry_ms k_error fail_row size_check].
  destruct (Z.leb_spec (jsonb_text_len error) ERROR_LIMIT_BYTES); [|lia]. cbn [mbind result_bind].
  match goal with |- context [update_rows ?n ?r ?b ?d] => destruct (update_rows_ok n r b d) as [d' E] end.
  - done.
  - split; [by apply NoDup_singleton|]. constructor; [|done]. split; [done|].
    apply life_charge_fail; [done|]. by apply (Hinv (lr_task_id lease)).
  - intros. by apply foldl_tasks.
  - constructor; [|done]. cbn [fst snd]. split; [unfold reopens; by rewrite Hst|].
    eapply small_error; [|done|done]. cbn. destruct (Hinv _ _ Ht) as [_ Hi]. apply (inv_result _ Hi).
    cbn. by rewrite Hst.
  - rewrite E. cbn [mbind result_bind]. by eexists _, _.
Qed.

(** Writing a result that can be stored fails only on a checkpoint of a task
    that waits for it. *)
Lemma complete_task_err e lease v d c :
  no_nul v = true -> complete_task e lease (Some v) d = Err c -> c = check_violation.
Proof.
  intros Hn H. unfold complete_task, complete_tasks, jsonb in H. cbn [collect co_result] in H.
  rewrite Hn in H. cbn [mbind result_bind fmap result_fmap] in H.
  rewrite bool_decide_eq_true_2 in H by apply NoDup_singleton. rewrite held_one in H.
  cbn [co_lease] in H. destruct (active lease d) as [t|] eqn:Ea; [|done].
  apply active_spec in Ea as [Ht Hh]. apply holds_lease_spec in Hh as [Hst _].
  cbn [map collect fst snd co_lease co_result k_result complete_row size_check] in H.
  destruct (_ <=? _); cbn [mbind result_bind] in H; [|by injection H as <-].
  destruct (update_rows _ _ _ _) as [d'|c'] eqn:E; cbn [mbind result_bind] in H; [done|]. injection H as ->.
  eapply update_rows_err; [|exact E]. constructor; [|done]. cbn. unfold reopens. by rewrite Hst.
Qed.

(** ** Rows after a statement *)

(** After a statement, each row it updated has evolved from its new value. *)
Lemma update_moves_lookup l : forall d d' id old new,
  NoDup (map (fun r => r.1.1) l) ->
  foldM (fun d '(id, old, new) => update_task id old new d) d l = Ok d' ->
  ((id, old, new) ∈ l -> tasks d' !! id = Some new) /\
  (id ∉ map (fun r => r.1.1) l -> tasks d' !! id = tasks d !! id).
Proof.
  induction l as [|[[i o] n] l IH]; intros d d' id old new Hnd H; cbn [foldM] in H.
  { injection H as <-. split; [by intros ?%not_elem_of_nil|done]. }
  destruct (update_task i o n d) as [d1|] eqn:E; cbn [mbind result_bind] in H; [|done].
  apply update_task_tasks in E. cbn [map] in Hnd. apply NoDup_cons in Hnd as [Hni Hnd].
  destruct (IH d1 d' id old new Hnd H) as [Hin Hout]. split.
  - intros [Heq|?]%elem_of_cons; [|auto]. injection Heq as -> -> ->.
    rewrite Hout by done. rewrite E. apply lookup_insert_eq.
  - cbn [map]. intros [Hne ?]%not_elem_of_cons. rewrite Hout by done. rewrite E.
    by rewrite lookup_insert_ne.
Qed.

Lemma update_rows_lookup now l between d d' id old new :
  wf d -> moves d l -> (forall d, tasks (between d) = tasks d) ->
  update_rows now l between d = Ok d' -> (id, old, new) ∈ l ->
  exists t, tasks d' !! id = Some t /\ row_evolves new t.
Proof.
  intros Hwf Hm Hb H Hin. unfold update_rows in H. ok_inv.
  pose proof (update_moves_grows _ _ _ Hwf Hm E) as Ga.
  destruct (update_moves_lookup _ _ _ id old new (proj1 Hm) E) as [Hl _]. specialize (Hl Hin).
  assert (wf (between a)) as Hwb by (unfold wf; rewrite Hb; by eapply grows_wf).
  apply foldM_grows in H; [|intros ? [[i o] n] ? ? Hx; by eapply after_update_grows|done].
  specialize (H id). rewrite Hb, Hl in H. done.
Qed.

(** A batch is held request by request. *)
Lemma held_requests_elem {A} (lease : A -> LeaseRenewal) d l a t :
  (a, t) ∈ held_requests lease d l <-> a ∈ l /\ active (lease a) d = Some t.
Proof.
  unfold held_requests, active. rewrite list_elem_of_omap. split.
  - intros (x & Hx & E). destruct (tasks d !! lr_task_id (lease x)) as [tx|] eqn:Et; [|done].
    destruct (holds_lease _ _ tx) eqn:Eh; [|done]. injection E as -> ->. by rewrite Et, Eh.
  - intros (Hin & E). exists a. split; [done|].
    destruct (tasks d !! lr_task_id (lease a)) as [ta|]; [|done].
    destruct (holds_lease _ _ ta); [|done]. by injection E as ->.
Qed.

Lemma held_requests_ids {A} (lease : A -> LeaseRenewal) d l a :
  NoDup (map (fun a => lr_task_id (lease a)) l) -> a ∈ l ->
  (lr_task_id (lease a) ∈ map (fun at_ => lr_task_id (lease at_.1)) (held_requests lease d l)
   <-> is_Some (active (lease a) d)).
Proof.
  intros Hnd Ha. rewrite list_elem_of_fmap. split.
  - intros ([b t] & Heq & [Hb Et]%held_requests_elem). cbn in Heq.
    replace b with a in Et by (by eapply (NoDup_map_inj (fun a => lr_task_id (lease a)))). eauto.
  - intros [t Et]. exists (a, t). split; [done|]. by apply held_requests_elem.
Qed.

(** ** Leases that are over *)

(** The attempt was started. *)
Definition lease_started (lease : LeaseRenewal) (d : Db) : Prop :=
  exists t, tasks d !! lr_task_id lease = Some t /\ lr_attempt lease <= k_attempt t.

(** It was, and the lease is not the current one. *)
Definition lease_over (lease : LeaseRenewal) (d : Db) : Prop :=
  exists t, tasks d !! lr_task_id lease = Some t /\ lr_attempt lease <= k_attempt t /\
    holds_lease (lr_attempt lease) (lr_lease_token lease) t = false.

Definition over (a : Z) (token : uuid) (l : Life) : Prop :=
  a <= li_attempt l /\ ~ (li_state l = Running /\ li_attempt l = a /\ li_token l = Some token).

Lemma over_life a token t : over a token (life t) <-> a <= k_attempt t /\ holds_lease a token t = false.
Proof. unfold over. rewrite <- not_true_iff_false, holds_lease_spec. done. Qed.

Lemma over_steps a token l l' : life_steps l l' -> over a token l -> over a token l'.
Proof.
  induction 1 as [|l l1 l2 Hs _ IH]; [done|]. intros [Ha Hn]. apply IH.
  destruct Hs; split; cbn; try lia; try (by intros (? & ? & ?)).
Qed.

Lemma grows_over lease d d' : grows d d' -> lease_over lease d -> lease_over lease d'.
Proof.
  intros Hg (t & Ht & Hov). specialize (Hg (lr_task_id lease)). rewrite Ht in Hg.
  destruct Hg as (t' & Ht' & (_ & _ & Hs)). exists t'. split; [done|]. apply over_life.
  eapply over_steps; [exact Hs|]. by apply over_life.
Qed.

Lemma grows_started lease d d' : grows d d' -> lease_started lease d -> lease_started lease d'.
Proof.
  intros Hg (t & Ht & Ha). specialize (Hg (lr_task_id lease)). rewrite Ht in Hg.
  destruct Hg as (t' & Ht' & (_ & _ & Hs)). exists t'. split; [done|].
  apply counters_steps in Hs as [Hs _]. cbn in Hs. lia.
Qed.

Lemma lease_over_inactive lease d : lease_started lease d -> active lease d = None -> lease_over lease d.
Proof.
  intros (t & Ht & Ha) Hn. exists t. split_and!; [done..|]. unfold active in Hn. rewrite Ht in Hn.
  by destruct (holds_lease _ _ t).
Qed.

(** After a statement that took its held rows out of [Running], the leases it
    named are over. *)
Lemma update_rows_over now l between d d' lease :
  wf d -> moves d l -> (forall d, tasks (between d) = tasks d) ->
  update_rows now l between d = Ok d' -> lease_started lease d ->
  (forall t, active lease d = Some t ->
     exists old new, (lr_task_id lease, old, new) ∈ l /\ k_state new <> Running /\
       k_attempt new = k_attempt t) ->
  lease_over lease d'.
Proof.
  intros Hwf Hm Hb H Hst Hact. pose proof (update_rows_grows _ _ _ _ _ Hwf Hm Hb H) as Hg.
  destruct (active lease d) as [t|] eqn:Ea.
  - destruct (Hact t eq_refl) as (old & new & Hin & Hs & Ha). apply active_spec in Ea as [_ Hh].
    destruct (update_rows_lookup _ _ _ _ _ _ _ _ Hwf Hm Hb H Hin) as (t' & Ht' & (_ & _ & Hev)).
    exists t'. split; [done|]. apply over_life. eapply over_steps; [exact Hev|]. apply over_life.
    apply holds_lease_spec in Hh as (_ & Hat & _). split; [lia|].
    apply not_true_iff_false. by intros [? _]%holds_lease_spec.
  - eapply grows_over; [exact Hg|]. by apply lease_over_inactive.
Qed.

Lemma complete_tasks_over e l d d' rs c :
  wf d -> complete_tasks e l d = Ok (d', rs) -> c ∈ l -> lease_started (co_lease c) d ->
  lease_over (co_lease c) d'.
Proof.
  intros Hwf H Hc Hst. unfold complete_tasks in H. ok_inv. simplify_eq. apply bool_decide_eq_true in E0.
  destruct (held_requests_spec co_lease d l E0) as [Hnd HF].
  eapply update_rows_over; [exact Hwf| | |exact E2|done|].
  - split; [by rewrite map_map|]. rewrite Forall_map. eapply Forall_impl; [exact HF|].
    intros [c' t] (_ & Hid & Hh). split; [done|]. apply holds_lease_spec in Hh as [Hs _].
    apply row_evolves_once; [exact (Hwf _ t Hid)|done|]. by apply (ls_succeed (life t)).
  - intros. apply finish_attempts_tasks.
  - intros t Ea. exists t, (complete_row (e_now e) (co_result c) t). split_and!; [|done..].
    apply list_elem_of_fmap. exists (c, t). split; [done|]. by apply held_requests_elem.
Qed.

Lemma fail_tasks_over e l d d' rs f :
  wf d -> fail_tasks e l d = Ok (d', rs) -> f ∈ l -> lease_started (fa_lease f) d ->
  lease_over (fa_lease f) d'.
Proof.
  intros Hwf H Hf Hst. unfold fail_tasks in H. ok_inv. simplify_eq. apply bool_decide_eq_true in E0.
  destruct (held_requests_spec fa_lease d l E0) as [Hnd HF].
  eapply update_rows_over; [exact Hwf| | |exact E2|done|].
  - split; [by rewrite map_map|]. rewrite Forall_map. eapply Forall_impl; [exact HF|].
    intros [c' t] (_ & Hid & Hh). split; [done|]. apply holds_lease_spec in Hh as [Hs _].
    apply life_charge_fail; [done|]. exact (Hwf _ t Hid).
  - intros. by apply foldl_tasks.
  - intros t Ea. exists t, (fail_row (e_now e) d (lr_task_id (fa_lease f)) (fa_error f) (fa_retry_ms f) t).
    split_and!; [|cbn; by destruct (match fa_retry_ms f with Some _ => _ | None => _ end)|done].
    apply list_elem_of_fmap. exists (f, t). split; [done|]. by apply held_requests_elem.
Qed.
