(* ===== verification/Cascade.v ===== *)
(** What finishing a task leaves behind: its outstanding children are cancelled,
    theirs in turn, and so on, in the same statement.

    The triggers only ever move other tasks towards an end ([fades]): they
    cancel outstanding ones and wake waiting ones.  Each level of the cascade
    therefore has fewer outstanding tasks than the one above, which bounds its
    depth by the number of tasks, the fuel of [after_update]. *)

From S2P Require Import Prelude Text Identifier Json TaskTypes Outcome Rows Tables Protocol Fleet.
From S2P Require Import Lifecycle Dispatch Triggers.

(** ** Triggers only settle tasks *)

Definition settles (t t' : TaskRec) : Prop :=
  k_parent t' = k_parent t /\ (is_terminal (k_state t) = true -> is_terminal (k_state t') = true) /\
  (k_state t' = Running -> t' = t).

Definition fades (d d' : Db) : Prop :=
  forall id, match tasks d !! id with
             | Some t => exists t', tasks d' !! id = Some t' /\ settles t t'
             | None => tasks d' !! id = None
             end.

Lemma settles_refl t : settles t t.
Proof. by split_and!. Qed.

Lemma settles_trans t1 t2 t3 : settles t1 t2 -> settles t2 t3 -> settles t1 t3.
Proof.
  intros (P1 & T1 & R1) (P2 & T2 & R2). split_and!; [congruence|auto|].
  intros Hr. assert (t3 = t2) as -> by auto. auto.
Qed.

Lemma fades_tasks d d' : tasks d' = tasks d -> fades d d'.
Proof.
  intros Ht id. rewrite Ht. destruct (tasks d !! id) as [t|]; [|done].
  exists t. split; [done|apply settles_refl].
Qed.

Lemma fades_trans d1 d2 d3 : fades d1 d2 -> fades d2 d3 -> fades d1 d3.
Proof.
  intros H12 H23 id. specialize (H12 id). specialize (H23 id). destruct (tasks d1 !! id) as [t1|].
  - destruct H12 as (t2 & E2 & S12). rewrite E2 in H23. destruct H23 as (t3 & E3 & S23).
    exists t3. split; [done|by eapply settles_trans].
  - by rewrite H12 in H23.
Qed.

Global Instance fades_preorder : PreOrder fades.
Proof. split; [intros d; by apply fades_tasks|intros ???; apply fades_trans]. Qed.

Lemma fades_put d id t t' : tasks d !! id = Some t -> settles t t' -> fades d (put_task id t' d).
Proof.
  intros Ht Hs i. cbn. destruct (decide (id = i)) as [<-|Hne].
  - rewrite Ht, lookup_insert_eq. eauto.
  - rewrite lookup_insert_ne by done. destruct (tasks d !! i) as [ti|]; [|done].
    exists ti. split; [done|apply settles_refl].
Qed.

Lemma foldM_fades {A} (f : Db -> A -> result sqlstate Db) l d d' :
  (forall d a d', f d a = Ok d' -> fades d d') -> foldM f d l = Ok d' -> fades d d'.
Proof.
  intros Hf. revert d. induction l as [|a l IH]; intros d H; cbn [foldM] in H; ok_inv; [reflexivity|].
  etransitivity; eauto.
Qed.

Lemma update_moves_fades l d d' :
  NoDup (map (fun r => r.1.1) l) ->
  Forall (fun r => tasks d !! r.1.1 = Some r.1.2 /\ settles r.1.2 r.2) l ->
  foldM (fun d '(id, old, new) => update_task id old new d) d l = Ok d' -> fades d d'.
Proof.
  revert d. induction l as [|[[id old] new] l IH]; intros d Hnd Hall H; cbn [foldM] in H; ok_inv; [reflexivity|].
  apply update_task_tasks in E. apply NoDup_cons in Hnd as [Hni Hnd].
  apply Forall_cons in Hall as [[Hid Hs] Hall]. cbn in Hid, Hs, Hni.
  transitivity a; [transitivity (put_task id new d); [by eapply fades_put|by apply fades_tasks]|].
  apply IH; [done| |done]. rewrite E. apply Forall_forall. intros r Hr. rewrite Forall_forall in Hall.
  destruct (Hall r Hr) as [Hid' ?]. split; [|done]. rewrite lookup_insert_ne; [done|].
  intros ->. apply Hni. apply list_elem_of_fmap. eauto.
Qed.

Lemma settles_cancel now error t : settles t (cancel_row now error t).
Proof. by split_and!. Qed.

(** The rows of [cancel_rows] in place before it, and after it. *)
Lemma cancel_rows_updates now error l d :
  foldM (fun d '(id, t) => update_task id t (cancel_row now error t) d) d l =
  foldM (fun d '(id, old, new) => update_task id old new d) d
    (map (fun kt => (kt.1, kt.2, cancel_row now error kt.2)) l).
Proof.
  revert d. induction l as [|[id t] l IH]; intros d; [done|]. cbn [foldM map fst snd].
  destruct (update_task id t _ d); [|done]. apply IH.
Qed.

Lemma cancel_rows_fades now error l d d' :
  NoDup (map fst l) -> Forall (fun kt => tasks d !! kt.1 = Some kt.2) l ->
  cancel_rows now error l d = Ok d' ->
  fades d d' /\ (forall id t, (id, t) ∈ l -> tasks d' !! id = Some (cancel_row now error t)) /\
  (forall id, id ∉ map fst l -> tasks d' !! id = tasks d !! id).
Proof.
  intros Hnd HF H. unfold cancel_rows in H. rewrite cancel_rows_updates in H. ok_inv.
  set (rows := map _ l) in E.
  assert (NoDup (map (fun r : uuid * TaskRec * TaskRec => r.1.1) rows)) as Hnd' by (unfold rows; by rewrite map_map).
  assert (tasks (foldl (fun d '(id, t) => alter_attempt (fun a => if bool_decide (a_state a = ARunning)
    then finish_attempt ACancelled now (Some error) a else a) id (k_attempt t) d) a l) = tasks a) as Ht
    by (apply foldl_tasks; by intros ? [? ?]).
  split_and!.
  - transitivity a; [|by apply fades_tasks]. eapply update_moves_fades; [done| |exact E].
    unfold rows. rewrite Forall_map. eapply Forall_impl; [exact HF|]. intros kt Hkt.
    split; [done|apply settles_cancel].
  - intros id t Hin. rewrite Ht. eapply (update_moves_lookup rows); [done|exact E|].
    unfold rows. apply list_elem_of_fmap. by exists (id, t).
  - intros id Hni. rewrite Ht. destruct (update_moves_lookup rows d a id (demo_row d) (demo_row d) Hnd' E) as [_ Hout].
    apply Hout. unfold rows. by rewrite map_map.
Qed.

Lemma wake_task_fades now id d : fades d (wake_task now id d).
Proof.
  unfold wake_task. destruct (tasks d !! id) as [t|] eqn:E; [|reflexivity].
  case_bool_decide as Hs; [|reflexivity]. eapply fades_put; [done|]. split_and!; [done| |done]. by rewrite Hs.
Qed.

Lemma resolve_task_result_fades now id new d d' : resolve_task_result now id new d = Ok d' -> fades d d'.
Proof.
  intros H. unfold resolve_task_result in H. ok_inv.
  transitivity a; [|by apply fades_tasks]. eapply foldM_fades; [|exact E]. intros d0 k d1 H.
  unfold resolve_one in H. destruct (insert_checkpoint _ _ _ _) as [[d2 v]|] eqn:Ei; [|done].
  cbn [mbind result_bind] in H. ok_inv. apply insert_checkpoint_tasks in Ei.
  transitivity d2; [by apply fades_tasks|]. transitivity (wake_task now (step_task k) d2);
    [apply wake_task_fades|by apply fades_tasks].
Qed.

Lemma owned_children_rows id d :
  NoDup (map fst (owned_children id d)) /\ Forall (fun kt => tasks d !! kt.1 = Some kt.2) (owned_children id d).
Proof.
  destruct (owned_children_spec id d) as [Hnd HF]. split; [done|].
  eapply Forall_impl; [exact HF|]. by intros ? [? _].
Qed.

Lemma after_update_fades fuel now id old new d d' :
  after_update fuel now id old new d = Ok d' -> fades d d'.
Proof.
  revert id old new d d'. induction fuel as [|fuel IH]; intros id old new d d' H; cbn [after_update] in H;
    destruct (finishes old new); try (injection H as <-; apply fades_tasks; done || apply manage_key_tasks).
  destruct (owned_children_rows id d) as [Hnd HF].
  destruct (cancel_rows _ _ _ _) as [d1|] eqn:E1; [|done]. cbn [mbind result_bind] in H.
  destruct (foldM _ d1 _) as [d2|] eqn:E2; [|done]. cbn [mbind result_bind] in H.
  apply cancel_rows_fades in E1 as [G1 _]; [|done..].
  apply foldM_fades in E2; [|intros ? [cid t] ? Hx; by eapply IH].
  transitivity d1; [done|]. transitivity d2; [done|].
  transitivity (manage_idempotency_key now id old new d2); [apply fades_tasks, manage_key_tasks|].
  by eapply resolve_task_result_fades.
Qed.

(** ** Orphans *)

(** The outstanding tasks. *)
Definition open_tasks (d : Db) : gset Z := dom (filter (fun kt => outstanding (k_state kt.2) = true) (tasks d)).

Lemma elem_of_open_tasks d id :
  id ∈ open_tasks d <-> exists t, tasks d !! id = Some t /\ outstanding (k_state t) = true.
Proof.
  unfold open_tasks. rewrite elem_of_dom. split.
  - intros [t [Ht Ho]%map_lookup_filter_Some]. eauto.
  - intros (t & Ht & Ho). exists t. by apply map_lookup_filter_Some.
Qed.

Lemma terminal_outstanding s : is_terminal s = true <-> outstanding s = false.
Proof. unfold outstanding. by destruct (is_terminal s). Qed.

(** An outstanding task was outstanding, under the same parent. *)
Lemma fades_outstanding d d' id t' :
  fades d d' -> tasks d' !! id = Some t' -> outstanding (k_state t') = true ->
  exists t, tasks d !! id = Some t /\ outstanding (k_state t) = true /\ k_parent t = k_parent t'.
Proof.
  intros Hf Ht' Ho. specialize (Hf id). destruct (tasks d !! id) as [t|]; [|congruence].
  destruct Hf as (t2 & E2 & (Hp & Ht & _)). rewrite E2 in Ht'. injection Ht' as <-.
  exists t. split_and!; [done| |done]. destruct (outstanding (k_state t)) eqn:E; [done|].
  apply terminal_outstanding in E. specialize (Ht E). apply terminal_outstanding in Ht. congruence.
Qed.

Lemma fades_open d d' : fades d d' -> open_tasks d' ⊆ open_tasks d.
Proof.
  intros Hf id (t' & Ht' & Ho)%elem_of_open_tasks.
  destruct (fades_outstanding _ _ _ _ Hf Ht' Ho) as (t & ? & ? & _). apply elem_of_open_tasks. eauto.
Qed.

Lemma open_tasks_fuel d : (size (open_tasks d) < trigger_fuel d)%nat.
Proof.
  unfold open_tasks, trigger_fuel. rewrite size_dom.
  pose proof (map_size_filter (fun kt : Z * TaskRec => outstanding (k_state kt.2) = true) (tasks d)). lia.
Qed.

(** [c] is outstanding although its parent [p] is finished. *)
Definition orphan (d : Db) (p c : uuid) : Prop :=
  (exists t, tasks d !! c = Some t /\ outstanding (k_state t) = true /\ k_parent t = Some p) /\
  (exists tp, tasks d !! p = Some tp /\ is_terminal (k_state tp) = true).

(** Resolving waits finishes no task. *)
Lemma resolve_terminal now id new d d' p t :
  resolve_task_result now id new d = Ok d' -> tasks d' !! p = Some t -> is_terminal (k_state t) = true ->
  tasks d !! p = Some t.
Proof.
  intros H Hp Ht. unfold resolve_task_result in H. ok_inv. cbn [tasks close_waits_of set_waits set_result_waits] in Hp.
  revert E. generalize (matching_result_waits id d) as ks. intros ks. revert d.
  induction ks as [|k ks IH]; intros d0 E; cbn [foldM] in E; ok_inv; [done|].
  apply IH in E. unfold resolve_one in E0. destruct (insert_checkpoint _ _ _ _) as [[d2 v]|] eqn:Ei; [|done].
  cbn [mbind result_bind] in E0. ok_inv. apply insert_checkpoint_tasks in Ei. rewrite <- Ei.
  cbn [tasks set_result_waits] in E. unfold wake_task in E.
  destruct (tasks d2 !! step_task k) as [tk|] eqn:Ek; [|done]. case_bool_decide; [|done].
  cbn in E. apply lookup_insert_Some in E as [[_ <-]|[_ E]]; [done|done].
Qed.

Lemma cancel_rows_orphans now error id l d d1 p c :
  NoDup (map fst l) -> Forall (fun kt => tasks d !! kt.1 = Some kt.2) l ->
  cancel_rows now error l d = Ok d1 ->
  (forall cid t, tasks d !! cid = Some t -> k_parent t = Some id -> outstanding (k_state t) = true ->
     cid ∈ map fst l) ->
  orphan d1 p c -> p <> id /\ (orphan d p c \/ p ∈ map fst l).
Proof.
  intros Hnd HF E1 Hall [(t & Hc & Ho & Hp) (tp & Hpt & Hterm)].
  destruct (cancel_rows_fades _ _ _ _ _ Hnd HF E1) as (_ & Hin & Hout).
  assert (c ∉ map fst l) as Hcl.
  { intros ([c' t'] & -> & Hl)%list_elem_of_fmap. cbn in *. rewrite (Hin _ _ Hl) in Hc. by injection Hc as <-. }
  rewrite Hout in Hc by done. split; [intros ->; by eapply Hcl, Hall|].
  destruct (decide (p ∈ map fst l)) as [|Hpl]; [by right|left]. rewrite Hout in Hpt by done.
  split; [by exists t|by exists tp].
Qed.

(** Cancelling at least one task leaves fewer outstanding. *)
Lemma cancel_rows_open now error l d d1 :
  NoDup (map fst l) -> Forall (fun kt => tasks d !! kt.1 = Some kt.2 /\ outstanding (k_state kt.2) = true) l ->
  cancel_rows now error l d = Ok d1 -> l <> [] -> (size (open_tasks d1) < size (open_tasks d))%nat.
Proof.
  intros Hnd HF E1 Hne.
  assert (Forall (fun kt => tasks d !! kt.1 = Some kt.2) l) as HF'
    by (eapply Forall_impl; [exact HF|]; by intros ? [? _]).
  destruct (cancel_rows_fades _ _ _ _ _ Hnd HF' E1) as (Hf & Hin & _).
  destruct l as [|[c t] l]; [done|]. apply Forall_cons in HF as [[Hc Ho] _]. cbn in Hc, Ho.
  apply subset_size. split; [by apply fades_open|]. intros Hsub.
  assert (c ∈ open_tasks d1) as Hc1 by (apply Hsub, elem_of_open_tasks; eauto).
  apply elem_of_open_tasks in Hc1 as (t1 & Ht1 & Ho1).
  rewrite (Hin c t) in Ht1 by set_solver. by injection Ht1 as <-.
Qed.

(** A fold of steps each of which spares the other orphans and ends those of its
    own task. *)
Lemma foldM_orphans {A} (f : Db -> A -> result sqlstate Db) (key : A -> uuid) (fin : A -> bool)
    (P : Db -> Prop) p c l : forall s s',
  (forall a s s', a ∈ l -> P s -> f s a = Ok s' ->
     P s' /\ (orphan s' p c -> orphan s p c /\ (fin a = true -> p <> key a))) ->
  P s -> foldM f s l = Ok s' -> orphan s' p c ->
  orphan s p c /\ forall a, a ∈ l -> fin a = true -> p <> key a.
Proof.
  induction l as [|a l IH]; intros s s' Hf HP H Ho; cbn [foldM] in H.
  { injection H as <-. split; [done|]. by intros a ?%not_elem_of_nil. }
  destruct (f s a) as [s1|] eqn:E; [|done]. cbn [mbind result_bind] in H.
  destruct (Hf a s s1 ltac:(set_solver) HP E) as [HP1 Ha].
  destruct (IH s1 s' ltac:(intros; apply Hf; [set_solver|done..]) HP1 H Ho) as [Ho1 Hl].
  destruct (Ha Ho1) as [Hs Hne]. split; [done|]. intros b [->|Hb]%elem_of_cons; auto.
Qed.

(** With fuel for every outstanding task the cascade of a finished task reaches
    its end: whoever is an orphan afterwards was one before, of another task. *)
Lemma after_update_orphans fuel now id old new d d' p c :
  finishes old new = true -> (size (open_tasks d) < fuel)%nat ->
  after_update fuel now id old new d = Ok d' -> orphan d' p c -> orphan d p c /\ p <> id.
Proof.
  revert id old new d d' p c. induction fuel as [|fuel IH]; intros id old new d d' p c Hfin Hfuel H Horph; [lia|].
  cbn [after_update] in H. rewrite Hfin in H. set (l := owned_children id d) in *.
  destruct (owned_children_rows id d) as [Hnd HF]. destruct (owned_children_spec id d) as [_ HF2]. fold l in Hnd, HF, HF2.
  set (error := parent_finished id (k_state new)) in *.
  destruct (cancel_rows now error l d) as [d1|] eqn:E1; [|done]. cbn [mbind result_bind] in H.
  destruct (foldM _ d1 _) as [d2|] eqn:E2; [|done]. cbn [mbind result_bind] in H.
  assert (orphan d2 p c) as H2.
  { destruct Horph as [(t & Hc & Ho & Hp) (tp & Hpt & Hterm)]. split.
    - destruct (fades_outstanding _ _ _ _ (resolve_task_result_fades _ _ _ _ _ H) Hc Ho) as (t2 & Ht2 & Ho2 & Hp2).
      rewrite manage_key_tasks in Ht2. exists t2. split_and!; [done..|congruence].
    - eapply resolve_terminal in H; [|done..]. rewrite manage_key_tasks in H. eauto. }
  assert (orphan d1 p c /\ forall kt, kt ∈ l -> true = true -> p <> kt.1) as [H1 Hpl].
  { destruct (decide (l = [])) as [->|Hne].
    { injection E2 as ->. split; [done|]. by intros kt ?%not_elem_of_nil. }
    pose proof (cancel_rows_open _ _ _ _ _ Hnd HF2 E1 Hne) as Hsize.
    eapply (foldM_orphans _ fst (fun _ => true) (fun s => (size (open_tasks s) < fuel)%nat)); [|lia|exact E2|done].
    intros [cid t] s s' Hin Hs E. rewrite Forall_forall in HF2. destruct (HF2 _ Hin) as [_ Hout]. cbn in Hout.
    pose proof (subseteq_size _ _ (fades_open _ _ (after_update_fades _ _ _ _ _ _ _ E))). split; [lia|].
    intros Ho. destruct (IH cid t (cancel_row now error t) s s' p c) as [? ?]; [|done..|done].
    unfold finishes. by rewrite Hout. }
  destruct (cancel_rows_orphans _ _ id _ _ _ p c Hnd HF E1) as [Hne [Hd|Hx]]; [|done|done|].
  2: { apply list_elem_of_fmap in Hx as (kt & -> & Hin). by destruct (Hpl kt Hin eq_refl). }
  intros cid t Ht Hpar Ho. apply list_elem_of_fmap. exists (cid, t). split; [done|].
  by apply elem_of_owned_children.
Qed.

(** ** Statements create no orphans *)

Definition spares (d d' : Db) : Prop := forall p c, orphan d' p c -> orphan d p c.
Global Instance spares_preorder : PreOrder spares.
Proof. split; [by intros d p c|]. intros d1 d2 d3 H12 H23 p c Ho. auto. Qed.

(** A row that keeps its parent and does not reopen. *)
Definition family_row (r : uuid * TaskRec * TaskRec) : Prop :=
  k_parent r.2 = k_parent r.1.2 /\ reopens r.1.2 r.2 = false.

(** After an UPDATE each row is as it was, or its new version. *)
Lemma update_moves_rows l d d1 :
  NoDup (map (fun r => r.1.1) l) -> (forall r, r ∈ l -> tasks d !! r.1.1 = Some r.1.2) ->
  foldM (fun d '(id, old, new) => update_task id old new d) d l = Ok d1 ->
  forall i t', tasks d1 !! i = Some t' ->
    exists t, tasks d !! i = Some t /\ (t = t' \/ (i, t, t') ∈ l).
Proof.
  intros Hnd Hin E1 i t' Hi. destruct (decide (i ∈ map (fun r => r.1.1) l)) as [Hl|Hni].
  - apply list_elem_of_fmap in Hl as ([[i' old] new] & -> & Hr). exists old. split; [exact (Hin _ Hr)|right].
    cbn in *. destruct (update_moves_lookup l d d1 i' old new Hnd E1) as [Hl _].
    rewrite (Hl Hr) in Hi. by injection Hi as <-.
  - exists t'. destruct (update_moves_lookup l d d1 i t' t' Hnd E1) as [_ Hl]. rewrite <- (Hl Hni). auto.
Qed.

Lemma update_rows_spares now l between d d' :
  NoDup (map (fun r => r.1.1) l) ->
  Forall (fun r => tasks d !! r.1.1 = Some r.1.2 /\ family_row r) l ->
  (forall d, tasks (between d) = tasks d) ->
  update_rows now l between d = Ok d' -> spares d d'.
Proof.
  intros Hnd HF Hb H p c Horph. unfold update_rows in H. ok_inv. rename a into d1, E into E1.
  rewrite Forall_forall in HF.
  destruct (foldM_orphans (fun d '(id, old, new) => after_update (trigger_fuel d) now id old new d)
    (fun r => r.1.1) (fun r => finishes r.1.2 r.2) (fun _ => True) p c l (between d1) d')
    as [[(t & Hc & Ho & Hp) (tp & Hpt & Hterm)] Hfin]; [|done|exact H|done|].
  { intros [[id old] new] s s' Hin _ Ha. split; [done|]. intros Hs. cbn [fst snd].
    destruct (finishes old new) eqn:Ef.
    - destruct (after_update_orphans _ _ _ _ _ _ _ p c Ef (open_tasks_fuel s) Ha Hs). auto.
    - split; [|done]. assert (tasks s' = tasks s) as Ht.
      { unfold trigger_fuel in Ha. cbn [after_update] in Ha. rewrite Ef in Ha. injection Ha as <-.
        apply manage_key_tasks. }
      unfold orphan in *. by rewrite Ht in Hs. }
  rewrite Hb in Hc, Hpt.
  pose proof (update_moves_rows l d d1 Hnd (fun r Hr => proj1 (HF r Hr)) E1) as Hrow.
  split.
  - destruct (Hrow c t Hc) as (t0 & Ht0 & [->|Hin]); [by eexists|]. exists t0. split; [done|].
    destruct (HF _ Hin) as (_ & Hpar & Hre). cbn in Hpar, Hre. unfold reopens in Hre. rewrite Ho, andb_true_r in Hre.
    split; [|congruence]. unfold outstanding. by rewrite Hre.
  - destruct (Hrow p tp Hpt) as (t0 & Ht0 & [->|Hin]); [by eexists|]. exists t0. split; [done|].
    destruct (is_terminal (k_state t0)) eqn:E; [done|]. destruct (Hfin _ Hin); [|done].
    unfold finishes, outstanding. cbn. by rewrite E, Hterm.
Qed.

(** Statements that only keep rows in their family, or add new ones. *)
Definition mild (d d' : Db) : Prop :=
  forall c t', tasks d' !! c = Some t' ->
    (exists t, tasks d !! c = Some t /\ k_parent t = k_parent t' /\
       is_terminal (k_state t) = is_terminal (k_state t')) \/
    (k_parent t' = None /\ is_terminal (k_state t') = false).

Lemma mild_tasks d d' : tasks d' = tasks d -> mild d d'.
Proof. intros Ht c t' Hc. rewrite Ht in Hc. left. eauto. Qed.

Global Instance mild_preorder : PreOrder mild.
Proof.
  split; [intros d; by apply mild_tasks|]. intros d1 d2 d3 H12 H23 c t Hc.
  destruct (H23 c t Hc) as [(t2 & Ht2 & Hp & Hs)|?]; [|by right]. rewrite <- Hp, <- Hs. eauto.
Qed.

Lemma mild_spares d d' : mild d d' -> spares d d'.
Proof.
  intros Hm p c [(t & Hc & Ho & Hp) (tp & Hpt & Hterm)]. split.
  - destruct (Hm c t Hc) as [(t0 & Ht0 & Hp0 & Hs)|[Hn _]]; [|congruence].
    exists t0. split_and!; [done| |congruence]. unfold outstanding in *. by rewrite Hs.
  - destruct (Hm p tp Hpt) as [(t0 & Ht0 & _ & Hs)|[_ Hn]]; [|congruence]. exists t0. split; [done|congruence].
Qed.

Lemma mild_put d id t t' :
  tasks d !! id = Some t -> k_parent t = k_parent t' -> is_terminal (k_state t) = is_terminal (k_state t') ->
  mild d (put_task id t' d).
Proof.
  intros Ht Hp Hs c t2 Hc. cbn in Hc. left.
  apply lookup_insert_Some in Hc as [[<- <-]|[_ Hc]]; [by exists t|by exists t2].
Qed.

Lemma mild_wake now id d : mild d (wake_task now id d).
Proof.
  unfold wake_task. destruct (tasks d !! id) as [t|] eqn:E; [|reflexivity].
  case_bool_decide as Hs; [|reflexivity]. eapply mild_put; [done..|]. by rewrite Hs.
Qed.

Lemma mild_insert_task now id spec r mx d d' : insert_task now id spec r mx d = Ok d' -> mild d d'.
Proof.
  unfold insert_task. intros H. ok_inv. apply capacity_tasks in E.
  destruct (tasks a !! id); [done|]. ok_inv. intros c t Hc. cbn in Hc. rewrite E in Hc.
  apply lookup_insert_Some in Hc as [[_ <-]|[_ Hc]]; [by right|left; eauto].
Qed.

Lemma foldM_mild {A} (f : Db -> A -> result sqlstate Db) l d d' :
  (forall d a d', f d a = Ok d' -> mild d d') -> foldM f d l = Ok d' -> mild d d'.
Proof.
  intros Hf. revert d. induction l as [|a l IH]; intros d H; cbn [foldM] in H; ok_inv; [reflexivity|].
  etransitivity; eauto.
Qed.

Lemma foldM_spares {A} (f : Db -> A -> result sqlstate Db) l d d' :
  (forall d a d', f d a = Ok d' -> spares d d') -> foldM f d l = Ok d' -> spares d d'.
Proof.
  intros Hf. revert d. induction l as [|a l IH]; intros d H; cbn [foldM] in H; ok_inv; [reflexivity|].
  etransitivity; eauto.
Qed.

Lemma enqueue_mild e tn p q v r pr mx key h d d' x :
  enqueue e tn p q v r pr mx key h d = Ok (d', x) -> mild d d'.
Proof.
  intros H. unfold enqueue in H. ok_inv.
  destruct (match key with Some _ => _ | None => _ end) as [[d1 i] mine] eqn:Ek.
  transitivity d1.
  - apply mild_tasks. rewrite <- (ensure_queue_tasks (e_now e) q d). destruct key as [key|].
    + pose proof (reserve_key_tasks (e_now e) q key (e_uuid e 0) (ensure_queue (e_now e) q d)) as Hr.
      by rewrite Ek in Hr.
    + by injection Ek as <- _ _.
  - destruct mine; [|by simplify_eq]. ok_inv. simplify_eq. by eapply mild_insert_task.
Qed.

Lemma insert_checkpoint_mild now k v d d' v' : insert_checkpoint now k v d = Ok (d', v') -> mild d d'.
Proof. intros H. apply mild_tasks. by eapply insert_checkpoint_tasks. Qed.

Lemma resolve_signal_wait_mild now v o d k d' : resolve_signal_wait now v o d k = Ok d' -> mild d d'.
Proof.
  unfold resolve_signal_wait. intros H. ok_inv. destruct a as [d1 v1]. ok_inv.
  apply insert_checkpoint_mild in E. etransitivity; [exact E|].
  etransitivity; [apply (mild_wake now (step_task k) d1)|by apply mild_tasks].
Qed.

(** *** Each call *)

Lemma held_requests_placed {A} (lease : A -> LeaseRenewal) (row : A * TaskRec -> TaskRec) d l :
  NoDup (map (fun a => lr_task_id (lease a)) l) ->
  (forall at_, k_parent (row at_) = k_parent at_.2) ->
  let rows := map (fun at_ => (lr_task_id (lease at_.1), at_.2, row at_)) (held_requests lease d l) in
  NoDup (map (fun r => r.1.1) rows) /\ Forall (fun r => tasks d !! r.1.1 = Some r.1.2 /\ family_row r) rows.
Proof.
  intros Hnd Hp. destruct (held_requests_spec lease d l Hnd) as [Hn HF]. split; [by rewrite map_map|].
  rewrite Forall_map. eapply Forall_impl; [exact HF|]. intros [a t] (_ & Hid & Hh). split; [done|].
  apply holds_lease_spec in Hh as [Hs _]. cbn in Hs. split; [apply (Hp (a, t))|]. unfold reopens. cbn. by rewrite Hs.
Qed.

Lemma complete_tasks_spares e l d d' r : complete_tasks e l d = Ok (d', r) -> spares d d'.
Proof.
  intros H. unfold complete_tasks in H. ok_inv. simplify_eq. apply bool_decide_eq_true in E0.
  destruct (held_requests_placed co_lease (fun ct => complete_row (e_now e) (co_result ct.1) ct.2) d l E0)
    as [Hn HF]; [done|].
  eapply update_rows_spares; [exact Hn|exact HF| |exact E2]. intros. apply finish_attempts_tasks.
Qed.

Lemma fail_tasks_spares e l d d' r : fail_tasks e l d = Ok (d', r) -> spares d d'.
Proof.
  intros H. unfold fail_tasks in H. ok_inv. simplify_eq. apply bool_decide_eq_true in E0.
  destruct (held_requests_placed fa_lease (fun ft => fail_row (e_now e) d (lr_task_id (fa_lease ft.1))
    (fa_error ft.1) (fa_retry_ms ft.1) ft.2) d l E0) as [Hn HF]; [done|].
  eapply update_rows_spares; [exact Hn|exact HF| |exact E2]. intros. by apply foldl_tasks.
Qed.

(** Rows picked by key, none of them finished. *)
Lemma picked_placed (row : uuid * TaskRec -> TaskRec) (d : Db) l :
  NoDup (map fst l) ->
  Forall (fun kt => tasks d !! kt.1 = Some kt.2 /\ is_terminal (k_state kt.2) = false) l ->
  (forall kt, k_parent (row kt) = k_parent kt.2) ->
  let rows := map (fun kt => (kt.1, kt.2, row kt)) l in
  NoDup (map (fun r => r.1.1) rows) /\ Forall (fun r => tasks d !! r.1.1 = Some r.1.2 /\ family_row r) rows.
Proof.
  intros Hnd HF Hp. split; [by rewrite map_map|]. rewrite Forall_map.
  eapply Forall_impl; [exact HF|]. intros kt [Hid Ht]. split; [done|].
  unfold family_row, reopens. cbn. by rewrite Hp, Ht.
Qed.

Lemma recover_expired_spares e q limit d d' n : recover_expired e q limit d = Ok (d', n) -> spares d d'.
Proof.
  intros H. unfold recover_expired in H. ok_inv. simplify_eq.
  destruct (select_tasks_spec e d (expired (e_now e) q) expiry_le limit) as [Hnd HF].
  destruct (picked_placed (fun kt => recover_row (e_now e) d kt.1 kt.2) d
    (select_tasks e d (expired (e_now e) q) expiry_le limit)) as [Hn HF']; [done| |done|].
  { eapply Forall_impl; [exact HF|]. intros kt (Hid & Hp & _). split; [done|]. unfold expired in Hp.
    apply andb_true_iff in Hp as [[_ Hp%bool_decide_eq_true]%andb_true_iff _]. by rewrite Hp. }
  eapply update_rows_spares; [exact Hn|exact HF'| |exact E]. intros. apply finish_attempts_tasks.
Qed.

Lemma release_spares e leases d d' ids : release_tasks e leases d = Ok (d', ids) -> spares d d'.
Proof.
  intros H. unfold release_tasks in H. ok_inv. simplify_eq.
  destruct (held_leases_spec leases [] d) as [Hnd HF].
  destruct (picked_placed (fun kt => release_row (e_now e) kt.2) d (held_leases leases [] d)) as [Hn HF'];
    [done| |done|].
  { eapply Forall_impl; [exact HF|]. intros kt (Hid & Hs & _). by rewrite Hs. }
  eapply update_rows_spares; [exact Hn|exact HF'| |exact E]. intros. apply finish_attempts_tasks.
Qed.

Lemma claim_spares e q w caps limit ms d d' rows : claim e q w caps limit ms d = Ok (d', rows) -> spares d d'.
Proof.
  intros H. unfold claim in H. ok_inv. simplify_eq. apply insert_attempts_tasks in E1.
  transitivity a; [|by apply mild_spares, mild_tasks].
  destruct (candidates_spec e d q caps limit) as [Hnd HF].
  eapply update_rows_spares; [| |done|exact E0].
  - by rewrite claimed_rows_fst.
  - apply Forall_forall. intros r (n & kt & -> & Hin)%elem_of_lookup_imap_1. cbn.
    rewrite Forall_forall in HF. apply list_elem_of_lookup_2 in Hin.
    destruct (HF _ Hin) as (Hid & _ & due & Hc). split; [done|]. split; [done|].
    apply claimable_spec in Hc as (_ & Hs & _). unfold reopens. cbn. by rewrite Hs.
Qed.

Lemma park_spares now lease t state run_at d d' :
  tasks d !! lr_task_id lease = Some t -> k_state t = Running ->
  park now lease t state run_at d = Ok d' -> spares d d'.
Proof.
  intros Ht Hs H. unfold park in H. ok_inv. transitivity a; [|by apply mild_spares, mild_tasks].
  eapply (update_rows_spares _ [(lr_task_id lease, t, park_row now state run_at t)] (fun d => d));
    [by apply NoDup_singleton| |done|exact E].
  constructor; [|done]. split; [done|]. split; [done|]. unfold reopens. cbn. by rewrite Hs.
Qed.

Lemma cancel_outstanding_spares e error id d d' r :
  cancel_outstanding e error id d = Ok (d', r) -> spares d d'.
Proof.
  intros H p c Horph. unfold cancel_outstanding in H.
  destruct (tasks d !! id) as [t|] eqn:Et; [|by simplify_eq].
  destruct (outstanding (k_state t)) eqn:Ho; [|by simplify_eq]. ok_inv. simplify_eq.
  assert (finishes t (cancel_row (e_now e) error t) = true) as Hfin by (unfold finishes; by rewrite Ho).
  destruct (after_update_orphans _ _ _ _ _ _ _ p c Hfin (open_tasks_fuel a) E0 Horph)
    as [[(tc & Hc & Hoc & Hp) (tp & Hpt & Hterm)] Hne].
  destruct (cancel_rows_fades _ _ [(id, t)] _ _ ltac:(by apply NoDup_singleton) ltac:(by repeat constructor) E)
    as (_ & Hin & Hout).
  assert (c <> id) as Hci.
  { intros ->. rewrite (Hin id t) in Hc by set_solver. by injection Hc as <-. }
  cbn [map fst] in Hout. rewrite (Hout c) in Hc by (by rewrite list_elem_of_singleton).
  rewrite (Hout p) in Hpt by (by rewrite list_elem_of_singleton).
  split; eauto.
Qed.

Lemma admin_cancel_spares e id actor d d' r : admin_cancel_task e id actor d = Ok (d', r) -> spares d d'.
Proof.
  intros H. unfold admin_cancel_task, cancel_task in H. ok_inv.
  destruct (cancel_outstanding _ _ _ _) as [[d1 c]|] eqn:Ec; [|done]. cbn [mbind result_bind] in H.
  apply cancel_outstanding_spares in Ec. destruct c; ok_inv; simplify_eq; [|done].
  etransitivity; [exact Ec|]. by apply mild_spares, mild_tasks.
Qed.

Lemma renew_mild e leases ms d d' ids : renew_leases e leases ms d = Ok (d', ids) -> mild d d'.
Proof.
  intros H. unfold renew_leases in H. injection H as <- _. set (held := filter _ _).
  assert (Forall (fun kt => exists t0, tasks d !! kt.1 = Some t0 /\ k_parent t0 = k_parent kt.2 /\
    k_state t0 = k_state kt.2) held) as HF.
  { apply Forall_forall. intros kt [_ Hin]%list_elem_of_filter.
    destruct (held_leases_spec leases [] d) as [_ HF]. rewrite Forall_forall in HF.
    destruct (HF _ Hin) as [? _]. eauto. }
  clearbody held. revert d HF. induction held as [|[id t] l IH]; intros d HF; cbn [foldl]; [reflexivity|].
  apply Forall_cons in HF as [(t0 & Ht0 & Hp & Hs) HF]. cbn in *.
  transitivity (put_task id (renew_row e ms t) d); [by eapply mild_put; [done|..|cbn; rewrite Hs]|].
  apply IH. eapply Forall_impl; [exact HF|]. intros [i ti] (t1 & Ht1 & Hp1 & Hs1). cbn in *.
  destruct (decide (id = i)) as [<-|Hne]; [|rewrite lookup_insert_ne by done; eauto].
  rewrite lookup_insert_eq. eexists. split; [done|]. cbn. split; congruence.
Qed.

Lemma active_running lease d t :
  active lease d = Some t -> tasks d !! lr_task_id lease = Some t /\ k_state t = Running.
Proof. intros [Ht Hh]%active_spec. by apply holds_lease_spec in Hh as [? _]. Qed.

Lemma commit_checkpoint_spares e lease step occ v d d' r :
  commit_checkpoint e lease step occ v d = Ok (d', r) -> spares d d'.
Proof.
  intros H. unfold commit_checkpoint in H. ok_inv. destruct (active lease d); [|by simplify_eq]. ok_inv.
  destruct a0 as [d1 v1]. simplify_eq. by eapply mild_spares, insert_checkpoint_mild.
Qed.

Lemma suspend_spares text e lease step occ w ms d d' r :
  suspend_task text e lease step occ w ms d = Ok (d', r) -> spares d d'.
Proof.
  intros H. unfold suspend_task in H. ok_inv.
  destruct (active lease d) as [t|] eqn:Ea; [|by simplify_eq]. apply active_running in Ea as [Ht Hs]. ok_inv.
  destruct (checkpoints d !! _); [by simplify_eq|]. ok_inv. destruct a as [d1 v]. ok_inv. simplify_eq.
  pose proof (insert_checkpoint_tasks _ _ _ _ _ _ E2) as Hd1.
  transitivity d1; [by eapply mild_spares, insert_checkpoint_mild|].
  eapply park_spares; [|done|exact E3]. by rewrite Hd1.
Qed.

Lemma wait_for_signal_spares e lease step occ s so ms d d' r :
  wait_for_signal e lease step occ s so ms d = Ok (d', r) -> spares d d'.
Proof.
  intros H. unfold wait_for_signal in H. ok_inv.
  destruct (active lease d) as [t|] eqn:Ea; [|by simplify_eq]. apply active_running in Ea as [Ht Hs].
  destruct (checkpoints d !! _); [by simplify_eq|]. destruct (signals d !! _); ok_inv.
  - destruct a as [d1 v]. simplify_eq. by eapply mild_spares, insert_checkpoint_mild.
  - simplify_eq. unfold arm_wait in E1. case_bool_decide; [done|]. injection E1 as <-.
    etransitivity; [|eapply park_spares; [|done|exact E2]; done]. by apply mild_spares, mild_tasks.
Qed.

Lemma wait_for_result_spares e lease step occ child ms d d' r :
  wait_for_result e lease step occ child ms d = Ok (d', r) -> spares d d'.
Proof.
  intros H. unfold wait_for_result in H. ok_inv.
  destruct (active lease d) as [t|] eqn:Ea; [|by simplify_eq]. apply active_running in Ea as [Ht Hs].
  destruct (checkpoints d !! _); [by simplify_eq|]. destruct (tasks d !! child); [|done]. ok_inv.
  destruct (is_terminal _); ok_inv.
  - destruct a as [d1 v]. simplify_eq. by eapply mild_spares, insert_checkpoint_mild.
  - simplify_eq. unfold arm_result_wait in E3. case_bool_decide; [done|]. injection E3 as <-.
    etransitivity; [|eapply park_spares; [|done|exact E4]; done]. by apply mild_spares, mild_tasks.
Qed.

Lemma emit_signal_spares e id s occ v d d' r : emit_signal e id s occ v d = Ok (d', r) -> spares d d'.
Proof.
  intros H. unfold emit_signal in H. ok_inv. simplify_eq.
  apply foldM_mild in E3; [|intros; by eapply resolve_signal_wait_mild].
  apply mild_spares. etransitivity; [|exact E3]. by apply mild_tasks.
Qed.

Lemma recover_wait_timeouts_spares e l d d' n : recover_wait_timeouts e l d = Ok (d', n) -> spares d d'.
Proof.
  intros H. unfold recover_wait_timeouts in H. ok_inv. simplify_eq. apply mild_spares.
  eapply foldM_mild; [|exact E]. intros. by eapply resolve_signal_wait_mild.
Qed.

Lemma time_out_spares e d k d' : time_out_result_wait e d k = Ok d' -> spares d d'.
Proof.
  unfold time_out_result_wait. intros H. ok_inv. destruct a as [d1 v]. apply insert_checkpoint_mild in E.
  set (d2 := wake_task _ _ _) in H.
  assert (spares d d2) as G.
  { apply mild_spares. etransitivity; [exact E|]. etransitivity; [|apply mild_wake]. by apply mild_tasks. }
  destruct (rw_result_task <$> _); [|by ok_inv]. ok_inv. destruct a as [d3 r]. ok_inv.
  etransitivity; [exact G|]. by eapply cancel_outstanding_spares.
Qed.

Lemma recover_result_wait_timeouts_spares e l d d' n :
  recover_result_wait_timeouts e l d = Ok (d', n) -> spares d d'.
Proof.
  intros H. unfold recover_result_wait_timeouts in H. ok_inv. simplify_eq.
  eapply foldM_spares; [|exact E]. intros. by eapply time_out_spares.
Qed.

(** The parent that adopts a child is still outstanding. *)
Lemma adopt_spares parent child d d' tp :
  tasks d !! parent = Some tp -> is_terminal (k_state tp) = false ->
  adopt parent child d = Ok d' -> spares d d'.
Proof.
  intros Hpar Hs H p c [(t & Hc & Ho & Hp) (t2 & Hpt & Hterm)]. unfold adopt in H.
  destruct (tasks d !! child) as [tc|] eqn:Et; [|done]. ok_inv. cbn in Hc, Hpt.
  apply andb_true_iff in E as [Hk%bool_decide_eq_true Hne%negb_true_iff]. apply Z.eqb_neq in Hne.
  assert (exists t3, tasks d !! p = Some t3 /\ is_terminal (k_state t3) = true) as (t3 & Ht3 & Hterm3).
  { apply lookup_insert_Some in Hpt as [[-> <-]|[_ ?]]; eauto. }
  split; [|by exists t3]. apply lookup_insert_Some in Hc as [[-> <-]|[_ ?]]; [|eauto].
  exfalso. rewrite Hk in Hp. injection Hp as <-. congruence.
Qed.

Lemma insert_task_rows now id spec r mx d d' i t :
  insert_task now id spec r mx d = Ok d' -> tasks d !! i = Some t -> tasks d' !! i = Some t.
Proof.
  intros H Hi. unfold insert_task in H. ok_inv. apply capacity_tasks in E.
  destruct (tasks a !! id) eqn:Eid; [done|]. ok_inv. cbn.
  rewrite lookup_insert_ne by (intros ->; congruence). congruence.
Qed.

(** Enqueueing leaves the rows in place. *)
Lemma enqueue_rows e tn p q v r pr mx key h d d' x i t :
  enqueue e tn p q v r pr mx key h d = Ok (d', x) -> tasks d !! i = Some t -> tasks d' !! i = Some t.
Proof.
  intros H Hi. unfold enqueue in H. ok_inv. pose proof (ensure_queue_tasks (e_now e) q d) as Hq.
  destruct (match key with Some _ => _ | None => _ end) as [[d1 id] mine] eqn:Ek.
  assert (tasks d1 = tasks d) as T1.
  { rewrite <- Hq. destruct key as [key|]; [|by injection Ek as <- _ _].
    pose proof (reserve_key_tasks (e_now e) q key (e_uuid e 0) (ensure_queue (e_now e) q d)) as Hr.
    by rewrite Ek in Hr. }
  rewrite <- T1 in Hi. destruct mine; [|by simplify_eq].
  destruct (insert_task _ _ _ _ _ d1) eqn:Ei; cbn [mbind result_bind] in H; [|done]. simplify_eq.
  by eapply insert_task_rows.
Qed.

Lemma spawn_spares e lease step occ tn p q v r pr mx h d d' x :
  spawn_task e lease step occ tn p q v r pr mx h d = Ok (d', x) -> spares d d'.
Proof.
  intros H. unfold spawn_task in H. ok_inv.
  destruct (active lease d) as [t|] eqn:Ea; [|by simplify_eq]. apply active_running in Ea as [Ht Hs].
  assert (is_terminal (k_state t) = false) as Hnt by (by rewrite Hs).
  destruct (checkpoints d !! _) as [c|].
  - destruct (_ ≫= as_str); [|done]. ok_inv. simplify_eq. by eapply adopt_spares.
  - ok_inv. destruct a1 as [d1 [child created]]. ok_inv. destruct a2 as [d3 v3]. simplify_eq.
    pose proof (enqueue_mild _ _ _ _ _ _ _ _ _ _ _ _ _ E1) as Hm.
    transitivity d1; [by apply mild_spares|].
    transitivity a1; [|by eapply mild_spares, insert_checkpoint_mild].
    eapply adopt_spares; [by eapply enqueue_rows|done|exact E3].
Qed.

Lemma put_schedule_mild e r d d' r' : put_schedule e r d = Ok (d', r') -> mild d d'.
Proof.
  intros H. unfold put_schedule in H. ok_inv. apply mild_tasks.
  rewrite <- (ensure_queue_tasks (e_now e) (sr_queue_name r) d).
  repeat case_match; ok_inv; simplify_eq; done.
Qed.

Lemma materialize_mild e id x os next d d' n : materialize_schedule e id x os next d = Ok (d', n) -> mild d d'.
Proof.
  intros H. unfold materialize_schedule in H. destruct (schedules d !! id); [|by simplify_eq].
  destruct (_ && _); [|by simplify_eq].
  assert (forall l d c d' c', foldM (insert_occurrence e s) (d, c) l = Ok (d', c') -> mild d d') as Hf.
  { clear. induction l as [|[n o] l IH]; intros d c d' c' H; cbn [foldM] in H; [by simplify_eq|].
    destruct (insert_occurrence _ _ _ _) as [[d1 c1]|] eqn:E; cbn [mbind result_bind] in H; [|done].
    transitivity d1; [|by eapply IH]. cbn [insert_occurrence] in E.
    case_match; ok_inv; simplify_eq; [by eapply mild_tasks, capacity_tasks|by eapply mild_insert_task]. }
  apply Hf in H. etransitivity; [|exact H]. by apply mild_tasks.
Qed.

(** Only an administrator reopens a task without asking for its parent. *)
Definition reopens_task (c : call) : bool := match c with CAdminRetry _ _ => true | _ => false end.

Lemma exec_spares c e d d' : reopens_task c = false -> exec c e d = Ok d' -> spares d d'.
Proof.
  intros Hc H. destruct c; try discriminate Hc; [apply fst_ok in H as [x H]..|].
  all: try (by eauto using claim_spares, release_spares, complete_tasks_spares, fail_tasks_spares,
    recover_expired_spares, cancel_outstanding_spares, admin_cancel_spares, commit_checkpoint_spares,
    suspend_spares, wait_for_signal_spares, emit_signal_spares, recover_wait_timeouts_spares,
    wait_for_result_spares, recover_result_wait_timeouts_spares, spawn_spares).
  all: apply mild_spares.
  all: try (by eauto using enqueue_mild, renew_mild, put_schedule_mild, materialize_mild).
  all: apply mild_tasks.
  - unfold put_queue in H. ok_inv. by simplify_eq.
  - unfold set_queue_paused in H. case_match; ok_inv; by simplify_eq.
  - unfold delete_expired_idempotency_keys in H. ok_inv. by simplify_eq.
  - unfold set_schedule_paused in H. case_match; ok_inv; by simplify_eq.
  - unfold delete_schedule in H. ok_inv. by simplify_eq.
  - by apply admin_set_schedule_paused_tables in H as [H _].
  - by apply exec_fleet_tables in H as [H _].
Qed.

Lemma retention_spares e queue limit d d' n : delete_expired_terminal e queue limit d = Ok (d', n) -> spares d d'.
Proof.
  intros H p c [(t & Hc & Ho & Hp) (tp & Hpt & Hterm)]. unfold delete_expired_terminal in H. injection H as <- _.
  apply delete_tasks_lookup in Hc as [Hc _], Hpt as [Hpt _]. split; eauto.
Qed.

(** The steps of a database nobody reopens tasks in. *)
Inductive undisturbed (d d' : Db) : Prop :=
| undisturbed_call c e : reopens_task c = false -> exec c e d = Ok d' -> undisturbed d d'
| undisturbed_retention e queue limit n :
    delete_expired_terminal e queue limit d = Ok (d', n) -> undisturbed d d'.

Lemma undisturbed_spares d d' : rtc undisturbed d d' -> spares d d'.
Proof.
  induction 1 as [|d d1 d2 Hs _ IH]; [reflexivity|]. etransitivity; [|exact IH].
  destruct Hs; [by eapply exec_spares|by eapply retention_spares].
Qed.

(** ** Claims *)

(** Claim C7.  Structured concurrency: in every database reached by protocol
    calls and retention without an administrator's retry, a task that is not
    finished never has a finished parent.  So completing, failing, recovering
    or cancelling a task, and timing out a wait for it, cancel every outstanding
    task below it, at any depth, in the same statement. *)
Theorem children_end_with_their_parents d id parent t tp :
  rtc undisturbed empty_db d -> tasks d !! id = Some t -> k_parent t = Some parent ->
  tasks d !! parent = Some tp -> is_terminal (k_state tp) = true -> is_terminal (k_state t) = true.
Proof.
  intros Hr Ht Hp Htp Hterm. destruct (is_terminal (k_state t)) eqn:E; [done|].
  destruct (undisturbed_spares _ _ Hr parent id) as [(t0 & Ht0 & _) _]; [|done].
  split; [exists t|by exists tp]. split_and!; [done| |done]. unfold outstanding. by rewrite E.
Qed.

(** ** Witness: a parent that completes before its child *)

Definition family_done : Db := run demo_complete (demo_env 30 300) family1.
Definition row_at (id : uuid) (d : Db) : TaskRec := default (demo_row d) (tasks d !! id).

Lemma family_done_undisturbed : rtc undisturbed empty_db family_done.
Proof.
  assert (forall c e d, reopens_task c = false -> is_ok (exec c e d) = true -> undisturbed d (run c e d)) as Hrun.
  { intros c e d Hc Hok. unfold run. destruct (exec c e d) eqn:E; [|done]. by apply (undisturbed_call _ _ c e). }
  eapply rtc_l; [apply (Hrun demo_enqueue (demo_env 10 100)); by_compute|].
  eapply rtc_l; [apply (Hrun demo_claim (demo_env 20 200)); by_compute|].
  eapply rtc_l; [apply (Hrun (CSpawn demo_lease (str "child") 0 (str "mail") VNull (str "default") 1 None 0 5
    (VObject [])) (demo_env 21 300)); by_compute|].
  eapply rtc_once. apply (Hrun demo_complete (demo_env 30 300)); by_compute.
Qed.

Lemma children_end_with_their_parents_witness :
  k_state (row_at 300 family1) = Pending /\ k_state (row_at 300 family_done) = Cancelled /\
  is_terminal (k_state (row_at 300 family_done)) = true.
Proof.
  split; [vm_compute; reflexivity|]. split; [vm_compute; reflexivity|].
  apply (children_end_with_their_parents family_done 300 100 (row_at 300 family_done) (row_at 100 family_done));
    [apply family_done_undisturbed|vm_compute; reflexivity..].
Defined.
