(* ===== verification/Capacity.v ===== *)
(** The limit of a queue: [max_outstanding_tasks], which the trigger
    [enforce_queue_capacity] of [pgtask-postgres/migrations/0001_initial.sql] keeps
    with a counter on the row of the queue.

    The counter is never below the number of outstanding tasks of the queue,
    whatever statements run, cascading triggers included.  So a statement that adds
    tasks to a queue with a limit leaves at most that many in it. *)

From S2P Require Import Prelude Text Identifier Json TaskTypes Outcome Rows Tables Protocol Fleet.
From S2P Require Import Lifecycle Dispatch Cascade.

(** ** Counting *)

Definition open_in (q : rstring) (t : TaskRec) : Prop := k_queue_name t = q /\ outstanding (k_state t) = true.
Global Instance open_in_dec q t : Decision (open_in q t).
Proof. unfold open_in. apply _. Defined.

Definition counts (q : rstring) (t : TaskRec) : Z := if decide (open_in q t) then 1 else 0.
Definition load (q : rstring) (m : gmap Z TaskRec) : Z :=
  len (filter (fun kt : uuid * TaskRec => open_in q kt.2) (map_to_list m)).

Lemma outstanding_in_load q d : outstanding_in q d = load q (tasks d).
Proof. unfold outstanding_in, load, len. by rewrite (list_filter_iff _ (fun kt => open_in q kt.2)). Qed.

Definition weight (s : TaskState) : Z := if outstanding s then 1 else 0.

Lemma counts_weight q t : counts q t = if decide (k_queue_name t = q) then weight (k_state t) else 0.
Proof.
  unfold counts, weight. destruct (decide (open_in q t)) as [[Hq Ho]|Hn].
  - rewrite decide_True by done. by rewrite Ho.
  - case_decide as Hq; [|done]. destruct (outstanding (k_state t)) eqn:Ho; [|done]. by destruct Hn.
Qed.

Lemma load_insert_new q m id t : m !! id = None -> load q (<[id := t]> m) = load q m + counts q t.
Proof.
  intros Hm. unfold load, len, counts. rewrite (map_to_list_insert m id t Hm), filter_cons. cbn [snd].
  case_decide; rewrite ?length_cons; lia.
Qed.

Lemma load_delete q m id t : m !! id = Some t -> load q (delete id m) = load q m - counts q t.
Proof.
  intros Hm. rewrite <- (insert_delete_id m id t Hm) at 2. rewrite load_insert_new by apply lookup_delete_eq. lia.
Qed.

Lemma load_insert q m id old t : m !! id = Some old -> load q (<[id := t]> m) = load q m - counts q old + counts q t.
Proof.
  intros Hm. rewrite <- insert_delete_eq, load_insert_new by apply lookup_delete_eq.
  by rewrite (load_delete q m id old Hm).
Qed.

(** ** The counter *)

(** No queue with a limit has more outstanding tasks than its counter says. *)
Definition covered (d : Db) : Prop :=
  forall q u m, queues d !! q = Some u -> u_max u = Some m -> load q (tasks d) <= u_capacity u.

(** A counter above its limit has not grown, and neither has its queue; no limit
    has changed. *)
Definition bounded (d d' : Db) : Prop :=
  forall q u' m, queues d' !! q = Some u' -> u_max u' = Some m ->
  exists u, queues d !! q = Some u /\ u_max u = Some m /\
    (u_capacity u' <= m \/ (u_capacity u' <= u_capacity u /\ load q (tasks d') <= load q (tasks d))).

Definition orderly (d d' : Db) : Prop := covered d -> covered d' /\ bounded d d'.

Global Instance orderly_preorder : PreOrder orderly.
Proof.
  split.
  - intros d Hd. split; [done|]. intros q u m Hq Hm. exists u. split_and!; [done..|]. right. lia.
  - intros d1 d2 d3 H12 H23 Hd. destruct (H12 Hd) as [Hd2 B12]. destruct (H23 Hd2) as [Hd3 B23]. split; [done|].
    intros q u3 m Hq Hm. destruct (B23 q u3 m Hq Hm) as (u2 & Hq2 & Hm2 & H2).
    destruct (B12 q u2 m Hq2 Hm2) as (u1 & Hq1 & Hm1 & H1). exists u1. split_and!; [done..|]. lia.
Qed.

(** What leaves the limits, the counters and the numbers alone. *)
Lemma orderly_neutral d d' :
  (forall q u' m, queues d' !! q = Some u' -> u_max u' = Some m ->
     exists u, queues d !! q = Some u /\ u_max u = Some m /\ u_capacity u' = u_capacity u) ->
  (forall q, load q (tasks d') = load q (tasks d)) -> orderly d d'.
Proof.
  intros Hu Hl Hd. split.
  - intros q u' m Hq Hm. destruct (Hu q u' m Hq Hm) as (u & Hq' & Hm' & ->). rewrite Hl. by eapply Hd.
  - intros q u' m Hq Hm. destruct (Hu q u' m Hq Hm) as (u & Hq' & Hm' & Hc). exists u. split_and!; [done..|].
    right. rewrite Hl. lia.
Qed.

Lemma orderly_tables d d' : queues d' = queues d -> tasks d' = tasks d -> orderly d d'.
Proof.
  intros Hq Ht. apply orderly_neutral; [|by rewrite Ht]. rewrite Hq. intros q u m Hu Hm. by exists u.
Qed.

(** A row that stays open, or closed, in its queue. *)
Lemma orderly_put d id old new :
  tasks d !! id = Some old -> k_queue_name new = k_queue_name old ->
  outstanding (k_state new) = outstanding (k_state old) -> orderly d (put_task id new d).
Proof.
  intros Ht Hq Ho. apply orderly_neutral; [intros q u m Hu Hm; by exists u|]. intros q. cbn.
  rewrite (load_insert _ _ _ old) by done. rewrite !counts_weight. unfold weight. rewrite Hq, Ho. lia.
Qed.

Lemma orderly_fold {A} (f : Db -> A -> result sqlstate Db) l d d' :
  (forall d a d', f d a = Ok d' -> orderly d d') -> foldM f d l = Ok d' -> orderly d d'.
Proof.
  intros Hf. revert d. induction l as [|a l IH]; intros d H; cbn [foldM] in H; ok_inv; [reflexivity|].
  etransitivity; eauto.
Qed.

(** ** The trigger *)

(** How the counter moves with an outstanding task more, less, or neither. *)
Definition counter_moves (delta : Z) (m : Z) (u u' : QueueRec) : Prop :=
  u_max u' = u_max u /\
  (delta = 0 /\ u_capacity u' = u_capacity u \/
   delta = 1 /\ u_capacity u < m /\ u_capacity u' = u_capacity u + 1 \/
   delta = -1 /\ u_capacity u' = Z.max (u_capacity u - 1) 0).

Lemma enforce_spec old new queue d d' :
  enforce_queue_capacity old new queue d = Ok d' ->
  tasks d' = tasks d /\
  forall q u' m, queues d' !! q = Some u' -> u_max u' = Some m ->
    exists u, queues d !! q = Some u /\ u_max u = Some m /\
      counter_moves (if decide (q = queue) then weight new - from_option weight 0 old else 0) m u u'.
Proof.
  assert (forall d' : Db, queues d' = queues d -> forall q u' m delta,
    delta = 0 -> queues d' !! q = Some u' -> u_max u' = Some m ->
    exists u, queues d !! q = Some u /\ u_max u = Some m /\ counter_moves delta m u u') as Hsame.
  { intros d2 Hq q u' m delta -> Hu Hm. rewrite Hq in Hu. exists u'. split_and!; [done..|]. split; [done|]. by left. }
  assert (take_capacity queue d = Ok d' -> weight new - from_option weight 0 old = 1 ->
    tasks d' = tasks d /\ forall q u' m, queues d' !! q = Some u' -> u_max u' = Some m ->
    exists u, queues d !! q = Some u /\ u_max u = Some m /\
      counter_moves (if decide (q = queue) then weight new - from_option weight 0 old else 0) m u u') as Htake.
  { intros H Hw. rewrite Hw. unfold take_capacity in H. destruct (queues d !! queue) as [u0|] eqn:E; simplify_eq.
    - destruct (u_max u0) as [m0|] eqn:Em; simplify_eq.
      + destruct (Z.ltb_spec (u_capacity u0) m0); simplify_eq. split; [done|]. intros q u' m Hu Hm. cbn in Hu.
        case_decide as Hq; [subst q; rewrite lookup_insert_eq in Hu|
          rewrite lookup_insert_ne in Hu by done; exists u'; split_and!; [done..|]; split; [done|by left]].
        injection Hu as <-. cbn in Hm. exists u0. split_and!; [done..|]. split; [done|]. right; left.
        split_and!; [done| |done]. congruence.
      + split; [done|]. intros q u' m Hu Hm. case_decide as Hq; [subst q; congruence|]. by eapply (Hsame d').
    - split; [done|]. intros q u' m Hu Hm. case_decide as Hq; [subst q; congruence|]. by eapply (Hsame d'). }
  unfold enforce_queue_capacity. unfold weight in *. unfold outstanding in *. destruct old as [old|]; cbn [from_option] in *.
  - destruct (is_terminal old) eqn:Eo, (is_terminal new) eqn:En; cbn [negb andb orb] in *; intros H; simplify_eq.
    + split; [done|]. intros q u' m. apply (Hsame d'); [done|]. by case_decide.
    + by apply Htake.
    + split; [done|]. intros q u' m Hu Hm. cbn in Hu. case_decide as Hq.
      * subst q. rewrite lookup_alter_eq in Hu. destruct (queues d !! queue) as [u0|]; [|done]. cbn in Hu.
        exists u0. destruct (u_max u0) eqn:Em; injection Hu as <-; [|congruence]. cbn in Hm.
        split_and!; [done|congruence|]. split; [done|]. right; right. done.
      * rewrite lookup_alter_ne in Hu by done. exists u'. split_and!; [done..|]. split; [done|by left].
    + split; [done|]. intros q u' m. apply (Hsame d'); [done|]. by case_decide.
  - destruct (is_terminal new) eqn:En; cbn [negb] in *; intros H; simplify_eq.
    + split; [done|]. intros q u' m. apply (Hsame d'); [done|]. by case_decide.
    + by apply Htake.
Qed.

(** A change of the tasks of one queue by [delta] with its counter. *)
Lemma orderly_move queue delta d d' :
  (forall q u' m, queues d' !! q = Some u' -> u_max u' = Some m ->
     exists u, queues d !! q = Some u /\ u_max u = Some m /\
       counter_moves (if decide (q = queue) then delta else 0) m u u') ->
  (forall q, load q (tasks d') = load q (tasks d) + (if decide (q = queue) then delta else 0)) ->
  orderly d d'.
Proof.
  intros Hu Hl Hd.
  assert (forall q u' m, queues d' !! q = Some u' -> u_max u' = Some m ->
    load q (tasks d') <= u_capacity u' /\ exists u, queues d !! q = Some u /\ u_max u = Some m /\
    (u_capacity u' <= m \/ (u_capacity u' <= u_capacity u /\ load q (tasks d') <= load q (tasks d)))) as H.
  { intros q u' m Hq Hm. destruct (Hu q u' m Hq Hm) as (u & Hq' & Hm' & _ & Hmove).
    pose proof (Hd q u m Hq' Hm') as Hc. pose proof (len_nonneg (filter (fun kt : uuid * TaskRec => open_in q kt.2)
      (map_to_list (tasks d)))) as Hpos. fold (load q (tasks d)) in Hpos. specialize (Hl q).
    destruct (decide (q = queue)); (split; [lia|]); exists u; (split_and!; [done..|]); lia. }
  split; intros q u' m Hq Hm; by destruct (H q u' m Hq Hm).
Qed.

Lemma update_task_orderly id old new d d' :
  tasks d !! id = Some old -> k_queue_name new = k_queue_name old ->
  update_task id old new d = Ok d' -> orderly d d'.
Proof.
  intros Ht Hq H. unfold update_task in H. ok_inv. apply enforce_spec in E as [Htasks Hu].
  apply (orderly_move (k_queue_name new) (weight (k_state new) - weight (k_state old))); [exact Hu|].
  intros q. cbn. rewrite Htasks, (load_insert _ _ _ old) by done. rewrite !counts_weight, Hq.
  repeat case_decide; subst; try done; lia.
Qed.

Lemma insert_task_orderly now id spec r mx d d' : insert_task now id spec r mx d = Ok d' -> orderly d d'.
Proof.
  intros H. unfold insert_task in H. ok_inv. apply enforce_spec in E as [Htasks Hu].
  destruct (tasks a !! id) eqn:Eid; [done|]. ok_inv.
  apply (orderly_move (sp_queue_name spec) 1); [exact Hu|]. intros q. cbn.
  rewrite load_insert_new, Htasks, counts_weight by congruence. cbn. repeat case_decide; try done; congruence.
Qed.

Lemma enforce_orderly new queue d d' : enforce_queue_capacity None new queue d = Ok d' -> orderly d d'.
Proof.
  intros H. apply enforce_spec in H as [Ht Hu]. intros Hd.
  assert (forall q u' m, queues d' !! q = Some u' -> u_max u' = Some m ->
    load q (tasks d') <= u_capacity u' /\ exists u, queues d !! q = Some u /\ u_max u = Some m /\
    (u_capacity u' <= m \/ (u_capacity u' <= u_capacity u /\ load q (tasks d') <= load q (tasks d)))) as H.
  { intros q u' m Hq Hm. destruct (Hu q u' m Hq Hm) as (u & Hq' & Hm' & _ & Hmove).
    pose proof (Hd q u m Hq' Hm') as Hc. rewrite Ht. cbn [from_option] in Hmove.
    assert (0 <= weight new) by (unfold weight; by destruct (outstanding new)).
    destruct (decide (q = queue)); (split; [lia|]); exists u; (split_and!; [done..|]); lia. }
  split; intros q u' m Hq Hm; by destruct (H q u' m Hq Hm).
Qed.

(** ** Statements *)

(** The rows of a statement: distinct keys, the old rows in place, in their queues. *)
Definition placed (d : Db) (l : list (uuid * TaskRec * TaskRec)) : Prop :=
  NoDup (map (fun r => r.1.1) l) /\
  Forall (fun r => tasks d !! r.1.1 = Some r.1.2 /\ k_queue_name r.2 = k_queue_name r.1.2) l.

Lemma update_all_orderly l d d' :
  placed d l -> foldM (fun d '(id, old, new) => update_task id old new d) d l = Ok d' -> orderly d d'.
Proof.
  revert d. induction l as [|[[id old] new] l IH]; intros d [Hnd Hall] H; cbn [foldM] in H; ok_inv; [reflexivity|].
  apply NoDup_cons in Hnd as [Hni Hnd]. apply Forall_cons in Hall as [[Hid Hq] Hall]. cbn in Hid, Hq, Hni.
  etransitivity; [by eapply update_task_orderly|]. apply IH; [|done]. split; [done|].
  apply update_task_tasks in E. rewrite E. apply Forall_forall. intros r Hr.
  rewrite Forall_forall in Hall. destruct (Hall r Hr) as [Hid' ?]. split; [|done].
  rewrite lookup_insert_ne; [done|]. intros ->. apply Hni. apply list_elem_of_fmap. eauto.
Qed.

Lemma placed_map (row : uuid * TaskRec -> TaskRec) d l :
  NoDup (map fst l) -> Forall (fun kt => tasks d !! kt.1 = Some kt.2) l ->
  (forall kt, k_queue_name (row kt) = k_queue_name kt.2) -> placed d (map (fun kt => (kt.1, kt.2, row kt)) l).
Proof.
  intros Hnd HF Hq. split; [by rewrite map_map|]. rewrite Forall_map. eapply Forall_impl; [exact HF|].
  intros kt Hid. split; [done|]. apply (Hq kt).
Qed.

Lemma foldl_tables {A} (f : Db -> A -> Db) l d :
  (forall d a, queues (f d a) = queues d /\ tasks (f d a) = tasks d) ->
  queues (foldl f d l) = queues d /\ tasks (foldl f d l) = tasks d.
Proof.
  intros Hf. revert d. induction l as [|a l IH]; intros d; cbn; [done|]. destruct (IH (f d a)) as [-> ->]. apply Hf.
Qed.

Lemma cancel_rows_orderly now error l d d' :
  NoDup (map fst l) -> Forall (fun kt => tasks d !! kt.1 = Some kt.2) l ->
  cancel_rows now error l d = Ok d' -> orderly d d'.
Proof.
  intros Hnd HF H. unfold cancel_rows in H. ok_inv. transitivity a.
  - apply (update_all_orderly (map (fun kt => (kt.1, kt.2, cancel_row now error kt.2)) l)); [by apply placed_map|].
    rewrite <- E. clear. revert d. induction l as [|[id t] l IH]; intros d; [done|].
    cbn [foldM map fst snd]. destruct (update_task id t _ d); [|done]. apply IH.
  - match goal with |- context [foldl ?f a l] => destruct (foldl_tables f l a) as [Hq Ht] end;
      [by intros ? [? ?]|]. by apply orderly_tables.
Qed.

Lemma wake_orderly now id d : orderly d (wake_task now id d).
Proof.
  unfold wake_task. destruct (tasks d !! id) as [t|] eqn:E; [|reflexivity].
  case_bool_decide as Hs; [|reflexivity]. eapply orderly_put; [done..|]. by rewrite Hs.
Qed.

Lemma insert_checkpoint_orderly now k v d d' v' : insert_checkpoint now k v d = Ok (d', v') -> orderly d d'.
Proof. unfold insert_checkpoint. intros H. ok_inv. case_match; ok_inv; simplify_eq; by apply orderly_tables. Qed.

Lemma resolve_one_orderly now new d k d' : resolve_one now new d k = Ok d' -> orderly d d'.
Proof.
  unfold resolve_one. intros H. ok_inv. destruct a as [d1 v]. ok_inv.
  etransitivity; [by eapply insert_checkpoint_orderly|]. etransitivity; [apply wake_orderly|by apply orderly_tables].
Qed.

Lemma resolve_result_orderly now id new d d' : resolve_task_result now id new d = Ok d' -> orderly d d'.
Proof.
  unfold resolve_task_result. intros H. ok_inv. transitivity a; [|by apply orderly_tables].
  eapply orderly_fold; [|exact E]. intros. by eapply resolve_one_orderly.
Qed.

Lemma update_key_orderly f id t d : orderly d (update_key f id t d).
Proof. apply orderly_tables; unfold update_key; by case_match. Qed.

Lemma manage_key_orderly now id old new d : orderly d (manage_idempotency_key now id old new d).
Proof. unfold manage_idempotency_key. repeat case_match; (apply update_key_orderly || reflexivity). Qed.

Lemma after_update_orderly fuel now : forall id old new d d',
  after_update fuel now id old new d = Ok d' -> orderly d d'.
Proof.
  induction fuel as [|fuel IH]; intros id old new d d' H; cbn in H.
  all: destruct (finishes old new); [|injection H as <-; apply manage_key_orderly].
  - injection H as <-. reflexivity.
  - destruct (cancel_rows _ _ _ _) as [d1|] eqn:E1; [|done]. cbn [mbind result_bind] in H.
    destruct (foldM _ d1 _) as [d2|] eqn:E2; [|done]. cbn [mbind result_bind] in H.
    destruct (owned_children_spec id d) as [Hnd Hall].
    transitivity d1; [eapply cancel_rows_orderly; [exact Hnd| |exact E1]|].
    { eapply Forall_impl; [exact Hall|]. by intros kt [? _]. }
    transitivity d2; [eapply orderly_fold; [|exact E2]; intros ? [cid t] ? Hx; by eapply IH|].
    etransitivity; [apply manage_key_orderly|]. by eapply resolve_result_orderly.
Qed.

Lemma update_rows_orderly now l between d d' :
  placed d l -> (forall d, queues (between d) = queues d /\ tasks (between d) = tasks d) ->
  update_rows now l between d = Ok d' -> orderly d d'.
Proof.
  intros Hp Hb H. unfold update_rows in H. ok_inv. transitivity a; [by eapply update_all_orderly|].
  transitivity (between a); [destruct (Hb a); by apply orderly_tables|].
  eapply orderly_fold; [|exact H]. intros ? [[id old] new] ? Hx. by eapply after_update_orderly.
Qed.

(** ** Each call *)

Lemma ensure_queue_orderly now q d : orderly d (ensure_queue now q d).
Proof.
  apply orderly_neutral; [|by rewrite ensure_queue_tasks]. unfold ensure_queue. intros q' u' m Hu Hm.
  destruct (queues d !! q) eqn:E; [by exists u'|]. cbn in Hu.
  apply lookup_insert_Some in Hu as [[<- <-]|[_ Hu]]; [done|by exists u'].
Qed.

Lemma reserve_key_orderly now q key id d : orderly d (reserve_key now q key id d).1.1.
Proof. apply orderly_tables; unfold reserve_key; repeat case_match; done. Qed.

Lemma enqueue_orderly e tn p q v r pr mx key h d d' x :
  enqueue e tn p q v r pr mx key h d = Ok (d', x) -> orderly d d'.
Proof.
  intros H. unfold enqueue in H. ok_inv.
  destruct (match key with Some _ => _ | None => _ end) as [[d1 i] mine] eqn:Ek.
  transitivity d1.
  - etransitivity; [apply (ensure_queue_orderly (e_now e) q)|]. destruct key as [key|].
    + pose proof (reserve_key_orderly (e_now e) q key (e_uuid e 0) (ensure_queue (e_now e) q d)) as Hr.
      by rewrite Ek in Hr.
    + by injection Ek as <- _ _.
  - destruct mine; [|by simplify_eq]. ok_inv. simplify_eq. by eapply insert_task_orderly.
Qed.

Lemma finish_attempts_tables f l d :
  queues (finish_attempts f l d) = queues d /\ tasks (finish_attempts f l d) = tasks d.
Proof. apply foldl_tables. by intros ? [[? ?] ?]. Qed.

Lemma insert_attempts_tables now w l d d' :
  insert_attempts now w l d = Ok d' -> queues d' = queues d /\ tasks d' = tasks d.
Proof.
  unfold insert_attempts. revert d. induction l as [|[[id old] new] l IH]; intros d H; cbn [foldM] in H; [by ok_inv|].
  destruct (attempts d !! (id, k_attempt new)); cbn in H; [done|]. by destruct (IH _ H) as [-> ->].
Qed.

Lemma claim_orderly e q w caps limit ms d d' rows : claim e q w caps limit ms d = Ok (d', rows) -> orderly d d'.
Proof.
  intros H. unfold claim in H. ok_inv. simplify_eq. apply insert_attempts_tables in E1 as [Hq Ht].
  transitivity a; [|by apply orderly_tables].
  destruct (candidates_spec e d q caps limit) as [Hnd HF].
  eapply update_rows_orderly; [|done|exact E0]. split; [by rewrite claimed_rows_fst|].
  apply Forall_forall. intros r (n & kt & -> & Hin)%elem_of_lookup_imap_1. cbn.
  rewrite Forall_forall in HF. apply list_elem_of_lookup_2 in Hin. by destruct (HF _ Hin) as [? _].
Qed.

Lemma put_all_orderly (row : TaskRec -> TaskRec) l : forall d,
  (forall t, k_queue_name (row t) = k_queue_name t /\ k_state (row t) = k_state t) ->
  NoDup (map fst l) -> Forall (fun kt => tasks d !! kt.1 = Some kt.2) l ->
  orderly d (foldl (fun d '(id, t) => put_task id (row t) d) d l).
Proof.
  induction l as [|[id t] l IH]; intros d Hrow Hnd HF; cbn [foldl]; [reflexivity|].
  cbn in Hnd. apply NoDup_cons in Hnd as [Hni Hnd]. apply Forall_cons in HF as [Hid HF]. cbn in Hid.
  destruct (Hrow t) as [Hq Hs]. transitivity (put_task id (row t) d).
  { eapply orderly_put; [done..|]. by rewrite Hs. }
  apply IH; [done..|]. apply Forall_forall. intros kt Hin. rewrite Forall_forall in HF. cbn.
  rewrite lookup_insert_ne; [by apply HF|]. intros ->. apply Hni. apply list_elem_of_fmap. eauto.
Qed.

Lemma renew_orderly e leases ms d d' ids : renew_leases e leases ms d = Ok (d', ids) -> orderly d d'.
Proof.
  intros H. unfold renew_leases in H. injection H as <- _. destruct (held_leases_spec leases [] d) as [Hnd HF].
  apply put_all_orderly; [done|by apply NoDup_map_filter|]. apply Forall_forall.
  intros kt [_ Hin]%list_elem_of_filter. rewrite Forall_forall in HF. by destruct (HF _ Hin).
Qed.

Lemma release_orderly e leases d d' ids : release_tasks e leases d = Ok (d', ids) -> orderly d d'.
Proof.
  intros H. unfold release_tasks in H. ok_inv. simplify_eq. destruct (held_leases_spec leases [] d) as [Hnd HF].
  eapply update_rows_orderly; [|intros; apply finish_attempts_tables|exact E].
  apply (placed_map (fun kt => release_row (e_now e) kt.2)); [done| |done].
  eapply Forall_impl; [exact HF|]. by intros kt [? _].
Qed.

Lemma held_placed {A} (lease : A -> LeaseRenewal) (row : A * TaskRec -> TaskRec) d l :
  NoDup (map (fun a => lr_task_id (lease a)) l) ->
  (forall at_, k_queue_name (row at_) = k_queue_name at_.2) ->
  placed d (map (fun at_ => (lr_task_id (lease at_.1), at_.2, row at_)) (held_requests lease d l)).
Proof.
  intros Hnd Hp. destruct (held_requests_spec lease d l Hnd) as [Hn HF]. split; [by rewrite map_map|].
  rewrite Forall_map. eapply Forall_impl; [exact HF|]. intros [a t] (_ & Hid & _). split; [done|]. apply (Hp (a, t)).
Qed.

Lemma complete_orderly e l d d' r : complete_tasks e l d = Ok (d', r) -> orderly d d'.
Proof.
  intros H. unfold complete_tasks in H. ok_inv. simplify_eq. apply bool_decide_eq_true in E0.
  eapply update_rows_orderly; [|intros; apply finish_attempts_tables|exact E2].
  by apply (held_placed co_lease (fun ct => complete_row (e_now e) (co_result ct.1) ct.2)).
Qed.

Lemma fail_orderly e l d d' r : fail_tasks e l d = Ok (d', r) -> orderly d d'.
Proof.
  intros H. unfold fail_tasks in H. ok_inv. simplify_eq. apply bool_decide_eq_true in E0.
  eapply update_rows_orderly; [| |exact E2]; [|intros; by apply foldl_tables].
  by apply (held_placed fa_lease
    (fun ft => fail_row (e_now e) d (lr_task_id (fa_lease ft.1)) (fa_error ft.1) (fa_retry_ms ft.1) ft.2)).
Qed.

Lemma recover_orderly e q limit d d' n : recover_expired e q limit d = Ok (d', n) -> orderly d d'.
Proof.
  intros H. unfold recover_expired in H. ok_inv. simplify_eq.
  destruct (select_tasks_spec e d (expired (e_now e) q) expiry_le limit) as [Hnd HF].
  eapply update_rows_orderly; [|intros; apply finish_attempts_tables|exact E].
  apply (placed_map (fun kt => recover_row (e_now e) d kt.1 kt.2)); [done| |done].
  eapply Forall_impl; [exact HF|]. by intros kt [? _].
Qed.

Lemma cancel_orderly e error id d d' r : cancel_outstanding e error id d = Ok (d', r) -> orderly d d'.
Proof.
  intros H. unfold cancel_outstanding in H. destruct (tasks d !! id) as [t|] eqn:Et; [|by simplify_eq].
  destruct (outstanding (k_state t)); [|by simplify_eq]. ok_inv. simplify_eq.
  transitivity a; [|by eapply after_update_orderly].
  eapply cancel_rows_orderly; [| |exact E]; [by apply NoDup_singleton|by repeat constructor].
Qed.

Lemma admin_cancel_orderly e id actor d d' r : admin_cancel_task e id actor d = Ok (d', r) -> orderly d d'.
Proof.
  intros H. unfold admin_cancel_task, cancel_task in H. ok_inv. destruct a as [d1 c]. apply cancel_orderly in E0.
  destruct c; ok_inv; simplify_eq; [|done]. etransitivity; [exact E0|by apply orderly_tables].
Qed.

Lemma update_one_orderly now id t new d d' :
  tasks d !! id = Some t -> k_queue_name new = k_queue_name t ->
  update_rows now [(id, t, new)] (fun d => d) d = Ok d' -> orderly d d'.
Proof.
  intros Ht Hq H. eapply update_rows_orderly; [|done|exact H]. split; [by apply NoDup_singleton|].
  by repeat constructor.
Qed.

Lemma admin_retry_orderly e id actor d d' r : admin_retry_task e id actor d = Ok (d', r) -> orderly d d'.
Proof.
  intros H. unfold admin_retry_task in H. ok_inv. destruct (tasks d !! id) as [t|] eqn:Et; [|by simplify_eq].
  case_bool_decide; [|by simplify_eq]. ok_inv. simplify_eq. transitivity a; [|by apply orderly_tables].
  by eapply update_one_orderly in E0.
Qed.

Lemma park_orderly now lease t state run_at d d' :
  tasks d !! lr_task_id lease = Some t -> park now lease t state run_at d = Ok d' -> orderly d d'.
Proof.
  intros Ht H. unfold park in H. ok_inv. transitivity a; [|by apply orderly_tables].
  by eapply update_one_orderly in E.
Qed.

Lemma commit_checkpoint_orderly e lease step occ v d d' r :
  commit_checkpoint e lease step occ v d = Ok (d', r) -> orderly d d'.
Proof.
  intros H. unfold commit_checkpoint in H. ok_inv. destruct (active lease d); [|by simplify_eq]. ok_inv.
  destruct a0 as [d1 v1]. simplify_eq. by eapply insert_checkpoint_orderly.
Qed.

Lemma suspend_orderly text e lease step occ w ms d d' r :
  suspend_task text e lease step occ w ms d = Ok (d', r) -> orderly d d'.
Proof.
  intros H. unfold suspend_task in H. ok_inv.
  destruct (active lease d) as [t|] eqn:Ea; [|by simplify_eq]. apply active_running in Ea as [Ht _]. ok_inv.
  destruct (checkpoints d !! _); [by simplify_eq|]. ok_inv. destruct a as [d1 v]. ok_inv. simplify_eq.
  pose proof (insert_checkpoint_tasks _ _ _ _ _ _ E2) as Hd1.
  transitivity d1; [by eapply insert_checkpoint_orderly|]. eapply park_orderly; [|exact E3]. by rewrite Hd1.
Qed.

Lemma wait_for_signal_orderly e lease step occ s so ms d d' r :
  wait_for_signal e lease step occ s so ms d = Ok (d', r) -> orderly d d'.
Proof.
  intros H. unfold wait_for_signal in H. ok_inv.
  destruct (active lease d) as [t|] eqn:Ea; [|by simplify_eq]. apply active_running in Ea as [Ht _].
  destruct (checkpoints d !! _); [by simplify_eq|]. destruct (signals d !! _); ok_inv.
  - destruct a as [d1 v]. simplify_eq. by eapply insert_checkpoint_orderly.
  - simplify_eq. unfold arm_wait in E1. case_bool_decide; [done|]. injection E1 as <-.
    etransitivity; [|eapply park_orderly; [|exact E2]; done]. by apply orderly_tables.
Qed.

Lemma wait_for_result_orderly e lease step occ child ms d d' r :
  wait_for_result e lease step occ child ms d = Ok (d', r) -> orderly d d'.
Proof.
  intros H. unfold wait_for_result in H. ok_inv.
  destruct (active lease d) as [t|] eqn:Ea; [|by simplify_eq]. apply active_running in Ea as [Ht _].
  destruct (checkpoints d !! _); [by simplify_eq|]. destruct (tasks d !! child); [|done]. ok_inv.
  destruct (is_terminal _); ok_inv.
  - destruct a as [d1 v]. simplify_eq. by eapply insert_checkpoint_orderly.
  - simplify_eq. unfold arm_result_wait in E3. case_bool_decide; [done|]. injection E3 as <-.
    etransitivity; [|eapply park_orderly; [|exact E4]; done]. by apply orderly_tables.
Qed.

Lemma resolve_signal_wait_orderly now v o d k d' : resolve_signal_wait now v o d k = Ok d' -> orderly d d'.
Proof.
  unfold resolve_signal_wait. intros H. ok_inv. destruct a as [d1 v1]. ok_inv.
  etransitivity; [by eapply insert_checkpoint_orderly|]. etransitivity; [apply wake_orderly|by apply orderly_tables].
Qed.

Lemma emit_signal_orderly e id s occ v d d' r : emit_signal e id s occ v d = Ok (d', r) -> orderly d d'.
Proof.
  intros H. unfold emit_signal in H. ok_inv. simplify_eq.
  apply orderly_fold in E3; [|intros; by eapply resolve_signal_wait_orderly].
  etransitivity; [|exact E3]. by apply orderly_tables.
Qed.

Lemma recover_wait_timeouts_orderly e l d d' n : recover_wait_timeouts e l d = Ok (d', n) -> orderly d d'.
Proof.
  intros H. unfold recover_wait_timeouts in H. ok_inv. simplify_eq.
  eapply orderly_fold; [|exact E]. intros. by eapply resolve_signal_wait_orderly.
Qed.

Lemma time_out_orderly e d k d' : time_out_result_wait e d k = Ok d' -> orderly d d'.
Proof.
  unfold time_out_result_wait. intros H. ok_inv. destruct a as [d1 v]. apply insert_checkpoint_orderly in E.
  set (d2 := wake_task _ _ _) in H.
  assert (orderly d d2) as G.
  { etransitivity; [exact E|]. etransitivity; [|apply wake_orderly]. by apply orderly_tables. }
  destruct (rw_result_task <$> _); [|by ok_inv]. ok_inv. destruct a as [d3 r]. ok_inv.
  etransitivity; [exact G|]. by eapply cancel_orderly.
Qed.

Lemma recover_result_wait_timeouts_orderly e l d d' n :
  recover_result_wait_timeouts e l d = Ok (d', n) -> orderly d d'.
Proof.
  intros H. unfold recover_result_wait_timeouts in H. ok_inv. simplify_eq.
  eapply orderly_fold; [|exact E]. intros. by eapply time_out_orderly.
Qed.

Lemma adopt_orderly parent child d d' : adopt parent child d = Ok d' -> orderly d d'.
Proof.
  unfold adopt. intros H. destruct (tasks d !! child) as [t|] eqn:Et; [|done]. ok_inv. by eapply orderly_put.
Qed.

Lemma spawn_orderly e lease step occ tn p q v r pr mx h d d' x :
  spawn_task e lease step occ tn p q v r pr mx h d = Ok (d', x) -> orderly d d'.
Proof.
  intros H. unfold spawn_task in H. ok_inv. destruct (active lease d) as [t|]; [|by simplify_eq].
  destruct (checkpoints d !! _) as [c|].
  - destruct (_ ≫= as_str); [|done]. ok_inv. simplify_eq. by eapply adopt_orderly.
  - ok_inv. destruct a1 as [d1 [child created]]. ok_inv. destruct a2 as [d3 v3]. simplify_eq.
    etransitivity; [by eapply enqueue_orderly|]. etransitivity; [by eapply adopt_orderly|].
    by eapply insert_checkpoint_orderly.
Qed.

Lemma put_schedule_orderly e r d d' r' : put_schedule e r d = Ok (d', r') -> orderly d d'.
Proof.
  intros H. unfold put_schedule in H. ok_inv.
  etransitivity; [apply (ensure_queue_orderly (e_now e) (sr_queue_name r))|].
  repeat case_match; ok_inv; simplify_eq; by apply orderly_tables.
Qed.

Lemma materialize_orderly e id x os next d d' n : materialize_schedule e id x os next d = Ok (d', n) -> orderly d d'.
Proof.
  intros H. unfold materialize_schedule in H. destruct (schedules d !! id); [|by simplify_eq].
  destruct (_ && _); [|by simplify_eq].
  assert (forall l d c d' c', foldM (insert_occurrence e s) (d, c) l = Ok (d', c') -> orderly d d') as Hf.
  { clear. induction l as [|[n o] l IH]; intros d c d' c' H; cbn [foldM] in H; [by simplify_eq|].
    destruct (insert_occurrence _ _ _ _) as [[d1 c1]|] eqn:E; cbn [mbind result_bind] in H; [|done].
    transitivity d1; [|by eapply IH]. cbn [insert_occurrence] in E.
    case_match; ok_inv; simplify_eq; [by eapply enforce_orderly|by eapply insert_task_orderly]. }
  apply Hf in H. etransitivity; [|exact H]. by apply orderly_tables.
Qed.

Lemma exec_fleet_orderly c e d d' : exec_fleet c e d = Ok d' -> orderly d d'.
Proof.
  destruct c; cbn [exec_fleet]; intros H.
  - destruct (register_worker _ _ _ _ _ _ _) as [[d1 u]|] eqn:E; [|done]. injection H as <-.
    unfold register_worker in E. ok_inv. simplify_eq.
    etransitivity; [apply (ensure_queue_orderly (e_now e) queue)|by apply orderly_tables].
  - unfold heartbeat_worker in H. repeat case_match; simplify_eq/=; by apply orderly_tables.
  - unfold sample_queue_demand in H. repeat case_match; simplify_eq/=; by apply orderly_tables.
  - injection H as <-. by apply orderly_tables.
Qed.

(** Only [put_queue] sets a limit. *)
Definition sets_limit (c : call) : bool := match c with CPutQueue _ _ _ _ _ => true | _ => false end.

Lemma exec_orderly c e d d' : sets_limit c = false -> exec c e d = Ok d' -> orderly d d'.
Proof.
  intros Hc H. destruct c; try discriminate Hc; [apply fst_ok in H as [x H]..|by eapply exec_fleet_orderly].
  all: try (by eauto using enqueue_orderly, claim_orderly, renew_orderly, release_orderly, complete_orderly,
    fail_orderly, recover_orderly, cancel_orderly, admin_cancel_orderly, admin_retry_orderly,
    commit_checkpoint_orderly, suspend_orderly, wait_for_signal_orderly, emit_signal_orderly,
    recover_wait_timeouts_orderly, wait_for_result_orderly, recover_result_wait_timeouts_orderly, spawn_orderly,
    put_schedule_orderly, materialize_orderly).
  - unfold set_queue_paused in H. destruct (queues d !! _) as [u|] eqn:E; ok_inv; simplify_eq; [|reflexivity].
    apply orderly_neutral; [|done]. cbn. intros q' u' m Hu Hm.
    apply lookup_insert_Some in Hu as [[<- <-]|[_ Hu]]; [by exists u|by exists u'].
  - unfold delete_expired_idempotency_keys in H. ok_inv. simplify_eq. by apply orderly_tables.
  - unfold set_schedule_paused in H. case_match; ok_inv; simplify_eq; by apply orderly_tables.
  - unfold delete_schedule in H. ok_inv. simplify_eq. by apply orderly_tables.
  - unfold admin_set_schedule_paused, set_schedule_paused in H. ok_inv.
    destruct (schedules d !! _); cbn [mbind result_bind] in H; ok_inv; simplify_eq; by apply orderly_tables.
Qed.

Lemma put_queue_covered e q a b m s d d' u : covered d -> put_queue e q a b m s d = Ok (d', u) -> covered d' /\ tasks d' = tasks d.
Proof.
  intros Hd H. unfold put_queue in H. ok_inv. simplify_eq. split; [|done]. intros q' u' m' Hu Hm. cbn in *.
  apply lookup_insert_Some in Hu as [[<- <-]|[_ Hu]]; [|by eapply Hd]. cbn in *. subst m.
  destruct (queues d !! q) as [u|] eqn:Eq; [|by rewrite outstanding_in_load].
  destruct (u_max u) as [m|] eqn:Em; [by eapply Hd|by rewrite outstanding_in_load].
Qed.

Lemma retention_orderly e queue limit d d' n : delete_expired_terminal e queue limit d = Ok (d', n) -> orderly d d'.
Proof.
  intros H. unfold delete_expired_terminal in H. injection H as <- _.
  destruct (select_tasks_spec e d (deletable e queue d) completion_le limit) as [Hnd HF].
  set (l := select_tasks _ _ _ _ _) in *. clearbody l.
  assert (Forall (fun kt => tasks d !! kt.1 = Some kt.2 /\ outstanding (k_state kt.2) = false) l) as HF'.
  { eapply Forall_impl; [exact HF|]. intros kt (Hid & Hdel & _). split; [done|]. unfold deletable in Hdel.
    rewrite !andb_true_iff in Hdel. unfold outstanding. by destruct Hdel as [[[_ ->] _] _]. }
  clear HF. revert d HF'. induction l as [|kt l IH]; intros d HF; cbn [foldl]; [reflexivity|].
  cbn in Hnd. apply NoDup_cons in Hnd as [Hni Hnd]. apply Forall_cons in HF as [[Hid Ho] HF].
  transitivity (delete_task (e_now e) d kt).
  - unfold delete_task. etransitivity; [|apply update_key_orderly].
    apply orderly_neutral; cbn; [intros q u m Hu Hm; by exists u|]. intros q.
    rewrite (load_delete _ _ _ kt.2), counts_weight by done. unfold weight. rewrite Ho. case_decide; lia.
  - apply IH; [done|]. apply Forall_forall. intros kt' Hin. rewrite Forall_forall in HF.
    destruct (HF kt' Hin) as [Hid' ?]. split; [|done].
    unfold delete_task. rewrite update_key_tasks. cbn. rewrite lookup_delete_ne; [done|].
    intros E. apply Hni. rewrite E. apply list_elem_of_fmap. eauto.
Qed.

(** A step: the counters still cover the queues, and where a limit was not just
    set they are within it or have not grown. *)
Lemma step_covered d d' : db_step d d' -> covered d -> covered d' /\ (bounded d d' \/ tasks d' = tasks d).
Proof.
  intros [c e H|e queue limit n H] Hd.
  - destruct (sets_limit c) eqn:Ec.
    + destruct c; try discriminate Ec. apply fst_ok in H as [x H]. apply put_queue_covered in H as [? ?]; auto.
    + destruct (exec_orderly c e d d' Ec H Hd); auto.
  - destruct (retention_orderly _ _ _ _ _ _ H Hd); auto.
Qed.

Lemma reachable_covered d : rtc db_step empty_db d -> covered d.
Proof.
  intros H. assert (covered empty_db) as Hc by (intros q u m Hq; done).
  revert Hc. generalize empty_db as d0, H. clear H. intros d0 H. induction H as [|d1 d2 d3 Hs _ IH]; [done|].
  intros Hc. apply IH. by destruct (step_covered d1 d2 Hs Hc).
Qed.

(** Claim C18.  A queue with a limit does not outgrow it: in every reachable database
    the counter of a queue with [max_outstanding_tasks] is at least the number of
    its outstanding tasks, and whatever a statement does next, cascades, batches and
    schedules included, afterwards the queue has at most as many outstanding tasks
    as its limit, or no more than before. *)
Theorem queue_limit_holds d d' q u m :
  rtc db_step empty_db d -> db_step d d' -> queues d' !! q = Some u -> u_max u = Some m ->
  outstanding_in q d' <= u_capacity u /\ (outstanding_in q d' <= m \/ outstanding_in q d' <= outstanding_in q d).
Proof.
  intros Hr Hs Hq Hm. apply reachable_covered in Hr. destruct (step_covered d d' Hs Hr) as [Hd' Hb].
  rewrite !outstanding_in_load. split; [by eapply Hd'|]. pose proof (Hd' q u m Hq Hm).
  destruct Hb as [Hb| ->]; [|by right]. destruct (Hb q u m Hq Hm) as (u0 & _ & _ & Hc). lia.
Qed.

(** ** Witness: a queue for one task *)

Definition demo_limited : Db := run (CPutQueue (str "default") 60 60 (Some 1) 60) (demo_env 5 0) empty_db.
Definition demo_full : Db := run demo_enqueue (demo_env 10 100) demo_limited.

Lemma demo_limited_steps :
  exec (CPutQueue (str "default") 60 60 (Some 1) 60) (demo_env 5 0) empty_db = Ok demo_limited /\
  exec demo_enqueue (demo_env 10 100) demo_limited = Ok demo_full.
Proof. vm_compute. auto. Qed.

Lemma queue_limit_holds_witness :
  outstanding_in (str "default") demo_full = 1 /\
  exec (CEnqueue (str "mail") VNull (str "default") 1 None 0 5 None (VObject [])) (demo_env 11 200) demo_full
    = Err capacity_reached /\
  (outstanding_in (str "default") demo_full <= 1 \/
   outstanding_in (str "default") demo_full <= outstanding_in (str "default") demo_limited).
Proof.
  split; [vm_compute; reflexivity|]. split; [vm_compute; reflexivity|].
  destruct (queues demo_full !! str "default") as [u|] eqn:E; [|by vm_compute in E].
  apply (queue_limit_holds demo_limited demo_full (str "default") u 1).
  - eapply rtc_once, step_call, demo_limited_steps.
  - eapply step_call, demo_limited_steps.
  - exact E.
  - vm_compute in E. by injection E as <-.
Defined.
