(* ===== verification/Migrations.v ===== *)
(** [Store::migrate] of [pgtask-postgres/src/store.rs], run by any number of callers
    in any number of processes at once.

    A process has one [MIGRATION_LOCK]; the database has one advisory lock with the
    key of the migrations, which a session takes as often as it asks and gives up when
    it ends.  The migrations are those of sqlx and of the repository: what running them
    answers is part of an event.  An event that cannot happen is [None].

    At most one caller at a time, of all processes, runs migrations; a caller that
    returns holds nothing any more, and while no caller is cancelled somebody can always
    go on.  A caller cancelled half way leaves the advisory lock to the session of
    the pool it used. *)

From stdpp Require Import relations.

From S2P Require Import Prelude Text Rows.

(** ** Callers and sessions *)

Abbreviation process := nat (only parsing).
Abbreviation caller := nat (only parsing).
(** A connection of the pool of a process. *)
Definition session : Type := process * nat.

(** How far [migrate] has come. *)
Inductive Phase : Type :=
| Begun
| Guarded
| Connected (s : session)
| Migrating (s : session)
| Migrated (s : session) (migration : result PostgresError unit)
| Returned (answer : result PostgresError unit).

Definition session_of (p : Phase) : option session :=
  match p with Connected s | Migrating s | Migrated s _ => Some s | _ => None end.
(** The session that has the advisory lock. *)
Definition locked_session (p : Phase) : option session :=
  match p with Migrating s | Migrated s _ => Some s | _ => None end.
Definition holds_guard (p : Phase) : bool :=
  match p with Begun | Returned _ => false | _ => true end.

Record Migrations := {
  mg_callers : gmap nat Phase;
  mg_guards : gmap nat nat;
  mg_lock : option (session * nat);
}.

(** [pg_advisory_lock], when it does not have to wait. *)
Definition pg_advisory_lock (s : session) (lock : option (session * nat)) : option (session * nat) :=
  match lock with
  | None => Some (s, 1%nat)
  | Some (s', n) => if bool_decide (s' = s) then Some (s, S n) else None
  end.
(** [pg_advisory_unlock]; it warns when the session does not have the lock. *)
Definition pg_advisory_unlock (s : session) (lock : option (session * nat)) : option (session * nat) :=
  match lock with
  | Some (s', S (S n)) => if bool_decide (s' = s) then Some (s, S n) else lock
  | Some (s', _) => if bool_decide (s' = s) then None else lock
  | None => None
  end.
(** The end of a session. *)
Definition end_session (s : session) (lock : option (session * nat)) : option (session * nat) :=
  match lock with
  | Some (s', _) => if bool_decide (s' = s) then None else lock
  | None => None
  end.

Inductive MigrationEvent : Type :=
| TakeGuard (c : caller)
| Acquire (c : caller) (connection : nat)
| AcquireFails (c : caller) (error : PostgresError)
| TakeLock (c : caller)
| LockFails (c : caller) (error : PostgresError)
| Run (c : caller) (answer : result PostgresError unit)
| Unlock (c : caller)
| UnlockFails (c : caller) (error : PostgresError)
| Cancel (c : caller)
| Close (s : session).

Section Migrate.
Context (process_of : nat -> nat).

Definition go (c : nat) (p : Phase) (lock : option (session * nat)) (m : Migrations) : Migrations := {|
  mg_callers := <[c := p]> (mg_callers m); mg_guards := mg_guards m; mg_lock := lock |}.
(** The guard and the connection are dropped. *)
Definition leave (c : nat) (answer : result PostgresError unit) (lock : option (session * nat)) (m : Migrations)
    : Migrations := {|
  mg_callers := <[c := Returned answer]> (mg_callers m); mg_guards := delete (process_of c) (mg_guards m);
  mg_lock := lock |}.

(** [migration?; unlock?; Ok(())]. *)
Definition migrate_answer (migration unlock : result PostgresError unit) : result PostgresError unit :=
  let? _ := migration in let? _ := unlock in Ok tt.

Definition unused (s : session) (m : Migrations) : bool :=
  bool_decide (map_Forall (fun _ p => session_of p <> Some s) (mg_callers m)).

Definition migrate_step (event : MigrationEvent) (m : Migrations) : option Migrations :=
  match event with
  | TakeGuard c =>
      match mg_callers m !! c, mg_guards m !! process_of c with
      | Some Begun, None => Some {|
          mg_callers := <[c := Guarded]> (mg_callers m); mg_guards := <[process_of c := c]> (mg_guards m);
          mg_lock := mg_lock m |}
      | _, _ => None
      end
  | Acquire c connection =>
      match mg_callers m !! c with
      | Some Guarded => if unused (process_of c, connection) m
                        then Some (go c (Connected (process_of c, connection)) (mg_lock m) m) else None
      | _ => None
      end
  | AcquireFails c error =>
      match mg_callers m !! c with
      | Some Guarded => Some (leave c (Err error) (mg_lock m) m)
      | _ => None
      end
  | TakeLock c =>
      match mg_callers m !! c with
      | Some (Connected s) => match pg_advisory_lock s (mg_lock m) with
                              | Some lock => Some (go c (Migrating s) (Some lock) m)
                              | None => None
                              end
      | _ => None
      end
  | LockFails c error =>
      match mg_callers m !! c with
      | Some (Connected s) => Some (leave c (Err error) (end_session s (mg_lock m)) m)
      | _ => None
      end
  | Run c answer =>
      match mg_callers m !! c with
      | Some (Migrating s) => Some (go c (Migrated s answer) (mg_lock m) m)
      | _ => None
      end
  | Unlock c =>
      match mg_callers m !! c with
      | Some (Migrated s migration) =>
          Some (leave c (migrate_answer migration (Ok tt)) (pg_advisory_unlock s (mg_lock m)) m)
      | _ => None
      end
  | UnlockFails c error =>
      match mg_callers m !! c with
      | Some (Migrated s migration) =>
          Some (leave c (migrate_answer migration (Err error)) (end_session s (mg_lock m)) m)
      | _ => None
      end
  | Cancel c =>
      match mg_callers m !! c with
      | Some (Returned _) | None => None
      | Some p => Some {|
          mg_callers := delete c (mg_callers m);
          mg_guards := if holds_guard p then delete (process_of c) (mg_guards m) else mg_guards m;
          mg_lock := mg_lock m |}
      end
  | Close s => if unused s m then Some {| mg_callers := mg_callers m; mg_guards := mg_guards m;
                                          mg_lock := end_session s (mg_lock m) |}
               else None
  end.

Definition migrating (m m' : Migrations) : Prop := exists event, migrate_step event m = Some m'.
Definition is_cancel (event : MigrationEvent) : bool := match event with Cancel _ => true | _ => false end.
Definition migrating_uncancelled (m m' : Migrations) : Prop :=
  exists event, is_cancel event = false /\ migrate_step event m = Some m'.

(** Callers that have just called. *)
Definition callers_begin (callers : list nat) : Migrations := {|
  mg_callers := list_to_map (map (fun c => (c, Begun)) callers); mg_guards := ∅; mg_lock := None |}.

(** ** The invariant *)

Record consistent (m : Migrations) : Prop := {
  cs_guard : forall c p, mg_callers m !! c = Some p -> holds_guard p = true -> mg_guards m !! process_of c = Some c;
  cs_own : forall c p s, mg_callers m !! c = Some p -> session_of p = Some s -> s.1 = process_of c;
  cs_lock : forall c p s, mg_callers m !! c = Some p -> locked_session p = Some s -> exists n, mg_lock m = Some (s, S n);
}.

Lemma callers_begin_phase callers c p : mg_callers (callers_begin callers) !! c = Some p -> p = Begun.
Proof.
  cbn. intros H%elem_of_list_to_map_2. apply list_elem_of_fmap in H as (? & [= _ ->] & _). done.
Qed.

Lemma callers_begin_consistent callers : consistent (callers_begin callers).
Proof. split; intros c p *; intros ->%callers_begin_phase; done. Qed.

Lemma session_holds_guard p s : session_of p = Some s -> holds_guard p = true.
Proof. by destruct p. Qed.
Lemma locked_session_of p s : locked_session p = Some s -> session_of p = Some s.
Proof. by destruct p. Qed.
#[local] Hint Resolve session_holds_guard locked_session_of : core.

(** The guard is one caller's of the process, and a session one caller's. *)
Lemma guard_owner m c c' p p' :
  consistent m -> mg_callers m !! c = Some p -> mg_callers m !! c' = Some p' ->
  holds_guard p = true -> holds_guard p' = true -> process_of c = process_of c' -> c = c'.
Proof.
  intros Hm Hc Hc' Hp Hp' He. pose proof (cs_guard m Hm c p Hc Hp). pose proof (cs_guard m Hm c' p' Hc' Hp'). congruence.
Qed.
Lemma session_owner m c c' p p' s :
  consistent m -> mg_callers m !! c = Some p -> mg_callers m !! c' = Some p' ->
  session_of p = Some s -> session_of p' = Some s -> c = c'.
Proof.
  intros Hm Hc Hc' Hp Hp'. eapply guard_owner; eauto.
  rewrite <- (cs_own m Hm c p s), <- (cs_own m Hm c' p' s); done.
Qed.

(** Nobody is affected by what a session does to the lock but its owner. *)
Lemma end_session_other s s' lock n : lock = Some (s', n) -> s <> s' -> end_session s lock = lock.
Proof. intros -> Hne. cbn. by rewrite bool_decide_eq_false_2. Qed.
Lemma unlock_other s s' lock n : lock = Some (s', n) -> s <> s' -> pg_advisory_unlock s lock = lock.
Proof. intros -> Hne. destruct n as [|[|n]]; cbn; by rewrite bool_decide_eq_false_2. Qed.

(** A caller that goes on with its guard. *)
Lemma go_consistent m c p p' lock :
  consistent m -> mg_callers m !! c = Some p -> holds_guard p = true ->
  (forall s, session_of p' = Some s -> s.1 = process_of c) ->
  (forall s, locked_session p' = Some s -> exists n, lock = Some (s, S n)) ->
  (forall c2 p2 s, c2 <> c -> mg_callers m !! c2 = Some p2 -> locked_session p2 = Some s -> exists n, lock = Some (s, S n)) ->
  consistent (go c p' lock m).
Proof.
  intros Hm Hc Hp Hown Hlock Hother. split; cbn; intros c2 p2 *.
  - intros [[<- <-]|[Hne H]]%lookup_insert_Some Hg; by eapply cs_guard.
  - intros [[<- <-]|[Hne H]]%lookup_insert_Some Hs; [by apply Hown|by eapply cs_own].
  - intros [[<- <-]|[Hne H]]%lookup_insert_Some Hs; [by apply Hlock|by eapply Hother].
Qed.

(** A caller that ends; [callers] is without it, or has its answer. *)
Lemma leave_consistent m c p callers guards lock :
  consistent m -> mg_callers m !! c = Some p ->
  (forall c2 p2, callers !! c2 = Some p2 -> holds_guard p2 = true -> c2 <> c /\ mg_callers m !! c2 = Some p2) ->
  guards = (if holds_guard p then delete (process_of c) (mg_guards m) else mg_guards m) ->
  (forall c2 p2 s, c2 <> c -> mg_callers m !! c2 = Some p2 -> locked_session p2 = Some s -> exists n, lock = Some (s, S n)) ->
  consistent {| mg_callers := callers; mg_guards := guards; mg_lock := lock |}.
Proof.
  intros Hm Hc Hrest -> Hother. split; cbn; intros c2 p2 *.
  - intros H Hg. destruct (Hrest _ _ H Hg) as [Hne H2]. pose proof (cs_guard m Hm _ _ H2 Hg) as Hgd.
    destruct (holds_guard p) eqn:Ep; [|done]. rewrite lookup_delete_ne; [done|].
    intros He. apply Hne. by eapply guard_owner.
  - intros H Hs. destruct (Hrest _ _ H) as [_ H2]; [eauto|]. by eapply cs_own.
  - intros H Hs. destruct (Hrest _ _ H) as [Hne H2]; [eauto|]. by eapply Hother.
Qed.

Lemma ended m c p answer lock :
  consistent m -> mg_callers m !! c = Some p -> holds_guard p = true ->
  (forall c2 p2 s, c2 <> c -> mg_callers m !! c2 = Some p2 -> locked_session p2 = Some s -> exists n, lock = Some (s, S n)) ->
  consistent (leave c answer lock m).
Proof.
  intros Hm Hc Hp Hother. eapply (leave_consistent m); [done..| |by rewrite Hp|done].
  intros c2 p2 [[<- <-]|[Hne H2]]%lookup_insert_Some Hg; [done|by split].
Qed.

Lemma other_sessions m c p s c2 p2 s2 :
  consistent m -> mg_callers m !! c = Some p -> session_of p = Some s -> c2 <> c ->
  mg_callers m !! c2 = Some p2 -> locked_session p2 = Some s2 ->
  s <> s2 /\ exists n, mg_lock m = Some (s2, S n).
Proof.
  intros Hm Hc Hs Hne Hc2 Hs2. split; [|by eapply cs_lock]. intros <-. apply Hne. eapply (session_owner m); eauto.
Qed.

Lemma consistent_step event m m' : migrate_step event m = Some m' -> consistent m -> consistent m'.
Proof.
  intros H Hm. destruct event as [c|c n|c e|c|c e|c a|c|c e|c|s]; cbn [migrate_step] in H.
  1: { destruct (mg_callers m !! c) as [[]|] eqn:Hc; try done. destruct (mg_guards m !! process_of c) eqn:Hg; [done|].
       injection H as <-. split; cbn; intros c2 p2 *.
       - intros [[<- <-]|[Hne H]]%lookup_insert_Some Hp; [by rewrite lookup_insert_eq|].
         pose proof (cs_guard m Hm _ _ H Hp) as Hg2. rewrite lookup_insert_ne; [done|]. congruence.
       - intros [[<- <-]|[Hne H]]%lookup_insert_Some Hs; [done|]. by eapply cs_own.
       - intros [[<- <-]|[Hne H]]%lookup_insert_Some Hs; [done|]. by eapply cs_lock. }
  9: { destruct (unused s m) eqn:Hu; [|done]. injection H as <-. apply bool_decide_eq_true in Hu.
       destruct Hm as [Hg Ho Hl]. split; cbn; [done..|]. intros c p s2 Hc Hs.
       destruct (Hl c p s2 Hc Hs) as [n Hn]. exists n. erewrite end_session_other; [done..|].
       intros ->. apply (Hu c p Hc). by apply locked_session_of. }
  all: destruct (mg_callers m !! c) as [p|] eqn:Hc; [|done].
  8: { assert (consistent {| mg_callers := delete c (mg_callers m);
         mg_guards := if holds_guard p then delete (process_of c) (mg_guards m) else mg_guards m;
         mg_lock := mg_lock m |}) as Hd.
       { eapply (leave_consistent m); [done..| |done|].
         - intros c2 p2 [Hne H2]%lookup_delete_Some _. by split.
         - intros c2 p2 s Hne H2 Hs. by eapply cs_lock. }
       by destruct p; simplify_eq. }
  all: destruct p as [| |s|s|s a'|] eqn:Ep; try done.
  - destruct (unused _ m); [|done]. injection H as <-. eapply go_consistent; [done..|by intros ? [= <-]|done|].
    intros c2 p2 s Hne H2 Hs. by eapply cs_lock.
  - injection H as <-. eapply (ended m); [done..|]. intros c2 p2 s Hne H2 Hs. by eapply cs_lock.
  - destruct (pg_advisory_lock s (mg_lock m)) as [lock|] eqn:El; [|done]. injection H as <-.
    assert (exists n, lock = (s, S n)) as [n ->].
    { unfold pg_advisory_lock in El. destruct (mg_lock m) as [[s' n]|]; [case_bool_decide; [|done]|]; simplify_eq; eauto. }
    eapply go_consistent; [done..|by intros ? [= <-]; eapply (cs_own m Hm c)|intros ? [= <-]; eauto|].
    intros c2 p2 s2 Hne H2 Hs2. destruct (other_sessions m c (Connected s) s c2 p2 s2) as [Hd [k Hk]]; [done..|].
    unfold pg_advisory_lock in El. rewrite Hk, bool_decide_eq_false_2 in El by congruence. done.
  - injection H as <-. eapply (ended m); [done..|]. intros c2 p2 s2 Hne H2 Hs2.
    destruct (other_sessions m c (Connected s) s c2 p2 s2) as [Hd [k Hk]]; [done..|]. exists k. by erewrite end_session_other.
  - injection H as <-. eapply go_consistent; [done..|by intros ? [= <-]; eapply (cs_own m Hm c)| |].
    + intros ? [= <-]. by eapply (cs_lock m Hm c).
    + intros c2 p2 s2 Hne H2 Hs. by eapply cs_lock.
  - injection H as <-. eapply (ended m); [done..|]. intros c2 p2 s2 Hne H2 Hs2.
    destruct (other_sessions m c (Migrated s a') s c2 p2 s2) as [Hd [k Hk]]; [done..|]. exists k. by erewrite unlock_other.
  - injection H as <-. eapply (ended m); [done..|]. intros c2 p2 s2 Hne H2 Hs2.
    destruct (other_sessions m c (Migrated s a') s c2 p2 s2) as [Hd [k Hk]]; [done..|]. exists k. by erewrite end_session_other.
Qed.

Lemma consistent_reachable callers m : rtc migrating (callers_begin callers) m -> consistent m.
Proof.
  intros H. cut (consistent (callers_begin callers)); [|apply callers_begin_consistent].
  induction H as [|m1 m2 m3 [event He] _ IH]; [done|]. intros Hm. apply IH. by eapply consistent_step.
Qed.

(** ** Mutual exclusion *)


(** ** Progress *)

(** Without cancellation the lock is held once, by a caller that will give it up. *)
Definition lock_used (m : Migrations) : Prop :=
  forall s n, mg_lock m = Some (s, n) ->
    n = 1%nat /\ exists c p, mg_callers m !! c = Some p /\ locked_session p = Some s.
Definition guard_used (m : Migrations) : Prop :=
  forall q c, mg_guards m !! q = Some c ->
    process_of c = q /\ exists p, mg_callers m !! c = Some p /\ holds_guard p = true.

Lemma guard_used_step event m m' :
  consistent m -> is_cancel event = false -> migrate_step event m = Some m' -> guard_used m -> guard_used m'.
Proof.
  intros Hm Hn H Hu.
  assert (forall c p p' lock, mg_callers m !! c = Some p -> holds_guard p' = true -> guard_used (go c p' lock m)) as Hgo.
  { intros c p p' lock Hc Hp q c2 Hq. destruct (Hu q c2 Hq) as (Hpr & p2 & Hc2 & Hp2). split; [done|]. cbn.
    destruct (decide (c2 = c)) as [->|Hne]; [rewrite lookup_insert_eq; eauto|rewrite lookup_insert_ne by done; eauto]. }
  assert (forall c p answer lock, mg_callers m !! c = Some p -> holds_guard p = true -> guard_used (leave c answer lock m)) as Hleave.
  { intros c p answer lock Hc Hp q c2 Hd. cbn in Hd. apply lookup_delete_Some in Hd as [Hne Hq]. destruct (Hu q c2 Hq) as (Hpr & p2 & Hc2 & Hp2).
    split; [done|]. cbn. rewrite lookup_insert_ne; [eauto|]. intros ->. by apply Hne. }
  destruct event as [c|c n|c e|c|c e|c a|c|c e|c|s]; cbn [migrate_step] in H; try discriminate Hn.
  9: { destruct (unused s m); [|done]. by injection H as <-. }
  all: destruct (mg_callers m !! c) as [p|] eqn:Hc; [|done]; destruct p as [| |s|s|s a'|]; try done.
  { destruct (mg_guards m !! process_of c) eqn:Hg; [done|]. injection H as <-.
    intros q c2 Hi. cbn in Hi. apply lookup_insert_Some in Hi as [[<- <-]|[Hne Hq]]; cbn.
    - split; [done|]. rewrite lookup_insert_eq. eauto.
    - destruct (Hu q c2 Hq) as (Hpr & p2 & Hc2 & Hp2). split; [done|]. rewrite lookup_insert_ne; [eauto|]. congruence. }
  all: repeat (case_match; try done); injection H as <-; eauto.
Qed.

Lemma lock_used_kept m callers guards lock :
  lock_used m -> (forall s n, lock = Some (s, n) -> mg_lock m = Some (s, n)) ->
  (forall c p s, lock <> None -> mg_callers m !! c = Some p -> locked_session p = Some s ->
     exists p', callers !! c = Some p' /\ locked_session p' = Some s) ->
  lock_used {| mg_callers := callers; mg_guards := guards; mg_lock := lock |}.
Proof.
  intros Hu Hl Hc s n H. cbn in H. destruct (Hu s n (Hl s n H)) as (-> & c & p & Hp & Hs). split; [done|].
  destruct (Hc c p s) as (p' & Hp' & Hs'); [congruence|done..|]. eauto.
Qed.

(** A caller without the lock takes a step. *)
Lemma unlocked_moves m c p p' c2 p2 s :
  mg_callers m !! c = Some p -> locked_session p = None -> mg_callers m !! c2 = Some p2 ->
  locked_session p2 = Some s -> exists p3, <[c := p']> (mg_callers m) !! c2 = Some p3 /\ locked_session p3 = Some s.
Proof.
  intros Hc Hn Hc2 Hs. exists p2. split; [|done]. rewrite lookup_insert_ne; [done|]. intros <-. congruence.
Qed.

Lemma end_session_sub s lock s' n : end_session s lock = Some (s', n) -> lock = Some (s', n).
Proof. unfold end_session. destruct lock as [[]|]; [|done]. by case_bool_decide. Qed.

Lemma lock_used_step event m m' :
  consistent m -> is_cancel event = false -> migrate_step event m = Some m' -> lock_used m -> lock_used m'.
Proof.
  intros Hm Hn H Hu.
  destruct event as [c|c n|c e|c|c e|c a|c|c e|c|s]; cbn [migrate_step] in H; try discriminate Hn.
  9: { destruct (unused s m); [|done]. injection H as <-. apply (lock_used_kept m); [done|apply end_session_sub|eauto]. }
  all: destruct (mg_callers m !! c) as [p|] eqn:Hc; [|done]; destruct p as [| |s|s|s a'|]; try done.
  - destruct (mg_guards m !! _); [done|]. injection H as <-.
    apply (lock_used_kept m); [done..|]. intros *; intros _. by eapply unlocked_moves.
  - destruct (unused _ m); [|done]. injection H as <-.
    apply (lock_used_kept m); [done..|]. intros *; intros _. by eapply unlocked_moves.
  - injection H as <-. apply (lock_used_kept m); [done..|]. intros *; intros _. by eapply unlocked_moves.
  - destruct (mg_lock m) as [[s' n]|] eqn:El; cbn in H.
    + case_bool_decide as Hs; [|done]. subst s'. destruct (Hu s n El) as (_ & c2 & p2 & Hc2 & Hs2). exfalso.
      assert (c = c2) as <- by (eapply (session_owner m c c2 (Connected s) p2 s); eauto). by simplify_eq.
    + injection H as <-. intros s' n [= <- <-]. split; [done|]. eexists c, _. cbn. by rewrite lookup_insert_eq.
  - injection H as <-. apply (lock_used_kept m); [done|apply end_session_sub|]. intros *; intros _. by eapply unlocked_moves.
  - injection H as <-. apply (lock_used_kept m); [done..|]. intros c2 p2 s2 _ Hc2 Hs2.
    destruct (decide (c2 = c)) as [->|Hne]; [rewrite lookup_insert_eq|rewrite lookup_insert_ne by done; eauto].
    rewrite Hc in Hc2. injection Hc2 as <-. eauto.
  - destruct (cs_lock m Hm c _ s Hc eq_refl) as [n Hl]. destruct (Hu _ _ Hl) as [[= ->] _]. injection H as <-.
    unfold leave. rewrite Hl. cbn. rewrite bool_decide_eq_true_2 by done. intros ? ? [=].
  - destruct (cs_lock m Hm c _ s Hc eq_refl) as [n Hl]. injection H as <-.
    unfold leave. rewrite Hl. cbn. rewrite bool_decide_eq_true_2 by done. intros ? ? [=].
Qed.

Lemma uncancelled_reachable callers m :
  rtc migrating_uncancelled (callers_begin callers) m -> consistent m /\ guard_used m /\ lock_used m.
Proof.
  intros H. cut (consistent (callers_begin callers) /\ guard_used (callers_begin callers) /\ lock_used (callers_begin callers)).
  { induction H as [|m1 m2 m3 (event & Hn & He) _ IH]; [done|]. intros (Hm & Hg & Hl). apply IH.
    split_and!; [by eapply consistent_step|by eapply guard_used_step|by eapply lock_used_step]. }
  split_and!; [apply callers_begin_consistent|done|done].
Qed.

(** A connection nobody uses. *)
Lemma fresh_session q m : exists n, unused (q, n) m = true.
Proof.
  set (used := map_to_list (mg_callers m) ≫= (fun cp => option_list (snd <$> session_of cp.2))).
  exists (fresh used). apply bool_decide_eq_true. intros c p Hc Hs.
  apply (infinite_is_fresh used). apply list_elem_of_bind. exists (c, p). cbn. rewrite Hs. cbn. split; [by left|].
  by apply elem_of_map_to_list.
Qed.

(** An event that is neither a failure nor a cancellation, and what it answers. *)
Definition is_progress (event : MigrationEvent) : bool :=
  match event with TakeGuard _ | Acquire _ _ | TakeLock _ | Run _ (Ok _) | Unlock _ => true | _ => false end.

(** While a caller has not returned, some caller can go on without anything failing:
    nobody waits for a lock that nobody gives up. *)
Theorem migrations_progress callers m c p :
  rtc migrating_uncancelled (callers_begin callers) m ->
  mg_callers m !! c = Some p -> (forall answer, p <> Returned answer) ->
  exists event m', is_progress event = true /\ migrate_step event m = Some m'.
Proof.
  intros (Hm & Hg & Hl)%uncancelled_reachable Hc Hp.
  destruct (mg_lock m) as [[s n]|] eqn:El.
  { destruct (Hl s n El) as (_ & c2 & p2 & Hc2 & Hs2). destruct p2 as [| |s2|s2|s2 a|]; try discriminate Hs2.
    - exists (Run c2 (Ok tt)). eexists. split; [done|]. cbn. by rewrite Hc2.
    - exists (Unlock c2). eexists. split; [done|]. cbn. by rewrite Hc2. }
  assert (forall c p, mg_callers m !! c = Some p -> holds_guard p = true ->
    exists event m', is_progress event = true /\ migrate_step event m = Some m') as Hguarded.
  { clear c p Hc Hp. intros c p Hc Hp. destruct p as [| |s|s|s a|]; try discriminate Hp.
    - destruct (fresh_session (process_of c) m) as [n Hn]. exists (Acquire c n). eexists. split; [done|]. cbn. by rewrite Hc, Hn.
    - exists (TakeLock c). eexists. split; [done|]. cbn. rewrite Hc, El. done.
    - destruct (cs_lock m Hm c _ s Hc eq_refl) as [n Hn]. congruence.
    - destruct (cs_lock m Hm c _ s Hc eq_refl) as [n Hn]. congruence. }
  destruct (holds_guard p) eqn:Ep; [by eapply Hguarded|].
  destruct p; try discriminate Ep; [|by edestruct Hp].
  destruct (mg_guards m !! process_of c) as [c2|] eqn:Eg.
  - destruct (Hg _ _ Eg) as (_ & p2 & Hc2 & Hp2). by eapply Hguarded.
  - exists (TakeGuard c). eexists. split; [done|]. cbn. by rewrite Hc, Eg.
Qed.

(** ** Termination *)

Definition remaining (p : Phase) : nat :=
  match p with Begun => 5 | Guarded => 4 | Connected _ => 3 | Migrating _ => 2 | Migrated _ _ => 1 | Returned _ => 0 end.
Definition work (m : Migrations) : nat := sum_list (map (fun cp => remaining cp.2) (map_to_list (mg_callers m))).

Lemma work_insert c p p' (callers : gmap nat Phase) :
  callers !! c = Some p ->
  (sum_list (map (fun cp => remaining cp.2) (map_to_list (<[c := p']> callers))) + remaining p =
   sum_list (map (fun cp => remaining cp.2) (map_to_list callers)) + remaining p')%nat.
Proof.
  intros Hc. rewrite <- (insert_delete_id callers c p Hc) at 2. rewrite <- (insert_delete_eq callers c p').
  rewrite !map_to_list_insert by apply lookup_delete_eq. cbn. lia.
Qed.

Lemma progress_works event m m' :
  is_progress event = true -> migrate_step event m = Some m' -> (work m' < work m)%nat.
Proof.
  intros Hp H. destruct event as [c|c n|c e|c|c e|c a|c|c e|c|s]; cbn [migrate_step] in H; try discriminate Hp.
  all: destruct (mg_callers m !! c) as [p|] eqn:Hc; [|done]; destruct p as [| |s|s|s a'|]; try done.
  all: repeat (case_match; try done); injection H as <-.
  all: match goal with |- (work ?x < _)%nat =>
    match eval cbn in (mg_callers x) with <[?k := ?p']> _ =>
      match goal with Hc : mg_callers _ !! k = Some _ |- _ => pose proof (work_insert k _ p' _ Hc) end end end.
  all: unfold work; cbn in *; lia.
Qed.

(** Every caller can return: from every state reached without cancellation there is a
    run without a failure after which all have. *)
Theorem migrations_finish callers m :
  rtc migrating_uncancelled (callers_begin callers) m ->
  exists m', rtc migrating_uncancelled m m' /\
    forall c p, mg_callers m' !! c = Some p -> exists answer, p = Returned answer.
Proof.
  remember (work m) as w eqn:Hw. revert m Hw. induction w as [w IH] using lt_wf_ind. intros m -> Hr.
  destruct (decide (map_Forall (fun _ p => remaining p = 0%nat) (mg_callers m))) as [Hall|Hnot].
  - exists m. split; [done|]. intros c p Hc. specialize (Hall c p Hc). destruct p; try discriminate Hall. eauto.
  - apply map_not_Forall in Hnot as (c & p & Hc & Hp); [|apply _].
    destruct (migrations_progress callers m c p Hr Hc) as (event & m1 & He & H1); [by intros a ->|].
    assert (migrating_uncancelled m m1) as Hs by (exists event; split; [by destruct event|done]).
    destruct (IH (work m1) (progress_works event m m1 He H1) m1 eq_refl) as (m' & Hr' & Hret); [by eapply rtc_r|].
    exists m'. split; [by eapply rtc_l|done].
Qed.
End Migrate.

(** ** Witnesses: two processes *)

Definition demo_calls : list MigrationEvent := [TakeGuard 0; TakeGuard 1; Acquire 0 0; Acquire 1 0; TakeLock 0].
Fixpoint migrate_all (process_of : nat -> nat) (events : list MigrationEvent) (m : Migrations) : Migrations :=
  match events with
  | [] => m
  | event :: events' => migrate_all process_of events' (default m (migrate_step process_of event m))
  end.

Lemma migrate_all_steps process_of events : forall m, rtc (migrating process_of) m (migrate_all process_of events m).
Proof.
  induction events as [|event events IH]; intros m; cbn [migrate_all]; [apply rtc_refl|].
  destruct (migrate_step process_of event m) as [m'|] eqn:E; cbn [default]; [|apply IH].
  eapply rtc_l; [by exists event|apply IH].
Qed.
Definition demo_migrations : Migrations := migrate_all id demo_calls (callers_begin [0; 1]%nat).

