(* ===== verification/Store.v ===== *)
(** The [Store]: the methods of [pgtask-postgres/src/store.rs].

    A method checks and converts its arguments, runs one statement of the
    storage protocol, and converts the rows.  [io] threads the database: a
    rejected statement leaves it as it was, a row that does not convert is an
    error after the statement has committed.  Lost connections are not
    modelled: a statement either runs or is rejected.

    [timestamptz] is what binding a [DateTime] keeps of it: microseconds.  The
    fields a span's propagator sets in the headers are the argument
    [context]. *)

From stdpp Require Import sorting.
From S2P Require Import Prelude Text Identifier Json Retry TaskTypes.
From S2P Require Import Chrono Schedule Outcome Rows Tables Protocol Fleet.

(** ** Database actions *)

Definition io (A : Type) : Type := Db -> Db * result PostgresError A.
Global Instance io_ret : MRet io := fun A a d => (d, Ok a).
Global Instance io_bind : MBind io := fun A B k m d =>
  let (d', r) := m d in match r with Ok a => k a d' | Err error => (d', Err error) end.

Definition lift {A} (r : result PostgresError A) : io A := fun d => (d, r).

(** [sqlx::query...await?]: a statement of its own. *)
Definition execute {A} (s : Db -> stmt A) : io A := fun d =>
  match s d with
  | Ok (d', a) => (d', Ok a)
  | Err code => (d, Err (Database (DatabaseError code)))
  end.
Definition fetch {A} (f : Db -> A) : io A := fun d => (d, Ok (f d)).

(** [pool.begin() ... commit()]: an early return drops the transaction. *)
Definition transaction {A} (m : io A) : io A := fun d =>
  match m d with
  | (d', Ok a) => (d', Ok a)
  | (_, Err error) => (d, Err error)
  end.

(** How an action runs. *)
Lemma bind_lift {A B} (r : result PostgresError A) (k : A -> io B) d :
  mbind k (lift r) d = match r with Ok a => k a d | Err error => (d, Err error) end.
Proof. by destruct r. Qed.
Lemma bind_execute {A B} (s : Db -> stmt A) (k : A -> io B) d :
  mbind k (execute s) d =
    match s d with Ok (d', a) => k a d' | Err code => (d, Err (Database (DatabaseError code))) end.
Proof. unfold execute, mbind, io_bind. by destruct (s d) as [[]|]. Qed.
Lemma bind_fetch {A B} (f : Db -> A) (k : A -> io B) d : mbind k (fetch f) d = k (f d) d.
Proof. done. Qed.
Create Rewrite HintDb store.
#[export] Hint Rewrite @bind_lift @bind_execute @bind_fetch : store.

Notation "'require' b 'else' e ; k" := (if b then k else lift (Err e))
  (at level 10, b at level 100, e at level 100, k at level 200) : rust_scope.

(** ** Parameters *)

Definition PG_EPOCH : Z := 946684800 * NANOS_PER_SEC.
Definition timestamptz (t : time) : time := PG_EPOCH + Z.quot (t - PG_EPOCH) 1000 * 1000.

(** A text parameter; PostgreSQL has no NUL in text. *)
Definition character_not_in_repertoire : sqlstate := str "22021".
Definition bind_text (s : rstring) : result PostgresError rstring :=
  if bool_decide (NUL ∈ s) then Err (Database (DatabaseError character_not_in_repertoire)) else Ok s.

Definition version_i32 (version : Z) : result PostgresError Z := ok_or InvalidHandlerVersion (try_i32 version).
Definition occurrence_i32 (occurrence : Z) : result PostgresError Z := number try_i32 occurrence.
Definition duration_i64 (error : PostgresError) (duration : Z) : result PostgresError Z :=
  ok_or error (try_i64 (as_millis duration)).

Definition bind_capabilities (capabilities : list (rstring * Z)) : result PostgresError (list (rstring * Z)) :=
  collect (fun c => let? version := version_i32 c.2 in Ok (c.1, version)) capabilities.

(** [HeaderInjector::set] and [inject_span_context] of [pgtask-otel]: the propagator
    sets its fields as string headers. *)
Definition injector_set (headers : list (rstring * Value)) (field : rstring * rstring) : list (rstring * Value) :=
  map_insert field.1 (VString field.2) headers.
Definition inject_span_context (context : list (rstring * rstring)) (headers : list (rstring * Value))
    : list (rstring * Value) :=
  foldl injector_set headers context.

(** ** Rows the statements return *)

Definition queue_row (name : rstring) (u : QueueRec) : QueueRow := {|
  qr_name := name; qr_terminal_retention_seconds := u_terminal_retention u;
  qr_idempotency_retention_seconds := u_idempotency_retention u;
  qr_max_outstanding_tasks := u_max u; qr_starvation_timeout_seconds := u_starvation u;
  qr_paused_at := u_paused_at u; qr_created_at := u_created_at u; qr_updated_at := u_updated_at u |}.

(** With [COALESCE(failed_attempts, attempt) AS failed_attempts]. *)
Definition task_row (kt : uuid * TaskRec) : TaskRow :=
  let t := kt.2 in {|
  tw_id := kt.1; tw_parent_task_id := k_parent t; tw_queue_name := k_queue_name t;
  tw_task_name := sp_task_name (k_spec t); tw_handler_version := sp_handler_version (k_spec t);
  tw_payload := sp_payload (k_spec t); tw_headers := sp_headers (k_spec t);
  tw_state := state_as_str (k_state t); tw_priority := sp_priority (k_spec t);
  tw_run_at := k_run_at t; tw_attempt := k_attempt t;
  tw_failed_attempts := default (k_attempt t) (k_failed_attempts t);
  tw_max_attempts := k_max_attempts t; tw_retry_kind := y_kind (k_retry t);
  tw_retry_base_delay_milliseconds := y_base_delay (k_retry t);
  tw_retry_factor := y_factor (k_retry t); tw_retry_max_delay_milliseconds := y_max_delay (k_retry t);
  tw_lease_token := l_token <$> k_lease t; tw_lease_owner := l_owner <$> k_lease t;
  tw_lease_expires_at := l_expires_at <$> k_lease t; tw_created_at := sp_created_at (k_spec t);
  tw_updated_at := k_updated_at t; tw_completed_at := k_completed_at t;
  tw_result := k_result t; tw_error := k_error t |}.

Definition checkpoint_row (k : StepKey) (c : CheckpointRec) : CheckpointRow :=
  let '(task_id, handler_version, step_name, occurrence) := k in {|
  kr_task_id := task_id; kr_handler_version := handler_version; kr_step_name := step_name;
  kr_occurrence := occurrence; kr_value := c_value c; kr_created_at := c_created_at c |}.

Definition signal_row (id : uuid) (name : rstring) (occurrence : Z) (s : CheckpointRec) : SignalRow := {|
  gr_task_id := id; gr_signal_name := name; gr_occurrence := occurrence;
  gr_value := c_value s; gr_created_at := c_created_at s |}.

Definition task_result_row (t : TaskRec) : TaskResultRow := {|
  trr_state := state_as_str (k_state t); trr_result := k_result t; trr_error := k_error t;
  trr_completed_at := k_completed_at t |}.

(** [row.map(T::try_from).transpose()]. *)
Definition convert_optional {R T} (try_from : R -> result PostgresError T) (row : option R)
    : result PostgresError (option T) := transpose (option_map try_from row).

(** ** Protocol versions *)

Definition UNDEFINED_SCHEMA : rstring := str "3F000".

(** [answer] is what [SELECT minimum, maximum FROM pgtask.storage_protocol_range()]
    gives: a row of two [i32], or an error. *)
Definition storage_protocol_range (answer : result SqlxError (Z * Z)) : result PostgresError StorageProtocolRange :=
  let? (minimum, maximum) := map_err Database answer in
  match try_u32 minimum, try_u32 maximum with
  | Some minimum_value, Some maximum_value =>
      ok_or (InvalidStorageProtocolRange minimum maximum)
        (StorageProtocolRange_new minimum_value maximum_value)
  | _, _ => Err (InvalidStorageProtocolRange minimum maximum)
  end.

Definition ensure_storage_protocol (answer : result SqlxError (Z * Z)) (client : StorageProtocolRange)
    : result PostgresError (option StorageProtocolRange) :=
  match storage_protocol_range answer with
  | Ok database =>
      if overlaps database client then Ok (Some database)
      else Err (IncompatibleStorageProtocol (TaskTypes.minimum database) (TaskTypes.maximum database)
                  (TaskTypes.minimum client) (TaskTypes.maximum client))
  | Err (Database (DatabaseError code)) =>
      if bool_decide (code = UNDEFINED_SCHEMA) then Ok None
      else Err (Database (DatabaseError code))
  | Err error => Err error
  end.

(** ** Queues *)

Definition put_queue (e : Env) (config : QueueConfig) : io Queue :=
  let i64 message n := lift (ok_or (InvalidTask (Message message)) (try_i64 n)) in
  let? retention_seconds := i64 (str "queue retention exceeds the Postgres bigint range")
    (as_secs (qc_terminal_retention config)) in
  let? idempotency_retention_seconds := i64 (str "idempotency retention exceeds the Postgres bigint range")
    (as_secs (qc_idempotency_retention config)) in
  let? max_outstanding_tasks := lift (transpose (option_map (fun maximum =>
      ok_or (InvalidTask (Message (str "queue capacity exceeds the Postgres bigint range")))
        (try_i64 maximum)) (qc_max_outstanding_tasks config))) in
  let? starvation_timeout_seconds := i64 (str "starvation timeout exceeds the Postgres bigint range")
    (as_secs (qc_starvation_timeout config)) in
  let? row := execute (Protocol.put_queue e (qc_name config) retention_seconds
    idempotency_retention_seconds max_outstanding_tasks starvation_timeout_seconds) in
  lift (Queue_try_from (queue_row (qc_name config) row)).

Definition get_queue (queue_name : rstring) : io (option Queue) :=
  let? row := fetch (fun d => queue_row queue_name <$> queues d !! queue_name) in
  lift (convert_optional Queue_try_from row).

Definition set_queue_paused (e : Env) (queue_name : rstring) (paused : bool) : io (option Queue) :=
  let? row := execute (Protocol.set_queue_paused e queue_name paused) in
  lift (convert_optional Queue_try_from (queue_row queue_name <$> row)).

(** ** Producing tasks *)

Definition validate_request (request : EnqueueRequest) : result PostgresError unit :=
  if er_max_attempts request =? 0 then Err InvalidMaxAttempts else Ok tt.

Definition enqueue_result (row : uuid * bool) : EnqueueResult :=
  {| eres_task_id := row.1; eres_created := row.2 |}.

(** [enqueue]; [enqueue_on] is the same on a caller's connection. *)
Definition enqueue (context : list (rstring * rstring)) (e : Env) (request : EnqueueRequest)
    : io EnqueueResult :=
  let? _ := lift (validate_request request) in
  let? handler_version := lift (version_i32 (er_handler_version request)) in
  let headers := inject_span_context context (er_headers request) in
  let? key := lift (transpose (option_map bind_text (er_idempotency_key request))) in
  let? row := execute (Protocol.enqueue e (er_task_name request) (er_payload request)
    (er_queue_name request) handler_version (option_map timestamptz (er_run_at request))
    (er_priority request) (er_max_attempts request) key (VObject headers)) in
  mret (enqueue_result row).

(** [enqueue_on]: the same statement on a connection of the caller, so that the
    task is committed with the caller's transaction. *)
Definition enqueue_on (context : list (rstring * rstring)) (e : Env) (request : EnqueueRequest)
    : io EnqueueResult :=
  let? _ := lift (validate_request request) in
  let? handler_version := lift (version_i32 (er_handler_version request)) in
  let headers := inject_span_context context (er_headers request) in
  let? key := lift (transpose (option_map bind_text (er_idempotency_key request))) in
  let? row := execute (Protocol.enqueue e (er_task_name request) (er_payload request)
    (er_queue_name request) handler_version (option_map timestamptz (er_run_at request))
    (er_priority request) (er_max_attempts request) key (VObject headers)) in
  mret (enqueue_result row).

Record SpawnRequest := {
  spr_parent : LeaseRenewal;
  spr_step_name : rstring;
  spr_occurrence : Z;
  spr_task : EnqueueRequest;
}.

Definition spawn_task (context : list (rstring * rstring)) (e : Env) (request : SpawnRequest)
    : io (option EnqueueResult) :=
  let task := spr_task request in
  let? _ := lift (validate_request task) in
  let? parent_occurrence := lift (occurrence_i32 (spr_occurrence request)) in
  let? handler_version := lift (version_i32 (er_handler_version task)) in
  let headers := inject_span_context context (er_headers task) in
  let? row := execute (Protocol.spawn_task e (spr_parent request) (spr_step_name request)
    parent_occurrence (er_task_name task) (er_payload task) (er_queue_name task) handler_version
    (option_map timestamptz (er_run_at task)) (er_priority task) (er_max_attempts task)
    (VObject headers)) in
  mret (option_map enqueue_result row).

Definition with_headers (headers : list (rstring * Value)) (request : EnqueueRequest) : EnqueueRequest := {|
  er_task_name := er_task_name request; er_handler_version := er_handler_version request;
  er_payload := er_payload request; er_queue_name := er_queue_name request;
  er_run_at := er_run_at request; er_priority := er_priority request;
  er_max_attempts := er_max_attempts request; er_idempotency_key := er_idempotency_key request;
  er_headers := headers |}.

Definition batch_results (rows : list (Z * uuid * bool)) (requests : list EnqueueRequest)
    : result PostgresError (list EnqueueResult) :=
  if negb (len rows =? len requests)
     || existsb (fun ir : nat * (Z * uuid * bool) =>
          negb (bool_decide (try_u64 ir.2.1.1 = Some (Z.of_nat ir.1)))) (imap pair rows)
  then Err (InvalidTask (Message (str "batch enqueue returned an invalid result set")))
  else Ok (map (fun rr : (Z * uuid * bool) * EnqueueRequest => enqueue_result (rr.1.1.2, rr.1.2))
             (zip rows requests)).

(** [ORDER BY request_index] of rows that come with increasing indexes. *)
Definition enqueue_many (timestamptz_of_text : time -> time) (context : list (rstring * rstring))
    (e : Env) (requests : list EnqueueRequest) : io (list EnqueueResult) :=
  let? _ := lift (collect (fun request =>
      let? _ := validate_request request in version_i32 (er_handler_version request)) requests) in
  let requests_with_context := map (fun request =>
      with_headers (inject_span_context context (er_headers request)) request) requests in
  let? rows := execute (Protocol.enqueue_many timestamptz_of_text e requests_with_context) in
  lift (batch_results rows requests).

Definition enqueue_many_on (timestamptz_of_text : time -> time) (context : list (rstring * rstring))
    (e : Env) (requests : list EnqueueRequest) : io (list EnqueueResult) :=
  let? _ := lift (collect (fun request =>
      let? _ := validate_request request in version_i32 (er_handler_version request)) requests) in
  let requests_with_context := map (fun request =>
      with_headers (inject_span_context context (er_headers request)) request) requests in
  let? rows := execute (Protocol.enqueue_many timestamptz_of_text e requests_with_context) in
  lift (batch_results rows requests).

(** ** Consuming tasks *)

Definition claim (e : Env) (queue_name : rstring) (worker_id : uuid) (capabilities : list (rstring * Z))
    (limit lease_duration : Z) : io (list Task) :=
  require negb (limit =? 0) else InvalidClaimLimit;
  require negb (is_zero lease_duration) else InvalidLeaseDuration;
  require negb (bool_decide (capabilities = [])) else MissingCapabilities;
  let? handlers := lift (bind_capabilities capabilities) in
  let? lease_milliseconds := lift (duration_i64 InvalidLeaseDuration lease_duration) in
  let? rows := execute (Protocol.claim e queue_name worker_id handlers limit lease_milliseconds) in
  lift (collect (fun row => Task_try_from (task_row row)) rows).

Definition get_task (task_id : uuid) : io (option Task) :=
  let? row := fetch (fun d => (fun t => task_row (task_id, t)) <$> tasks d !! task_id) in
  lift (convert_optional Task_try_from row).

Definition task_result (task_id : uuid) : io (option TaskResult) :=
  let? row := fetch (fun d => task_result_row <$> tasks d !! task_id) in
  lift (convert_optional TaskResult_try_from row).

Definition task_count_by_state (queue_name : rstring) (state : TaskState) : io Z :=
  fetch (fun d => len (filter (fun kt : uuid * TaskRec =>
    k_queue_name kt.2 = queue_name /\ k_state kt.2 = state) (map_to_list (tasks d)))).

(** ** Steps *)

Definition get_checkpoint (task_id : uuid) (handler_version : Z) (step_name : rstring) (occurrence : Z)
    : io (option Checkpoint) :=
  let? handler_version := lift (version_i32 handler_version) in
  let? occurrence := lift (occurrence_i32 occurrence) in
  let key := (task_id, handler_version, step_name, occurrence) in
  let? row := fetch (Protocol.get_checkpoint key) in
  lift (convert_optional Checkpoint_try_from (checkpoint_row key <$> row)).

Definition commit_checkpoint (e : Env) (lease : LeaseRenewal) (step_name : rstring) (occurrence : Z)
    (value : Value) : io (option Checkpoint) :=
  let? occurrence := lift (occurrence_i32 occurrence) in
  let? row := execute (Protocol.commit_checkpoint e lease step_name occurrence value) in
  lift (convert_optional Checkpoint_try_from ((fun kc => checkpoint_row kc.1 kc.2) <$> row)).

Section Suspend.
(** The text of a [timestamptz] inside JSON. *)
Context (timestamptz_text : time -> rstring).

Definition suspend_task (e : Env) (lease : LeaseRenewal) (step_name : rstring) (occurrence : Z)
    (wake_at : option time) (delay_milliseconds : option Z) : io (option time) :=
  let? occurrence := lift (occurrence_i32 occurrence) in
  execute (Protocol.suspend_task timestamptz_text e lease step_name occurrence
    (option_map timestamptz wake_at) delay_milliseconds).

Definition sleep_until (e : Env) (lease : LeaseRenewal) (step_name : rstring) (occurrence : Z)
    (wake_at : time) : io (option time) :=
  suspend_task e lease step_name occurrence (Some wake_at) None.

Definition sleep_for (e : Env) (lease : LeaseRenewal) (step_name : rstring) (occurrence duration : Z)
    : io (option time) :=
  let? delay_milliseconds := lift (duration_i64 InvalidSleepDuration duration) in
  suspend_task e lease step_name occurrence None (Some delay_milliseconds).
End Suspend.

Definition emit_signal (e : Env) (task_id : uuid) (signal_name : rstring) (occurrence : Z) (value : Value)
    : io Signal :=
  let? occurrence := lift (occurrence_i32 occurrence) in
  let? row := execute (Protocol.emit_signal e task_id signal_name occurrence value) in
  lift (Signal_try_from (signal_row task_id signal_name occurrence row)).

Record SignalWaitRequest := {
  swr_lease : LeaseRenewal;
  swr_step_name : rstring;
  swr_occurrence : Z;
  swr_signal_name : rstring;
  swr_signal_occurrence : Z;
  swr_timeout : option Z;
}.

Definition wait_for_signal (e : Env) (request : SignalWaitRequest) : io (option Wait) :=
  let? occurrence := lift (occurrence_i32 (swr_occurrence request)) in
  let? signal_occurrence := lift (occurrence_i32 (swr_signal_occurrence request)) in
  let? timeout_milliseconds := lift (transpose (option_map (duration_i64 InvalidSleepDuration)
    (swr_timeout request))) in
  let? row := execute (Protocol.wait_for_signal e (swr_lease request) (swr_step_name request) occurrence
    (swr_signal_name request) signal_occurrence timeout_milliseconds) in
  lift (convert_optional SignalWait_try_from row).

Record ResultWaitRequest := {
  rwr_lease : LeaseRenewal;
  rwr_step_name : rstring;
  rwr_occurrence : Z;
  rwr_result_task_id : uuid;
  rwr_timeout : option Z;
}.

Definition result_timeout (duration : Z) : result PostgresError Z :=
  if is_zero duration then Err InvalidResultWaitTimeout
  else duration_i64 InvalidResultWaitTimeout duration.

Definition wait_for_result (e : Env) (request : ResultWaitRequest) : io (option Wait) :=
  let? occurrence := lift (occurrence_i32 (rwr_occurrence request)) in
  let? timeout_milliseconds := lift (transpose (option_map result_timeout (rwr_timeout request))) in
  let? row := execute (Protocol.wait_for_result e (rwr_lease request) (rwr_step_name request) occurrence
    (rwr_result_task_id request) timeout_milliseconds) in
  lift (convert_optional ResultWait_try_from row).

(** ** Leases and outcomes *)

Definition renew_leases (e : Env) (leases : list LeaseRenewal) (lease_duration : Z) : io (list uuid) :=
  require negb (is_zero lease_duration) else InvalidLeaseDuration;
  if bool_decide (leases = []) then mret []
  else
    let? lease_milliseconds := lift (duration_i64 InvalidLeaseDuration lease_duration) in
    execute (Protocol.renew_leases e leases lease_milliseconds).

Definition renew_lease (e : Env) (lease : LeaseRenewal) (lease_duration : Z) : io bool :=
  let? renewed := renew_leases e [lease] lease_duration in
  mret (bool_decide (lr_task_id lease ∈ renewed)).

Definition release_leases (e : Env) (leases : list LeaseRenewal) : io (list uuid) :=
  if bool_decide (leases = []) then mret [] else execute (Protocol.release_tasks e leases).

Definition complete (e : Env) (lease : LeaseRenewal) (result : option Value) : io bool :=
  execute (Protocol.complete_task e lease result).

(** The states come back as text. *)
Definition parse_optional_state (state : option TaskState) : result PostgresError (option TaskState) :=
  transpose (option_map (fun state => parse_state (state_as_str state)) state).

Definition fail (e : Env) (lease : LeaseRenewal) (error : Value) (retry_after : option Z)
    : io (option TaskState) :=
  let? retry_milliseconds := lift (transpose (option_map (duration_i64 InvalidLeaseDuration) retry_after)) in
  let? state := execute (Protocol.fail_task e lease error retry_milliseconds) in
  lift (parse_optional_state state).

Record TaskCompletion := { tc_lease : LeaseRenewal; tc_result : option Value }.
Record TaskFailure := { tf_lease : LeaseRenewal; tf_error : Value; tf_retry_after : option Z }.

(** [collect::<HashSet<_>>().len() != l.len()]. *)
Definition has_duplicates (ids : list uuid) : bool := negb (bool_decide (NoDup ids)).

Definition complete_many (e : Env) (completions : list TaskCompletion) : io (list bool) :=
  if bool_decide (completions = []) then mret []
  else
    require negb (has_duplicates (map (fun c => lr_task_id (tc_lease c)) completions))
      else InvalidTask (Message (str "batch completions must contain unique task ids"));
    execute (Protocol.complete_tasks e
      (map (fun c => {| co_lease := tc_lease c; co_result := tc_result c |}) completions)).

Definition fail_many (e : Env) (failures : list TaskFailure) : io (list (option TaskState)) :=
  if bool_decide (failures = []) then mret []
  else
    require negb (has_duplicates (map (fun f => lr_task_id (tf_lease f)) failures))
      else InvalidTask (Message (str "batch failures must contain unique task ids"));
    let? payload := lift (collect (fun f =>
        let? retry_milliseconds := transpose (option_map (duration_i64 InvalidLeaseDuration)
          (tf_retry_after f)) in
        Ok {| fa_lease := tf_lease f; fa_error := tf_error f; fa_retry_ms := retry_milliseconds |})
      failures) in
    let? states := execute (Protocol.fail_tasks e payload) in
    lift (collect parse_optional_state states).

Definition cancel (e : Env) (task_id : uuid) : io bool :=
  let? cancelled := execute (Protocol.cancel_task e task_id) in
  mret (bool_decide (is_Some cancelled)).

(** ** Recovery and retention *)

(** A statement that returns a [bigint] count, with a nonzero [limit]. *)
Definition count_with_limit (error : PostgresError) (s : Z -> Db -> stmt Z) (limit : Z) : io Z :=
  require negb (limit =? 0) else error;
  let? count := execute (s limit) in
  lift (number try_u64 count).

Definition recover_expired (e : Env) (queue_name : rstring) : Z -> io Z :=
  count_with_limit InvalidClaimLimit (Protocol.recover_expired e queue_name).
Definition recover_wait_timeouts (e : Env) : Z -> io Z :=
  count_with_limit InvalidWaitLimit (Protocol.recover_wait_timeouts e).
Definition recover_result_wait_timeouts (e : Env) : Z -> io Z :=
  count_with_limit InvalidWaitLimit (Protocol.recover_result_wait_timeouts e).
Definition delete_expired_terminal (e : Env) (queue_name : rstring) : Z -> io Z :=
  count_with_limit InvalidRetentionLimit (Protocol.delete_expired_terminal e queue_name).
Definition delete_expired_idempotency_keys (e : Env) (queue_name : rstring) : Z -> io Z :=
  count_with_limit InvalidRetentionLimit (Protocol.delete_expired_idempotency_keys e queue_name).

(** ** Workers and demand *)

Definition policy_row (columns : RetryPolicyColumns) : RetryColumns := {|
  y_kind := Some (rc_kind columns); y_base_delay := rc_base_delay columns;
  y_factor := rc_factor columns; y_max_delay := rc_max_delay columns |}.

(** A positive [ttl] in milliseconds. *)
Definition ttl_milliseconds (error : PostgresError) (ttl : Z) : result PostgresError Z :=
  let? ms := duration_i64 error ttl in
  if ms =? 0 then Err error else Ok ms.

Definition register_worker (e : Env) (worker_id : uuid) (queue_name version : rstring)
    (capabilities : list (rstring * Z * RetryPolicy)) (ttl : Z) : io unit :=
  require negb (bool_decide (capabilities = [])) else MissingCapabilities;
  let? ms := lift (ttl_milliseconds InvalidLeaseDuration ttl) in
  let? handler_versions := lift (collect (fun c => version_i32 c.1.2) capabilities) in
  let? policies := lift (collect (fun c => retry_policy_columns c.2) capabilities) in
  let? version := lift (bind_text version) in
  execute (Fleet.register_worker e worker_id queue_name version
    (zip (zip (map (fun c => c.1.1) capabilities) handler_versions) (map policy_row policies)) ms).

Definition heartbeat_worker (e : Env) (worker_id : uuid) (ttl : Z) (draining : bool) : io bool :=
  let? ms := lift (ttl_milliseconds InvalidLeaseDuration ttl) in
  execute (Fleet.heartbeat_worker e worker_id ms draining).

Record QueueDemandSample := {
  qs_sampled : bool;
  qs_live_workers : Z;
  qs_routable_tasks : Z;
  qs_unroutable_tasks : Z;
}.

Definition sample_queue_demand (e : Env) (advisory_lock row_lock : bool) (queue_name : rstring)
    (sample_interval : Z) : io QueueDemandSample :=
  let? ms := lift (ttl_milliseconds InvalidSampleInterval sample_interval) in
  let? (sampled, live_workers, routable_tasks, unroutable_tasks) :=
    execute (Fleet.sample_queue_demand e advisory_lock row_lock queue_name ms) in
  let? live_workers := lift (number try_u64 live_workers) in
  let? routable_tasks := lift (number try_u64 routable_tasks) in
  let? unroutable_tasks := lift (number try_u64 unroutable_tasks) in
  mret {| qs_sampled := sampled; qs_live_workers := live_workers; qs_routable_tasks := routable_tasks;
          qs_unroutable_tasks := unroutable_tasks |}.

Definition live_worker_count (e : Env) (queue_name : rstring) : io Z :=
  let? count := fetch (Fleet.live_worker_count e queue_name) in
  lift (number try_u64 count).

(** [ORDER BY task_name, handler_version]; the byte order of names. *)
Definition capability_le (a b : list Z * Z) : Prop :=
  str_compare a.1 b.1 = Lt \/ (a.1 = b.1 /\ a.2 <= b.2).
Global Instance capability_le_dec : RelDecision capability_le.
Proof. intros a b. unfold capability_le. solve_decision. Defined.

Definition capabilities_of (worker_id : uuid) (d : Db) : list (list Z * Z) :=
  merge_sort capability_le
    (map (fun c => (c.1.2, c.2))
      (filter (fun c : Z * list Z * Z => c.1.1 = worker_id) (elements (worker_capabilities d)))).

Definition get_worker (worker_id : uuid) : io (option WorkerRecord) :=
  let? row := fetch (fun d => workers d !! worker_id) in
  match row with
  | None => mret None
  | Some row =>
      let? capabilities := fetch (fun d =>
        map (fun c => {| cr_task_name := c.1; cr_handler_version := c.2 |}) (capabilities_of worker_id d)) in
      let? record := lift (try_into_record row capabilities) in
      mret (Some record)
  end.

Record QueueDemand := {
  qd_ready_tasks : Z;
  qd_capable_tasks : Z;
  qd_unroutable_tasks : Z;
}.

Definition queue_demand (e : Env) (queue_name : rstring) (capabilities : list (rstring * Z)) : io QueueDemand :=
  require negb (bool_decide (capabilities = [])) else MissingCapabilities;
  let? handlers := lift (bind_capabilities capabilities) in
  let? (ready, capable, unroutable) :=
    execute (fun d => let? counts := Fleet.queue_demand e queue_name handlers d in Ok (d, counts)) in
  let? ready := lift (number try_u64 ready) in
  let? capable := lift (number try_u64 capable) in
  let? unroutable := lift (number try_u64 unroutable) in
  mret {| qd_ready_tasks := ready; qd_capable_tasks := capable; qd_unroutable_tasks := unroutable |}.

Definition delete_expired_workers (e : Env) (grace limit : Z) : io Z :=
  require negb (limit =? 0) else InvalidRetentionLimit;
  let? grace_ms := lift (number try_i64 (as_millis grace)) in
  let? deleted := execute (Fleet.delete_expired_workers e grace_ms limit) in
  lift (number try_u64 deleted).

(** ** Delays *)

Definition delay (milliseconds : option Z) : result PostgresError (option Z) :=
  transpose (option_map (fun n => let? n := number try_u64 n in Ok (from_millis n)) milliseconds).

Definition next_schedule_delay (e : Env) : io (option Z) :=
  let? milliseconds := fetch (next_schedule_delay_milliseconds e) in
  lift (delay milliseconds).
Definition next_wait_delay (e : Env) : io (option Z) :=
  let? milliseconds := fetch (next_wait_delay_milliseconds e) in
  lift (delay milliseconds).
Definition next_task_delay (e : Env) (queue_name : rstring) (capabilities : list (rstring * Z))
    : io (option Z) :=
  require negb (bool_decide (capabilities = [])) else MissingCapabilities;
  let? handlers := lift (bind_capabilities capabilities) in
  let? milliseconds := fetch (next_task_delay_milliseconds e queue_name handlers) in
  lift (delay milliseconds).

(** ** Schedules *)

Definition SCHEDULE_FAILURE_RETRY_DELAY : Z := from_mins 1.

Definition is_deterministic_schedule_failure (error : PostgresError) : bool :=
  match error with
  | ScheduleFailure _ | InvalidTask _ => true
  | _ => false
  end || is_rejected_value error.

(** The environments of the statements of one [materialize_due_schedules]. *)
Record Round := {
  r_now : Env;
  r_claim : Env;
  r_materialize : nat -> Env;
  r_defer : nat -> Env;
}.

Section Schedules.
Context {C : ChronoOps} {K : CronOps}.

Definition definition_columns (definition : ScheduleDefinition)
    : result PostgresError (rstring * option Z * option rstring) :=
  match definition with
  | Interval every =>
      let? _ := map_err ScheduleFailure (interval every) in
      let? milliseconds := ok_or (ScheduleFailure IntervalOutOfRange) (try_i64 (as_millis every)) in
      Ok (str "interval", Some milliseconds, None)
  | Cron expression => Ok (str "cron", None, Some expression)
  end.

Definition misfire_columns (policy : MisfirePolicy) : rstring * option Z :=
  match policy with
  | Skip => (str "skip", None)
  | Latest => (str "latest", None)
  | CatchUp limit => (str "catch_up", Some limit)
  end.

(** [now] is the answer of the first statement. *)
Definition put_schedule (now : time) (e : Env) (config : ScheduleConfig) : io Schedule :=
  let task := sc_task config in
  let? _ := lift (validate_request task) in
  let first_due := match sc_start_at config with
                   | Some start_at => Z.max start_at now
                   | None => now
                   end in
  let? next_occurrence := lift (map_err ScheduleFailure (next_after (sc_definition config) first_due)) in
  let next_run_at := default next_occurrence (sc_start_at config) in
  let? (kind, interval_milliseconds, cron_expression) := lift (definition_columns (sc_definition config)) in
  let (misfire_policy, catch_up_limit) := misfire_columns (sc_misfire_policy config) in
  let? handler_version := lift (version_i32 (er_handler_version task)) in
  let? cron_expression := lift (transpose (option_map bind_text cron_expression)) in
  let? row := execute (Protocol.put_schedule e {|
    sr_id := sc_id config; sr_name := sc_name config; sr_kind := kind;
    sr_interval_milliseconds := interval_milliseconds; sr_cron_expression := cron_expression;
    sr_misfire_policy := misfire_policy; sr_catch_up_limit := catch_up_limit;
    sr_queue_name := er_queue_name task; sr_task_name := er_task_name task;
    sr_handler_version := handler_version; sr_payload := er_payload task;
    sr_headers := VObject (er_headers task); sr_priority := er_priority task;
    sr_max_attempts := er_max_attempts task; sr_next_run_at := timestamptz next_run_at;
    sr_paused_at := None; sr_created_at := e_now e; sr_updated_at := e_now e |}) in
  lift (Schedule_try_from row).

Definition get_schedule (schedule_id : uuid) : io (option Schedule) :=
  let? row := fetch (fun d => schedules d !! schedule_id) in
  lift (convert_optional Schedule_try_from row).

Definition set_schedule_paused (e : Env) (schedule_id : uuid) (paused : bool) : io (option Schedule) :=
  let? row := execute (Protocol.set_schedule_paused e schedule_id paused) in
  lift (convert_optional Schedule_try_from row).

Definition delete_schedule (schedule_id : uuid) : io bool :=
  execute (Protocol.delete_schedule schedule_id).

Definition materialize_claimed_schedule (e : Env) (row : ScheduleRow) (now : time) : io Z :=
  let? schedule := lift (Schedule_try_from row) in
  let config := s_config schedule in
  let? m := lift (map_err ScheduleFailure
    (materialize (sc_definition config) (s_next_run_at schedule) now (sc_misfire_policy config))) in
  let? materialized := execute (Protocol.materialize_schedule e (sc_id config)
    (timestamptz (s_next_run_at schedule)) (map timestamptz (m_occurrences m))
    (timestamptz (m_next_run_at m))) in
  lift (number try_u64 materialized).

Definition defer_schedule (e : Env) (schedule_id : uuid) (expected_next_run_at retry_at : time) : io unit :=
  let? _ := execute (Protocol.materialize_schedule e schedule_id (timestamptz expected_next_run_at) []
    (timestamptz retry_at)) in
  mret tt.

(** One schedule of the loop, in its savepoint: the tasks it created. *)
Definition materialize_row (x : Round) (n : nat) (row : ScheduleRow) : io Z := fun d =>
  let now := e_now (r_now x) in
  match materialize_claimed_schedule (r_materialize x n) row now d with
  | (d', Ok materialized) => (d', Ok materialized)
  | (_, Err error) =>
      if is_deterministic_schedule_failure error then
        (let? retry_delay := lift (ok_or invalid_number (delta_from_std SCHEDULE_FAILURE_RETRY_DELAY)) in
         let? retry_at := lift (ok_or (ScheduleFailure DateOutOfRange)
           (checked_add_signed now retry_delay)) in
         let? _ := defer_schedule (r_defer x n) (sr_id row) (sr_next_run_at row) retry_at in
         mret 0) d
      else (d, Err error)
  end.

Fixpoint materialize_rows (x : Round) (n : nat) (rows : list ScheduleRow) (total : Z) : io Z :=
  match rows with
  | [] => mret total
  | row :: rows' =>
      let? materialized := materialize_row x n row in
      let? total := lift (ok_or (InvalidTask (Message (str "materialized task count overflowed")))
        (try_u64 (total + materialized))) in
      materialize_rows x (S n) rows' total
  end.

Definition materialize_due_schedules (x : Round) (limit : Z) : io Z :=
  require negb (limit =? 0) else InvalidScheduleLimit;
  transaction (
    let? rows := fetch (claim_due_schedules (r_claim x) limit) in
    materialize_rows x 0 rows 0).
End Schedules.
