(* ===== verification/Grants.v ===== *)
(** Who may do what: [pgtask.configure_grants] of the migrations 0001, 0004, 0010, 0014
    and 0015, and [Store::configure_grants] of [pgtask-postgres/src/store.rs].

    A privilege is what a GRANT names, and an access list has the privileges of every
    role in the order they were granted; grants only add to it.  The functions of the
    schema have no overloads, so a name is enough for one.

    A producer cannot touch the work of others, an observer can change nothing, a
    worker may call all it needs, and upgrading an installation gives the same
    privileges as installing it anew. *)

From stdpp Require Import relations.

From S2P Require Import Prelude Text Identifier Json TaskTypes Outcome Rows Tables Protocol Fleet Lifecycle Dispatch Store.

(** ** Privileges *)

Inductive Privilege : Type :=
| Usage
| Execute (function : rstring)
| Select (view : rstring)
| AllPrivileges (relation : rstring).
Global Instance privilege_eq_dec : EqDecision Privilege.
Proof. solve_decision. Defined.

Abbreviation regrole := (list Z) (only parsing).
Definition Acl : Type := list (regrole * Privilege).

Inductive Capability : Type := Owner | Producer | WorkerRole | Observer | Administrator.
Global Instance capability_eq_dec : EqDecision Capability.
Proof. solve_decision. Defined.

(** What the first migration creates. *)
Definition tables_0001 : list rstring := map str
  ["queues"; "tasks"; "attempts"; "workers"; "worker_capabilities"; "handler_policies"; "checkpoints"; "schedules";
   "signals"; "waits"; "result_waits"; "idempotency_keys"; "administrator_audit"]%string.
Definition readable : list rstring := map str
  ["queue_overview"; "task_view"; "attempt_view"; "worker_view"; "worker_capability_view"; "checkpoint_view";
   "schedule_view"; "schedule_occurrence_view"; "signal_view"; "wait_view"; "result_wait_view";
   "administrator_audit_view"; "handler_policy_view"]%string.
Definition functions_0001 : list rstring := map str
  ["put_queue"; "set_queue_paused"; "enqueue"; "enqueue_many"; "task_result"; "claim"; "renew_leases"; "complete_task";
   "fail_task"; "recover_expired"; "suspend_task"; "spawn_task"; "register_worker"; "heartbeat_worker";
   "live_worker_count"; "queue_demand"; "commit_checkpoint"; "get_checkpoint"; "get_task"; "put_schedule";
   "get_schedule"; "set_schedule_paused"; "delete_schedule"; "claim_due_schedules"; "materialize_schedule";
   "next_schedule_delay_milliseconds"; "emit_signal"; "wait_for_signal"; "recover_wait_timeouts";
   "next_wait_delay_milliseconds"; "wait_for_result"; "resolve_task_result"; "recover_result_wait_timeouts";
   "delete_expired_terminal"; "delete_expired_idempotency_keys"; "manage_idempotency_key";
   "preserve_deleted_idempotency_key"; "cancel_task"; "admin_cancel_task"; "admin_retry_task";
   "admin_set_schedule_paused"; "ready_channel"; "result_channel"; "notify_ready_shard"; "notify_result_shard";
   "notify_resumed_queue_shard"; "storage_protocol_version"; "storage_protocol_range"; "next_task_delay_milliseconds";
   "ensure_queue_for_task"; "snapshot_task_retry_policy"; "enforce_queue_capacity"; "cancel_owned_children";
   "configure_grants"]%string.

(** ** [configure_grants] *)

Definition execute_on (c : Capability) (names : list string) : list (Capability * Privilege) :=
  map (fun name => (c, Execute (str name))) names.

(** Its GRANTs to single roles, as the first migration has them. *)
Definition grants_0001 : list (Capability * Privilege) :=
  execute_on Producer ["enqueue"; "enqueue_many"; "emit_signal"; "task_result"; "result_channel"]%string ++
  execute_on WorkerRole
    ["claim"; "renew_leases"; "complete_task"; "fail_task"; "recover_expired"; "register_worker"; "heartbeat_worker";
     "commit_checkpoint"; "get_task"; "get_checkpoint"; "claim_due_schedules"; "materialize_schedule";
     "next_schedule_delay_milliseconds"; "next_task_delay_milliseconds"; "suspend_task"; "wait_for_signal";
     "recover_wait_timeouts"; "next_wait_delay_milliseconds"; "wait_for_result"; "recover_result_wait_timeouts";
     "spawn_task"; "put_schedule"; "delete_expired_terminal"; "delete_expired_idempotency_keys"; "queue_demand";
     "live_worker_count"]%string ++
  execute_on Observer ["live_worker_count"]%string ++
  execute_on Administrator ["live_worker_count"]%string ++
  execute_on WorkerRole ["storage_protocol_version"; "ready_channel"]%string ++
  map (fun view => (Observer, Select view)) readable ++
  map (fun view => (Administrator, Select view)) readable ++
  execute_on Administrator
    ["put_queue"; "set_queue_paused"; "cancel_task"; "delete_expired_terminal"; "delete_expired_idempotency_keys";
     "get_task"; "get_checkpoint"; "task_result"; "result_channel"; "put_schedule"; "get_schedule";
     "set_schedule_paused"; "delete_schedule"; "admin_cancel_task"; "admin_retry_task";
     "admin_set_schedule_paused"]%string.

(** A later migration rewrites it: after the GRANT of [old] to [c] comes one of [new]. *)
Definition teach (c : Capability) (old new : string) (grants : list (Capability * Privilege))
    : list (Capability * Privilege) :=
  flat_map (fun g => if bool_decide (g = (c, Execute (str old))) then [g; (c, Execute (str new))] else [g]) grants.
Definition grants_0015 : list (Capability * Privilege) :=
  teach WorkerRole "renew_leases" "release_tasks"
    (teach Administrator "delete_expired_terminal" "delete_expired_workers"
      (teach WorkerRole "delete_expired_terminal" "delete_expired_workers"
        (teach WorkerRole "fail_task" "fail_tasks"
          (teach WorkerRole "complete_task" "complete_tasks"
            (teach WorkerRole "heartbeat_worker" "sample_queue_demand" grants_0001))))).
Definition functions_0015 : list rstring :=
  functions_0001 ++ map str
    ["sample_queue_demand"; "complete_tasks"; "fail_tasks"; "delete_expired_workers"; "release_tasks"]%string.

(** The statements in order: the loop over all roles, the owner's, and the others. *)
Definition all_grants (functions : list rstring) (grants : list (Capability * Privilege)) : list (Capability * Privilege) :=
  flat_map (fun c => [(c, Usage); (c, Execute (str "storage_protocol_range"))])
    [Owner; Producer; WorkerRole; Observer; Administrator] ++
  map (fun relation => (Owner, AllPrivileges relation)) (tables_0001 ++ readable) ++
  map (fun function => (Owner, Execute function)) functions ++
  grants.

Definition configure_grants (functions : list rstring) (grants : list (Capability * Privilege))
    (role : Capability -> regrole) (acl : Acl) : Acl :=
  acl ++ map (fun g => (role g.1, g.2)) (all_grants functions grants).

(** The other half of such a migration: GRANT of [new] to everyone who has [old]. *)
Definition grant_like (old new : string) (acl : Acl) : Acl :=
  acl ++ map (fun rp => (rp.1, Execute (str new))) (filter (fun rp => rp.2 = Execute (str old)) acl).
Definition upgrade_acl (acl : Acl) : Acl :=
  grant_like "renew_leases" "release_tasks"
    (grant_like "delete_expired_terminal" "delete_expired_workers"
      (grant_like "fail_task" "fail_tasks"
        (grant_like "complete_task" "complete_tasks"
          (grant_like "heartbeat_worker" "sample_queue_demand" acl)))).

(** [Store::configure_grants]; [regrole] is the cast of a name. *)
Definition undefined_object : sqlstate := str "42704".
Definition Store_configure_grants (regrole_of : rstring -> option regrole)
    (owner producer worker observer administrator : rstring) (acl : Acl) : Acl * result PostgresError unit :=
  match regrole_of owner, regrole_of producer, regrole_of worker, regrole_of observer, regrole_of administrator with
  | Some owner, Some producer, Some worker, Some observer, Some administrator =>
      (configure_grants functions_0015 grants_0015 (fun c =>
         match c with
         | Owner => owner | Producer => producer | WorkerRole => worker | Observer => observer
         | Administrator => administrator
         end) acl, Ok tt)
  | _, _, _, _, _ => (acl, Err (Database (DatabaseError undefined_object)))
  end.

(** ** Upgrading *)

(** [grant_like] before the names of the roles are known. *)
Definition like (old new : string) (grants : list (Capability * Privilege)) : list (Capability * Privilege) :=
  grants ++ map (fun g => (g.1, Execute (str new))) (filter (fun g => g.2 = Execute (str old)) grants).

Definition named (role : Capability -> regrole) (grants : list (Capability * Privilege)) : Acl :=
  map (fun g => (role g.1, g.2)) grants.

Lemma grant_like_named role old new grants : grant_like old new (named role grants) = named role (like old new grants).
Proof.
  unfold grant_like, like, named. rewrite (List.map_app _ grants). f_equal.
  induction grants as [|[c p] grants IH]; [done|]. cbn [map].
  destruct (decide (p = Execute (str old))).
  - rewrite (filter_cons_True _ (role c, p)), (filter_cons_True _ (c, p)) by done. cbn [map fst snd]. f_equal. exact IH.
  - rewrite (filter_cons_False _ (role c, p)), (filter_cons_False _ (c, p)) by done. exact IH.
Qed.

(** The two ways give the same capabilities. *)
Lemma upgraded_grants g :
  g ∈ like "renew_leases" "release_tasks"
        (like "delete_expired_terminal" "delete_expired_workers"
          (like "fail_task" "fail_tasks"
            (like "complete_task" "complete_tasks"
              (like "heartbeat_worker" "sample_queue_demand" (all_grants functions_0001 grants_0001))))) <->
  g ∈ all_grants functions_0015 grants_0015.
Proof.
  set (l := like _ _ _). set (m := all_grants _ grants_0015).
  assert (forallb (fun g => bool_decide (g ∈ m)) l = true) as H1 by (vm_compute; reflexivity).
  assert (forallb (fun g => bool_decide (g ∈ l)) m = true) as H2 by (vm_compute; reflexivity).
  rewrite forallb_forall in H1, H2. split; intros Hg%list_elem_of_In.
  - specialize (H1 g Hg). by apply bool_decide_eq_true in H1.
  - specialize (H2 g Hg). by apply bool_decide_eq_true in H2.
Qed.

(** Whoever the roles are, an installation that was granted by the first migration and
    upgraded by the later ones has the privileges of one that is granted now. *)
Theorem upgrade_grants_as_installation role r p :
  (r, p) ∈ upgrade_acl (configure_grants functions_0001 grants_0001 role []) <->
  (r, p) ∈ configure_grants functions_0015 grants_0015 role [].
Proof.
  unfold upgrade_acl, configure_grants. rewrite !app_nil_l. fold (named role (all_grants functions_0001 grants_0001)).
  rewrite !grant_like_named. unfold named. rewrite !list_elem_of_fmap.
  split; intros (g & Hrp & Hg); exists g; (split; [done|]); by apply upgraded_grants.
Qed.

(** ** What a role can do *)

Definition allowed (acl : Acl) (r : regrole) (p : Privilege) : bool := bool_decide ((r, p) ∈ acl).

(** The statements of the protocol that change tables. *)
Inductive statement : Type :=
| Call (c : call)
| EnqueueMany (timestamptz_of_text : time -> time) (requests : list EnqueueRequest)
| DeleteExpiredTerminal (queue : rstring) (limit : Z).

(** The functions that are such a statement. *)
Definition fleet_function (c : fleet_call) : string :=
  match c with
  | FRegister _ _ _ _ _ => "register_worker"
  | FHeartbeat _ _ _ => "heartbeat_worker"
  | FSample _ _ _ _ => "sample_queue_demand"
  | FDeleteWorkers _ _ => "delete_expired_workers"
  end.
Definition call_functions (c : call) : list string :=
  match c with
  | CPutQueue _ _ _ _ _ => ["put_queue"]
  | CSetQueuePaused _ _ => ["set_queue_paused"]
  | CEnqueue _ _ _ _ _ _ _ _ _ => ["enqueue"]
  | CClaim _ _ _ _ _ => ["claim"]
  | CRenew _ _ => ["renew_leases"]
  | CRelease _ => ["release_tasks"]
  | CComplete _ => ["complete_task"; "complete_tasks"]
  | CFail _ => ["fail_task"; "fail_tasks"]
  | CRecover _ _ => ["recover_expired"]
  | CCancel _ => ["cancel_task"]
  | CAdminCancel _ _ => ["admin_cancel_task"]
  | CAdminRetry _ _ => ["admin_retry_task"]
  | CCheckpoint _ _ _ _ => ["commit_checkpoint"]
  | CSuspend _ _ _ _ _ _ => ["suspend_task"]
  | CWaitSignal _ _ _ _ _ _ => ["wait_for_signal"]
  | CEmit _ _ _ _ => ["emit_signal"]
  | CRecoverWaits _ => ["recover_wait_timeouts"]
  | CWaitResult _ _ _ _ _ => ["wait_for_result"]
  | CRecoverResultWaits _ => ["recover_result_wait_timeouts"]
  | CSpawn _ _ _ _ _ _ _ _ _ _ _ => ["spawn_task"]
  | CDeleteKeys _ _ => ["delete_expired_idempotency_keys"]
  | CPutSchedule _ => ["put_schedule"]
  | CPauseSchedule _ _ => ["set_schedule_paused"]
  | CDeleteSchedule _ => ["delete_schedule"]
  | CMaterialize _ _ _ _ => ["materialize_schedule"]
  | CAdminPauseSchedule _ _ _ => ["admin_set_schedule_paused"]
  | CFleet c => [fleet_function c]
  end%string.
Definition statement_functions (s : statement) : list string :=
  match s with
  | Call c => call_functions c
  | EnqueueMany _ _ => ["enqueue_many"]
  | DeleteExpiredTerminal _ _ => ["delete_expired_terminal"]
  end%string.

Definition permitted (acl : Acl) (r : regrole) (s : statement) : bool :=
  allowed acl r Usage && existsb (fun f => allowed acl r (Execute (str f))) (statement_functions s).

Definition perform (s : statement) (e : Env) (d : Db) : result sqlstate Db :=
  match s with
  | Call c => exec c e d
  | EnqueueMany tz requests => fst <$> Protocol.enqueue_many tz e requests d
  | DeleteExpiredTerminal queue limit => fst <$> Protocol.delete_expired_terminal e queue limit d
  end.

Definition role_step (acl : Acl) (r : regrole) (d d' : Db) : Prop :=
  exists s e, permitted acl r s = true /\ perform s e d = Ok d'.

Section Roles.
Context (role : Capability -> regrole) `{!Inj (=) (=) role}.

(** The privileges of an installation in which the five roles are different. *)
Definition installed : Acl := configure_grants functions_0015 grants_0015 role [].

Lemma allowed_installed c p : allowed installed (role c) p = bool_decide ((c, p) ∈ all_grants functions_0015 grants_0015).
Proof using Type*.
  unfold allowed, installed, configure_grants. rewrite app_nil_l. apply bool_decide_ext.
  rewrite list_elem_of_fmap. split.
  - intros ([c' p'] & [= Hc ->] & Hg). apply (inj role) in Hc. by subst.
  - intros Hg. by exists (c, p).
Qed.

(** Which statements a capability has. *)
Definition capable_of (c : Capability) (s : statement) : bool :=
  existsb (fun f => bool_decide ((c, Execute (str f)) ∈ all_grants functions_0015 grants_0015)) (statement_functions s).

Lemma permitted_installed c s : permitted installed (role c) s = capable_of c s.
Proof using Type*.
  unfold permitted, capable_of. rewrite allowed_installed.
  assert (bool_decide ((c, Usage) ∈ all_grants functions_0015 grants_0015) = true) as ->
    by (destruct c; vm_compute; reflexivity).
  cbn [andb]. induction (statement_functions s) as [|f l IH]; [done|]. cbn [existsb]. by rewrite allowed_installed, IH.
Qed.

(** An observer can perform no statement that changes a table. *)
Theorem observer_changes_nothing d d' : ~ role_step installed (role Observer) d d'.
Proof using Type*.
  intros (s & e & Hp & _). rewrite permitted_installed in Hp.
  destruct s as [c| |]; [destruct c as [| | | | | | | | | | | | | | | | | | | | | | | | | |[]]| |]; vm_compute in Hp; discriminate Hp.
Qed.

(** Nobody but the owner reads a table; so a query of [Store] that names one, as those of
    [get_queue] and [get_worker] do, is the owner's alone. *)
Theorem tables_are_the_owners c table :
  c <> Owner -> table ∈ tables_0001 ->
  allowed installed (role c) (Select table) = false /\ allowed installed (role c) (AllPrivileges table) = false.
Proof using Type*.
  intros Hc Ht. rewrite !allowed_installed. unfold tables_0001 in Ht. apply list_elem_of_fmap in Ht as (name & -> & Hn).
  repeat (apply elem_of_cons in Hn as [->|Hn]; [destruct c; [done|..]; vm_compute; done|]). by apply not_elem_of_nil in Hn.
Qed.

(** ** The producer *)

(** What a producer can change of a task: it can wake it. *)
Record untouched (t t' : TaskRec) : Prop := {
  un_spec : k_spec t' = k_spec t;
  un_parent : k_parent t' = k_parent t;
  un_attempt : k_attempt t' = k_attempt t;
  un_failed : k_failed_attempts t' = k_failed_attempts t;
  un_max : k_max_attempts t' = k_max_attempts t;
  un_retry : k_retry t' = k_retry t;
  un_lease : k_lease t' = k_lease t;
  un_cancel : k_cancel_requested_at t' = k_cancel_requested_at t;
  un_completed : k_completed_at t' = k_completed_at t;
  un_result : k_result t' = k_result t;
  un_error : k_error t' = k_error t;
  un_state : k_state t' = k_state t \/ (k_state t = Waiting /\ k_state t' = Pending);
}.

(** Tasks are untouched, and new ones are as [enqueue] makes them. *)
Definition only_adds (d d' : Db) : Prop :=
  forall id, match tasks d !! id with
             | Some t => exists t', tasks d' !! id = Some t' /\ untouched t t'
             | None => forall t', tasks d' !! id = Some t' ->
                         k_state t' = Pending /\ k_lease t' = None /\ k_attempt t' = 0 /\ k_parent t' = None
             end.

Lemma untouched_refl t : untouched t t.
Proof. split; by try left. Qed.
Lemma untouched_trans t1 t2 t3 : untouched t1 t2 -> untouched t2 t3 -> untouched t1 t3.
Proof.
  intros [] []. split; try congruence.
  destruct un_state0 as [E|[E1 E2]], un_state1 as [E3|[E3 E4]]; rewrite ?E in *; try (by left); right; split; congruence.
Qed.

Lemma only_adds_tasks d d' : tasks d' = tasks d -> only_adds d d'.
Proof. intros E id. rewrite E. destruct (tasks d !! id); [|done]. eauto using untouched_refl. Qed.

Lemma only_adds_trans d1 d2 d3 : only_adds d1 d2 -> only_adds d2 d3 -> only_adds d1 d3.
Proof.
  intros H12 H23 id. specialize (H12 id). specialize (H23 id). destruct (tasks d1 !! id) as [t1|].
  - destruct H12 as (t2 & Ht2 & H12). rewrite Ht2 in H23. destruct H23 as (t3 & Ht3 & H23). eauto using untouched_trans.
  - intros t3 Ht3. destruct (tasks d2 !! id) as [t2|]; [|by apply H23].
    destruct (H12 t2 eq_refl) as (Hs & Hl & Ha & Hp). destruct H23 as (t3' & Ht3' & []). simplify_eq.
    split_and!; try congruence. destruct un_state0 as [|[]]; congruence.
Qed.

Lemma foldM_only_adds {A} (f : Db -> A -> result sqlstate Db) l : forall d d',
  (forall d a d', f d a = Ok d' -> only_adds d d') -> foldM f d l = Ok d' -> only_adds d d'.
Proof.
  induction l as [|a l IH]; intros d d' Hf H; cbn in H; ok_inv; [by apply only_adds_tasks|].
  eapply only_adds_trans; [by eapply Hf|by eapply IH].
Qed.

Lemma resolve_signal_wait_only_adds now v o d k d' : resolve_signal_wait now v o d k = Ok d' -> only_adds d d'.
Proof.
  intros H. unfold resolve_signal_wait in H. destruct (insert_checkpoint _ _ _ _) as [[d1 x]|] eqn:E; [|done].
  cbn in H. injection H as <-. apply insert_checkpoint_tasks in E.
  apply (only_adds_trans _ d1); [by apply only_adds_tasks|]. unfold wake_task.
  destruct (tasks d1 !! step_task k) as [t|] eqn:Et; [|by apply only_adds_tasks].
  case_bool_decide as Hw; [|by apply only_adds_tasks].
  intros id. cbn. destruct (decide (step_task k = id)) as [<-|Hne].
  - rewrite Et, lookup_insert_eq. eexists. split; [reflexivity|]. split; try done. by right.
  - rewrite lookup_insert_ne by done. destruct (tasks d1 !! id); [|done]. eauto using untouched_refl.
Qed.

Lemma insert_task_only_adds now id spec run_at mx d d' :
  insert_task now id spec run_at mx d = Ok d' -> only_adds d d'.
Proof.
  intros H. unfold insert_task in H. ok_inv. apply capacity_tasks in E. destruct (tasks a !! id) eqn:Eid; [done|]. ok_inv.
  apply (only_adds_trans _ a); [by apply only_adds_tasks|]. intros id'. cbn.
  destruct (decide (id = id')) as [<-|Hne].
  - rewrite Eid, lookup_insert_eq. by intros ? [= <-].
  - rewrite lookup_insert_ne by done. destruct (tasks a !! id'); [|done]. eauto using untouched_refl.
Qed.

Lemma enqueue_only_adds e tn p q v r pr mx key h d d' x :
  Protocol.enqueue e tn p q v r pr mx key h d = Ok (d', x) -> only_adds d d'.
Proof.
  intros H. unfold Protocol.enqueue in H. ok_inv. set (d1 := ensure_queue (e_now e) q d) in *.
  apply (only_adds_trans _ d1); [apply only_adds_tasks, ensure_queue_tasks|].
  destruct (match key with Some key => _ | None => _ end) as [[d2 id] mine] eqn:Ek.
  assert (tasks d2 = tasks d1) as T2.
  { destruct key as [key|]; [|by injection Ek as <- _ _].
    pose proof (reserve_key_tasks (e_now e) q key (e_uuid e 0) d1) as Hr. by rewrite Ek in Hr. }
  apply (only_adds_trans _ d2); [by apply only_adds_tasks|].
  destruct mine; ok_inv; simplify_eq; [by eapply insert_task_only_adds|by apply only_adds_tasks].
Qed.

Lemma enqueue_many_only_adds tz e requests d d' rows :
  Protocol.enqueue_many tz e requests d = Ok (d', rows) -> only_adds d d'.
Proof.
  intros H. unfold Protocol.enqueue_many in H. destruct (forallb _ _); [|done].
  revert H. generalize (imap pair requests) as l, (@nil (Z * uuid * bool)) as acc. intros l. revert d.
  induction l as [|[n request] l IH]; intros d acc H; cbn [foldM] in H; [ok_inv; simplify_eq; by apply only_adds_tasks|].
  destruct (enqueue_element tz e (d, acc) (n, request)) as [[d1 acc1]|] eqn:E; [|done]. cbn [mbind result_bind] in H.
  apply (only_adds_trans _ d1); [|by eapply IH]. unfold enqueue_element in E.
  destruct (Protocol.enqueue _ _ _ _ _ _ _ _ _ _ d) as [[d2 [id created]]|] eqn:E2; [|done]. cbn in E. simplify_eq.
  by eapply enqueue_only_adds.
Qed.

Lemma emit_signal_only_adds e id s occ v d d' r : Protocol.emit_signal e id s occ v d = Ok (d', r) -> only_adds d d'.
Proof.
  intros H. unfold Protocol.emit_signal in H. ok_inv. simplify_eq.
  eapply only_adds_trans; [|eapply foldM_only_adds; [|exact E3]; intros; by eapply resolve_signal_wait_only_adds].
  by apply only_adds_tasks.
Qed.

(** The statements of the producer. *)
Lemma producer_statements s e d d' : capable_of Producer s = true -> perform s e d = Ok d' -> only_adds d d'.
Proof.
  intros Hc H. destruct s as [c|tz requests|queue limit].
  - destruct c as [| | | | | | | | | | | | | | | | | | | | | | | | | |[]]; try (vm_compute in Hc; discriminate Hc);
      apply fst_ok in H as [x H]; eauto using enqueue_only_adds, emit_signal_only_adds.
  - apply fst_ok in H as [x H]. by eapply enqueue_many_only_adds.
  - vm_compute in Hc. discriminate Hc.
Qed.


(** ** The worker *)

(** The statements a worker process performs: all of the protocol but those of
    producers and administrators. *)
Definition worker_statement (s : statement) : bool :=
  match s with
  | Call (CPutQueue _ _ _ _ _ | CSetQueuePaused _ _ | CEnqueue _ _ _ _ _ _ _ _ _ | CCancel _ | CAdminCancel _ _
         | CAdminRetry _ _ | CEmit _ _ _ _ | CPauseSchedule _ _ | CDeleteSchedule _ | CAdminPauseSchedule _ _ _)
  | EnqueueMany _ _ => false
  | _ => true
  end.

(** A worker may perform exactly these. *)
Theorem worker_permissions s : permitted installed (role WorkerRole) s = worker_statement s.
Proof using Type*.
  rewrite permitted_installed.
  destruct s as [c| |]; [destruct c as [| | | | | | | | | | | | | | | | | | | | | | | | | |[]]| |]; vm_compute; reflexivity.
Qed.

(** What an administrator may do to a task leaves an entry in the audit, or is
    [cancel_task], retention or a schedule. *)
Theorem administrator_permissions s :
  permitted installed (role Administrator) s =
  match s with
  | Call (CPutQueue _ _ _ _ _ | CSetQueuePaused _ _ | CCancel _ | CAdminCancel _ _ | CAdminRetry _ _ | CDeleteKeys _ _
         | CPutSchedule _ | CPauseSchedule _ _ | CDeleteSchedule _ | CAdminPauseSchedule _ _ _ | CFleet (FDeleteWorkers _ _))
  | DeleteExpiredTerminal _ _ => true
  | _ => false
  end.
Proof using Type*.
  rewrite permitted_installed.
  destruct s as [c| |]; [destruct c as [| | | | | | | | | | | | | | | | | | | | | | | | | |[]]| |]; vm_compute; reflexivity.
Qed.
End Roles.

(** ** Witness *)

Definition demo_role (c : Capability) : regrole :=
  str match c with
      | Owner => "owner" | Producer => "producer" | WorkerRole => "worker" | Observer => "observer"
      | Administrator => "administrator"
      end.
Global Instance demo_role_inj : Inj (=) (=) demo_role.
Proof. intros [] [] H; (reflexivity || discriminate H). Qed.

