(* ===== verification/Rounds.v ===== *)
(** Schedule rounds: [Store::materialize_due_schedules] in a world where
    individual schedules fail.

    The theorem of this file is the promise of the savepoint per schedule: one
    schedule that cannot be materialized neither fails the round nor keeps its
    place at the head of the queue. *)

From S2P Require Import Prelude Text Identifier Json TaskTypes Chrono.
From S2P Require Import Schedule Outcome Rows Tables Protocol Store.

(** ** Times PostgreSQL keeps *)

(** Whole microseconds. *)
Definition aligned (t : time) : Prop := t mod 1000 = 0.

Lemma timestamptz_aligned t : aligned t -> timestamptz t = t.
Proof.
  unfold aligned, timestamptz. intros Ht. apply Z.mod_divide in Ht as [k ->]; [|done].
  replace (k * 1000 - PG_EPOCH) with ((k - 946684800000000) * 1000) by (unfold PG_EPOCH, NANOS_PER_SEC; lia).
  rewrite Z.quot_mul by done. unfold PG_EPOCH, NANOS_PER_SEC. lia.
Qed.

Lemma aligned_millis n : aligned (n * NANOS_PER_MILLI).
Proof.
  unfold aligned, NANOS_PER_MILLI. replace (n * 1000000) with (n * 1000 * 1000) by lia.
  by apply Z.mod_mul.
Qed.

Lemma aligned_add a b : aligned a -> aligned b -> aligned (a + b).
Proof. unfold aligned. intros Ha Hb. rewrite Z.add_mod, Ha, Hb by done. done. Qed.

(** ** Queue capacity during a round *)

(** A queue at its limit. *)
Definition full (queue : rstring) (d : Db) : Prop :=
  exists u m, queues d !! queue = Some u /\ u_max u = Some m /\ m <= u_capacity u.

(** [n] more outstanding tasks of a limited queue. *)
Definition occupy (n : Z) (u : QueueRec) : QueueRec :=
  match u_max u with Some _ => set_capacity (u_capacity u + n) u | None => u end.

Lemma occupy_max n u : u_max (occupy n u) = u_max u.
Proof. unfold occupy. by destruct (u_max u) eqn:E; simpl. Qed.
Lemma occupy_capacity n u m : u_max u = Some m -> u_capacity (occupy n u) = u_capacity u + n.
Proof. unfold occupy. by intros ->. Qed.
Lemma occupy_0 u : occupy 0 u = u.
Proof. unfold occupy, set_capacity. destruct u as [? ? [] ? ? ? ? ?]; simpl; rewrite ?Z.add_0_r; done. Qed.
Lemma occupy_add a b u : occupy a (occupy b u) = occupy (b + a) u.
Proof. unfold occupy, set_capacity. destruct u as [? ? [] ? ? ? ? ?]; simpl; rewrite ?Z.add_assoc; done. Qed.

Lemma take_capacity_cases q d :
  match take_capacity q d with
  | Ok d' => queues d' = alter (occupy 1) q (queues d) /\ schedules d' = schedules d
  | Err code => full q d
  end.
Proof.
  unfold take_capacity. destruct (queues d !! q) as [u|] eqn:Eq; last first.
  { split; [|done]. by rewrite alter_id; [|intros ? [=]; congruence]. }
  destruct (u_max u) as [m|] eqn:Em; last first.
  { split; [|done]. symmetry. apply alter_id. intros u' Hu'.
    replace u' with u by congruence. unfold occupy. by rewrite Em. }
  destruct (Z.ltb_spec (u_capacity u) m); [|exists u, m; auto]. split; [|done]. simpl.
  apply map_eq. intros q'. destruct (decide (q' = q)) as [->|].
  - rewrite lookup_insert_eq, lookup_alter_eq, Eq. simpl. unfold occupy. by rewrite Em.
  - by rewrite lookup_insert_ne, lookup_alter_ne by done.
Qed.

(** Room for [n] more tasks. *)
Definition room (n : Z) (queue : rstring) (d : Db) : Prop :=
  0 < n -> forall u m, queues d !! queue = Some u -> u_max u = Some m -> u_capacity u + n <= m.

Lemma room_not_full n q d : 0 < n -> room n q d -> ~ full q d.
Proof. intros Hn Hr (u & m & Hu & Hm & ?). specialize (Hr Hn u m Hu Hm). lia. Qed.

Lemma room_step n q d d' :
  room (1 + n) q d -> queues d' = alter (occupy 1) q (queues d) -> room n q d'.
Proof.
  intros Hr Hd Hn u m Hu Hm. rewrite Hd, lookup_alter_eq in Hu.
  destruct (queues d !! q) as [u0|] eqn:E; [|done]. injection Hu as <-. rewrite occupy_max in Hm.
  rewrite (occupy_capacity _ _ _ Hm). specialize (Hr ltac:(lia) u0 m E Hm). lia.
Qed.

Lemma full_mono q q' n d d' :
  0 <= n -> queues d' = alter (occupy n) q (queues d) -> full q' d -> full q' d'.
Proof.
  intros Hn Hd (u & m & Hu & Hm & Hc). destruct (decide (q' = q)) as [->|]; last first.
  { exists u, m. by rewrite Hd, lookup_alter_ne. }
  exists (occupy n u), m. rewrite Hd, lookup_alter_eq, Hu, occupy_max, (occupy_capacity _ _ _ Hm).
  split_and!; [done|done|lia].
Qed.

(** ** One statement *)

Definition constraint (code : sqlstate) : Prop := code = check_violation \/ code = unique_violation.

Lemma insert_task_cases now id spec run_at max d n :
  room (1 + n) (sp_queue_name spec) d -> 0 <= n ->
  match insert_task now id spec run_at max d with
  | Ok d' => queues d' = alter (occupy 1) (sp_queue_name spec) (queues d) /\ schedules d' = schedules d
  | Err code => constraint code
  end.
Proof.
  intros Hr Hn. unfold insert_task, enforce_queue_capacity. cbn [is_terminal].
  pose proof (take_capacity_cases (sp_queue_name spec) d) as Ht.
  destruct (take_capacity _ d) as [d1|code]; cbn [mbind result_bind]; last first.
  { destruct (room_not_full (1 + n) _ _ ltac:(lia) Hr Ht). }
  unfold size_check. destruct (_ <=? PAYLOAD_LIMIT); cbn [mbind result_bind]; [|by left].
  destruct (_ <=? HEADERS_LIMIT); cbn [mbind result_bind]; [|by left].
  destruct (_ && _); [|by left]. destruct (tasks d1 !! id); [by right | done].
Qed.

Lemma insert_occurrences_cases e r l : forall d c,
  room (len l) (sr_queue_name r) d ->
  match foldM (insert_occurrence e r) (d, c) l with
  | Ok (d', c') => queues d' = alter (occupy (len l)) (sr_queue_name r) (queues d) /\
                   schedules d' = schedules d /\ c <= c' <= c + len l
  | Err code => constraint code
  end.
Proof.
  induction l as [|[n o] l IH]; intros d c Hr.
  { cbn. split_and!; [|done|lia|unfold len; simpl; lia].
    symmetry. apply alter_id. intros. apply occupy_0. }
  assert (len ((n, o) :: l) = 1 + len l) as Hlen by (unfold len; simpl; lia).
  rewrite Hlen in Hr. pose proof (len_nonneg l). cbn [foldM].
  assert (match insert_occurrence e r (d, c) (n, o) with
          | Ok (d1, c1) => queues d1 = alter (occupy 1) (sr_queue_name r) (queues d) /\
                           schedules d1 = schedules d /\ c <= c1 <= c + 1
          | Err code => constraint code end) as Hstep.
  { cbn [insert_occurrence]. destruct (occurrence_exists _ _ _).
    - unfold enforce_queue_capacity. cbn [is_terminal].
      pose proof (take_capacity_cases (sr_queue_name r) d) as Ht.
      destruct (take_capacity _ d); cbn [mbind result_bind]; [naive_solver lia|].
      destruct (room_not_full (1 + len l) _ _ ltac:(lia) Hr Ht).
    - pose proof (insert_task_cases (e_now e) (e_uuid e n) (schedule_spec (e_now e) r o) o
                    (sr_max_attempts r) d (len l) Hr ltac:(lia)) as Ht.
      destruct (insert_task _ _ _ _ _ d); cbn [mbind result_bind]; [|done].
      destruct Ht as [-> ->]. split_and!; [done|done|lia|lia]. }
  destruct (insert_occurrence _ _ _ _) as [[d1 c1]|code]; cbn [mbind result_bind]; [|done].
  destruct Hstep as (Hq & Hs & Hc). specialize (IH d1 c1 (room_step _ _ _ _ Hr Hq)).
  destruct (foldM _ _ l) as [[d2 c2]|]; [|done]. destruct IH as (Hq2 & Hs2 & Hc2).
  rewrite Hlen. split_and!; [|congruence|lia|lia].
  rewrite Hq2, Hq, alter_alter_eq. apply alter_ext. intros u _. simpl. apply occupy_add.
Qed.

(** [materialize_schedule] on an unpaused schedule at the expected cursor: it
    moves the cursor to [next] unless the queue is full, counts what it
    inserts, and fails only on a constraint. *)
Lemma materialize_schedule_cases e id os next d r :
  schedules d !! id = Some r -> sr_paused_at r = None ->
  match materialize_schedule e id (sr_next_run_at r) os next d with
  | Ok (d', n) =>
      0 <= n <= len os /\
      (exists next', schedules d' = <[id := reschedule (e_now e) next' r]> (schedules d) /\
                     (next' = next \/ full (sr_queue_name r) d')) /\
      (forall q, full q d -> full q d')
  | Err code => constraint code /\ os <> []
  end.
Proof.
  intros Hr Hp. unfold materialize_schedule. rewrite Hr, Hp, bool_decide_eq_true_2, Z.eqb_refl by done.
  cbn [andb]. set (d1 := set_schedules _ d).
  set (allowed := allowed_count r os d). pose proof (len_nonneg os).
  assert (0 <= allowed <= len os /\ room allowed (sr_queue_name r) d1 /\
          (allowed < len os -> forall d', queues d' = alter (occupy allowed) (sr_queue_name r) (queues d) ->
             full (sr_queue_name r) d')) as (Hb & Hroom & Hfull).
  { unfold allowed, allowed_count, room. cbn. destruct (queues d !! _) as [u|] eqn:Eu.
    2: { split_and!; [lia|lia|done|lia]. }
    destruct (u_max u) as [m|] eqn:Em.
    2: { split_and!; [lia|lia| |lia]. intros _ ? ? [= <-]. congruence. }
    split_and!; [lia|lia| |].
    - intros ? ? ? [= <-] Hm. rewrite Em in Hm. injection Hm as <-. lia.
    - intros Hlt d' Hd'. exists (occupy (Z.max (Z.min (len os) (m - u_capacity u)) 0) u), m.
      rewrite Hd', lookup_alter_eq, Eu, occupy_max, (occupy_capacity _ _ _ Em).
      split_and!; [done|done|lia]. }
  assert (len (imap pair (take (Z.to_nat allowed) os)) = allowed) as Hlen.
  { unfold len in *. rewrite length_imap, length_take. lia. }
  pose proof (insert_occurrences_cases e r (imap pair (take (Z.to_nat allowed) os)) d1 0) as Hc.
  rewrite Hlen in Hc. specialize (Hc Hroom).
  destruct (foldM _ _ _) as [[d' n]|code] eqn:Ef.
  - destruct Hc as (Hq & Hs & Hn). split_and!; [lia|lia| |].
    + eexists. split; [exact Hs|]. fold allowed. destruct (os !! Z.to_nat allowed) eqn:Eo; [|by left].
      right. apply Hfull; [|done]. apply lookup_lt_Some in Eo. unfold len in *. lia.
    + intros q. apply (full_mono (sr_queue_name r) q allowed d d'); [lia|exact Hq].
  - split; [done|]. intros ->. by rewrite take_nil in Ef.
Qed.

(** ** One schedule *)

Section Rows.
Context {C : ChronoOps} {CL : ChronoLaws C} {K : CronOps} {KL : CronLaws K}.
#[local] Set Default Proof Using "All".

(** What a converted row guarantees. *)
Lemma schedule_row_converted row s :
  Schedule_try_from row = Ok s ->
  constructed (sc_definition (s_config s)) /\ sc_id (s_config s) = sr_id row /\
  s_next_run_at s = sr_next_run_at row /\
  match sc_misfire_policy (s_config s) with CatchUp limit => 1 <= limit <= u16_max | _ => True end.
Proof.
  unfold Schedule_try_from. intros H. ok_inv. cbn. split_and!; [|done|done|].
  - unfold row_definition in E.
    destruct (sr_interval_milliseconds row) as [ms|], (sr_cron_expression row) as [ex|]; try done;
      destruct (bool_decide _); try done.
    + destruct (number try_u64 ms) as [n|] eqn:En; cbn [mbind result_bind] in E; [|done].
      apply number_inv in En as [-> ?]. unfold interval in E. destruct (interval_milliseconds _) eqn:Ei; [|done]. cbn in E.
      destruct (delta_from_std _) eqn:Ed; [|done]. cbn in E. injection E as <-. cbn.
      unfold interval. rewrite Ei. cbn. rewrite Ed. split; [unfold from_millis, NANOS_PER_MILLI; lia|done].
    + unfold cron in E. destruct (parse_cron ex) eqn:Ep; [|done]. injection E as <-. cbn.
      unfold cron. by rewrite Ep.
  - unfold row_misfire_policy in E0. destruct (sr_catch_up_limit row) as [limit|].
    + destruct (bool_decide _); [|done].
      destruct (number try_u16 limit) as [n|] eqn:En; cbn [mbind result_bind] in E0; [|done].
      apply number_inv in En as [-> ?]. unfold nonzero in E0.
      destruct (Z.eqb_spec limit 0); cbn in E0; [done|]. injection E0 as <-. lia.
    + repeat (destruct (bool_decide _); [by injection E0 as <-|]). done.
Qed.

Lemma next_after_aligned self t n :
  constructed self -> aligned t -> next_after self t = Ok n -> aligned n.
Proof.
  intros Hself Ht Hn. destruct self as [every|ex].
  - destruct (constructed_interval _ Hself) as (? & ms & ? & -> & _).
    rewrite next_after_interval in Hn by lia. destruct (in_range _ _ _); [|done].
    injection Hn as <-. apply aligned_add; [done|apply aligned_millis].
  - destruct (constructed_cron _ Hself) as [c Hc]. apply (next_after_cron _ _ _ _ Hc) in Hn.
    apply cron_after_second in Hn. unfold aligned, NANOS_PER_SEC in *.
    apply Z.mod_divide in Hn as [k ->]; [|done].
    replace (k * 1000000000) with (k * 1000000 * 1000) by lia. by apply Z.mod_mul.
Qed.

Lemma catch_up_length self n t now l : catch_up self n t now = Ok l -> (length l <= n)%nat.
Proof.
  revert t l. induction n as [|n IH]; intros t l; cbn [catch_up]; [intros [= <-]; done|].
  destruct (t <=? now); [|intros [= <-]; simpl; lia]. intros H. ok_inv. simpl.
  apply IH in E0. lia.
Qed.

(** The new cursor lies after [now] on a microsecond; there are at most
    65535 occurrences. *)
Lemma materialize_cursor self next_run_at now policy m :
  constructed self -> aligned next_run_at -> aligned now ->
  match policy with CatchUp limit => 1 <= limit <= u16_max | _ => True end ->
  materialize self next_run_at now policy = Ok m ->
  now < m_next_run_at m /\ aligned (m_next_run_at m) /\ len (m_occurrences m) <= u16_max.
Proof.
  intros Hself Ha Hnow Hp. unfold materialize. destruct (Z.ltb_spec now next_run_at).
  { intros [= <-]. cbn. split_and!; [done|done|]. unfold len, u16_max. simpl. lia. }
  intros H'. ok_inv. cbn. pose proof (next_after_gt _ _ _ Hself E1).
  pose proof (next_after_aligned _ _ _ Hself Hnow E1). split_and!; [done|done|].
  destruct policy as [| |limit]; ok_inv; try (unfold len, u16_max; simpl; lia).
  apply catch_up_length in E. unfold len. lia.
Qed.
End Rows.

(** ** The round *)

Section Round.
Context {C : ChronoOps} {CL : ChronoLaws C} {K : CronOps} {KL : CronLaws K}.
#[local] Set Default Proof Using "All".

(** The schedule of a claimed row is no longer due at [now], or its queue is
    at its limit. *)
Definition settled (now : time) (row : ScheduleRow) (d : Db) : Prop :=
  exists r, schedules d !! sr_id row = Some r /\
    (now < sr_next_run_at r \/ full (sr_queue_name row) d).

(** A row as it is stored: under its key, on a microsecond. *)
Definition stored (d : Db) (row : ScheduleRow) : Prop :=
  schedules d !! sr_id row = Some row /\ sr_paused_at row = None /\ aligned (sr_next_run_at row).

(** What a call leaves alone: the schedules but [id], and full queues. *)
Definition confined (id : uuid) (d d' : Db) : Prop :=
  (forall id', id' <> id -> schedules d' !! id' = schedules d !! id') /\
  (forall q, full q d -> full q d').

(** Every failure of [r] repeats. *)
Definition deterministic {A} (r : result PostgresError A) : Prop :=
  match r with Ok _ => True | Err error => is_deterministic_schedule_failure error = true end.

Lemma deterministic_bind {A B} (r : result PostgresError A) (k : A -> result PostgresError B) :
  deterministic r -> (forall a, deterministic (k a)) -> deterministic (mbind k r).
Proof. destruct r; cbn; auto. Qed.
Lemma deterministic_ok_or {A} error (o : option A) :
  is_deterministic_schedule_failure error = true -> deterministic (ok_or error o).
Proof. by destruct o. Qed.
Lemma deterministic_map_err {E A} (f : E -> PostgresError) (r : result E A) :
  (forall x, is_deterministic_schedule_failure (f x) = true) -> deterministic (map_err f r).
Proof. destruct r; cbn; auto. Qed.

Lemma conversion_is_deterministic row : deterministic (Schedule_try_from row).
Proof.
  unfold Schedule_try_from, row_definition, row_misfire_policy, handler_version_column, number, parse_name.
  repeat first [ done | apply deterministic_bind; [|intros ?] | by apply deterministic_ok_or
               | by apply deterministic_map_err | case_match ].
Qed.

Lemma constraint_is_deterministic code :
  constraint code -> is_deterministic_schedule_failure (Database (DatabaseError code)) = true.
Proof. by intros [-> | ->]. Qed.

(** A claimed row either materializes, or fails the same way every time. *)
Lemma materialize_claimed_cases e row now d :
  stored d row -> aligned now ->
  match materialize_claimed_schedule e row now d with
  | (d', Ok n) => 0 <= n <= u16_max /\ settled now row d' /\ confined (sr_id row) d d'
  | (_, Err error) => is_deterministic_schedule_failure error = true
  end.
Proof.
  intros (Hrow & Hp & Ha) Hnow. unfold materialize_claimed_schedule. autorewrite with store.
  pose proof (conversion_is_deterministic row) as Hdet.
  destruct (Schedule_try_from row) as [s|error] eqn:Es; [|done].
  destruct (schedule_row_converted _ _ Es) as (Hdef & Hid & Hnext & Hpol).
  autorewrite with store.
  destruct (materialize _ _ _ _) as [m|error] eqn:Em; cbn [map_err]; [|done].
  rewrite Hnext in Em. destruct (materialize_cursor _ _ _ _ _ Hdef Ha Hnow Hpol Em) as (Hgt & Hma & Hlen).
  autorewrite with store. rewrite Hid, Hnext, (timestamptz_aligned _ Ha), (timestamptz_aligned _ Hma).
  pose proof (materialize_schedule_cases e (sr_id row) (map timestamptz (m_occurrences m))
                (m_next_run_at m) d row Hrow Hp) as Hc.
  destruct (materialize_schedule _ _ _ _ _ d) as [[d' n]|code];
    [|by apply constraint_is_deterministic, Hc].
  destruct Hc as (Hn & (next' & Hs & Hor) & Hfull).
  assert (len (map timestamptz (m_occurrences m)) = len (m_occurrences m)) as Hmap
    by (unfold len; by rewrite length_map).
  assert (number try_u64 n = Ok n) as -> by (apply number_ok; unfold u16_max, u64_max in *; lia). split_and!; [lia|lia| |split; [|done]].
  - exists (reschedule (e_now e) next' row). rewrite Hs, lookup_insert_eq. split; [done|]. cbn.
    destruct Hor as [-> | ?]; auto.
  - intros id' Hne. by rewrite Hs, lookup_insert_ne.
Qed.

(** One round of the loop: the schedule is settled whatever happens to it. *)
Lemma materialize_row_settles x n row d :
  stored d row -> aligned (e_now (r_now x)) ->
  date_min <= e_now (r_now x) + SCHEDULE_FAILURE_RETRY_DELAY <= date_max ->
  exists d' k, materialize_row x n row d = (d', Ok k) /\ 0 <= k <= u16_max /\
    settled (e_now (r_now x)) row d' /\ confined (sr_id row) d d'.
Proof.
  intros Hst Hnow Hdate. unfold materialize_row.
  pose proof (materialize_claimed_cases (r_materialize x n) row (e_now (r_now x)) d Hst Hnow) as Hc.
  destruct (materialize_claimed_schedule _ _ _ _) as [d1 [k|error]]; [by exists d1, k|].
  rewrite Hc. autorewrite with store. rewrite delta_from_std_spec by done.
  change (SCHEDULE_FAILURE_RETRY_DELAY <=? i64_max * NANOS_PER_MILLI) with true. cbn [ok_or].
  autorewrite with store. rewrite checked_add_signed_spec, try_in_range by done. cbn [ok_or].
  set (retry_at := e_now (r_now x) + SCHEDULE_FAILURE_RETRY_DELAY).
  assert (aligned retry_at) as Hra by (apply aligned_add; [done|apply (aligned_millis 60000)]).
  destruct Hst as (Hrow & Hp & Ha). unfold defer_schedule, mbind at 1, io_bind at 1.
  autorewrite with store. rewrite (timestamptz_aligned _ Ha), (timestamptz_aligned _ Hra).
  pose proof (materialize_schedule_cases (r_defer x n) (sr_id row) [] retry_at d row Hrow Hp) as Hd.
  destruct (materialize_schedule _ _ _ _ _ d) as [[d' k]|code]; [|naive_solver].
  destruct Hd as (_ & (next' & Hs & Hor) & Hfull). exists d', 0.
  split; [done|]. split; [unfold u16_max; lia|]. split; [|split; [|done]].
  - exists (reschedule (e_now (r_defer x n)) next' row). rewrite Hs, lookup_insert_eq.
    split; [done|]. cbn. destruct Hor as [-> | ?]; [left|by right].
    unfold retry_at, SCHEDULE_FAILURE_RETRY_DELAY, from_mins, from_secs, NANOS_PER_SEC. lia.
  - intros id' Hne. by rewrite Hs, lookup_insert_ne.
Qed.

Lemma stored_confined id d d' row : sr_id row <> id -> confined id d d' -> stored d row -> stored d' row.
Proof. intros Hne [Hs _] (Hr & ? & ?). split_and!; [by rewrite Hs|done|done]. Qed.
Lemma settled_confined now id d d' row :
  sr_id row <> id -> confined id d d' -> settled now row d -> settled now row d'.
Proof. intros Hne [Hs Hf] (r & Hr & Ho). exists r. rewrite Hs by done. naive_solver. Qed.

Lemma materialize_rows_settle x rows : forall n total d,
  NoDup (map sr_id rows) -> Forall (stored d) rows -> aligned (e_now (r_now x)) ->
  date_min <= e_now (r_now x) + SCHEDULE_FAILURE_RETRY_DELAY <= date_max ->
  0 <= total -> total + len rows * u16_max <= u64_max ->
  exists d' total', materialize_rows x n rows total d = (d', Ok total') /\
    Forall (fun row => settled (e_now (r_now x)) row d') rows /\
    (forall row, sr_id row ∉ map sr_id rows ->
       settled (e_now (r_now x)) row d -> settled (e_now (r_now x)) row d').
Proof.
  induction rows as [|row rows IH]; intros n total d Hnd Hst Hnow Hdate Ht0 Ht.
  { exists d, total. cbn. split_and!; [done|constructor|done]. }
  cbn [map] in Hnd. apply NoDup_cons in Hnd as [Hnin Hnd]. inversion Hst as [|? ? Hrow Hrows]; subst.
  destruct (materialize_row_settles x n row d Hrow Hnow Hdate) as (d1 & k & E & Hk & Hset & Hconf).
  assert (forall r, r ∈ rows -> sr_id r <> sr_id row) as Hne.
  { intros r Hr Heq. apply Hnin. apply list_elem_of_fmap. by exists r. }
  assert (len (row :: rows) = 1 + len rows) as Hl by (unfold len; simpl; lia). rewrite Hl in Ht.
  pose proof (len_nonneg rows). assert (total + k + len rows * u16_max <= u64_max) by lia.
  destruct (IH (S n) (total + k) d1) as (d2 & t2 & E2 & Hall & Hkeep); [done| |done|done|lia|lia|].
  { rewrite Forall_forall in Hrows |- *. intros r Hr. eapply stored_confined; eauto. }
  exists d2, t2. cbn [materialize_rows]. unfold mbind at 1, io_bind at 1. rewrite E.
  autorewrite with store.
  assert (try_u64 (total + k) = Some (total + k)) as -> by (apply try_from_Some; unfold u16_max in *; lia).
  cbn [ok_or]. split; [done|]. split.
  - constructor; [|done]. by apply Hkeep.
  - intros r Hr Hs. apply Hkeep; [set_solver|]. eapply settled_confined; [|done|done].
    intros Heq. apply Hr. cbn [map]. rewrite Heq. by left.
Qed.
End Round.

(** ** Claim *)

(** Every schedule is stored under its id, its cursor on a microsecond. *)
Definition schedules_stored (d : Db) : Prop :=
  map_Forall (fun id r => sr_id r = id /\ aligned (sr_next_run_at r)) (schedules d).

Lemma claim_due_stored e limit d :
  schedules_stored d ->
  Forall (stored d) (claim_due_schedules e limit d) /\
  NoDup (map sr_id (claim_due_schedules e limit d)) /\
  len (claim_due_schedules e limit d) <= Z.max limit 0.
Proof.
  intros Hd. unfold claim_due_schedules.
  set (l := filter _ (map_to_list (schedules d))). set (s := sorting.merge_sort due_le l).
  assert (s ≡ₚ l) as Hperm by apply sorting.merge_sort_Permutation.
  assert (forall kr, kr ∈ s -> schedules d !! kr.1 = Some kr.2 /\ sr_paused_at kr.2 = None) as Hin.
  { intros kr. rewrite Hperm. unfold l. intros [[Hp _] Hm]%list_elem_of_filter.
    destruct kr. apply elem_of_map_to_list in Hm. auto. }
  assert (forall kr, kr ∈ s -> sr_id kr.2 = kr.1 /\ aligned (sr_next_run_at kr.2)) as Hkey.
  { intros kr [Hl _]%Hin. by apply (Hd kr.1). }
  split_and!.
  - apply Forall_forall. intros r (kr & -> & Hk)%list_elem_of_fmap.
    apply elem_of_take in Hk as (i & Hk & _). apply list_elem_of_lookup_2 in Hk.
    destruct (Hin _ Hk), (Hkey _ Hk) as [Hid Ha]. split_and!; [by rewrite Hid|done|done].
  - apply (sublist_NoDup _ (map sr_id (map snd s))).
    + assert (map sr_id (map snd s) = map fst s) as ->.
      { rewrite map_map. apply list_fmap_ext. intros i kr Hk%list_elem_of_lookup_2. by apply Hkey. }
      rewrite Hperm. apply NoDup_fmap_fst_filter.
    + apply (fmap_sublist sr_id), (fmap_sublist snd), sublist_take.
  - unfold len. rewrite length_map, length_take. lia.
Qed.

Section Claims.
Context {C : ChronoOps} {CL : ChronoLaws C} {K : CronOps} {KL : CronLaws K}.
#[local] Set Default Proof Using "All".

End Claims.

(** ** Witness: a schedule whose expression has one field, before a good one *)

Definition demo_schedule (id : uuid) (expression : rstring) (next_run_at : time) : ScheduleRow := {|
  sr_id := id; sr_name := str "nightly"; sr_kind := str "cron"; sr_interval_milliseconds := None;
  sr_cron_expression := Some expression; sr_misfire_policy := str "latest"; sr_catch_up_limit := None;
  sr_queue_name := str "default"; sr_task_name := str "mail"; sr_handler_version := 1;
  sr_payload := VNull; sr_headers := VObject []; sr_priority := 0; sr_max_attempts := 5;
  sr_next_run_at := next_run_at; sr_paused_at := None; sr_created_at := 0; sr_updated_at := 0 |}.

Definition demo_round (now : time) : Round :=
  let e := {| e_now := now; e_uuid := fun n => 500 + Z.of_nat n; e_locked := ∅ |} in
  {| r_now := e; r_claim := e; r_materialize := fun _ => e; r_defer := fun _ => e |}.

Definition demo_schedules : Db :=
  set_schedules (<[1 := demo_schedule 1 (str "often") (at_sec 60)]>
                  (<[2 := demo_schedule 2 (str "0 * * * * *") (at_sec 120)]> ∅)) empty_db.


(** The round creates the task of the good schedule and defers the other. *)
Example demo_round_outcome :
  let (d', r) := materialize_due_schedules (demo_round (at_sec 200)) 10 demo_schedules in
  r = Ok 1 /\ sr_next_run_at <$> schedules d' !! 1 = Some (at_sec 260)
  /\ sr_next_run_at <$> schedules d' !! 2 = Some (at_sec 240) /\ size (tasks d') = 1%nat.
Proof. vm_compute. repeat split. Qed.
