(* ===== verification/StoreSpec.v ===== *)
(** What the methods of the [Store] promise their callers: batches answer in
    the order they were asked, a schedule reads back as it was put, a worker
    that sleeps for the delay it is given misses no task, and what a claim
    leaves behind when a row does not convert. *)

From S2P Require Import Prelude Text Identifier Json Retry TaskTypes Chrono.
From S2P Require Import Schedule Outcome Rows Tables Protocol Lifecycle Dispatch Triggers Store.

(** ** Batches of outcomes *)

(** [complete_tasks]: one answer per request, and the rows behind a yes. *)
Lemma complete_tasks_answers e l d d' rs :
  wf d -> complete_tasks e l d = Ok (d', rs) ->
  rs = map (fun c => bool_decide (is_Some (active (co_lease c) d))) l /\
  forall c, c ∈ l -> is_Some (active (co_lease c) d) ->
    exists t, tasks d' !! lr_task_id (co_lease c) = Some t /\
      k_state t = Succeeded /\ k_result t = co_result c.
Proof.
  intros Hwf H. unfold complete_tasks in H. ok_inv. simplify_eq. apply bool_decide_eq_true in E0.
  rename E0 into Hnd, E2 into Hu.
  set (rows := map _ (held_requests co_lease d l)) in *.
  assert (map (fun r => r.1.1) rows =
          map (fun at_ => lr_task_id (co_lease at_.1)) (held_requests co_lease d l)) as Hids
    by (unfold rows; by rewrite map_map).
  split.
  - apply list_fmap_ext. intros i c Hc%list_elem_of_lookup_2. rewrite Hids. apply bool_decide_ext.
    by apply held_requests_ids.
  - intros c Hc [t Et].
    assert (moves d rows) as Hm.
    { destruct (held_requests_spec co_lease d l Hnd) as [Hn HF]. split; [by rewrite Hids|].
      unfold rows. rewrite Forall_map. eapply Forall_impl; [exact HF|].
      intros [c' t'] (_ & Hid & Hh). split; [done|]. apply holds_lease_spec in Hh as [Hs _].
      apply row_evolves_once; [exact (Hwf _ t' Hid)|done|]. by apply (ls_succeed (life t')). }
    destruct (update_rows_lookup _ _ _ _ _ (lr_task_id (co_lease c)) t
                (complete_row (e_now e) (co_result c) t) Hwf Hm
                (finish_attempts_tasks _ _) Hu) as (t' & Ht' & (_ & _ & Hev)).
    { unfold rows. apply list_elem_of_fmap. exists (c, t). split; [done|]. by apply held_requests_elem. }
    apply succeeded_final in Hev; [|done]. exists t'. split; [done|].
    split; [by apply (f_equal li_state) in Hev | by apply (f_equal li_result) in Hev].
Qed.

(** How a batch runs: nothing for an empty one, one statement otherwise. *)
Lemma complete_many_inv e l d d' rs :
  complete_many e l d = (d', Ok rs) ->
  (l = [] /\ d' = d /\ rs = []) \/
  complete_tasks e (map (fun c => {| co_lease := tc_lease c; co_result := tc_result c |}) l) d = Ok (d', rs).
Proof.
  intros H. unfold complete_many in H. destruct (bool_decide (l = [])) eqn:El.
  { apply bool_decide_eq_true in El as ->. left. by injection H as <- <-. }
  destruct (has_duplicates _); [done|]. cbn [negb] in H. unfold execute in H.
  destruct (complete_tasks e _ d) as [[d1 r1]|] eqn:E; [|done]. injection H as <- <-. by right.
Qed.

(** [Store::complete_many] answers in the order it was asked: the
    n-th answer says whether the n-th lease was still held when the statement
    ran, whatever the rest of the batch holds, and every task answered with
    yes has succeeded with exactly the result that was sent. *)
Theorem complete_many_answers e l d d' rs :
  wf d -> complete_many e l d = (d', Ok rs) ->
  rs = map (fun c => bool_decide (is_Some (active (tc_lease c) d))) l /\
  Forall (fun c => is_Some (active (tc_lease c) d) ->
    exists t, tasks d' !! lr_task_id (tc_lease c) = Some t /\
      k_state t = Succeeded /\ k_result t = tc_result c) l.
Proof.
  intros Hwf [(-> & -> & ->)|E]%complete_many_inv; [done|].
  destruct (complete_tasks_answers _ _ _ _ _ Hwf E) as [-> Hall]. split; [by rewrite map_map|].
  apply Forall_forall. intros c Hc Ha.
  apply (Hall {| co_lease := tc_lease c; co_result := tc_result c |}); [|done].
  apply list_elem_of_fmap. by exists c.
Qed.

Lemma collect_Forall2 {E A B} (f : A -> result E B) l l' :
  collect f l = Ok l' -> Forall2 (fun a b => f a = Ok b) l l'.
Proof.
  revert l'. induction l as [|a l IH]; intros l' H; cbn [collect] in H; ok_inv; constructor; auto.
Qed.

Lemma collect_id {E A} (f : A -> result E A) l : (forall a, f a = Ok a) -> collect f l = Ok l.
Proof. intros Hf. induction l as [|a l IH]; cbn [collect]; [done|]. by rewrite Hf, IH. Qed.

(** The state a failed attempt leaves: another attempt when the caller asked for
    one and the budget allows it. *)
Definition failed_state (d : Db) (lease : LeaseRenewal) (retry : bool) : option TaskState :=
  (fun t => if retry && retries d (lr_task_id lease) t then Pending else Failed) <$> active lease d.

Lemma fail_tasks_answers e l d d' rs :
  fail_tasks e l d = Ok (d', rs) ->
  rs = map (fun f => failed_state d (fa_lease f) (bool_decide (is_Some (fa_retry_ms f)))) l.
Proof.
  intros H. unfold fail_tasks in H. ok_inv. simplify_eq. apply bool_decide_eq_true in E0.
  rename E0 into Hnd. apply list_fmap_ext. intros i f Hf%list_elem_of_lookup_2.
  rewrite map_map. cbn [fst snd]. set (rows := map _ (held_requests fa_lease d l)).
  assert (map fst rows = map (fun at_ => lr_task_id (fa_lease at_.1)) (held_requests fa_lease d l)) as Hids
    by (unfold rows; by rewrite map_map).
  unfold failed_state. destruct (active (fa_lease f) d) as [t|] eqn:Ea.
  - rewrite (list_find_fst_Some rows (lr_task_id (fa_lease f))
      (fail_row (e_now e) d (lr_task_id (fa_lease f)) (fa_error f) (fa_retry_ms f) t)).
    + cbn. by destruct (fa_retry_ms f).
    + rewrite Hids. by apply held_requests_spec.
    + unfold rows. apply list_elem_of_fmap. exists (f, t). split; [done|]. by apply held_requests_elem.
  - rewrite list_find_fst_None; [done|]. rewrite Hids, held_requests_ids by done. rewrite Ea.
    by intros [? ?].
Qed.

Lemma fail_many_inv e l d d' rs :
  fail_many e l d = (d', Ok rs) ->
  (l = [] /\ d' = d /\ rs = []) \/
  exists payload, fail_tasks e payload d = Ok (d', rs) /\
    Forall2 (fun f p => fa_lease p = tf_lease f /\ fa_error p = tf_error f /\
      bool_decide (is_Some (fa_retry_ms p)) = bool_decide (is_Some (tf_retry_after f))) l payload.
Proof.
  intros H. unfold fail_many in H. destruct (bool_decide (l = [])) eqn:El.
  { apply bool_decide_eq_true in El as ->. left. by injection H as <- <-. }
  destruct (has_duplicates _); [done|]. cbn [negb] in H. autorewrite with store in H.
  destruct (collect _ l) as [payload|] eqn:Ep; [|done]. autorewrite with store in H.
  destruct (fail_tasks e payload d) as [[d1 states]|] eqn:E; [|done]. unfold lift in H.
  rewrite collect_id in H by (intros [s|]; [cbn; by rewrite parse_state_as_str|done]).
  injection H as <- <-. right. exists payload. split; [done|]. apply collect_Forall2 in Ep.
  eapply Forall2_impl; [exact Ep|]. intros f p Hp. cbn beta in Hp.
  destruct (transpose _) as [r|] eqn:Er; cbn [mbind result_bind] in Hp; [|done]. injection Hp as <-. cbn.
  destruct (tf_retry_after f) as [ms|]; cbn in Er; [|by injection Er as <-].
  destruct (duration_i64 _ ms); [|done]. by injection Er as <-.
Qed.

(** [Store::fail_many] answers in the order it was asked: nothing for
    a lease that is no longer held; otherwise the task goes back to pending
    exactly when the caller asked for a retry and the failed attempts, this one
    included, are still below the limit, and fails for good if not. *)
Theorem fail_many_answers e l d d' rs :
  fail_many e l d = (d', Ok rs) ->
  rs = map (fun f => failed_state d (tf_lease f) (bool_decide (is_Some (tf_retry_after f)))) l.
Proof.
  intros [(-> & -> & ->)|(payload & E & HF)]%fail_many_inv; [done|].
  rewrite (fail_tasks_answers _ _ _ _ _ E). clear E.
  induction HF as [|f p l payload (Hl & _ & Hr) _ IH]; [done|]. cbn [map]. by rewrite IH, Hl, Hr.
Qed.

(** ** Batches of requests *)

(** The task a created answer names: the request's, unleased, at its first
    attempt or later. *)
Definition task_of (request : EnqueueRequest) (id : uuid) (d : Db) : Prop :=
  exists t, tasks d !! id = Some t /\ k_queue_name t = er_queue_name request /\
    sp_task_name (k_spec t) = er_task_name request /\
    sp_handler_version (k_spec t) = er_handler_version request /\
    sp_payload (k_spec t) = er_payload request /\ sp_priority (k_spec t) = er_priority request /\
    sp_idempotency_key (k_spec t) = er_idempotency_key request.

Lemma task_of_grows request id d d' : grows d d' -> task_of request id d -> task_of request id d'.
Proof.
  intros Hg (t & Ht & Hrest). specialize (Hg id). rewrite Ht in Hg.
  destruct Hg as (t' & Ht' & (_ & Hs & _)). exists t'. unfold k_queue_name in *. rewrite Hs. done.
Qed.

Lemma enqueue_creates e tn p q v r pr mx key h d d' id :
  Protocol.enqueue e tn p q v r pr mx key h d = Ok (d', (id, true)) ->
  exists t, tasks d' !! id = Some t /\ sp_queue_name (k_spec t) = q /\ sp_task_name (k_spec t) = tn /\
    sp_handler_version (k_spec t) = v /\ sp_payload (k_spec t) = p /\ sp_priority (k_spec t) = pr /\
    sp_idempotency_key (k_spec t) = key /\ sp_headers (k_spec t) = h.
Proof.
  intros H. unfold Protocol.enqueue in H. ok_inv.
  unfold jsonb in E, E0. destruct (no_nul p); [|done]. injection E as <-.
  destruct (no_nul h); [|done]. injection E0 as <-.
  destruct (match key with Some _ => _ | None => _ end) as [[d1 i] [|]]; [|done].
  destruct (insert_task _ _ _ _ _ d1) as [d2|] eqn:Ei; cbn [mbind result_bind] in H; [|done].
  injection H as <- <-. unfold insert_task in Ei. ok_inv. eexists.
  cbn [tasks put_task set_tasks]. rewrite lookup_insert_eq. split_and!; [reflexivity|done..].
Qed.

Lemma enqueue_elements_answers tz e l : forall n d acc d' rows,
  wf d -> foldM (enqueue_element tz e) (d, acc) (imap (fun i r => ((n + i)%nat, r)) l) = Ok (d', rows) ->
  grows d d' /\ exists new, rows = acc ++ new /\
    map (fun r => r.1.1) new = map Z.of_nat (seq n (length l)) /\
    Forall2 (fun request r => r.2 = true -> task_of request r.1.2 d') l new.
Proof.
  induction l as [|request l IH]; intros n d acc d' rows Hwf H.
  { cbn in H. injection H as <- <-. split; [by apply grows_tasks|]. exists []. by rewrite app_nil_r. }
  rewrite imap_cons in H. cbn [foldM] in H.
  destruct (enqueue_element _ _ _ _) as [[d1 acc1]|] eqn:E; cbn [mbind result_bind] in H; [|done].
  cbn [enqueue_element] in E. ok_inv. destruct a as [d0 [id created]]. injection E as -> <-.
  rename E0 into E. pose proof (enqueue_grows _ _ _ _ _ _ _ _ _ _ _ _ _ Hwf E) as G1.
  rewrite (imap_ext _ (fun i r => ((S n + i)%nat, r))) in H by (intros; cbn; f_equal; lia).
  destruct (IH (S n) d1 _ d' rows (grows_wf _ _ G1) H) as (G2 & new & -> & Hidx & Hall).
  split; [by eapply grows_trans|]. exists ((Z.of_nat (n + 0), id, created) :: new).
  rewrite <- app_assoc. split; [done|]. split.
  - cbn [map length seq fst snd]. by rewrite Hidx, Nat.add_0_r.
  - constructor; [|done]. cbn [fst snd]. intros ->. apply (task_of_grows _ _ d1); [done|].
    destruct (enqueue_creates _ _ _ _ _ _ _ _ _ _ _ _ _ E) as (t & Ht & Hrest). exists t. intuition.
Qed.

Lemma batch_results_ok rows requests :
  map (fun r => r.1.1) rows = map Z.of_nat (seq 0 (length requests)) ->
  len requests <= u64_max ->
  batch_results rows requests =
    Ok (map (fun rr : (Z * uuid * bool) * EnqueueRequest => enqueue_result (rr.1.1.2, rr.1.2))
          (zip rows requests)).
Proof.
  intros Hidx Hlen. unfold batch_results.
  assert (length rows = length requests) as Hl.
  { apply (f_equal length) in Hidx. by rewrite !length_map, length_seq in Hidx. }
  unfold len in *. rewrite Hl, Z.eqb_refl. cbn [negb orb].
  destruct (existsb _ _) eqn:Ex; [|done]. apply existsb_exists in Ex as ([i r] & Hin & Hne).
  apply list_elem_of_In, elem_of_lookup_imap in Hin as (j & r' & Heq & Hj). injection Heq as -> ->.
  assert (map (fun r => r.1.1) rows !! j = Some r'.1.1) as Hk by (by rewrite list_lookup_fmap, Hj).
  apply lookup_lt_Some in Hj. rewrite Hidx, list_lookup_fmap, lookup_seq_lt in Hk by lia.
  injection Hk as Hk. cbn [fst snd] in Hne. rewrite <- Hk, bool_decide_eq_true_2 in Hne; [done|].
  apply try_from_Some. lia.
Qed.

(** [Store::enqueue_many] answers in the order it was asked.  Whatever
    rows the statement returns, the check of the result set passes: there is
    one answer per request, and the task a [created] answer names is in the
    table with the queue, name, version, payload, priority and idempotency key
    of the request at the same position. *)
Theorem enqueue_many_answers tz context e requests d d' rows :
  wf d -> len requests <= u64_max ->
  Forall (fun r => is_ok (validate_request r) = true /\ 1 <= er_handler_version r <= i32_max) requests ->
  Protocol.enqueue_many tz e
    (map (fun r => with_headers (inject_span_context context (er_headers r)) r) requests) d = Ok (d', rows) ->
  exists rs, enqueue_many tz context e requests d = (d', Ok rs) /\
    Forall2 (fun r a => eres_created a = true -> task_of r (eres_task_id a) d') requests rs.
Proof.
  intros Hwf Hlen Hv H. unfold enqueue_many. autorewrite with store.
  destruct (collect _ requests) as [u|] eqn:Ec; last first.
  { exfalso. clear H Hlen. induction Hv as [|r l [Hr Hver] Hl IH]; cbn [collect] in Ec; [done|].
    destruct (validate_request r); [|done]. cbn [mbind result_bind] in Ec. unfold version_i32 in Ec.
    assert (try_i32 (er_handler_version r) = Some (er_handler_version r)) as Ht
      by (apply try_from_Some; unfold i32_min; lia).
    rewrite Ht in Ec. cbn [ok_or mbind result_bind] in Ec.
    destruct (collect _ l); [done|]. by apply IH. }
  autorewrite with store. rewrite H. unfold Protocol.enqueue_many in H.
  destruct (forallb _ _); [|done].
  rewrite (imap_ext _ (fun i r => ((0 + i)%nat, r))) in H by done.
  apply enqueue_elements_answers in H as (_ & new & -> & Hidx & Hall); [|done].
  rewrite length_map in Hidx. cbn [app]. unfold lift. rewrite batch_results_ok by done.
  eexists. split; [done|]. clear Hidx Hv Hlen Ec. rewrite Forall2_fmap_l in Hall.
  induction Hall as [|r row l new' Hr Hall IH]; cbn; constructor; [done|done].
Qed.

(** ** Claims and conversion *)

Lemma collect_elem {E A B} (f : A -> result E B) l l' a :
  collect f l = Ok l' -> a ∈ l -> exists b, f a = Ok b.
Proof.
  intros H%collect_Forall2 Ha. apply list_elem_of_lookup in Ha as [i Hi].
  destruct (Forall2_lookup_l _ _ _ _ _ H Hi) as (b & _ & Hb). eauto.
Qed.

Lemma task_row_counters row t :
  Task_try_from row = Ok t -> tw_attempt row <= u16_max /\ tw_max_attempts row <= u16_max.
Proof.
  unfold Task_try_from. intros H. ok_inv. apply number_inv in E4 as [_ ?], E6 as [_ ?]. lia.
Qed.

(** Every row the statement returns is in the table, running and leased. *)
Lemma claim_rows_running e q w caps limit ms d d' rows :
  Protocol.claim e q w caps limit ms d = Ok (d', rows) ->
  Forall (fun r => tasks d' !! r.1 = Some r.2 /\ k_state r.2 = Running /\
    exists l, k_lease r.2 = Some l /\ l_owner l = w /\ l_expires_at l = e_now e + milliseconds ms) rows.
Proof.
  intros H. apply claim_inv in H as (-> & Ht & d1 & Ha). rewrite Forall_map. apply Forall_forall.
  intros r Hr. cbn [fst snd]. destruct (claimed_rows_elem _ _ _ _ _ _ Hr) as (n & kt & Hin & ->).
  cbn [fst snd]. split; [|split; [done|by eexists]]. rewrite Ht.
  eapply foldl_put_lookup; [|exact Hr]. rewrite claimed_rows_fst.
  by destruct (candidates_spec e d q caps limit).
Qed.

(** One unreadable task fails the claims of its whole batch.  The
    table allows an attempt limit up to [i32::MAX] and [Task::try_from] reads a
    [u16]; when a claimed task has a larger one, [Store::claim] returns an error
    after its statement has committed.  Every task of the batch is then running
    under a lease of this worker, and none of them was handed to it: they wait
    for the leases to expire and are charged a lost attempt. *)
Theorem claim_strands_batch e q w caps handlers limit duration ms d d' rows kt :
  limit <> 0 -> duration <> 0 -> caps <> [] -> bind_capabilities caps = Ok handlers ->
  duration_i64 InvalidLeaseDuration duration = Ok ms ->
  Protocol.claim e q w handlers limit ms d = Ok (d', rows) ->
  kt ∈ rows -> u16_max < k_max_attempts kt.2 ->
  (exists error, claim e q w caps limit duration d = (d', Err error)) /\
  Forall (fun r => tasks d' !! r.1 = Some r.2 /\ k_state r.2 = Running /\
    exists l, k_lease r.2 = Some l /\ l_owner l = w /\ l_expires_at l = e_now e + milliseconds ms) rows.
Proof.
  intros Hl Hd Hc Hh Hms H Hin Hmax. split; [|by eapply claim_rows_running].
  unfold claim, is_zero. destruct (Z.eqb_spec limit 0); [done|]. destruct (Z.eqb_spec duration 0); [done|].
  rewrite bool_decide_eq_false_2 by done. cbn [negb]. autorewrite with store. rewrite Hh.
  autorewrite with store. rewrite Hms. autorewrite with store. rewrite H. unfold lift.
  destruct (collect _ rows) as [l|error] eqn:Ec; [|by exists error].
  destruct (collect_elem _ _ _ _ Ec Hin) as [t [_ Ht]%task_row_counters]. cbn in Ht. lia.
Qed.

(** ** Schedules *)

Section PutSchedule.
Context {C : ChronoOps} {CL : ChronoLaws C} {K : CronOps} {KL : CronLaws K}.
#[local] Set Default Proof Using "All".

(** A configuration the types and the size limits allow. *)
Record wf_config (c : ScheduleConfig) : Prop := {
  wc_name : wf_name MAX_TASK_NAME_BYTES (sc_name c);
  wc_definition : constructed (sc_definition c);
  wc_text : match sc_definition c with Cron expression => NUL ∉ expression | Interval _ => True end;
  wc_policy : match sc_misfire_policy c with CatchUp limit => 1 <= limit <= u16_max | _ => True end;
  wc_task_name : wf_name MAX_TASK_NAME_BYTES (er_task_name (sc_task c));
  wc_queue_name : wf_name MAX_QUEUE_NAME_BYTES (er_queue_name (sc_task c));
  wc_version : 1 <= er_handler_version (sc_task c) <= i32_max;
  wc_max_attempts : 1 <= er_max_attempts (sc_task c) <= u16_max;
  wc_payload : no_nul (er_payload (sc_task c)) = true /\
    jsonb_text_len (er_payload (sc_task c)) <= PAYLOAD_LIMIT;
  wc_headers : no_nul (VObject (er_headers (sc_task c))) = true /\
    jsonb_text_len (VObject (er_headers (sc_task c))) <= HEADERS_LIMIT;
}.

(** What the table keeps of it: not the start, nor the task's own [run_at] and
    idempotency key, which each occurrence replaces. *)
Definition stored_config (c : ScheduleConfig) : ScheduleConfig :=
  let task := sc_task c in {|
  sc_id := sc_id c; sc_name := sc_name c; sc_definition := sc_definition c;
  sc_misfire_policy := sc_misfire_policy c;
  sc_task := {| er_task_name := er_task_name task; er_handler_version := er_handler_version task;
                er_payload := er_payload task; er_queue_name := er_queue_name task; er_run_at := None;
                er_priority := er_priority task; er_max_attempts := er_max_attempts task;
                er_idempotency_key := None; er_headers := er_headers task |};
  sc_start_at := None |}.

(** The row of a configuration. *)
Definition config_row (now next : time) (c : ScheduleConfig) (ms : option Z) (expression : option rstring)
    : ScheduleRow :=
  let task := sc_task c in {|
  sr_id := sc_id c; sr_name := sc_name c;
  sr_kind := match sc_definition c with Interval _ => str "interval" | Cron _ => str "cron" end;
  sr_interval_milliseconds := ms; sr_cron_expression := expression;
  sr_misfire_policy := (misfire_columns (sc_misfire_policy c)).1;
  sr_catch_up_limit := (misfire_columns (sc_misfire_policy c)).2;
  sr_queue_name := er_queue_name task; sr_task_name := er_task_name task;
  sr_handler_version := er_handler_version task; sr_payload := er_payload task;
  sr_headers := VObject (er_headers task); sr_priority := er_priority task;
  sr_max_attempts := er_max_attempts task; sr_next_run_at := next; sr_paused_at := None;
  sr_created_at := now; sr_updated_at := now |}.

(** The columns of the right kind are filled. *)
Definition columns_of (definition : ScheduleDefinition) (ms : option Z) (expression : option rstring)
    : Prop :=
  match definition, ms, expression with
  | Interval _, Some ms, None => 0 < ms
  | Cron _, None, Some _ => True
  | _, _, _ => False
  end.

(** The definition columns, and that they read back. *)
Lemma definition_columns_roundtrip c :
  wf_config c -> exists ms expression,
    definition_columns (sc_definition c) =
      Ok (match sc_definition c with Interval _ => str "interval" | Cron _ => str "cron" end, ms, expression) /\
    transpose (option_map bind_text expression) = Ok expression /\
    (forall now next, row_definition (config_row now next c ms expression) = Ok (sc_definition c)) /\
    columns_of (sc_definition c) ms expression.
Proof.
  intros Hc. pose proof (wc_definition c Hc) as Hd. pose proof (wc_text c Hc) as Ht.
  destruct (sc_definition c) as [every|ex] eqn:Edef.
  - destruct (constructed_interval _ Hd) as (Hev & ms & Hms & Hev' & _).
    assert (as_millis every = ms) as Hq by (unfold as_millis; rewrite Hev'; by apply Z.div_mul).
    assert (ms <= i64_max) by (unfold NANOS_PER_MILLI in *; lia).
    destruct Hd as [_ Hi]. exists (Some ms), None. unfold definition_columns. rewrite Hi, Hq.
    assert (try_i64 ms = Some ms) as Htry by (apply try_from_Some; unfold i64_min, i64_max in *; lia).
    cbn [map_err mbind result_bind]. rewrite Htry. split; [done|]. split; [done|]. split; [|done].
    intros now next. unfold row_definition. cbn [config_row sr_interval_milliseconds sr_cron_expression sr_kind].
    rewrite Edef, bool_decide_eq_true_2 by done.
    assert (number try_u64 ms = Ok ms) as -> by (apply number_ok; unfold i64_max, u64_max in *; lia).
    cbn [mbind result_bind]. unfold from_millis. rewrite <- Hev', Hi. done.
  - exists None, (Some ex). split; [done|]. split.
    + cbn. unfold bind_text. by rewrite bool_decide_eq_false_2.
    + split; [|done]. intros now next. unfold row_definition.
      cbn [config_row sr_interval_milliseconds sr_cron_expression sr_kind].
      rewrite Edef, bool_decide_eq_true_2 by done. cbn in Hd. by rewrite Hd.
Qed.

Lemma name_column kind maximum s :
  wf_name maximum s -> sql_name_check maximum s = true /\ parse_name (name_new kind maximum) s = Ok s.
Proof.
  intros H. assert (name_new kind maximum s = Ok s) as E by (by apply name_new_ok).
  split; [by apply (sql_name_accepted kind)|]. unfold parse_name. by rewrite E.
Qed.
Lemma misfire_columns_roundtrip c now next ms expression :
  wf_config c -> row_misfire_policy (config_row now next c ms expression) = Ok (sc_misfire_policy c).
Proof.
  intros Hc. pose proof (wc_policy c Hc) as Hp. unfold row_misfire_policy.
  cbn [config_row sr_catch_up_limit sr_misfire_policy].
  destruct (sc_misfire_policy c) as [| |limit]; [done..|]. cbn [misfire_columns fst snd].
  rewrite bool_decide_eq_true_2 by done.
  assert (number try_u16 limit = Ok limit) as -> by (apply number_ok; lia).
  cbn [mbind result_bind]. unfold nonzero. destruct (Z.eqb_spec limit 0); [lia|done].
Qed.

(** The row of a configuration converts back to it. *)
Lemma config_row_converts c now next ms expression :
  wf_config c ->
  row_definition (config_row now next c ms expression) = Ok (sc_definition c) ->
  Schedule_try_from (config_row now next c ms expression) =
    Ok {| s_config := stored_config c; s_next_run_at := next; s_paused_at := None;
          s_created_at := now; s_updated_at := now |}.
Proof.
  intros Hc Hdef. unfold Schedule_try_from. rewrite Hdef, misfire_columns_roundtrip by done.
  cbn [mbind result_bind ok_or as_object config_row sr_headers sr_task_name sr_handler_version
       sr_queue_name sr_max_attempts sr_name].
  destruct (name_column (str "task name") _ _ (wc_task_name c Hc)) as [_ Ht].
  unfold TaskName_new. rewrite Ht. cbn [mbind result_bind].
  rewrite handler_version_ok by (pose proof (wc_version c Hc); lia). cbn [mbind result_bind].
  destruct (name_column (str "queue name") _ _ (wc_queue_name c Hc)) as [_ Hq].
  unfold QueueName_new. rewrite Hq. cbn [mbind result_bind].
  assert (number try_u16 (er_max_attempts (sc_task c)) = Ok (er_max_attempts (sc_task c))) as ->
    by (apply number_ok; pose proof (wc_max_attempts c Hc); lia). cbn [mbind result_bind].
  destruct (name_column (str "schedule name") _ _ (wc_name c Hc)) as [_ Hs].
  unfold ScheduleName_new. rewrite Hs. done.
Qed.

(** The row passes the constraints of the table. *)
Lemma config_row_checks c now next ms expression :
  wf_config c ->
  columns_of (sc_definition c) ms expression ->
  schedule_checks (config_row now next c ms expression) = true.
Proof.
  intros Hc Hd. unfold columns_of in Hd. pose proof (wc_version c Hc). pose proof (wc_max_attempts c Hc).
  destruct (wc_payload c Hc) as [_ ?], (wc_headers c Hc) as [_ ?].
  destruct (name_column [] _ _ (wc_name c Hc)) as [Hn _], (name_column [] _ _ (wc_task_name c Hc)) as [Htn _].
  unfold schedule_checks. cbn [config_row sr_name sr_interval_milliseconds sr_catch_up_limit sr_task_name
    sr_handler_version sr_max_attempts sr_payload sr_headers sr_kind sr_cron_expression sr_misfire_policy].
  rewrite Hn, Htn. pose proof (wc_policy c Hc) as Hp.
  repeat match goal with
  | |- context [?a <? er_handler_version _] => rewrite (proj2 (Z.ltb_lt a _)) by lia
  | |- context [?a <? er_max_attempts _] => rewrite (proj2 (Z.ltb_lt a _)) by lia
  | |- context [jsonb_text_len ?v <=? ?n] => rewrite (proj2 (Z.leb_le (jsonb_text_len v) n)) by done
  end.
  destruct (sc_definition c), ms as [ms|], expression; try done.
  all: try (rewrite (proj2 (Z.ltb_lt 0 ms)) by done).
  all: destruct (sc_misfire_policy c) as [| |limit]; try reflexivity.
  all: cbn [misfire_columns fst snd]; rewrite (proj2 (Z.ltb_lt 0 limit)), (proj2 (Z.leb_le limit 65535))
    by (unfold u16_max in *; lia); reflexivity.
Qed.

(** A new schedule reads back as it was put.  Every well-formed
    configuration with a first occurrence is accepted; the schedule
    [put_schedule] returns, and [get_schedule] reads afterwards, has the same
    identity, definition, misfire policy and task, and is due at its start,
    or at its first occurrence without one, to the microsecond. *)
Theorem put_schedule_roundtrip now e c d next :
  wf_config c ->
  next_after (sc_definition c) (match sc_start_at c with Some start => Z.max start now | None => now end)
    = Ok next ->
  schedule_named (sc_name c) d = None -> schedules d !! sc_id c = None ->
  exists d' s, put_schedule now e c d = (d', Ok s) /\
    get_schedule (sc_id c) d' = (d', Ok (Some s)) /\ s_config s = stored_config c /\
    s_next_run_at s = timestamptz (default next (sc_start_at c)) /\ s_paused_at s = None.
Proof.
  intros Hc Hnext Hname Hid.
  destruct (definition_columns_roundtrip c Hc) as (ms & ex & Hcols & Hbind & Hdef & Hkind).
  set (at_ := timestamptz (default next (sc_start_at c))).
  set (row := config_row (e_now e) at_ c ms ex).
  set (d1 := ensure_queue (e_now e) (er_queue_name (sc_task c)) d).
  assert (schedules d1 = schedules d) as Hd1.
  { unfold d1, ensure_queue. by destruct (queues d !! _). }
  exists (set_schedules (<[sc_id c := row]> (schedules d1)) d1).
  eexists. unfold put_schedule, validate_request. pose proof (wc_max_attempts c Hc).
  destruct (Z.eqb_spec (er_max_attempts (sc_task c)) 0); [lia|].
  autorewrite with store. rewrite Hnext. cbn [map_err]. autorewrite with store. rewrite Hcols.
  destruct (misfire_columns (sc_misfire_policy c)) as [policy limit] eqn:Em.
  autorewrite with store. unfold version_i32.
  assert (try_i32 (er_handler_version (sc_task c)) = Some (er_handler_version (sc_task c))) as ->
    by (apply try_from_Some; pose proof (wc_version c Hc); unfold i32_min; lia).
  cbn [ok_or]. autorewrite with store. rewrite Hbind. autorewrite with store.
  match goal with |- context [Protocol.put_schedule e ?r d] =>
    replace r with row by (unfold row, config_row; by rewrite Em) end.
  assert (Protocol.put_schedule e row d =
          Ok (set_schedules (<[sc_id c := row]> (schedules d1)) d1, row)) as ->.
  { unfold Protocol.put_schedule. change (sr_payload row) with (er_payload (sc_task c)).
    change (sr_headers row) with (VObject (er_headers (sc_task c))).
    change (sr_queue_name row) with (er_queue_name (sc_task c)). unfold jsonb. rewrite (proj1 (wc_payload c Hc)), (proj1 (wc_headers c Hc)). cbn [mbind result_bind].
    rewrite (proj1 (name_column [] _ _ (wc_queue_name c Hc))). fold d1.
    assert (schedule_checks row = true) as -> by (by apply config_row_checks).
    change (sr_name row) with (sc_name c). change (sr_id row) with (sc_id c).
    unfold schedule_named in *. by rewrite Hd1, Hname, Hid. }
  unfold lift at 1, row. rewrite (config_row_converts c _ _ _ _ Hc (Hdef _ _)). split; [done|].
  split; [|done]. unfold get_schedule. autorewrite with store. cbn [schedules set_schedules].
  rewrite lookup_insert_eq. unfold lift, convert_optional. cbn [option_map].
  by rewrite (config_row_converts c _ _ _ _ Hc (Hdef _ _)).
Qed.
End PutSchedule.

(** ** Delays *)

Lemma earliest_spec l :
  match earliest l with
  | None => l = []
  | Some m => (m ∈ l) /\ forall x, x ∈ l -> m <= x
  end.
Proof.
  destruct l as [|t l]; [done|]. cbn [earliest]. revert t.
  induction l as [|u l IH]; intros t; cbn [foldl].
  - split; [set_solver|]. intros x [->|?%not_elem_of_nil]%elem_of_cons; [lia|done].
  - destruct (IH (Z.min t u)) as [Hin Hmin]. split.
    + apply elem_of_cons in Hin as [->|Hin]; [|set_solver].
      destruct (Z.min_spec t u) as [[_ ->]|[_ ->]]; set_solver.
    + pose proof (Hmin (Z.min t u) ltac:(set_solver)).
      intros x [->|[->|Hx]%elem_of_cons]%elem_of_cons; [lia|lia|]. apply Hmin. set_solver.
Qed.

(** A delay reaches the deadline, and is less than a millisecond too long. *)
Lemma delay_until_spec now deadline :
  0 <= delay_until now deadline /\ deadline <= now + from_millis (delay_until now deadline) /\
  (0 < delay_until now deadline -> now + from_millis (delay_until now deadline - 1) < deadline).
Proof.
  unfold delay_until, from_millis, NANOS_PER_MILLI.
  pose proof (Z.div_mod (now - deadline) 1000000 ltac:(lia)).
  pose proof (Z.mod_pos_bound (now - deadline) 1000000 ltac:(lia)). lia.
Qed.

(** Claimable but for its time. *)
Definition waiting (d : Db) (queue : rstring) (caps : list (rstring * Z)) (kt : uuid * TaskRec) : bool :=
  bool_decide (k_queue_name kt.2 = queue) && bool_decide (k_state kt.2 = Pending)
  && (failures d kt.1 kt.2 <? k_max_attempts kt.2) && capable caps kt.2.

Lemma claimable_waiting d q caps due kt :
  claimable d q caps due kt = true <-> waiting d q caps kt = true /\ k_run_at kt.2 <= due.
Proof. unfold claimable, waiting. rewrite !andb_true_iff, Z.leb_le. tauto. Qed.

(** The deadlines the delay is taken from. *)
Lemma waiting_deadlines d q caps t :
  t ∈ omap (fun kt : uuid * TaskRec =>
        if bool_decide (k_queue_name kt.2 = q) && bool_decide (k_state kt.2 = Pending)
           && (failures d kt.1 kt.2 <? k_max_attempts kt.2) && true && capable caps kt.2
        then Some (k_run_at kt.2) else None) (map_to_list (tasks d)) <->
  exists kt, tasks d !! kt.1 = Some kt.2 /\ waiting d q caps kt = true /\ k_run_at kt.2 = t.
Proof.
  rewrite list_elem_of_omap. split.
  - intros ([id t'] & Hin%elem_of_map_to_list & E). exists (id, t'). split; [done|].
    unfold waiting. rewrite andb_true_r in E. destruct (_ && _); [|done]. by injection E as <-.
  - intros ([id t'] & Hk & Hw & <-). exists (id, t'). split; [by apply elem_of_map_to_list|].
    unfold waiting in Hw. rewrite andb_true_r. by rewrite Hw.
Qed.

(** Claim C37.  A worker that sleeps for [Store::next_task_delay] neither
    oversleeps nor spins: no delay means that no task of the queue can become
    claimable for its handlers by waiting; a delay means that a task is
    claimable once it has passed, and that none was claimable a millisecond
    before that. *)
Theorem next_task_delay_is_tight e q caps handlers d u :
  queues d !! q = Some u -> u_paused_at u = None ->
  caps <> [] -> bind_capabilities caps = Ok handlers ->
  map_Forall (fun _ t => k_run_at t - e_now e <= i64_max * NANOS_PER_MILLI) (tasks d) ->
  exists r, next_task_delay e q caps d = (d, Ok r) /\
    match r with
    | None => forall kt due, tasks d !! kt.1 = Some kt.2 -> claimable d q handlers due kt = false
    | Some delay =>
        (exists kt, tasks d !! kt.1 = Some kt.2 /\ claimable d q handlers (e_now e + delay) kt = true) /\
        (0 < delay -> forall kt, tasks d !! kt.1 = Some kt.2 ->
           claimable d q handlers (e_now e + delay - NANOS_PER_MILLI) kt = false)
    end.
Proof.
  intros Hu Hp Hc Hh Hb. unfold next_task_delay. rewrite bool_decide_eq_false_2 by done. cbn [negb].
  autorewrite with store. rewrite Hh. autorewrite with store. unfold next_task_delay_milliseconds.
  rewrite Hu, Hp, bool_decide_eq_true_2 by done. pose proof (waiting_deadlines d q handlers) as Hl.
  set (l := omap _ _) in *.
  pose proof (earliest_spec l) as He. destruct (earliest l) as [m|]; cbn [fmap option_fmap option_map].
  - destruct He as [Hin Hmin]. destruct (proj1 (Hl m) Hin) as (kt & Hk & Hw & Hr).
    destruct (delay_until_spec (e_now e) m) as (H0 & H1 & H2). set (ms := delay_until (e_now e) m) in *.
    exists (Some (from_millis ms)). split; [|split].
    + unfold lift, delay. cbn. assert (number try_u64 ms = Ok ms) as ->; [|done]. apply number_ok.
      specialize (Hb kt.1 kt.2 Hk). cbn in Hb. unfold from_millis, NANOS_PER_MILLI, i64_max, u64_max in *. lia.
    + exists kt. split; [done|]. apply claimable_waiting. split; [done|lia].
    + intros Hpos kt' Hk'. apply not_true_iff_false. intros [Hw' Hle]%claimable_waiting.
      specialize (Hmin (k_run_at kt'.2) (proj2 (Hl _) (ex_intro _ kt' (conj Hk' (conj Hw' eq_refl))))).
      unfold from_millis, NANOS_PER_MILLI in *. lia.
  - exists None. split; [done|]. intros kt due Hk. apply not_true_iff_false.
    intros [Hw _]%claimable_waiting.
    assert (k_run_at kt.2 ∈ l) as Hi by (apply Hl; by exists kt). rewrite He in Hi.
    by apply not_elem_of_nil in Hi.
Qed.

(** ** Witnesses *)

Definition demo_good : list TaskCompletion := [{| tc_lease := demo_lease; tc_result := Some VNull |}].

Lemma complete_many_answers_witness :
  [true] = map (fun c => bool_decide (is_Some (active (tc_lease c) demo2))) demo_good /\
  Forall (fun c => is_Some (active (tc_lease c) demo2) ->
    exists t, tasks (complete_many (demo_env 30 300) demo_good demo2).1 !! lr_task_id (tc_lease c) = Some t /\
      k_state t = Succeeded /\ k_result t = tc_result c) demo_good.
Proof.
  apply (complete_many_answers (demo_env 30 300)); [apply demo_wf|]. vm_compute. reflexivity.
Defined.

Definition demo_failures : list TaskFailure :=
  [{| tf_lease := demo_lease; tf_error := VNull; tf_retry_after := Some (from_secs 1) |}].

Lemma fail_many_answers_witness :
  [Some Pending] =
    map (fun f => failed_state demo2 (tf_lease f) (bool_decide (is_Some (tf_retry_after f)))) demo_failures.
Proof.
  apply (fail_many_answers (demo_env 30 300) demo_failures demo2
           (fail_many (demo_env 30 300) demo_failures demo2).1).
  vm_compute. reflexivity.
Defined.

(** A task enqueued by a client of the SQL function with a large limit. *)
Definition demo_large : Db :=
  run (CEnqueue (str "mail") VNull (str "default") 1 None 0 70000 None (VObject [])) (demo_env 11 101) demo1.
Definition demo_claim_large : stmt (list (uuid * TaskRec)) :=
  Protocol.claim (demo_env 20 200) (str "default") 7 [(str "mail", 1)] 10 30000 demo_large.
Definition demo_claimed : Db * list (uuid * TaskRec) :=
  match demo_claim_large with Ok r => r | Err _ => (demo_large, []) end.

Lemma claim_strands_batch_witness :
  (exists error, claim (demo_env 20 200) (str "default") 7 [(str "mail", 1)] 10 (from_secs 30) demo_large
                 = (demo_claimed.1, Err error)) /\
  Forall (fun r => tasks demo_claimed.1 !! r.1 = Some r.2 /\ k_state r.2 = Running /\
    exists l, k_lease r.2 = Some l /\ l_owner l = 7 /\ l_expires_at l = 20 + milliseconds 30000)
    demo_claimed.2.
Proof.
  apply (claim_strands_batch (demo_env 20 200) (str "default") 7 [(str "mail", 1)] [(str "mail", 1)] 10
           (from_secs 30) 30000 demo_large demo_claimed.1 demo_claimed.2
           (default (0, demo_row demo1) (demo_claimed.2 !! 1%nat))).
  - discriminate.
  - discriminate.
  - discriminate.
  - vm_compute. reflexivity.
  - vm_compute. reflexivity.
  - vm_compute. reflexivity.
  - apply (list_elem_of_lookup_2 _ 1%nat). vm_compute. reflexivity.
  - vm_compute. reflexivity.
Defined.

Definition demo_config : ScheduleConfig := {|
  sc_id := 9; sc_name := str "hourly"; sc_definition := Interval (from_hours 1);
  sc_misfire_policy := CatchUp 3; sc_task := EnqueueRequest_new (str "mail") VNull;
  sc_start_at := None |}.

Lemma demo_config_wf : wf_config demo_config.
Proof.
  constructor; try by_compute; try (vm_compute; split_and!; [discriminate|discriminate|]; repeat constructor).
Qed.

Lemma put_schedule_roundtrip_witness :
  exists d' s, put_schedule (at_sec 100) (demo_env (at_sec 100) 0) demo_config empty_db = (d', Ok s) /\
    get_schedule (sc_id demo_config) d' = (d', Ok (Some s)) /\ s_config s = stored_config demo_config /\
    s_next_run_at s = timestamptz (default (at_sec 3700) None) /\ s_paused_at s = None.
Proof.
  apply (put_schedule_roundtrip (at_sec 100) (demo_env (at_sec 100) 0) demo_config empty_db (at_sec 3700)).
  - exact demo_config_wf.
  - vm_compute. reflexivity.
  - vm_compute. reflexivity.
  - vm_compute. reflexivity.
Defined.

Lemma next_task_delay_is_tight_witness :
  exists r, next_task_delay (demo_env 5 0) (str "default") [(str "mail", 1)] demo1 = (demo1, Ok r) /\
    match r with
    | None => forall kt due, tasks demo1 !! kt.1 = Some kt.2 ->
                claimable demo1 (str "default") [(str "mail", 1)] due kt = false
    | Some delay =>
        (exists kt, tasks demo1 !! kt.1 = Some kt.2 /\
           claimable demo1 (str "default") [(str "mail", 1)] (5 + delay) kt = true) /\
        (0 < delay -> forall kt, tasks demo1 !! kt.1 = Some kt.2 ->
           claimable demo1 (str "default") [(str "mail", 1)] (5 + delay - NANOS_PER_MILLI) kt = false)
    end.
Proof.
  apply (next_task_delay_is_tight (demo_env 5 0) (str "default") [(str "mail", 1)] [(str "mail", 1)] demo1
           (new_queue 10)).
  - vm_compute. reflexivity.
  - reflexivity.
  - discriminate.
  - vm_compute. reflexivity.
  - intros id t Ht. apply (bool_decide_unpack _).
    revert id t Ht. apply (bool_decide_unpack (map_Forall _ _)). vm_compute. exact I.
Defined.

Definition demo_requests : list EnqueueRequest :=
  [EnqueueRequest_new (str "mail") VNull; EnqueueRequest_new (str "report") (VBool true)].
Definition demo_context : list (rstring * rstring) := [(str "traceparent", str "00-1-2-01")].
Definition demo_enqueued : Db * list (Z * uuid * bool) :=
  match Protocol.enqueue_many (fun t => t) (demo_env 10 100)
          (map (fun r => with_headers (inject_span_context demo_context (er_headers r)) r) demo_requests)
          empty_db with
  | Ok r => r
  | Err _ => (empty_db, [])
  end.

Lemma enqueue_many_answers_witness :
  exists rs, enqueue_many (fun t => t) demo_context (demo_env 10 100) demo_requests empty_db
             = (demo_enqueued.1, Ok rs) /\
    Forall2 (fun r a => eres_created a = true -> task_of r (eres_task_id a) demo_enqueued.1) demo_requests rs.
Proof.
  apply (enqueue_many_answers (fun t => t) demo_context (demo_env 10 100) demo_requests empty_db
           demo_enqueued.1 demo_enqueued.2).
  - apply map_Forall_empty.
  - by_compute.
  - repeat constructor; by_compute.
  - vm_compute. reflexivity.
Defined.
