(* ===== verification/Propagation.v ===== *)
(** Trace propagation, [pgtask-otel/src/propagation.rs]: a producer writes the trace
    context into the headers of a task, the worker reads it from there.

    A propagator is code of OpenTelemetry: a class with what it sets for a context and
    what it reads from a carrier, and its documented contract as laws.  What the
    producer injected is what the span of the handler gets, through the tables and
    whatever happens to the task in between. *)

From stdpp Require Import relations.

From S2P Require Import Prelude Text Identifier Json Retry TaskTypes Chrono Schedule Outcome Rows Tables Protocol.
From S2P Require Import Lifecycle Dispatch Store StoreSpec.

(** [TextMapPropagator]: the fields it may use, what it sets for a context, and what it
    makes of a carrier with its [get] and [keys]. *)
Class Propagator (Context : Type) := {
  field_names : list rstring;
  injected : Context -> list (rstring * rstring);
  extract : (rstring -> option rstring) -> list rstring -> Context;
  (** What of a context crosses a process boundary. *)
  remote : Context -> Context;
}.

(** It sets each of its fields at most once, no others, and reads back from a carrier
    with these fields what crosses the boundary. *)
Class PropagatorLaws (Context : Type) `{!Propagator Context} := {
  injected_fields context : NoDup (map fst (injected context)) /\
    Forall (fun kv => kv.1 ∈ field_names) (injected context);
  extract_injected context get keys :
    (forall k, k ∈ field_names -> get k = list_to_map (M := gmap rstring rstring) (injected context) !! k) ->
    extract get keys = remote context;
}.

Section Propagation.
Context {Context : Type} `{!Propagator Context}.

(** [HeaderExtractor]. *)
Definition extractor_get (headers : list (rstring * Value)) (key : rstring) : option rstring :=
  match map_get key headers with Some value => as_str value | None => None end.
Definition extractor_keys (headers : list (rstring * Value)) : list rstring := map fst headers.

Definition inject_context (headers : list (rstring * Value)) (context : Context) : list (rstring * Value) :=
  inject_span_context (injected context) headers.

(** The parent [set_parent_from_headers] gives the span. *)
Definition set_parent_from_headers (headers : list (rstring * Value)) : Context :=
  extract (extractor_get headers) (extractor_keys headers).

Lemma inject_span_other fields k : forall headers,
  k ∉ map fst fields -> map_get k (inject_span_context fields headers) = map_get k headers.
Proof.
  unfold inject_span_context. induction fields as [|[k' v] fields IH]; intros headers Hk; [done|].
  cbn in *. apply not_elem_of_cons in Hk as [Hne Hk]. rewrite IH by done. by apply map_get_insert_ne.
Qed.

Lemma inject_span_field fields k v : forall headers,
  NoDup (map fst fields) -> (k, v) ∈ fields -> map_get k (inject_span_context fields headers) = Some (VString v).
Proof.
  unfold inject_span_context. induction fields as [|[k' v'] fields IH]; intros headers Hn Hin;
    [by apply not_elem_of_nil in Hin|].
  cbn in *. apply NoDup_cons in Hn as [Hni Hn]. apply elem_of_cons in Hin as [[= <- <-]|Hin]; [|by apply IH].
  change (foldl _ ?h fields) with (inject_span_context fields h). rewrite inject_span_other by done. apply map_get_insert.
Qed.

(** No header of the application's own has a name the propagator would read and does
    not set. *)
Definition no_stale_fields (headers : list (rstring * Value)) (context : Context) : Prop :=
  forall k, k ∈ field_names -> k ∈ map fst (injected context) \/ map_get k headers = None.

Lemma extracts_injected `{!PropagatorLaws Context} headers context :
  no_stale_fields headers context -> set_parent_from_headers (inject_context headers context) = remote context.
Proof.
  intros Hs. apply extract_injected. intros k Hk. destruct (injected_fields context) as [Hn _].
  unfold extractor_get, inject_context. destruct (decide (k ∈ map fst (injected context))) as [Hin|Hni].
  - apply list_elem_of_fmap in Hin as ([k' v] & -> & Hin). rewrite (inject_span_field _ k' v) by done. cbn.
    symmetry. by apply elem_of_list_to_map.
  - destruct (Hs k Hk) as [|Hh]; [done|]. rewrite inject_span_other, Hh by done. symmetry.
    by apply not_elem_of_list_to_map.
Qed.

(** Claim C28.  The trace context of the producer reaches the handler: when [enqueue] has
    created a task, then whatever protocol calls follow, every [Task] read from its
    row gives the span of the handler the context that was current at the producer, less
    what does not cross processes, and has every header of the request that is not
    a field of the propagator unchanged. *)
Theorem trace_context_reaches_handler `{!PropagatorLaws Context} context e request d d' r d2 t task :
  wf d -> no_stale_fields (er_headers request) context ->
  Store.enqueue (injected context) e request d = (d', Ok r) -> eres_created r = true ->
  rtc call_step d' d2 -> tasks d2 !! eres_task_id r = Some t ->
  Task_try_from (task_row (eres_task_id r, t)) = Ok task ->
  set_parent_from_headers (t_headers task) = remote context /\
  forall k, k ∉ field_names -> map_get k (t_headers task) = map_get k (er_headers request).
Proof.
  intros Hwf Hs H Hcr Hsteps Ht Htask. unfold Store.enqueue in H.
  rewrite bind_lift in H. destruct (validate_request request); [|done].
  rewrite bind_lift in H. destruct (version_i32 _) as [version|]; [|done].
  rewrite bind_lift in H. destruct (transpose _) as [key|]; [|done].
  rewrite bind_execute in H. destruct (Protocol.enqueue _ _ _ _ _ _ _ _ _ _ d) as [[d1 [id created]]|] eqn:E; [|done].
  injection H as <- <-. cbn [enqueue_result eres_created eres_task_id fst snd] in *. subst created.
  pose proof (grows_wf _ _ (enqueue_grows _ _ _ _ _ _ _ _ _ _ _ _ _ Hwf E)) as Hwf'.
  apply enqueue_creates in E as (t0 & Ht0 & _ & _ & _ & _ & _ & _ & Hh).
  pose proof (calls_grow _ _ Hsteps Hwf' id) as Hg. rewrite Ht0 in Hg. destruct Hg as (t1 & Ht1 & _ & Hspec & _).
  rewrite Ht in Ht1. injection Ht1 as <-.
  assert (t_headers task = inject_context (er_headers request) context) as ->.
  { unfold Task_try_from in Htask. cbn [task_row tw_headers snd] in Htask. rewrite Hspec, Hh in Htask.
    cbn [as_object ok_or] in Htask. ok_inv. done. }
  split; [by apply extracts_injected|]. intros k Hk. apply inject_span_other. intros Hin. apply Hk.
  destruct (injected_fields context) as [_ HF]. apply list_elem_of_fmap in Hin as (kv & -> & Hin).
  rewrite Forall_forall in HF. by apply HF.
Qed.
End Propagation.

(** ** Witness: the W3C fields [traceparent] and [baggage] *)

Record demo_context := { dx_traceparent : rstring; dx_baggage : option rstring; dx_remote : bool }.
Global Instance demo_propagator : Propagator demo_context := {
  field_names := [str "traceparent"; str "baggage"];
  injected c := (str "traceparent", dx_traceparent c) ::
    match dx_baggage c with Some baggage => [(str "baggage", baggage)] | None => [] end;
  extract get _ := {| dx_traceparent := default [] (get (str "traceparent")); dx_baggage := get (str "baggage");
                      dx_remote := true |};
  remote c := {| dx_traceparent := dx_traceparent c; dx_baggage := dx_baggage c; dx_remote := true |};
}.
Global Instance demo_propagator_laws : PropagatorLaws demo_context.
Proof.
  split.
  - intros [tp [b|] r]; split; cbn -[str]; repeat constructor; try set_solver.
    all: intros H; apply list_elem_of_singleton in H; discriminate H.
  - intros [tp b r] get keys Hget. cbn -[str].
    rewrite (Hget (str "traceparent")), (Hget (str "baggage")) by set_solver. cbn -[str].
    rewrite lookup_insert_eq. cbn -[str]. f_equal. rewrite lookup_insert_ne by discriminate.
    destruct b; cbn -[str]; [by rewrite lookup_insert_eq|by rewrite lookup_empty].
Qed.

Definition demo_producer : demo_context :=
  {| dx_traceparent := str "00-4bf9-00f0-01"; dx_baggage := Some (str "tenant=acme"); dx_remote := false |}.
Definition demo_request : EnqueueRequest := {|
  er_task_name := str "mail"; er_handler_version := 1; er_payload := VNull; er_queue_name := str "default";
  er_run_at := None; er_priority := 0; er_max_attempts := 5; er_idempotency_key := None;
  er_headers := [(str "application", VString (str "kept"))] |}.
Definition demo_traced : Db := (Store.enqueue (injected demo_producer) (demo_env 10 100) demo_request empty_db).1.
Definition demo_claimed : Db := run demo_claim (demo_env 20 200) demo_traced.

Lemma trace_context_reaches_handler_witness :
  exists task, Task_try_from (task_row (100, demo_row demo_claimed)) = Ok task /\
    set_parent_from_headers (t_headers task)
    = {| dx_traceparent := str "00-4bf9-00f0-01"; dx_baggage := Some (str "tenant=acme"); dx_remote := true |} /\
    forall k, k ∉ field_names (Context := demo_context) ->
      map_get k (t_headers task) = map_get k [(str "application", VString (str "kept"))].
Proof.
  assert (exists task, Task_try_from (task_row (100, demo_row demo_claimed)) = Ok task) as [task Htask]
    by (eexists; vm_compute; reflexivity).
  exists task. split; [exact Htask|].
  refine (trace_context_reaches_handler demo_producer (demo_env 10 100) demo_request empty_db demo_traced
           {| eres_task_id := 100; eres_created := true |} demo_claimed (demo_row demo_claimed) task _ _ _ _ _ _ Htask).
  - intros id t H. vm_compute in H. discriminate H.
  - intros k Hk. left. exact Hk.
  - vm_compute. reflexivity.
  - reflexivity.
  - apply rtc_once. exists demo_claim, (demo_env 20 200). vm_compute. reflexivity.
  - vm_compute. reflexivity.
Defined.
