(* ===== verification/Registry.v ===== *)
(** Handlers and their durable calls: [pgtask-worker/src/registry.rs].

    A handler body is a computation on the database that fails with a
    [HandlerError]; the durable calls of [TaskContext] are such computations,
    built from the methods of the [Store].  The text of a [PostgresError] and of
    a [timestamptz] are parameters.  [cancelled] is what the cancellation token
    answers when [step] asks it. *)

From S2P Require Import Prelude Text Identifier Json Retry TaskTypes Rows Tables Protocol Store.

(** ** Handler errors *)

Inductive HandlerControl : Type := ControlFailure | ControlSuspended.
Global Instance HandlerControl_eq_dec : EqDecision HandlerControl.
Proof. solve_decision. Defined.

Record HandlerError := {
  he_error : Value;
  he_retryable : bool;
  he_control : HandlerControl;
}.

Definition failure (kind message : rstring) (retryable : bool) : HandlerError := {|
  he_error := VObject (map_collect [(str "type", VString kind); (str "message", VString message);
                                    (str "retryable", VBool retryable)]);
  he_retryable := retryable;
  he_control := ControlFailure;
|}.
Definition HandlerError_retryable (message : rstring) : HandlerError :=
  failure (str "handler_error") message true.
Definition HandlerError_terminal (message : rstring) : HandlerError :=
  failure (str "handler_error") message false.
Definition HandlerError_checkpoint (kind message : rstring) : HandlerError := failure kind message true.
Definition HandlerError_suspended : HandlerError := {|
  he_error := VObject [(str "type", VString (str "suspended"))];
  he_retryable := false;
  he_control := ControlSuspended;
|}.
Definition is_suspended (self : HandlerError) : bool := bool_decide (he_control self = ControlSuspended).

Definition lease_lost : HandlerError :=
  HandlerError_checkpoint (str "lease_lost") (str "task lease is no longer active").

(** ** Handler computations *)

Definition hio (A : Type) : Type := Db -> Db * result HandlerError A.
Global Instance hio_ret : MRet hio := fun A a d => (d, Ok a).
Global Instance hio_bind : MBind hio := fun A B k m d =>
  let (d', r) := m d in match r with Ok a => k a d' | Err error => (d', Err error) end.
Definition throw {A} (r : result HandlerError A) : hio A := fun d => (d, r).

Record TaskContext := {
  x_task_id : uuid;
  x_handler_version : Z;
  x_attempt : Z;
  x_lease_token : uuid;
}.

Definition TaskContext_new (task : Task) (lease_token : uuid) : TaskContext := {|
  x_task_id := t_id task; x_handler_version := t_handler_version task; x_attempt := t_attempt task;
  x_lease_token := lease_token |}.

Definition x_lease (x : TaskContext) : LeaseRenewal :=
  {| lr_task_id := x_task_id x; lr_attempt := x_attempt x; lr_lease_token := x_lease_token x |}.

Definition decode_signal_checkpoint (checkpoint : Value) : result HandlerError (option Value) :=
  match as_object checkpoint with
  | None => Err (HandlerError_terminal (str "signal checkpoint is not an object"))
  | Some fields =>
      match map_get (str "outcome") fields ≫= as_str with
      | Some outcome =>
          if bool_decide (outcome = str "signal")
          then match map_get (str "value") fields with
               | Some value => Ok (Some value)
               | None => Err (HandlerError_terminal (str "signal checkpoint has no value"))
               end
          else if bool_decide (outcome = str "timeout") then Ok None
          else Err (HandlerError_terminal (str "signal checkpoint has an invalid outcome"))
      | None => Err (HandlerError_terminal (str "signal checkpoint has an invalid outcome"))
      end
  end.

Section Context.
(** [error.to_string()], and the text of a [timestamptz] in JSON. *)
Context (error_text : PostgresError -> rstring) (timestamptz_text : time -> rstring).

(** [self.store....await.map_err(|error| HandlerError::checkpoint(kind, ...))]. *)
Definition store_call {A} (kind : rstring) (m : io A) : hio A := fun d =>
  let (d', r) := m d in
  (d', map_err (fun error => HandlerError_checkpoint kind (error_text error)) r).

Definition read_checkpoint (x : TaskContext) (step_name : rstring) (occurrence : Z)
    : hio (option Checkpoint) :=
  store_call (str "checkpoint_read_error")
    (get_checkpoint (x_task_id x) (x_handler_version x) step_name occurrence).

Definition step (cancelled : bool) (e : Env) (x : TaskContext) (step_name : rstring) (occurrence : Z)
    (operation : hio Value) : hio Value :=
  if cancelled then throw (Err lease_lost)
  else
    let? checkpoint := read_checkpoint x step_name occurrence in
    match checkpoint with
    | Some checkpoint => mret (cp_value checkpoint)
    | None =>
        let? value := operation in
        let? committed := store_call (str "checkpoint_write_error")
          (commit_checkpoint e (x_lease x) step_name occurrence value) in
        throw (ok_or lease_lost (option_map cp_value committed))
    end.

Definition checkpoint_exists (x : TaskContext) (step_name : rstring) (occurrence : Z) : hio bool :=
  let? checkpoint := read_checkpoint x step_name occurrence in
  mret (match checkpoint with Some _ => true | None => false end).

(** The part [sleep_until] and [sleep_for] share. *)
Definition sleep (x : TaskContext) (step_name : rstring) (occurrence : Z) (m : io (option time)) : hio unit :=
  let? exists_ := checkpoint_exists x step_name occurrence in
  if (exists_ : bool) then mret tt
  else
    let? wake_at := store_call (str "sleep_write_error") m in
    let? _ := throw (ok_or lease_lost wake_at) in
    throw (Err HandlerError_suspended).

Definition context_sleep_until (e : Env) (x : TaskContext) (step_name : rstring) (occurrence : Z)
    (wake_at : time) : hio unit :=
  sleep x step_name occurrence (sleep_until timestamptz_text e (x_lease x) step_name occurrence wake_at).

Definition context_sleep_for (e : Env) (x : TaskContext) (step_name : rstring) (occurrence duration : Z)
    : hio unit :=
  sleep x step_name occurrence (sleep_for timestamptz_text e (x_lease x) step_name occurrence duration).

Definition context_wait_for_signal (e : Env) (x : TaskContext) (step_name : rstring) (occurrence : Z)
    (signal_name : rstring) (signal_occurrence : Z) (timeout : option Z) : hio (option Value) :=
  let? checkpoint := read_checkpoint x step_name occurrence in
  match checkpoint with
  | Some checkpoint => throw (decode_signal_checkpoint (cp_value checkpoint))
  | None =>
      let? wait := store_call (str "signal_wait_error") (wait_for_signal e {|
        swr_lease := x_lease x; swr_step_name := step_name; swr_occurrence := occurrence;
        swr_signal_name := signal_name; swr_signal_occurrence := signal_occurrence;
        swr_timeout := timeout |}) in
      throw (match wait with
             | Some (WaitReady checkpoint) => decode_signal_checkpoint checkpoint
             | Some WaitWaiting => Err HandlerError_suspended
             | None => Err lease_lost
             end)
  end.

Definition context_wait_for_result (e : Env) (x : TaskContext) (step_name : rstring) (occurrence : Z)
    (result_task_id : uuid) (timeout : option Z) : hio Value :=
  let? checkpoint := read_checkpoint x step_name occurrence in
  match checkpoint with
  | Some checkpoint => mret (cp_value checkpoint)
  | None =>
      let? wait := store_call (str "result_wait_error") (wait_for_result e {|
        rwr_lease := x_lease x; rwr_step_name := step_name; rwr_occurrence := occurrence;
        rwr_result_task_id := result_task_id; rwr_timeout := timeout |}) in
      throw (match wait with
             | Some (WaitReady checkpoint) => Ok checkpoint
             | Some WaitWaiting => Err HandlerError_suspended
             | None => Err lease_lost
             end)
  end.

Definition context_spawn (context : list (rstring * rstring)) (e : Env) (x : TaskContext)
    (step_name : rstring) (occurrence : Z) (request : EnqueueRequest) : hio uuid :=
  let? row := store_call (str "child_spawn_error") (spawn_task context e {|
    spr_parent := x_lease x; spr_step_name := step_name; spr_occurrence := occurrence;
    spr_task := request |}) in
  throw (ok_or lease_lost (option_map eres_task_id row)).
End Context.

(** ** The registry *)

(** What awaiting a handler gives: its [Result], or a caught panic. *)
Inductive HandlerOutcome : Type :=
| Returned (result : Value)
| Raised (error : HandlerError)
| Panicked.

Record RegisteredHandler := {
  rh_function : Task -> TaskContext -> Db -> Db * HandlerOutcome;
  rh_retry_policy : RetryPolicy;
}.

Abbreviation HandlerRegistry := (gmap (list Z * Z) RegisteredHandler) (only parsing).

(** [register_durable]; [register] passes a function that ignores the context.
    True when the name and version were free. *)
Definition register_durable (task_name : rstring) (handler_version : Z) (retry_policy : RetryPolicy)
    (handler : Task -> TaskContext -> Db -> Db * HandlerOutcome) (self : HandlerRegistry)
    : HandlerRegistry * bool :=
  (<[(task_name, handler_version) := {| rh_function := handler; rh_retry_policy := retry_policy |}]> self,
   match self !! (task_name, handler_version) with None => true | Some _ => false end).
Definition register (task_name : rstring) (handler_version : Z) (retry_policy : RetryPolicy)
    (handler : Task -> Db -> Db * HandlerOutcome) (self : HandlerRegistry) : HandlerRegistry * bool :=
  register_durable task_name handler_version retry_policy (fun task _ => handler task) self.

Definition registry_capabilities (self : HandlerRegistry) : list (rstring * Z) :=
  map fst (map_to_list self).
Definition registrations (self : HandlerRegistry) : list (rstring * Z * RetryPolicy) :=
  map (fun kh => (kh.1, rh_retry_policy kh.2)) (map_to_list self).
Definition registry_get (self : HandlerRegistry) (task_name : rstring) (handler_version : Z)
    : option RegisteredHandler := self !! (task_name, handler_version).
