(* ===== verification/Durable.v ===== *)
(** Durable execution: checkpoints are written once, and a step that committed
    is replayed from its checkpoint by every later attempt.

    [keeps d d'] says that the checkpoints of [d] and the retry policies of its
    handlers are those of [d'] too; every call of the protocol keeps them
    (retention removes a task together with its checkpoints, and only then). *)

From S2P Require Import Prelude Text Identifier Json Retry TaskTypes.
From S2P Require Import Outcome Rows Tables Protocol Fleet Lifecycle Store Registry.

Definition keeps (d d' : Db) : Prop := checkpoints d ⊆ checkpoints d' /\ policies d ⊆ policies d'.

Global Instance keeps_preorder : PreOrder keeps.
Proof.
  unfold keeps. split; [intros d; done|]. intros a b c [? ?] [? ?].
  split; [by transitivity (checkpoints b)|by transitivity (policies b)].
Qed.

Create HintDb durable.

Lemma keeps_eq d d' : checkpoints d' = checkpoints d /\ policies d' = policies d -> keeps d d'.
Proof. unfold keeps. by intros [-> ->]. Qed.

Lemma foldM_keeps {A} (f : Db -> A -> result sqlstate Db) l : forall d d',
  (forall d a d', f d a = Ok d' -> keeps d d') -> foldM f d l = Ok d' -> keeps d d'.
Proof.
  induction l as [|a l IH]; intros d d' Hf H; cbn [foldM] in H; ok_inv; [done|].
  transitivity a0; eauto.
Qed.

Lemma foldl_keeps {A} (f : Db -> A -> Db) l : forall d,
  (forall d a, keeps d (f d a)) -> keeps d (foldl f d l).
Proof. induction l as [|a l IH]; intros d Hf; cbn; [done|]. transitivity (f d a); auto. Qed.

(** ** Triggers and shared parts *)

Lemma capacity_keeps old new queue d d' : enforce_queue_capacity old new queue d = Ok d' -> keeps d d'.
Proof. unfold enforce_queue_capacity, take_capacity. repeat case_match; intros; ok_inv; by apply keeps_eq. Qed.

Lemma update_task_keeps id old new d d' : update_task id old new d = Ok d' -> keeps d d'.
Proof. unfold update_task. intros H. ok_inv. by apply capacity_keeps in E. Qed.

Lemma insert_checkpoint_keeps now k v d d' v' : insert_checkpoint now k v d = Ok (d', v') -> keeps d d'.
Proof.
  unfold insert_checkpoint. intros H. ok_inv. destruct (checkpoints d !! k) eqn:E'; ok_inv; simplify_eq; [done|].
  split; [cbn; by apply insert_subseteq|done].
Qed.

Lemma wake_task_keeps now id d : keeps d (wake_task now id d).
Proof. apply keeps_eq. unfold wake_task. repeat case_match; done. Qed.

Lemma alter_attempt_keeps f id n d : keeps d (alter_attempt f id n d).
Proof. by apply keeps_eq. Qed.

Lemma cancel_rows_keeps now error l d d' : cancel_rows now error l d = Ok d' -> keeps d d'.
Proof.
  unfold cancel_rows. intros H. ok_inv. transitivity a.
  - eapply foldM_keeps; [|exact E]. intros ? [id t] ? ?. by eapply update_task_keeps.
  - apply foldl_keeps. intros ? [id t]. by apply keeps_eq.
Qed.

Lemma resolve_one_keeps now new d k d' : resolve_one now new d k = Ok d' -> keeps d d'.
Proof.
  unfold resolve_one. intros H. ok_inv. destruct a as [d1 v]. ok_inv. apply insert_checkpoint_keeps in E.
  transitivity d1; [done|]. apply (wake_task_keeps now (step_task k) d1).
Qed.

Lemma resolve_task_result_keeps now id new d d' : resolve_task_result now id new d = Ok d' -> keeps d d'.
Proof.
  unfold resolve_task_result. intros H. ok_inv. apply foldM_keeps in E; [done|].
  intros. by eapply resolve_one_keeps.
Qed.

Lemma manage_key_keeps now id old new d : keeps d (manage_idempotency_key now id old new d).
Proof. apply keeps_eq. unfold manage_idempotency_key, update_key. repeat case_match; done. Qed.

Lemma after_update_keeps fuel now id old new : forall d d',
  after_update fuel now id old new d = Ok d' -> keeps d d'.
Proof.
  revert id old new. induction fuel as [|fuel IH]; intros id old new d d' H; cbn in H.
  all: destruct (finishes old new); [|injection H as <-; apply manage_key_keeps].
  - by injection H as <-.
  - destruct (cancel_rows _ _ _ _) as [d1|] eqn:E1; [|done]. cbn [mbind result_bind] in H.
    destruct (foldM _ d1 _) as [d2|] eqn:E2; [|done]. cbn [mbind result_bind] in H.
    apply cancel_rows_keeps in E1. apply foldM_keeps in E2; [|intros ? [cid t] ? ?; by eapply IH].
    apply resolve_task_result_keeps in H. transitivity d1; [done|]. transitivity d2; [done|].
    etrans; [|exact H]. apply manage_key_keeps.
Qed.

Lemma update_rows_keeps now l between d d' :
  (forall d, keeps d (between d)) -> update_rows now l between d = Ok d' -> keeps d d'.
Proof.
  unfold update_rows. intros Hb H. ok_inv. transitivity a.
  - eapply foldM_keeps; [|exact E]. intros ? [[id o] n] ? ?. by eapply update_task_keeps.
  - transitivity (between a); [done|]. eapply foldM_keeps; [|exact H].
    intros ? [[id o] n] ? ?. by eapply after_update_keeps.
Qed.

Lemma finish_attempts_keeps f l d : keeps d (finish_attempts f l d).
Proof. apply foldl_keeps. intros ? [[id o] n]. by apply keeps_eq. Qed.

#[export] Hint Resolve finish_attempts_keeps alter_attempt_keeps wake_task_keeps : durable.

(** ** Each call *)

Lemma insert_task_keeps now id spec r mx d d' : insert_task now id spec r mx d = Ok d' -> keeps d d'.
Proof. unfold insert_task. intros H. ok_inv. by apply capacity_keeps in E. Qed.

Lemma ensure_queue_keeps now q d : keeps d (ensure_queue now q d).
Proof. apply keeps_eq. unfold ensure_queue. by case_match. Qed.

Lemma enqueue_keeps e tn p q v r pr mx key h d d' x :
  Protocol.enqueue e tn p q v r pr mx key h d = Ok (d', x) -> keeps d d'.
Proof.
  intros H. unfold Protocol.enqueue in H. ok_inv.
  destruct (match key with Some _ => _ | None => _ end) as [[d1 i] mine] eqn:Ek.
  transitivity d1.
  - transitivity (ensure_queue (e_now e) q d); [apply ensure_queue_keeps|].
    destruct key; [|by simplify_eq]. unfold reserve_key in Ek.
    repeat case_match; simplify_eq; by apply keeps_eq.
  - destruct mine; [|by simplify_eq].
    destruct (insert_task _ _ _ _ _ d1) eqn:Ei; cbn [mbind result_bind] in H; [|done].
    simplify_eq. by eapply insert_task_keeps.
Qed.

Lemma claim_keeps e q w caps limit ms d d' rows :
  Protocol.claim e q w caps limit ms d = Ok (d', rows) -> keeps d d'.
Proof.
  intros H. unfold Protocol.claim in H. ok_inv. simplify_eq. transitivity a.
  - by eapply update_rows_keeps; [|exact E0].
  - unfold insert_attempts in E1. eapply foldM_keeps; [|exact E1]. intros ? [[id o] n] ? Hx.
    case_match; ok_inv; by apply keeps_eq.
Qed.

Lemma renew_keeps e l ms d d' ids : Protocol.renew_leases e l ms d = Ok (d', ids) -> keeps d d'.
Proof.
  intros H. unfold Protocol.renew_leases in H. ok_inv. simplify_eq. apply foldl_keeps.
  intros ? [id t]. by apply keeps_eq.
Qed.

Lemma release_keeps e l d d' ids : release_tasks e l d = Ok (d', ids) -> keeps d d'.
Proof.
  intros H. unfold release_tasks in H. ok_inv. simplify_eq.
  eapply update_rows_keeps; [|exact E]. auto with durable.
Qed.

Lemma complete_tasks_keeps e l d d' r : complete_tasks e l d = Ok (d', r) -> keeps d d'.
Proof.
  intros H. unfold complete_tasks in H. ok_inv. simplify_eq.
  eapply update_rows_keeps; [|exact E2]. auto with durable.
Qed.

Lemma fail_tasks_keeps e l d d' r : fail_tasks e l d = Ok (d', r) -> keeps d d'.
Proof.
  intros H. unfold fail_tasks in H. ok_inv. simplify_eq.
  eapply update_rows_keeps; [|exact E2]. intros ?. apply foldl_keeps. intros. apply alter_attempt_keeps.
Qed.

Lemma recover_expired_keeps e q l d d' n : Protocol.recover_expired e q l d = Ok (d', n) -> keeps d d'.
Proof.
  intros H. unfold Protocol.recover_expired in H. ok_inv. simplify_eq.
  eapply update_rows_keeps; [|exact E]. auto with durable.
Qed.

Lemma cancel_outstanding_keeps e error id d d' r :
  cancel_outstanding e error id d = Ok (d', r) -> keeps d d'.
Proof.
  intros H. unfold cancel_outstanding in H. destruct (tasks d !! id) as [t|]; [|by simplify_eq].
  destruct (outstanding _); [|by simplify_eq]. ok_inv. simplify_eq.
  apply cancel_rows_keeps in E. apply after_update_keeps in E0. by transitivity a.
Qed.

Lemma admin_cancel_keeps e id actor d d' r : admin_cancel_task e id actor d = Ok (d', r) -> keeps d d'.
Proof.
  intros H. unfold admin_cancel_task in H. ok_inv. destruct a as [d1 [t|]]; ok_inv; simplify_eq.
  all: unfold cancel_task in *; match goal with H : cancel_outstanding _ _ _ _ = _ |- _ =>
    by apply cancel_outstanding_keeps in H end.
Qed.

Lemma admin_retry_keeps e id actor d d' r : admin_retry_task e id actor d = Ok (d', r) -> keeps d d'.
Proof.
  intros H. unfold admin_retry_task in H. ok_inv. repeat case_match; ok_inv; simplify_eq; try done.
  apply (update_rows_keeps _ _ (fun d => d)) in E0; done.
Qed.

Lemma park_keeps now lease t s r d d' : park now lease t s r d = Ok d' -> keeps d d'.
Proof.
  intros H. unfold park in H. ok_inv. transitivity a; [|by apply keeps_eq].
  by eapply (update_rows_keeps _ _ (fun d => d)); [|exact E].
Qed.

Lemma commit_checkpoint_keeps e lease step occ v d d' r :
  Protocol.commit_checkpoint e lease step occ v d = Ok (d', r) -> keeps d d'.
Proof.
  intros H. unfold Protocol.commit_checkpoint in H. ok_inv.
  destruct (active lease d); [|by simplify_eq]. ok_inv. destruct a0 as [d1 v1]. simplify_eq.
  by apply insert_checkpoint_keeps in E1.
Qed.

Lemma suspend_keeps text e lease step occ w ms d d' r :
  Protocol.suspend_task text e lease step occ w ms d = Ok (d', r) -> keeps d d'.
Proof.
  intros H. unfold Protocol.suspend_task in H. ok_inv.
  destruct (active lease d); [|by simplify_eq]. ok_inv.
  destruct (checkpoints d !! _); [by simplify_eq|]. ok_inv. destruct a as [d1 v]. ok_inv. simplify_eq.
  apply insert_checkpoint_keeps in E2. apply park_keeps in E3. by transitivity d1.
Qed.

Lemma arm_wait_keeps k w d d' : arm_wait k w d = Ok d' -> keeps d d'.
Proof. unfold arm_wait. case_match; intros; ok_inv. by apply keeps_eq. Qed.
Lemma arm_result_wait_keeps k w d d' : arm_result_wait k w d = Ok d' -> keeps d d'.
Proof. unfold arm_result_wait. case_match; intros; ok_inv. by apply keeps_eq. Qed.

Lemma wait_for_signal_keeps e lease step occ s so ms d d' r :
  Protocol.wait_for_signal e lease step occ s so ms d = Ok (d', r) -> keeps d d'.
Proof.
  intros H. unfold Protocol.wait_for_signal in H. ok_inv.
  destruct (active lease d); [|by simplify_eq]. destruct (checkpoints d !! _); [by simplify_eq|].
  destruct (signals d !! _); ok_inv.
  - destruct a as [d1 v]. simplify_eq. by apply insert_checkpoint_keeps in E1.
  - simplify_eq. apply arm_wait_keeps in E1. apply park_keeps in E2. by transitivity a.
Qed.

Lemma resolve_signal_wait_keeps now v o d k d' : resolve_signal_wait now v o d k = Ok d' -> keeps d d'.
Proof.
  unfold resolve_signal_wait. intros H. ok_inv. destruct a as [d1 v1]. ok_inv.
  apply insert_checkpoint_keeps in E. transitivity d1; [done|]. apply (wake_task_keeps now (step_task k) d1).
Qed.

Lemma emit_signal_keeps e id s occ v d d' r : Protocol.emit_signal e id s occ v d = Ok (d', r) -> keeps d d'.
Proof.
  intros H. unfold Protocol.emit_signal in H. ok_inv. simplify_eq.
  apply foldM_keeps in E3; [|intros; by eapply resolve_signal_wait_keeps].
  etrans; [|exact E3]. by apply keeps_eq.
Qed.

Lemma recover_wait_timeouts_keeps e l d d' n :
  Protocol.recover_wait_timeouts e l d = Ok (d', n) -> keeps d d'.
Proof.
  intros H. unfold Protocol.recover_wait_timeouts in H. ok_inv. simplify_eq.
  eapply foldM_keeps; [|exact E]. intros. by eapply resolve_signal_wait_keeps.
Qed.

Lemma wait_for_result_keeps e lease step occ child ms d d' r :
  Protocol.wait_for_result e lease step occ child ms d = Ok (d', r) -> keeps d d'.
Proof.
  intros H. unfold Protocol.wait_for_result in H. ok_inv.
  destruct (active lease d); [|by simplify_eq]. destruct (checkpoints d !! _); [by simplify_eq|].
  destruct (tasks d !! child); [|done]. ok_inv. destruct (is_terminal _); ok_inv.
  - destruct a as [d1 v]. simplify_eq. by apply insert_checkpoint_keeps in E3.
  - simplify_eq. apply arm_result_wait_keeps in E3. apply park_keeps in E4. by transitivity a.
Qed.

Lemma time_out_keeps e d k d' : time_out_result_wait e d k = Ok d' -> keeps d d'.
Proof.
  unfold time_out_result_wait. intros H. ok_inv. destruct a as [d1 v]. apply insert_checkpoint_keeps in E.
  transitivity d1; [done|]. destruct (rw_result_task <$> _).
  - ok_inv. destruct a as [d2 r]. ok_inv. apply cancel_outstanding_keeps in E0. etrans; [|exact E0].
    etrans; [|apply wake_task_keeps]. by apply keeps_eq.
  - ok_inv. etrans; [|apply wake_task_keeps]. by apply keeps_eq.
Qed.

Lemma recover_result_wait_timeouts_keeps e l d d' n :
  Protocol.recover_result_wait_timeouts e l d = Ok (d', n) -> keeps d d'.
Proof.
  intros H. unfold Protocol.recover_result_wait_timeouts in H. ok_inv. simplify_eq.
  eapply foldM_keeps; [|exact E]. intros. by eapply time_out_keeps.
Qed.

Lemma adopt_keeps parent child d d' : adopt parent child d = Ok d' -> keeps d d'.
Proof. unfold adopt. case_match; intros; ok_inv; by apply keeps_eq. Qed.

Lemma spawn_keeps e lease step occ tn p q v r pr mx h d d' x :
  Protocol.spawn_task e lease step occ tn p q v r pr mx h d = Ok (d', x) -> keeps d d'.
Proof.
  intros H. unfold Protocol.spawn_task in H. ok_inv.
  destruct (active lease d); [|by simplify_eq]. destruct (checkpoints d !! _) as [c|].
  - destruct (_ ≫= as_str); [|done]. ok_inv. simplify_eq. by apply adopt_keeps in E1.
  - ok_inv. destruct a1 as [d1 [child created]]. ok_inv. destruct a2 as [d3 v3]. simplify_eq.
    apply enqueue_keeps in E1. apply adopt_keeps in E3. apply insert_checkpoint_keeps in E5.
    transitivity d1; [done|]. etrans; [exact E3|done].
Qed.

Lemma put_schedule_keeps e r d d' r' : Protocol.put_schedule e r d = Ok (d', r') -> keeps d d'.
Proof.
  intros H. unfold Protocol.put_schedule in H. ok_inv.
  transitivity (ensure_queue (e_now e) (sr_queue_name r) d); [apply ensure_queue_keeps|].
  repeat case_match; ok_inv; simplify_eq; by apply keeps_eq.
Qed.

Lemma materialize_keeps e id x os next d d' n :
  materialize_schedule e id x os next d = Ok (d', n) -> keeps d d'.
Proof.
  intros H. unfold materialize_schedule in H. destruct (schedules d !! id); [|by simplify_eq].
  destruct (_ && _); [|by simplify_eq].
  assert (forall l d c d' c', foldM (insert_occurrence e s) (d, c) l = Ok (d', c') -> keeps d d') as Hf.
  { clear. induction l as [|[n o] l IH]; intros d c d' c' H; cbn [foldM] in H; [by simplify_eq|].
    destruct (insert_occurrence _ _ _ _) as [[d1 c1]|] eqn:E; cbn [mbind result_bind] in H; [|done].
    transitivity d1; [|by eapply IH]. cbn [insert_occurrence] in E.
    case_match; ok_inv; simplify_eq; [by eapply capacity_keeps | by eapply insert_task_keeps]. }
  apply Hf in H. etrans; [|exact H]. by apply keeps_eq.
Qed.

Lemma exec_keeps c e d d' : exec c e d = Ok d' -> keeps d d'.
Proof.
  intros H. destruct c; [apply fst_ok in H as [x H]..|].
  all: try (by eauto using enqueue_keeps, claim_keeps, renew_keeps, release_keeps, complete_tasks_keeps,
    fail_tasks_keeps, recover_expired_keeps, cancel_outstanding_keeps, admin_cancel_keeps,
    admin_retry_keeps, commit_checkpoint_keeps, suspend_keeps, wait_for_signal_keeps,
    emit_signal_keeps, recover_wait_timeouts_keeps, wait_for_result_keeps,
    recover_result_wait_timeouts_keeps, spawn_keeps, put_schedule_keeps, materialize_keeps).
  - unfold Protocol.put_queue in H. ok_inv. simplify_eq. by apply keeps_eq.
  - unfold Protocol.set_queue_paused in H. case_match; ok_inv; simplify_eq; by apply keeps_eq.
  - unfold Protocol.delete_expired_idempotency_keys in H. ok_inv. simplify_eq. by apply keeps_eq.
  - unfold Protocol.set_schedule_paused in H. case_match; ok_inv; simplify_eq; by apply keeps_eq.
  - unfold Protocol.delete_schedule in H. ok_inv. simplify_eq. by apply keeps_eq.
  - apply admin_set_schedule_paused_tables in H as [Ht Hc]. by apply keeps_eq.
  - pose proof (exec_fleet_policies _ _ _ _ H). apply exec_fleet_tables in H as (Ht & _ & Hc & _).
    split; [by rewrite Hc|done].
Qed.

Lemma calls_keep d d' : rtc call_step d d' -> keeps d d'.
Proof. induction 1 as [|d1 d2 d3 (c & e & H) _ IH]; [done|]. apply exec_keeps in H. by transitivity d2. Qed.

(** ** Steps *)

Lemma version_i32_inv v v' : version_i32 v = Ok v' -> v' = v.
Proof. intros H%ok_or_inv. by apply try_from_inv in H as [-> _]. Qed.
Lemma occurrence_i32_inv o o' : occurrence_i32 o = Ok o' -> o' = o.
Proof. intros H. by apply number_inv in H as [-> _]. Qed.

(** A call of the [Store] inside a handler. *)
Lemma bind_store_call {A B} text kind (m : io A) (k : A -> hio B) d :
  mbind k (store_call text kind m) d =
    match m d with
    | (d', Ok a) => k a d'
    | (d', Err error) => (d', Err (HandlerError_checkpoint kind (text error)))
    end.
Proof. unfold store_call, mbind, hio_bind. by destruct (m d) as [d' [a|]]. Qed.

Definition step_key_of (x : TaskContext) (step_name : rstring) (occurrence : Z) : StepKey :=
  (x_task_id x, x_handler_version x, step_name, occurrence).

(** Reading a checkpoint depends on the row alone. *)
Lemma get_checkpoint_cases x name occ d :
  match get_checkpoint (x_task_id x) (x_handler_version x) name occ d with
  | (d', Ok r) => d' = d /\ version_i32 (x_handler_version x) = Ok (x_handler_version x) /\
      occurrence_i32 occ = Ok occ /\
      convert_optional Checkpoint_try_from
        (checkpoint_row (step_key_of x name occ) <$> checkpoints d !! step_key_of x name occ) = Ok r
  | (d', Err _) => d' = d
  end.
Proof.
  unfold get_checkpoint. autorewrite with store.
  destruct (version_i32 (x_handler_version x)) as [v|] eqn:Ev; [|done].
  pose proof (version_i32_inv _ _ Ev) as ->. autorewrite with store.
  destruct (occurrence_i32 occ) as [o|] eqn:Eo; [|done]. pose proof (occurrence_i32_inv _ _ Eo) as ->.
  autorewrite with store. unfold lift, Protocol.get_checkpoint, step_key_of.
  by destruct (convert_optional _ _).
Qed.

Lemma replay_step text e x name occ operation d c v :
  version_i32 (x_handler_version x) = Ok (x_handler_version x) -> occurrence_i32 occ = Ok occ ->
  checkpoints d !! step_key_of x name occ = Some c ->
  Checkpoint_try_from (checkpoint_row (step_key_of x name occ) c) = Ok v ->
  step text false e x name occ operation d = (d, Ok (cp_value v)).
Proof.
  intros Hv Ho Hc Hconv. unfold step, read_checkpoint. rewrite bind_store_call.
  unfold get_checkpoint. autorewrite with store. rewrite Hv. autorewrite with store. rewrite Ho.
  autorewrite with store. unfold Protocol.get_checkpoint. fold (step_key_of x name occ). rewrite Hc.
  unfold lift, convert_optional. cbn [fmap option_fmap option_map]. by rewrite Hconv.
Qed.

(** What a step that returned left in the table. *)
Lemma step_committed text e x name occ operation d d' v t :
  wf d -> tasks d !! x_task_id x = Some t -> sp_handler_version (k_spec t) = x_handler_version x ->
  (forall d, rtc call_step d (operation d).1) ->
  step text false e x name occ operation d = (d', Ok v) ->
  version_i32 (x_handler_version x) = Ok (x_handler_version x) /\ occurrence_i32 occ = Ok occ /\
  exists c cp, checkpoints d' !! step_key_of x name occ = Some c /\
    Checkpoint_try_from (checkpoint_row (step_key_of x name occ) c) = Ok cp /\ cp_value cp = v.
Proof.
  intros Hwf Ht Hver Hop H. unfold step, read_checkpoint in H. rewrite bind_store_call in H.
  pose proof (get_checkpoint_cases x name occ d) as Hg.
  destruct (get_checkpoint _ _ _ _ d) as [d0 [r|]]; [|done]. destruct Hg as (-> & Hv & Ho & Hconv).
  split; [done|]. split; [done|]. destruct r as [cp|].
  - destruct (checkpoints d !! _) as [c|] eqn:Ec; [|done].
    unfold convert_optional in Hconv. cbn [fmap option_fmap option_map] in Hconv.
    destruct (Checkpoint_try_from _) as [cp'|] eqn:Ecp; [|done]. cbn in Hconv. simplify_eq.
    injection H as <- <-. eauto.
  - unfold mbind at 1, hio_bind at 1 in H. specialize (Hop d).
    destruct (operation d) as [d1 [value|]] eqn:Eop; [|done]. rewrite bind_store_call in H.
    pose proof (calls_grow _ _ Hop Hwf (x_task_id x)) as Hg. rewrite Ht in Hg.
    destruct Hg as (t1 & Ht1 & (_ & Hs & _)). cbn [fst] in Ht1.
    unfold commit_checkpoint in H. autorewrite with store in H. rewrite Ho in H. autorewrite with store in H.
    destruct (Protocol.commit_checkpoint _ _ _ _ _ d1) as [[d2 row]|] eqn:E; [|done].
    unfold Protocol.commit_checkpoint in E. ok_inv. destruct (active (x_lease x) d1) as [t2|] eqn:Ea.
    2: { by simplify_eq. }
    apply active_spec in Ea as [Ht2 _]. cbn [x_lease lr_task_id] in Ht2.
    ok_inv. destruct a0 as [d3 v3]. injection E as <- <-. unfold step_key in H.
    cbn [x_lease lr_task_id] in H. replace t2 with t1 in H by congruence. rewrite Hs, Hver in H.
    fold (step_key_of x name occ) in H.
    destruct (checkpoints d3 !! step_key_of x name occ) as [c|] eqn:Ec; [|done].
    unfold lift, convert_optional in H. cbn [fmap option_fmap option_map fst snd] in H.
    destruct (Checkpoint_try_from _) as [cp|] eqn:Ecp; [|done]. cbn in H. injection H as <- <-. eauto.
Qed.

(** Claim C6.  A step runs its operation until it commits, and never again.
    Once [TaskContext::step] has returned a value, every later call of the same
    step and occurrence, from any attempt of the task, whatever operation it is
    given and whatever calls of the protocol came between, returns that value
    without running the operation and without touching the database. *)
Theorem step_is_replayed text e e' x x' name occ operation operation' d d' d'' v t :
  wf d -> tasks d !! x_task_id x = Some t -> sp_handler_version (k_spec t) = x_handler_version x ->
  (forall d, rtc call_step d (operation d).1) ->
  step text false e x name occ operation d = (d', Ok v) ->
  rtc call_step d' d'' ->
  x_task_id x' = x_task_id x -> x_handler_version x' = x_handler_version x ->
  step text false e' x' name occ operation' d'' = (d'', Ok v).
Proof.
  intros Hwf Ht Hver Hop H Hcalls Hid Hv'.
  destruct (step_committed _ _ _ _ _ _ _ _ _ _ Hwf Ht Hver Hop H) as (Hv & Ho & c & cp & Hc & Hconv & <-).
  apply calls_keep in Hcalls.
  assert (step_key_of x' name occ = step_key_of x name occ) as Hk by (unfold step_key_of; congruence).
  apply (replay_step text e' x' name occ operation' d'' c); rewrite ?Hv', ?Hk; try done.
  destruct Hcalls as [Hcalls _]. by eapply lookup_weaken.
Qed.

(** ** Witness: the attempt after a lost lease replays the first one's step *)

Definition demo_context1 : TaskContext :=
  {| x_task_id := 100; x_handler_version := 1; x_attempt := 1; x_lease_token := 200 |}.
Definition demo_context2 : TaskContext :=
  {| x_task_id := 100; x_handler_version := 1; x_attempt := 2; x_lease_token := 400 |}.
Definition demo_text (error : PostgresError) : rstring := [].
Definition demo_operation (v : Value) : hio Value := mret v.
Definition demo_step (x : TaskContext) (now : Z) (v : Value) (d : Db) : Db * result HandlerError Value :=
  step demo_text false (demo_env now 0) x (str "charge") 0 (demo_operation v) d.

Lemma step_is_replayed_witness :
  demo_step demo_context2 60 VNull (run (CRelease [demo_lease]) (demo_env 40 0)
      (demo_step demo_context1 30 (VBool true) demo2).1)
  = (run (CRelease [demo_lease]) (demo_env 40 0) (demo_step demo_context1 30 (VBool true) demo2).1,
     Ok (VBool true)).
Proof.
  apply (step_is_replayed demo_text (demo_env 30 0) (demo_env 60 0) demo_context1 demo_context2
           (str "charge") 0 (demo_operation (VBool true)) (demo_operation VNull) demo2
           (demo_step demo_context1 30 (VBool true) demo2).1
           (run (CRelease [demo_lease]) (demo_env 40 0) (demo_step demo_context1 30 (VBool true) demo2).1)
           (VBool true) (demo_row demo2)).
  - apply demo_wf.
  - vm_compute. reflexivity.
  - vm_compute. reflexivity.
  - intros d. apply rtc_refl.
  - vm_compute. reflexivity.
  - apply rtc_once. exists (CRelease [demo_lease]), (demo_env 40 0). vm_compute. reflexivity.
  - reflexivity.
  - reflexivity.
Defined.
