(* ===== verification/Control.v ===== *)
(** Worker configuration and admission: the configuration types, [Worker::new]
    and [WorkerControl] of [pgtask-worker/src/runtime.rs].

    A [NonZeroU16] is the number; its field invariant is [wf_nonzero].  The two
    atomics of [WorkerControl] are its state. *)

From S2P Require Import Prelude Text Identifier Json Retry TaskTypes Schedule Rows Registry.

Definition wf_nonzero (n : Z) : Prop := 1 <= n <= u16_max.

Record OverloadProtectionConfig := {
  op_enabled : bool;
  op_enforce : bool;
  op_event_loop_lag_threshold : Z;
  op_sustained_samples : Z;
  op_recovery_samples : Z;
  op_minimum_concurrency : Z;
}.

Definition OverloadProtectionConfig_default : OverloadProtectionConfig := {|
  op_enabled := true;
  op_enforce := false;
  op_event_loop_lag_threshold := from_millis 250;
  op_sustained_samples := 3;
  op_recovery_samples := 5;
  op_minimum_concurrency := 1;
|}.

(** The health address is only passed on to the HTTP server. *)
Record WorkerConfig := {
  cf_queues : list rstring;
  cf_concurrency : Z;
  cf_claim_batch_size : Z;
  cf_recovery_batch_size : Z;
  cf_lease_duration : Z;
  cf_poll_interval : Z;
  cf_shutdown_grace : Z;
  cf_worker_heartbeat_interval : Z;
  cf_worker_ttl : Z;
  cf_scheduler_enabled : bool;
  cf_schedule_batch_size : Z;
  cf_wait_batch_size : Z;
  cf_schedule_reconciliation_interval : Z;
  cf_retention_enabled : bool;
  cf_retention_batch_size : Z;
  cf_retention_interval : Z;
  cf_expired_worker_retention : Z;
  cf_declared_schedules : list ScheduleConfig;
  cf_supervisor_interval : Z;
  cf_overload_protection : OverloadProtectionConfig;
}.

Definition WorkerConfig_with_queues (queues : list rstring) : WorkerConfig := {|
  cf_queues := queues;
  cf_concurrency := 10;
  cf_claim_batch_size := 10;
  cf_recovery_batch_size := 10;
  cf_lease_duration := from_secs 30;
  cf_poll_interval := from_secs 30;
  cf_shutdown_grace := from_secs 30;
  cf_worker_heartbeat_interval := from_secs 10;
  cf_worker_ttl := from_secs 30;
  cf_scheduler_enabled := true;
  cf_schedule_batch_size := 100;
  cf_wait_batch_size := 100;
  cf_schedule_reconciliation_interval := from_secs 30;
  cf_retention_enabled := true;
  cf_retention_batch_size := 100;
  cf_retention_interval := from_mins 1;
  cf_expired_worker_retention := from_hours 24;
  cf_declared_schedules := [];
  cf_supervisor_interval := from_secs 1;
  cf_overload_protection := OverloadProtectionConfig_default;
|}.
Definition WorkerConfig_new (queue_name : rstring) : WorkerConfig := WorkerConfig_with_queues [queue_name].

Inductive WorkerError : Type :=
| Postgres (error : PostgresError)
| WInvalidLeaseDuration
| InvalidPollInterval
| InvalidWorkerHeartbeat
| InvalidScheduleReconciliationInterval
| InvalidRetentionInterval
| InvalidSupervisorInterval
| InvalidMinimumConcurrency
| SupervisorError
| WIncompatibleStorageProtocol (database_minimum database_maximum worker_minimum worker_maximum : Z)
| MissingHandlers
| WMissingQueues
| DuplicateQueues
| AdmissionLimitExceedsConfigured (requested configured : Z)
| InvalidDeclaredSchedule (name : rstring)
| MissingLeaseToken (task_id : uuid)
| MissingHandler.

(** ** Admission *)

Record WorkerControl := {
  wc_configured : Z;
  wc_effective : Z;
  wc_proposed : Z;
}.

Definition apply_effective_concurrency (limit : Z) (self : WorkerControl) : result WorkerError WorkerControl :=
  if wc_configured self <? limit
  then Err (AdmissionLimitExceedsConfigured limit (wc_configured self))
  else Ok {| wc_configured := wc_configured self; wc_effective := limit; wc_proposed := wc_proposed self |}.
Definition set_effective_concurrency : Z -> WorkerControl -> result WorkerError WorkerControl :=
  apply_effective_concurrency.
Definition record_proposed_concurrency (limit : Z) (self : WorkerControl) : WorkerControl := {|
  wc_configured := wc_configured self; wc_effective := wc_effective self; wc_proposed := limit |}.

(** ** [Worker::new] *)

(** [queues[..index].contains(queue)] for some index. *)
Fixpoint has_duplicate_queues (seen queues : list rstring) : bool :=
  match queues with
  | [] => false
  | queue :: queues' => bool_decide (queue ∈ seen) || has_duplicate_queues (seen ++ [queue]) queues'
  end.

Definition invalid_schedule (registry : HandlerRegistry) (config : WorkerConfig) (s : ScheduleConfig) : bool :=
  negb (bool_decide (er_queue_name (sc_task s) ∈ cf_queues config))
  || match registry_get registry (er_task_name (sc_task s)) (er_handler_version (sc_task s)) with
     | None => true
     | Some _ => false
     end.

(** The checks of [Worker::new] and the control it starts with; the rest of the
    worker is its arguments. *)
Definition Worker_new (registry : HandlerRegistry) (config : WorkerConfig) : result WorkerError WorkerControl :=
  if cf_lease_duration config <? from_millis 3 then Err WInvalidLeaseDuration
  else if is_zero (cf_poll_interval config) then Err InvalidPollInterval
  else if (cf_worker_heartbeat_interval config <? from_millis 1)
          || (cf_worker_ttl config <=? cf_worker_heartbeat_interval config) then Err InvalidWorkerHeartbeat
  else if is_zero (cf_schedule_reconciliation_interval config)
    then Err InvalidScheduleReconciliationInterval
  else if is_zero (cf_retention_interval config) then Err InvalidRetentionInterval
  else if is_zero (cf_supervisor_interval config) then Err InvalidSupervisorInterval
  else if cf_concurrency config <? op_minimum_concurrency (cf_overload_protection config)
    then Err InvalidMinimumConcurrency
  else if bool_decide (registry_capabilities registry = []) then Err MissingHandlers
  else if bool_decide (cf_queues config = []) then Err WMissingQueues
  else if has_duplicate_queues [] (cf_queues config) then Err DuplicateQueues
  else match find (invalid_schedule registry config) (cf_declared_schedules config) with
       | Some schedule => Err (InvalidDeclaredSchedule (sc_name schedule))
       | None => Ok {| wc_configured := cf_concurrency config; wc_effective := cf_concurrency config;
                       wc_proposed := cf_concurrency config |}
       end.

(** What [Worker::new] guarantees of the control, and every later change of it
    keeps. *)
Definition wf_control (c : WorkerControl) : Prop :=
  wc_configured c <= u16_max /\ 1 <= wc_effective c <= wc_configured c /\
  1 <= wc_proposed c <= wc_configured c.

Lemma has_duplicate_queues_spec queues : forall seen,
  has_duplicate_queues seen queues = false <-> NoDup queues /\ (forall q, q ∈ queues -> q ∉ seen).
Proof.
  induction queues as [|q queues IH]; intros seen; cbn [has_duplicate_queues].
  { split; [|done]. intros _. split; [constructor|]. by intros ? ?%not_elem_of_nil. }
  rewrite orb_false_iff, bool_decide_eq_false, IH, NoDup_cons. split.
  - intros (Hq & Hnd & Hseen). split_and!; [|done|].
    + intros Hin. apply (Hseen q Hin). set_solver.
    + intros p [->|Hp]%elem_of_cons; [done|]. specialize (Hseen p Hp). set_solver.
  - intros ((Hni & Hnd) & Hseen). split_and!; [apply Hseen; set_solver|done|].
    intros p Hp [Hs|Hs]%elem_of_app; [apply (Hseen p); set_solver|].
    apply list_elem_of_singleton in Hs as ->. done.
Qed.

Lemma apply_keeps_control limit c c' :
  wf_control c -> 1 <= limit -> apply_effective_concurrency limit c = Ok c' ->
  wf_control c' /\ wc_effective c' = limit.
Proof.
  unfold apply_effective_concurrency, wf_control. case_Z; intros (? & ? & ?) ?; [done|]. intros [= <-].
  cbn. split_and!; [lia..|done].
Qed.
