(* ===== verification/Health.v ===== *)
(** Worker health and overload protection: [pgtask-worker/src/health.rs].

    An [Instant] is a number of nanoseconds; the methods that read the clock
    take it as an argument.  [observe] updates the detector and the shared
    [WorkerControl]; [None] is a panic of one of its [expect]s. *)

From S2P Require Import Prelude Text Control.

(** ** Health *)

Record HealthState := {
  hs_admission : bool;
  hs_database : bool;
  hs_listener : bool;
  hs_lease_renewal : bool;
  hs_active_leases : bool;
  hs_runtime_progress : Z;
  hs_last_lease_renewal : Z;
}.

Definition Health_new (now : Z) : HealthState := {|
  hs_admission := false; hs_database := false; hs_listener := false; hs_lease_renewal := true;
  hs_active_leases := false; hs_runtime_progress := now; hs_last_lease_renewal := now |}.

Definition set_admission (healthy : bool) (h : HealthState) : HealthState := {|
  hs_admission := healthy; hs_database := hs_database h; hs_listener := hs_listener h;
  hs_lease_renewal := hs_lease_renewal h; hs_active_leases := hs_active_leases h;
  hs_runtime_progress := hs_runtime_progress h; hs_last_lease_renewal := hs_last_lease_renewal h |}.
Definition set_database (healthy : bool) (h : HealthState) : HealthState := {|
  hs_admission := hs_admission h; hs_database := healthy; hs_listener := hs_listener h;
  hs_lease_renewal := hs_lease_renewal h; hs_active_leases := hs_active_leases h;
  hs_runtime_progress := hs_runtime_progress h; hs_last_lease_renewal := hs_last_lease_renewal h |}.
Definition set_listener (healthy : bool) (h : HealthState) : HealthState := {|
  hs_admission := hs_admission h; hs_database := hs_database h; hs_listener := healthy;
  hs_lease_renewal := hs_lease_renewal h; hs_active_leases := hs_active_leases h;
  hs_runtime_progress := hs_runtime_progress h; hs_last_lease_renewal := hs_last_lease_renewal h |}.
Definition set_active_leases (active : bool) (h : HealthState) : HealthState := {|
  hs_admission := hs_admission h; hs_database := hs_database h; hs_listener := hs_listener h;
  hs_lease_renewal := if active then hs_lease_renewal h else true; hs_active_leases := active;
  hs_runtime_progress := hs_runtime_progress h; hs_last_lease_renewal := hs_last_lease_renewal h |}.
Definition record_lease_renewal (now : Z) (healthy : bool) (h : HealthState) : HealthState := {|
  hs_admission := hs_admission h; hs_database := hs_database h; hs_listener := hs_listener h;
  hs_lease_renewal := healthy; hs_active_leases := hs_active_leases h;
  hs_runtime_progress := hs_runtime_progress h;
  hs_last_lease_renewal := if healthy then now else hs_last_lease_renewal h |}.
Definition record_runtime_progress (now : Z) (h : HealthState) : HealthState := {|
  hs_admission := hs_admission h; hs_database := hs_database h; hs_listener := hs_listener h;
  hs_lease_renewal := hs_lease_renewal h; hs_active_leases := hs_active_leases h;
  hs_runtime_progress := now; hs_last_lease_renewal := hs_last_lease_renewal h |}.

Definition ready (h : HealthState) : bool :=
  hs_admission h && hs_database h && hs_listener h && hs_lease_renewal h.

Record HealthObservation := {
  ho_active_leases : bool;
  ho_database : bool;
  ho_lease_renewal : bool;
  ho_lease_renewal_age : Z;
  ho_runtime_lag : Z;
}.

(** [Instant::elapsed] and [Duration::saturating_sub] do not go below zero. *)
Definition record_metrics (now interval : Z) (h : HealthState) : HealthObservation :=
  let runtime_age := Z.max (now - hs_runtime_progress h) 0 in {|
  ho_active_leases := hs_active_leases h;
  ho_database := hs_database h;
  ho_lease_renewal := hs_lease_renewal h;
  ho_lease_renewal_age := if hs_active_leases h then Z.max (now - hs_last_lease_renewal h) 0 else 0;
  ho_runtime_lag := Z.max (runtime_age - interval) 0;
|}.

(** ** Overload protection *)

Record OverloadDetector := { od_lag_samples : Z; od_recovery_samples : Z }.
Definition detector_start : OverloadDetector := {| od_lag_samples := 0; od_recovery_samples := 0 |}.

(** The [reason] an observation gives, with the lag counter already updated. *)
Definition overload_reason (config : OverloadProtectionConfig) (lease_renewal_threshold lag_samples : Z)
    (o : HealthObservation) : option rstring :=
  if negb (ho_database o) then Some (str "database_unavailable")
  else if ho_active_leases o
          && (negb (ho_lease_renewal o) || (lease_renewal_threshold <=? ho_lease_renewal_age o))
  then Some (str "lease_renewal_late")
  else if op_sustained_samples config <=? lag_samples then Some (str "event_loop_lag")
  else None.

Definition observe (config : OverloadProtectionConfig) (lease_renewal_threshold : Z) (o : HealthObservation)
    (st : OverloadDetector * WorkerControl) : option (OverloadDetector * WorkerControl) :=
  let '(self, control) := st in
  if negb (op_enabled config) then Some (self, control)
  else
    let lag_samples :=
      if op_event_loop_lag_threshold config <=? ho_runtime_lag o
      then u16_saturating_add (od_lag_samples self) 1 else 0 in
    let reason := overload_reason config lease_renewal_threshold lag_samples o in
    let recovery_samples :=
      match reason with
      | Some _ => 0
      | None => u16_saturating_add (od_recovery_samples self) 1
      end in
    let self := {| od_lag_samples := lag_samples; od_recovery_samples := recovery_samples |} in
    if match reason with Some _ => false | None => recovery_samples <? op_recovery_samples config end
    then Some (self, control)
    else
      let effective := wc_effective control in
      let proposed :=
        match reason with
        | None => Z.min (u16_saturating_add effective 1) (wc_configured control)
        | Some _ => Z.max (effective / 2) (op_minimum_concurrency config)
        end in
      match nonzero proposed with
      | None => None
      | Some proposed =>
          let control := record_proposed_concurrency proposed control in
          if op_enforce config then
            match apply_effective_concurrency proposed control with
            | Ok control => Some (self, control)
            | Err _ => None
            end
          else Some (self, control)
      end.

(** The sampler's loop over a list of observations. *)
Fixpoint observe_all (config : OverloadProtectionConfig) (lease_renewal_threshold : Z)
    (l : list HealthObservation) (st : OverloadDetector * WorkerControl)
    : option (OverloadDetector * WorkerControl) :=
  match l with
  | [] => Some st
  | o :: l' => match observe config lease_renewal_threshold o st with
               | Some st' => observe_all config lease_renewal_threshold l' st'
               | None => None
               end
  end.

(** ** Properties *)

Section Overload.
Context (config : OverloadProtectionConfig) (threshold : Z).
Hypothesis Hmin : wf_nonzero (op_minimum_concurrency config).

(** Whether an observation counts as an overload, given the samples so far. *)
Definition overloaded (self : OverloadDetector) (o : HealthObservation) : bool :=
  let lag_samples :=
    if op_event_loop_lag_threshold config <=? ho_runtime_lag o
    then u16_saturating_add (od_lag_samples self) 1 else 0 in
  match overload_reason config threshold lag_samples o with Some _ => true | None => false end.

(** The detector never panics and never leaves the admission range:
    on every observation, with the minimum [Worker::new] checked, [observe]
    succeeds, the effective limit stays between 1 and the configured
    concurrency, changes only when enforcement is on, rises by at most one
    when the observation is not an overload, and on an overload is exactly
    half of what it was, or the configured minimum. *)
Theorem observe_stays_in_range o self c :
  wf_control c -> op_minimum_concurrency config <= wc_configured c ->
  exists self' c', observe config threshold o (self, c) = Some (self', c') /\
    wf_control c' /\ wc_configured c' = wc_configured c /\
    (op_enabled config && op_enforce config = false -> wc_effective c' = wc_effective c) /\
    (overloaded self o = false -> wc_effective c <= wc_effective c' <= wc_effective c + 1) /\
    (op_enabled config && op_enforce config = true -> overloaded self o = true ->
     wc_effective c' = Z.max (wc_effective c / 2) (op_minimum_concurrency config)).
Proof using Hmin.
  intros Hc Hm. unfold observe, overloaded. destruct (op_enabled config); cbn [negb andb];
    [|exists self, c; split_and!; done || lia].
  set (lag := if _ <=? _ then _ else _). pose proof Hc as (Hu & He & Hp). unfold wf_nonzero in Hmin.
  set (reason := overload_reason config threshold lag o).
  set (recovery := match reason with Some _ => 0 | None => _ end).
  destruct (match reason with Some _ => false | None => _ end) eqn:Er.
  { eexists _, c. split; [reflexivity|]. destruct reason; [done|]. split_and!; done || lia. }
  set (proposed := match reason with Some _ => _ | None => _ end).
  assert (1 <= proposed <= wc_configured c) as Hpr.
  { unfold proposed. destruct reason.
    - pose proof (Z.div_le_upper_bound (wc_effective c) 2 (wc_effective c)). lia.
    - unfold u16_saturating_add, saturate. lia. }
  unfold nonzero. destruct (Z.eqb_spec proposed 0); [lia|].
  destruct (op_enforce config).
  - unfold apply_effective_concurrency. cbn [record_proposed_concurrency wc_configured].
    destruct (Z.ltb_spec (wc_configured c) proposed); [lia|]. eexists _, _. split; [reflexivity|].
    unfold wf_control. cbn. split_and!; try lia; try done.
    + unfold proposed, u16_saturating_add, saturate. destruct reason; [done|]. lia.
    + intros _. unfold proposed. destruct reason; done.
  - eexists _, _. split; [reflexivity|]. unfold wf_control. cbn. split_and!; done || lia.
Qed.

(** The distance of a state from the configured limit, in healthy samples. *)
Definition recovery_distance (st : OverloadDetector * WorkerControl) : Z :=
  Z.max 0 (op_recovery_samples config - 1 - od_recovery_samples st.1)
  + (wc_configured st.2 - wc_effective st.2).

(** An observation without an overload and without lag. *)
Definition healthy (o : HealthObservation) : Prop :=
  overload_reason config threshold 0 o = None /\ ho_runtime_lag o < op_event_loop_lag_threshold config.

Lemma observe_healthy o self c :
  op_enabled config = true -> op_enforce config = true -> wf_nonzero (op_recovery_samples config) ->
  0 <= od_recovery_samples self <= u16_max -> wf_control c -> healthy o ->
  exists self' c', observe config threshold o (self, c) = Some (self', c') /\
    0 <= od_recovery_samples self' <= u16_max /\ wf_control c' /\ wc_configured c' = wc_configured c /\
    recovery_distance (self', c') <= Z.max 0 (recovery_distance (self, c) - 1).
Proof using Type.
  intros Hen Hef Hr Hs Hc [Ho Hlag]. unfold observe. rewrite Hen, Hef. cbn [negb].
  destruct (Z.leb_spec (op_event_loop_lag_threshold config) (ho_runtime_lag o)); [lia|]. rewrite Ho.
  set (recovery := u16_saturating_add (od_recovery_samples self) 1).
  assert (recovery = Z.min u16_max (od_recovery_samples self + 1)) as Hrec
    by (unfold recovery, u16_saturating_add, saturate; lia).
  pose proof Hc as (Hu & He & Hp). unfold wf_nonzero, u16_max in *. unfold recovery_distance. cbn [fst snd].
  destruct (Z.ltb_spec recovery (op_recovery_samples config)).
  { eexists _, c. split; [reflexivity|]. cbn. split_and!; try done; lia. }
  set (proposed := Z.min _ _).
  assert (proposed = Z.min (wc_effective c + 1) (wc_configured c)) as Hpr
    by (unfold proposed, u16_saturating_add, saturate, u16_max; lia).
  unfold nonzero. destruct (Z.eqb_spec proposed 0); [lia|].
  unfold apply_effective_concurrency. cbn [record_proposed_concurrency wc_configured].
  destruct (Z.ltb_spec (wc_configured c) proposed); [lia|]. eexists _, _. split; [reflexivity|].
  unfold wf_control, u16_max. cbn. split_and!; try done; lia.
Qed.

(** Protection lifts again: whatever an enforcing detector has
    reduced the limit to, a run of healthy samples as long as the recovery
    threshold and the missing concurrency together brings the worker back to
    its configured concurrency. *)
Theorem healthy_samples_restore_concurrency l self c :
  op_enabled config = true -> op_enforce config = true -> wf_nonzero (op_recovery_samples config) ->
  0 <= od_recovery_samples self <= u16_max -> wf_control c -> Forall healthy l ->
  op_recovery_samples config + (wc_configured c - wc_effective c) <= len l ->
  exists self' c', observe_all config threshold l (self, c) = Some (self', c') /\
    wc_effective c' = wc_configured c.
Proof using Type.
  intros Hen Hef Hr Hs Hc Hl Hlen.
  assert (recovery_distance (self, c) <= len l) as Hd.
  { unfold recovery_distance, wf_nonzero in *. cbn [fst snd]. lia. }
  clear Hlen. revert self c Hs Hc Hd. induction Hl as [|o l Ho Hl IH]; intros self c Hs Hc Hd.
  - exists self, c. split; [done|]. unfold recovery_distance in Hd. cbn [fst snd] in Hd.
    destruct Hc as (_ & ? & _). change (len []) with 0 in Hd. lia.
  - destruct (observe_healthy o self c Hen Hef Hr Hs Hc Ho) as (self1 & c1 & E & Hs1 & Hc1 & Hcf & Hd1).
    assert (len (o :: l) = 1 + len l) as Hn by (unfold len; simpl; lia). pose proof (len_nonneg l).
    destruct (IH self1 c1 Hs1 Hc1 ltac:(lia)) as (self' & c' & E' & Heff).
    exists self', c'. cbn [observe_all]. rewrite E. split; [done|]. congruence.
Qed.

(** An overload can raise the limit.  When an operator has set the
    effective concurrency below the configured minimum, the first overloaded
    sample of an enforcing detector moves it up to that minimum. *)
Theorem overload_raises_manual_limit o self c :
  op_enabled config = true -> op_enforce config = true -> wf_control c ->
  op_minimum_concurrency config <= wc_configured c ->
  wc_effective c < op_minimum_concurrency config -> overloaded self o = true ->
  exists self' c', observe config threshold o (self, c) = Some (self', c') /\
    wc_effective c' = op_minimum_concurrency config /\ wc_effective c < wc_effective c'.
Proof using Type.
  intros Hen Hef Hc Hm Hlow Ho. unfold observe, overloaded in *. rewrite Hen, Hef. cbn [negb].
  set (lag := if _ <=? _ then _ else _) in *.
  destruct (overload_reason config threshold lag o); [|done].
  destruct Hc as (? & ? & ?).
  assert (Z.max (wc_effective c / 2) (op_minimum_concurrency config) = op_minimum_concurrency config) as ->.
  { pose proof (Z.div_le_upper_bound (wc_effective c) 2 (wc_effective c)). lia. }
  unfold nonzero. destruct (Z.eqb_spec (op_minimum_concurrency config) 0); [lia|].
  unfold apply_effective_concurrency. cbn [record_proposed_concurrency wc_configured].
  destruct (Z.ltb_spec (wc_configured c) (op_minimum_concurrency config)); [lia|].
  eexists _, _. split; [reflexivity|]. cbn. lia.
Qed.
End Overload.

(** ** Witnesses *)

Definition demo_overload : OverloadProtectionConfig := {|
  op_enabled := true; op_enforce := true; op_event_loop_lag_threshold := from_millis 250;
  op_sustained_samples := 3; op_recovery_samples := 5; op_minimum_concurrency := 4 |}.
Definition demo_down : HealthObservation := {|
  ho_active_leases := false; ho_database := false; ho_lease_renewal := true; ho_lease_renewal_age := 0;
  ho_runtime_lag := 0 |}.
Definition demo_up : HealthObservation := {|
  ho_active_leases := false; ho_database := true; ho_lease_renewal := true; ho_lease_renewal_age := 0;
  ho_runtime_lag := 0 |}.
Definition demo_control (effective : Z) : WorkerControl :=
  {| wc_configured := 10; wc_effective := effective; wc_proposed := 10 |}.

Lemma demo_control_wf effective : 1 <= effective <= 10 -> wf_control (demo_control effective).
Proof. unfold wf_control, u16_max. cbn. lia. Qed.

Lemma observe_stays_in_range_witness :
  exists self' c', observe demo_overload (from_secs 20) demo_down (detector_start, demo_control 10)
                   = Some (self', c') /\
    wf_control c' /\ wc_configured c' = 10 /\ (true = false -> wc_effective c' = 10) /\
    (overloaded demo_overload (from_secs 20) detector_start demo_down = false -> 10 <= wc_effective c' <= 10 + 1) /\
    (true = true -> overloaded demo_overload (from_secs 20) detector_start demo_down = true ->
     wc_effective c' = Z.max (10 / 2) 4).
Proof.
  apply (observe_stays_in_range demo_overload (from_secs 20)).
  - by_compute.
  - apply demo_control_wf. lia.
  - by_compute.
Defined.

Lemma healthy_samples_restore_concurrency_witness :
  exists self' c', observe_all demo_overload (from_secs 20) (repeat demo_up 14) (detector_start, demo_control 4)
                   = Some (self', c') /\ wc_effective c' = 10.
Proof.
  apply (healthy_samples_restore_concurrency demo_overload (from_secs 20)).
  - reflexivity.
  - reflexivity.
  - by_compute.
  - by_compute.
  - apply demo_control_wf. lia.
  - repeat constructor.
  - by_compute.
Defined.

Lemma overload_raises_manual_limit_witness :
  exists self' c', observe demo_overload (from_secs 20) demo_down (detector_start, demo_control 1)
                   = Some (self', c') /\ wc_effective c' = 4 /\ 1 < wc_effective c'.
Proof.
  apply (overload_raises_manual_limit demo_overload (from_secs 20) demo_down detector_start (demo_control 1)).
  - reflexivity.
  - reflexivity.
  - apply demo_control_wf. lia.
  - by_compute.
  - by_compute.
  - reflexivity.
Defined.
