(* ===== verification/Supervisor.v ===== *)
(** The supervisor thread of [pgtask-worker/src/health.rs]: [run_supervisor], the
    sampler [sample_health], the routes of its HTTP server and [Drop].

    The thread runs beside the loops of the worker, which change the health, and
    beside callers of [WorkerControl]; an event is one step of any of them, and a
    run is a list of events in the order they happen.  A run answers [None] if the
    sampler panics.

    The supervisor never panics and keeps the admission limit in range, it samples
    until it is dropped, and an outage of the database brings the limit down to the
    configured minimum within sixteen samples. *)

From S2P Require Import Prelude Text Control Health.

(** ** State and events *)

Record SupervisorSettings := {
  ss_address : option rstring;
  ss_interval : Z;
  ss_lease_renewal_threshold : Z;
  ss_overload : OverloadProtectionConfig;
}.

(** [sv_shutdown] is the cancellation token; [sv_sampling] and [sv_serving] are the
    two futures [run_supervisor] joins. *)
Record SupervisorState := {
  sv_health : HealthState;
  sv_detector : OverloadDetector;
  sv_control : WorkerControl;
  sv_shutdown : bool;
  sv_sampling : bool;
  sv_serving : bool;
}.

(** [run_supervisor] once it has reported its start. *)
Definition run_supervisor (settings : SupervisorSettings) (health : HealthState) (control : WorkerControl)
    : SupervisorState := {|
  sv_health := health; sv_detector := detector_start; sv_control := control; sv_shutdown := false;
  sv_sampling := true; sv_serving := bool_decide (is_Some (ss_address settings)) |}.

(** What the loops of the worker do to the health. *)
Inductive HealthChange : Type :=
| Admission (healthy : bool)
| DatabaseHealth (healthy : bool)
| Listener (healthy : bool)
| ActiveLeases_ (active : bool)
| LeaseRenewal_ (now : Z) (healthy : bool)
| RuntimeProgress (now : Z).

Definition change_health (change : HealthChange) : HealthState -> HealthState :=
  match change with
  | Admission healthy => set_admission healthy
  | DatabaseHealth healthy => set_database healthy
  | Listener healthy => set_listener healthy
  | ActiveLeases_ active => set_active_leases active
  | LeaseRenewal_ now healthy => record_lease_renewal now healthy
  | RuntimeProgress now => record_runtime_progress now
  end.

Inductive SupervisorEvent : Type :=
| Changed (change : HealthChange)
| Sample (now : Z)
| ManualLimit (limit : Z)
| Dropped
| SamplerReturns
| ServerReturns.

Definition with_control (detector : OverloadDetector) (control : WorkerControl) (st : SupervisorState)
    : SupervisorState := {|
  sv_health := sv_health st; sv_detector := detector; sv_control := control; sv_shutdown := sv_shutdown st;
  sv_sampling := sv_sampling st; sv_serving := sv_serving st |}.

(** The arm of the timer in [sample_health]. *)
Definition sample_health (settings : SupervisorSettings) (now : Z) (st : SupervisorState) : option SupervisorState :=
  let observation := record_metrics now (ss_interval settings) (sv_health st) in
  match observe (ss_overload settings) (ss_lease_renewal_threshold settings) observation
          (sv_detector st, sv_control st) with
  | Some (detector, control) => Some (with_control detector control st)
  | None => None
  end.

(** A future that has returned does nothing more, and neither returns before the
    token is cancelled. *)
Definition supervisor_step (settings : SupervisorSettings) (event : SupervisorEvent) (st : SupervisorState)
    : option SupervisorState :=
  match event with
  | Changed change => Some {|
      sv_health := change_health change (sv_health st); sv_detector := sv_detector st; sv_control := sv_control st;
      sv_shutdown := sv_shutdown st; sv_sampling := sv_sampling st; sv_serving := sv_serving st |}
  | Sample now => if sv_sampling st then sample_health settings now st else Some st
  | ManualLimit limit =>
      Some match set_effective_concurrency limit (sv_control st) with
           | Ok control => with_control (sv_detector st) control st
           | Err _ => st
           end
  | Dropped => Some {|
      sv_health := sv_health st; sv_detector := sv_detector st; sv_control := sv_control st;
      sv_shutdown := true; sv_sampling := sv_sampling st; sv_serving := sv_serving st |}
  | SamplerReturns => Some {|
      sv_health := sv_health st; sv_detector := sv_detector st; sv_control := sv_control st;
      sv_shutdown := sv_shutdown st; sv_sampling := sv_sampling st && negb (sv_shutdown st);
      sv_serving := sv_serving st |}
  | ServerReturns => Some {|
      sv_health := sv_health st; sv_detector := sv_detector st; sv_control := sv_control st;
      sv_shutdown := sv_shutdown st; sv_sampling := sv_sampling st;
      sv_serving := sv_serving st && negb (sv_shutdown st) |}
  end.

Fixpoint supervise (settings : SupervisorSettings) (events : list SupervisorEvent) (st : SupervisorState)
    : option SupervisorState :=
  match events with
  | [] => Some st
  | event :: events' =>
      match supervisor_step settings event st with
      | Some st' => supervise settings events' st'
      | None => None
      end
  end.

(** [Drop]: [thread.join] returns when [run_supervisor] has. *)
Definition joined_thread (st : SupervisorState) : bool := negb (sv_sampling st) && negb (sv_serving st).

(** The routes; a request to another path is not found. *)
Definition live : rstring := str "live".
Definition ready_answer (health : HealthState) : Z * rstring :=
  if ready health then (200, str "ready") else (503, str "not ready").
Definition supervisor_answer (path : rstring) (st : SupervisorState) : option (Z * rstring) :=
  if negb (sv_serving st) then None
  else if bool_decide (path = str "/livez") then Some (200, live)
  else if bool_decide (path = str "/readyz") then Some (ready_answer (sv_health st))
  else Some (404, []).

(** ** Safety *)

Section Supervise.
Context (settings : SupervisorSettings).
Abbreviation config := (ss_overload settings).
Hypothesis Hmin : wf_nonzero (op_minimum_concurrency config).

(** A [NonZeroU16]. *)
Definition wf_event (event : SupervisorEvent) : Prop :=
  match event with ManualLimit limit => wf_nonzero limit | _ => True end.

Record wf_supervisor (configured : Z) (st : SupervisorState) : Prop := {
  ws_control : wf_control (sv_control st);
  ws_configured : wc_configured (sv_control st) = configured;
  ws_minimum : op_minimum_concurrency config <= configured;
  ws_stopped : sv_shutdown st = false -> sv_sampling st = true;
}.

Lemma sample_health_ok now configured st :
  wf_supervisor configured st ->
  exists st', sample_health settings now st = Some st' /\ wf_supervisor configured st' /\
    sv_health st' = sv_health st /\ sv_shutdown st' = sv_shutdown st /\ sv_sampling st' = sv_sampling st /\
    (op_enabled config && op_enforce config = true -> hs_database (sv_health st) = false ->
     wc_effective (sv_control st') = Z.max (wc_effective (sv_control st) / 2) (op_minimum_concurrency config)).
Proof using Hmin.
  intros [Hc Hcf Hm Hs]. unfold sample_health. set (o := record_metrics _ _ _).
  destruct (observe_stays_in_range config (ss_lease_renewal_threshold settings) Hmin o (sv_detector st) (sv_control st) Hc)
    as (detector & control & -> & Hc' & Hcf' & _ & _ & Hover); [lia|].
  eexists. split; [reflexivity|]. split; [split; cbn; (done || congruence)|]. split_and!; [done..|].
  intros Hen Hdb. cbn. apply Hover; [done|]. unfold overloaded, overload_reason, o. cbn. by rewrite Hdb.
Qed.

Lemma supervisor_step_ok event configured st :
  wf_event event -> wf_supervisor configured st ->
  exists st', supervisor_step settings event st = Some st' /\ wf_supervisor configured st'.
Proof using Hmin.
  intros He Hw. destruct event as [change|now|limit| | |]; cbn [supervisor_step].
  2: { destruct (sv_sampling st); [|by eexists]. destruct (sample_health_ok now configured st Hw) as (st' & ? & ? & _).
       by exists st'. }
  all: eexists; split; [reflexivity|]; destruct Hw as [Hc Hcf Hm Hs].
  - by split.
  - unfold set_effective_concurrency. destruct (apply_effective_concurrency limit (sv_control st)) as [c|] eqn:E; [|by split].
    assert (wc_configured c = wc_configured (sv_control st)) as Hk
      by (unfold apply_effective_concurrency in E; case_match; [done|]; by simplify_eq).
    apply apply_keeps_control in E as [Hc' _]; [|done|unfold wf_event, wf_nonzero in He; lia]. split; cbn; (done || congruence).
  - by split.
  - split; cbn; [done..|]. intros Hf. by rewrite Hf, (Hs Hf).
  - by split.
Qed.

(** Whatever happens in whatever order, the supervisor does not panic, the admission
    limit stays between one and the configured concurrency, and it samples until it
    is dropped. *)
Theorem supervisor_is_safe events configured st :
  Forall wf_event events -> wf_supervisor configured st ->
  exists st', supervise settings events st = Some st' /\ wf_supervisor configured st'.
Proof using Hmin.
  intros He. revert st. induction He as [|event events He _ IH]; intros st Hw; cbn [supervise]; [by eexists|].
  destruct (supervisor_step_ok event configured st He Hw) as (st' & -> & Hw'). by apply IH.
Qed.

(** Dropping it ends the thread, and then the limit only changes by hand. *)
Theorem dropped_supervisor_joins st :
  exists st', supervise settings [Dropped; ServerReturns; SamplerReturns] st = Some st' /\ joined_thread st' = true /\
    sv_control st' = sv_control st /\
    forall now, supervisor_step settings (Sample now) st' = Some st'.
Proof using Type.
  eexists. split; [reflexivity|]. unfold joined_thread. cbn. rewrite !andb_false_r. by repeat split.
Qed.

(** ** An outage *)

(** What can happen during an outage: anything but the end of it, a limit set by hand
    and the end of the supervisor. *)
Definition outage_event (event : SupervisorEvent) : bool :=
  match event with
  | Changed (DatabaseHealth healthy) => negb healthy
  | ManualLimit _ | Dropped => false
  | _ => true
  end.
Definition is_sample (event : SupervisorEvent) : bool := match event with Sample _ => true | _ => false end.
Definition samples (events : list SupervisorEvent) : nat := length (List.filter is_sample events).

Record outage (configured : Z) (st : SupervisorState) : Prop := {
  ou_wf : wf_supervisor configured st;
  ou_down : hs_database (sv_health st) = false;
  ou_running : sv_shutdown st = false;
}.

(** The limit is the minimum, or has been halved [k] times. *)
Definition lowered (configured : Z) (k : nat) (effective : Z) : Prop :=
  effective = op_minimum_concurrency config \/ effective * 2 ^ Z.of_nat k <= configured.

Lemma lowered_S configured k effective :
  wf_nonzero (op_minimum_concurrency config) -> 1 <= effective -> lowered configured k effective ->
  lowered configured (S k) (Z.max (effective / 2) (op_minimum_concurrency config)).
Proof using Type.
  unfold lowered, wf_nonzero. intros Hm He Hl. pose proof (Z.div_mod effective 2 ltac:(lia)).
  pose proof (Z.mod_pos_bound effective 2 ltac:(lia)).
  rewrite Nat2Z.inj_succ, Z.pow_succ_r by lia. pose proof (Z.pow_pos_nonneg 2 (Z.of_nat k) ltac:(lia) ltac:(lia)).
  destruct (Z.max_spec (effective / 2) (op_minimum_concurrency config)) as [[? ->]|[? ->]]; [by left|].
  destruct Hl as [->|Hl]; [left; lia|right; nia].
Qed.

Lemma outage_step event configured k st :
  op_enabled config && op_enforce config = true -> outage_event event = true -> outage configured st ->
  lowered configured k (wc_effective (sv_control st)) ->
  exists st', supervisor_step settings event st = Some st' /\ outage configured st' /\
    lowered configured (if is_sample event then S k else k) (wc_effective (sv_control st')).
Proof using Hmin.
  intros Hen He [Hw Hd Hr] Hl. destruct event as [change|now|limit| | |]; try discriminate He.
  - eexists. split; [reflexivity|]. split; [|done]. destruct Hw as [Hc Hcf Hm Hs].
    split; [by split| |done]. destruct change as [| [] | | | |]; cbn in *; done.
  - cbn [supervisor_step]. rewrite (ws_stopped _ _ Hw Hr).
    destruct (sample_health_ok now configured st Hw) as (st' & -> & Hw' & Hh & Hsd & _ & Heff).
    exists st'. split; [done|]. split; [split; congruence|]. cbn [is_sample]. rewrite (Heff Hen Hd).
    apply lowered_S; [done| |done]. destruct (ws_control _ _ Hw) as (_ & ? & _). lia.
  - eexists. split; [reflexivity|]. split; [|done]. destruct Hw as [Hc Hcf Hm Hs].
    split; [|done..]. split; cbn; [done..|]. intros Hf. by rewrite Hf, (Hs Hf).
  - eexists. split; [reflexivity|]. split; [|done]. destruct Hw. by split.
Qed.

Lemma outage_run events configured : forall k st,
  op_enabled config && op_enforce config = true -> Forall (fun event => outage_event event = true) events ->
  outage configured st -> lowered configured k (wc_effective (sv_control st)) ->
  exists st', supervise settings events st = Some st' /\ outage configured st' /\
    lowered configured (k + samples events) (wc_effective (sv_control st')).
Proof using Hmin.
  induction events as [|event events IH]; intros k st Hen HF Ho Hl; cbn [supervise].
  { exists st. rewrite Nat.add_0_r. done. }
  apply Forall_cons in HF as [He HF]. destruct (outage_step event configured k st Hen He Ho Hl) as (st1 & -> & Ho1 & Hl1).
  destruct (IH _ st1 Hen HF Ho1 Hl1) as (st' & Hr & Ho' & Hl'). exists st'. split_and!; [done..|].
  replace (k + samples (event :: events))%nat
    with ((if is_sample event then S k else k) + samples events)%nat; [done|].
  unfold samples. cbn [List.filter]. destruct (is_sample event); cbn [length]; lia.
Qed.

(** Claim C38.  An outage of the database brings the limit down: in every run of the
    supervisor that begins with the database down and holds no recovery, no limit set
    by hand and no drop, sixteen samples of an enforcing detector are enough for the
    effective concurrency to be the configured minimum, whatever it was and
    whatever else happens in between, and the sampler has not panicked. *)
Theorem outage_reaches_minimum events configured st :
  op_enabled config && op_enforce config = true -> wf_supervisor configured st ->
  hs_database (sv_health st) = false -> sv_shutdown st = false ->
  Forall (fun event => outage_event event = true) events -> (16 <= samples events)%nat ->
  exists st', supervise settings events st = Some st' /\
    wc_effective (sv_control st') = op_minimum_concurrency config.
Proof using Hmin.
  intros Hen Hw Hd Hr HF Hn. pose proof (ws_control _ _ Hw) as (Hu & He & _). pose proof (ws_configured _ _ Hw) as Hcf.
  destruct (outage_run events configured 0 st Hen HF) as (st' & Hrun & [Hw' _ _] & Hl).
  { by split. }
  { right. cbn. lia. }
  exists st'. split; [done|]. destruct Hl as [Hl|Hl]; [done|exfalso].
  destruct (ws_control _ _ Hw') as (_ & He' & _).
  pose proof (Z.pow_le_mono_r 2 16 (Z.of_nat (0 + samples events)) ltac:(lia) ltac:(lia)).
  change (2 ^ 16) with 65536 in *. unfold u16_max in *. nia.
Qed.
End Supervise.

(** ** Witness *)

Definition demo_settings : SupervisorSettings := {|
  ss_address := Some (str "127.0.0.1:9000"); ss_interval := from_secs 1; ss_lease_renewal_threshold := from_secs 20;
  ss_overload := demo_overload |}.
Definition demo_supervisor : SupervisorState := run_supervisor demo_settings (Health_new 0) (demo_control 10).
Definition demo_outage : list SupervisorEvent :=
  Changed (Listener false) :: SamplerReturns :: map (fun n => Sample (Z.of_nat n)) (seq 1 16).

Lemma outage_reaches_minimum_witness :
  exists st', supervise demo_settings demo_outage demo_supervisor = Some st' /\ wc_effective (sv_control st') = 4.
Proof.
  apply (outage_reaches_minimum demo_settings ltac:(by_compute) demo_outage 10).
  - reflexivity.
  - split; [apply demo_control_wf; lia|by_compute..].
  - reflexivity.
  - reflexivity.
  - repeat (apply List.Forall_cons; [reflexivity|]). apply List.Forall_nil.
  - by_compute.
Defined.
