(* ===== verification/Runtime.v ===== *)
(** The worker runtime: [pgtask-worker/src/runtime.rs].

    The loops of the worker are modelled one turn at a time: what one claim,
    one renewal tick, one recovery or retention tick, one sweep of the
    scheduler and one batch of the transition writer do to the database, to the
    map of active leases and to the health flags.  What is read from the clock
    is an argument; the environments of the statements of a turn are a stream
    [nat -> Env], the n-th statement getting the n-th.  Durations measured for
    metrics, log messages and the wake-up notifications between the loops are
    not kept. *)

From S2P Require Import Prelude Text Identifier Json Retry TaskTypes Chrono Outcome.
From S2P Require Import Rows Tables Protocol Store Registry Control Health.

Definition MAX_RECOVERY_DRAIN_BATCHES : nat := 16.
Definition MAX_RETENTION_DRAIN_BATCHES : nat := 16.

(** ** Executing a task *)

Inductive TransitionError : Type :=
| Closed
| TransitionPostgres (error : PostgresError).

(** A computation of an execution: it may use the transition writer. *)
Definition tio (W A : Type) : Type := W -> W * result TransitionError A.
Global Instance tio_ret W : MRet (tio W) := fun A a w => (w, Ok a).
Global Instance tio_bind W : MBind (tio W) := fun A B k m w =>
  let (w', r) := m w in match r with Ok a => k a w' | Err error => (w', Err error) end.

(** What an execution sees of the writer: a request is sent and its answer
    awaited. *)
Class TransitionWriter (W : Type) := {
  writer_complete : TaskCompletion -> tio W bool;
  writer_fail : TaskFailure -> tio W (option TaskState);
}.

(** The counters an execution records, with the label of [record_execution]. *)
Inductive Metric : Type :=
| RecordSucceeded
| RecordLeaseLost
| RecordRetried
| RecordFailed
| RecordExecution (outcome : rstring).

Definition record_failure_state (state : option TaskState) : list Metric :=
  match state with
  | Some Pending => [RecordRetried]
  | Some _ => [RecordFailed]
  | None => []
  end.

Definition lost_lease (state : option TaskState) : list Metric :=
  match state with None => [RecordLeaseLost] | Some _ => [] end.

Section Execution.
Context {W : Type} `{!TransitionWriter W}.
(** [error.to_string()], and the random sample of a retry delay. *)
Context (error_text : PostgresError -> rstring) (random_range : Z -> Z).

Definition task_lease (task : Task) (lease_token : uuid) : LeaseRenewal :=
  {| lr_task_id := t_id task; lr_attempt := t_attempt task; lr_lease_token := lease_token |}.

Definition write_failure (task : Task) (lease_token : uuid) (error : Value) (retry_after : option Z)
    : tio W (option TaskState) := fun w =>
  let failure := {| tf_lease := task_lease task lease_token; tf_error := prepare_error error;
                    tf_retry_after := retry_after |} in
  match writer_fail failure w with
  | (w', Err (TransitionPostgres error)) =>
      if is_rejected_value error
      then writer_fail {| tf_lease := tf_lease failure;
             tf_error := rejected_value_error (str "error_rejected") (error_text error);
             tf_retry_after := tf_retry_after failure |} w'
      else (w', Err (TransitionPostgres error))
  | answer => answer
  end.

Definition fail_rejected_result (task : Task) (lease_token : uuid) (error : Value) : tio W (list Metric) :=
  let? state := write_failure task lease_token error None in
  mret (lost_lease state ++ record_failure_state state ++ [RecordExecution (str "failed")]).

Definition complete_execution (task : Task) (lease_token : uuid) (value : Value) : tio W (list Metric) := fun w =>
  match prepare_result value with
  | PTooLarge error => fail_rejected_result task lease_token error w
  | PResult value =>
      match writer_complete {| tc_lease := task_lease task lease_token; tc_result := Some value |} w with
      | (w', Ok true) => (w', Ok [RecordSucceeded; RecordExecution (str "succeeded")])
      | (w', Ok false) => (w', Ok [RecordLeaseLost])
      | (w', Err (TransitionPostgres error)) =>
          if is_rejected_value error
          then fail_rejected_result task lease_token
                 (rejected_value_error (str "result_rejected") (error_text error)) w'
          else (w', Err (TransitionPostgres error))
      | (w', Err Closed) => (w', Err Closed)
      end
  end.

(** [task.retry_policy.unwrap_or(retry_policy).delay_for(failed_attempts + 1)]. *)
Definition retry_after (task : Task) (retry_policy : RetryPolicy) : option Z :=
  delay_for random_range (default retry_policy (t_retry_policy task))
    (u16_saturating_add (t_failed_attempts task) 1).

Definition fail_execution (task : Task) (lease_token : uuid) (error : HandlerError)
    (retry_policy : RetryPolicy) : tio W (list Metric) :=
  let retry_after := if he_retryable error then retry_after task retry_policy else None in
  let? state := write_failure task lease_token (he_error error) retry_after in
  mret (lost_lease state ++ record_failure_state state ++
        [RecordExecution (if bool_decide (state = Some Pending) then str "retry" else str "failed")]).

Definition record_panicked_execution (task : Task) (lease_token : uuid) (retry_policy : RetryPolicy)
    : tio W (list Metric) :=
  let? state := write_failure task lease_token (VObject [(str "type", VString (str "handler_panic"))])
    (retry_after task retry_policy) in
  mret (lost_lease state ++ record_failure_state state ++ [RecordExecution (str "panic")]).

(** What the [select!] of [execute] ends with: the outcome of the handler, or
    the cancellation of the lease. *)
Definition execute_outcome (task : Task) (lease_token : uuid) (retry_policy : RetryPolicy)
    (outcome : option HandlerOutcome) : tio W (list Metric) :=
  match outcome with
  | Some (Returned value) => complete_execution task lease_token value
  | Some (Raised error) =>
      if is_suspended error then mret [RecordExecution (str "suspended")]
      else fail_execution task lease_token error retry_policy
  | Some Panicked => record_panicked_execution task lease_token retry_policy
  | None => mret [RecordExecution (str "lease_lost")]
  end.
End Execution.

(** ** The transition writer *)

Inductive TransitionRequest : Type :=
| Complete (completion : TaskCompletion)
| Fail (failure : TaskFailure).

Definition batch_completions (requests : list TransitionRequest) : list TaskCompletion :=
  omap (fun request => match request with Complete completion => Some completion | Fail _ => None end) requests.
Definition batch_failures (requests : list TransitionRequest) : list TaskFailure :=
  omap (fun request => match request with Fail failure => Some failure | Complete _ => None end) requests.

(** Each request alone, in order, from the n-th statement on. *)
Fixpoint write_each {A B} (statement : Env -> A -> io B) (e : nat -> Env) (n : nat) (l : list A) (d : Db)
    : Db * list (result PostgresError B) :=
  match l with
  | [] => (d, [])
  | a :: l' =>
      let (d, answer) := statement (e n) a d in
      let (d, answers) := write_each statement e (S n) l' d in
      (d, answer :: answers)
  end.

(** [responses.into_iter().zip(results)]: the n-th request gets the n-th result,
    and none when there are fewer. *)
Definition zip_answers {A B} (l : list A) (results : list B) : list (option (result PostgresError B)) :=
  imap (fun n _ => Ok <$> results !! n) l.

Definition write_alone (e : Env) (c : TaskCompletion) : io bool := complete e (tc_lease c) (tc_result c).
Definition fail_alone (e : Env) (f : TaskFailure) : io (option TaskState) :=
  fail e (tf_lease f) (tf_error f) (tf_retry_after f).

(** One statement for all, and when it fails each request alone. *)
Definition write_batch {A B} (many : Env -> list A -> io (list B)) (alone : Env -> A -> io B)
    (e : nat -> Env) (l : list A) (d : Db) : Db * list (option (result PostgresError B)) :=
  match many (e 0%nat) l d with
  | (d, Ok results) => (d, zip_answers l results)
  | (d, Err _) => let (d, answers) := write_each alone e 1 l d in (d, map Some answers)
  end.

Definition write_completions : (nat -> Env) -> list TaskCompletion -> Db ->
    Db * list (option (result PostgresError bool)) := write_batch complete_many write_alone.
Definition write_failures : (nat -> Env) -> list TaskFailure -> Db ->
    Db * list (option (result PostgresError (option TaskState))) := write_batch fail_many fail_alone.

(** [write_transition_batch], with the two streams of environments its
    statements use: the answers to the completions and to the failures, in
    their order.  Shutdown, which only happens once no execution waits for an
    answer, is not modelled. *)
Definition write_transition_batch (ec ef : nat -> Env) (requests : list TransitionRequest) (d : Db)
    : Db * list (option (result PostgresError bool))
         * list (option (result PostgresError (option TaskState))) :=
  let (d, completion_responses) := write_completions ec (batch_completions requests) d in
  let (d, failure_responses) := write_failures ef (batch_failures requests) d in
  (d, completion_responses, failure_responses).

(** The writer as an execution meets it: other transactions run before its
    batch does, and the batch holds other requests. *)
Record Turn := {
  u_others : Db -> Db;
  u_before : list TransitionRequest;
  u_after : list TransitionRequest;
  u_completions : nat -> Env;
  u_failures : nat -> Env;
}.
Record World := { w_db : Db; w_turns : nat -> Turn; w_turn : nat }.

Definition send (request : TransitionRequest) (w : World)
    : World * list (option (result PostgresError bool)) * list (option (result PostgresError (option TaskState))) :=
  let u := w_turns w (w_turn w) in
  let '(d, cs, fs) := write_transition_batch (u_completions u) (u_failures u)
    (u_before u ++ request :: u_after u) (u_others u (w_db w)) in
  ({| w_db := d; w_turns := w_turns w; w_turn := S (w_turn w) |}, cs, fs).

(** [receiver.await.map_err(|_| Closed)?.map_err(Postgres)]. *)
Definition receive {A} (answer : option (option (result PostgresError A))) : result TransitionError A :=
  match answer with
  | Some (Some answer) => map_err TransitionPostgres answer
  | _ => Err Closed
  end.

Global Instance batching_writer : TransitionWriter World := {
  writer_complete completion w :=
    let u := w_turns w (w_turn w) in
    let '(w', cs, _) := send (Complete completion) w in
    (w', receive (cs !! length (batch_completions (u_before u))));
  writer_fail failure w :=
    let u := w_turns w (w_turn w) in
    let '(w', _, fs) := send (Fail failure) w in
    (w', receive (fs !! length (batch_failures (u_before u))));
}.

(** ** Active leases *)

Record ActiveLease := {
  al_renewal : LeaseRenewal;
  al_lost : bool;
  al_last_renewed : Z;
}.
Abbreviation ActiveLeases := (gmap Z ActiveLease) (only parsing).

Definition cancel_lease (lease : ActiveLease) : ActiveLease :=
  {| al_renewal := al_renewal lease; al_lost := true; al_last_renewed := al_last_renewed lease |}.
Definition touch_lease (now : Z) (lease : ActiveLease) : ActiveLease :=
  {| al_renewal := al_renewal lease; al_lost := al_lost lease; al_last_renewed := now |}.

(** [active.get_mut(&task_id)] when it still is the same lease. *)
Definition change_lease (f : ActiveLease -> ActiveLease) (lease : ActiveLease) (active : ActiveLeases)
    : ActiveLeases :=
  alter (fun current => if decide (al_renewal current = al_renewal lease) then f current else current)
    (lr_task_id (al_renewal lease)) active.

Definition update_renewed_leases (now : Z) (leases : list ActiveLease) (renewed : list uuid)
    (active : ActiveLeases) : ActiveLeases :=
  foldl (fun active lease =>
    change_lease (if decide (lr_task_id (al_renewal lease) ∈ renewed) then touch_lease now else cancel_lease)
      lease active) active leases.

(** [clock] is what [elapsed] reads for the lease of each task. *)
Definition cancel_uncertain_leases (clock : uuid -> Z) (leases : list ActiveLease) (lease_duration : Z)
    (active : ActiveLeases) : ActiveLeases :=
  foldl (fun active lease =>
    if lease_duration * 2 / 3 <=? Z.max (clock (lr_task_id (al_renewal lease)) - al_last_renewed lease) 0
    then change_lease cancel_lease lease active else active) active leases.

(** One tick of [renew_leases].  The map is read before the statement and
    changed after it; [meanwhile] is what the handlers that start and end during
    the statement do to it.  [now] is the time once the statement has
    returned. *)
Definition renew_tick (e : Env) (now : Z) (clock : uuid -> Z) (lease_duration : Z)
    (meanwhile : ActiveLeases -> ActiveLeases) (active : ActiveLeases) (health : HealthState) (d : Db)
    : Db * ActiveLeases * HealthState :=
  let leases := map snd (map_to_list active) in
  if bool_decide (leases = []) then (d, active, set_active_leases false health)
  else
    match Store.renew_leases e (map al_renewal leases) lease_duration d with
    | (d', Ok renewed) =>
        (d', update_renewed_leases now leases renewed (meanwhile active),
         record_lease_renewal now (len renewed =? len leases) (set_database true health))
    | (d', Err _) =>
        (d', cancel_uncertain_leases clock leases lease_duration (meanwhile active),
         record_lease_renewal now false (set_database false health))
    end.

(** ** Claiming *)

Section Claiming.
Context (e : nat -> Env) (worker_id : uuid) (capabilities : list (rstring * Z)) (lease_duration : Z).

(** The loop of [claim_tasks] over the queues, after [n] statements. *)
Fixpoint claim_queues (limit : Z) (queues : list rstring) (n : nat) (claimed : list Task)
    (health : HealthState) (d : Db) : Db * HealthState * option (list Task) :=
  match queues with
  | [] => (d, health, Some claimed)
  | queue_name :: queues' =>
      let remaining := limit - len claimed in
      if remaining =? 0 then (d, health, Some claimed)
      else
        match Store.claim (e n) queue_name worker_id capabilities remaining lease_duration d with
        | (d', Ok tasks) =>
            claim_queues limit queues' (S n) (claimed ++ tasks) (set_database true health) d'
        | (d', Err _) => (d', set_database false health, None)
        end
  end.

Definition claim_limit (control : WorkerControl) (claim_batch_size active_handlers : Z) : Z :=
  Z.min (u64_saturating_sub (wc_effective control) active_handlers) claim_batch_size.

Definition claim_tasks (control : WorkerControl) (config : WorkerConfig) (active_handlers : Z)
    (health : HealthState) (d : Db) : Db * HealthState * option (Z * list Task) :=
  let limit := claim_limit control (cf_claim_batch_size config) active_handlers in
  if limit =? 0 then (d, health, Some (limit, []))
  else
    let '(d, health, tasks) := claim_queues limit (cf_queues config) 0 [] health d in
    (d, health, pair limit <$> tasks).

(** [Worker::next_task_delay]. *)
Fixpoint queues_delay (queues : list rstring) (n : nat) (delay : Z) : io Z :=
  match queues with
  | [] => mret delay
  | queue_name :: queues' =>
      let? queue_delay := Store.next_task_delay (e n) queue_name capabilities in
      queues_delay queues' (S n) (match queue_delay with Some d => Z.min delay d | None => delay end)
  end.

Definition worker_next_task_delay (config : WorkerConfig) (health : HealthState) (d : Db)
    : HealthState * Z :=
  match queues_delay (cf_queues config) 0 (cf_poll_interval config) d with
  | (_, Ok delay) => (health, Z.max delay (from_millis 1))
  | (_, Err _) => (set_database false health, Z.min (from_secs 1) (cf_poll_interval config))
  end.
End Claiming.

(** [Worker::spawn_task]: the lease enters the map before the handler runs, and
    leaves it after. *)
Definition spawn_lease (registry : HandlerRegistry) (now : Z) (task : Task) (active : ActiveLeases)
    (health : HealthState) : result WorkerError (RegisteredHandler * ActiveLeases * HealthState) :=
  let? lease_token := ok_or (MissingLeaseToken (t_id task)) (t_lease_token task) in
  let? handler := ok_or MissingHandler (registry_get registry (t_task_name task) (t_handler_version task)) in
  Ok (handler,
      <[t_id task := {| al_renewal := task_lease task lease_token; al_lost := false;
                        al_last_renewed := now |}]> active,
      set_active_leases true health).

Definition remove_lease (task_id : uuid) (active : ActiveLeases) (health : HealthState)
    : ActiveLeases * HealthState :=
  let active := delete task_id active in
  (active, set_active_leases (negb (bool_decide (active = ∅))) health).

(** The leases left at shutdown, handed back; the timeout is not modelled. *)
Definition release_aborted_leases (e : Env) (active : ActiveLeases) (d : Db)
    : Db * result PostgresError (list uuid) :=
  let leases := map (fun kl => al_renewal kl.2) (map_to_list active) in
  if bool_decide (leases = []) then (d, Ok []) else release_leases e leases d.

(** ** Recovery and retention *)

(** Batches until one comes back short or fails, or the budget is used up. *)
Fixpoint drain (limit : Z) (statement : nat -> io Z) (batches n : nat) (d : Db) : Db :=
  match batches with
  | O => d
  | S batches' =>
      match statement n d with
      | (d', Ok count) => if count <? limit then d' else drain limit statement batches' (S n) d'
      | (d', Err _) => d'
      end
  end.

Definition recover_queue (e : nat -> Env) (queue_name : rstring) (limit : Z) : Db -> Db :=
  drain limit (fun n => Store.recover_expired (e n) queue_name limit) MAX_RECOVERY_DRAIN_BATCHES 0.

(** One tick of [recover_expired_leases]. *)
Definition recover_tick (e : nat -> nat -> Env) (config : WorkerConfig) (d : Db) : Db :=
  foldl (fun d nq => recover_queue (e nq.1) nq.2 (cf_recovery_batch_size config) d) d
    (imap pair (cf_queues config)).

Definition drain_retention (limit : Z) (delete : nat -> io Z) : Db -> Db :=
  drain limit delete MAX_RETENTION_DRAIN_BATCHES 0.

(** One tick of [delete_expired_rows]. *)
Definition retention_tick (et ek : nat -> nat -> Env) (ew : nat -> Env) (config : WorkerConfig) (d : Db) : Db :=
  if negb (cf_retention_enabled config) then d
  else
    let limit := cf_retention_batch_size config in
    let d := foldl (fun d nq =>
      let d := drain_retention limit (fun n => Store.delete_expired_terminal (et nq.1 n) nq.2 limit) d in
      drain_retention limit (fun n => Store.delete_expired_idempotency_keys (ek nq.1 n) nq.2 limit) d) d
      (imap pair (cf_queues config)) in
    drain_retention limit (fun n =>
      Store.delete_expired_workers (ew n) (cf_expired_worker_retention config) limit) d.

(** ** The scheduler *)

Definition SCHEDULE_ERROR_BACKOFF_START : Z := from_millis 100.

Definition schedule_error_backoff (previous : option Z) (failed : bool) (cap : Z) : option Z :=
  if failed
  then Some (Z.min (match previous with None => SCHEDULE_ERROR_BACKOFF_START | Some backoff => backoff * 2 end) cap)
  else None.

Section Scheduler.
Context {C : ChronoOps} {K : CronOps}.

(** The environments of the statements of a sweep. *)
Record Sweep := { x_round : Round; x_waits : Env; x_result_waits : Env; x_schedule_delay : Env; x_wait_delay : Env }.

Definition not_ok {A} (r : result PostgresError A) : bool := negb (is_ok r).
Definition shorten (delay : Z) (deadline : result PostgresError (option Z)) : Z :=
  match deadline with Ok (Some deadline) => Z.min delay deadline | _ => delay end.

(** One turn of [materialize_schedules]: the backoff and the delay it sleeps
    for, unless it is woken. *)
Definition schedule_sweep (x : Sweep) (config : WorkerConfig) (error_backoff : option Z) (d : Db)
    : Db * option Z * Z :=
  let interval := cf_schedule_reconciliation_interval config in
  let (d, failed) :=
    if cf_scheduler_enabled config
    then let (d, r) := materialize_due_schedules (x_round x) (cf_schedule_batch_size config) d in (d, not_ok r)
    else (d, false) in
  let (d, r1) := Store.recover_wait_timeouts (x_waits x) (cf_wait_batch_size config) d in
  let (d, r2) := Store.recover_result_wait_timeouts (x_result_waits x) (cf_wait_batch_size config) d in
  let r3 := if cf_scheduler_enabled config then (next_schedule_delay (x_schedule_delay x) d).2 else Ok None in
  let r4 := (next_wait_delay (x_wait_delay x) d).2 in
  let delay := shorten (shorten interval r3) r4 in
  let failed := failed || not_ok r1 || not_ok r2 || not_ok r3 || not_ok r4 in
  let error_backoff := schedule_error_backoff error_backoff failed interval in
  (d, error_backoff, match error_backoff with Some backoff => Z.max delay backoff | None => delay end).
End Scheduler.

(** ** Heartbeats and demand *)

Record HeartbeatConfig := {
  hb_worker_id : uuid;
  hb_queue_name : rstring;
  hb_interval : Z;
  hb_ttl : Z;
}.

(** One tick of [heartbeat_worker], with the outcome it records. *)
Definition heartbeat_tick (e : Env) (config : HeartbeatConfig) (health : HealthState) (d : Db)
    : Db * HealthState * rstring :=
  match Store.heartbeat_worker e (hb_worker_id config) (hb_ttl config) false d with
  | (d', Ok true) => (d', set_database true health, str "ok")
  | (d', Ok false) => (d', set_database false health, str "missing")
  | (d', Err _) => (d', set_database false health, str "error")
  end.

(** Its last statement, at shutdown. *)
Definition heartbeat_stop (e : Env) (config : HeartbeatConfig) (d : Db) : Db :=
  (Store.heartbeat_worker e (hb_worker_id config) (from_millis 1) true d).1.

(** One tick of [sample_queue_demand]: what it records of live workers, routable
    and unroutable tasks. *)
Definition demand_tick (e : Env) (advisory_lock row_lock : bool) (queue_name : rstring) (sample_interval : Z)
    (d : Db) : Db * option (Z * Z * Z) :=
  match Store.sample_queue_demand e advisory_lock row_lock queue_name sample_interval d with
  | (d', Ok sample) => (d', Some (qs_live_workers sample, qs_routable_tasks sample, qs_unroutable_tasks sample))
  | (d', Err _) => (d', None)
  end.

(** ** Starting *)

Definition worker_ensure_storage_protocol (answer : result SqlxError (Z * Z)) : result WorkerError unit :=
  match storage_protocol_range answer with
  | Err error => Err (Postgres error)
  | Ok database =>
      if overlaps database WORKER_STORAGE_PROTOCOL_RANGE then Ok tt
      else Err (WIncompatibleStorageProtocol (TaskTypes.minimum database) (TaskTypes.maximum database)
                  (TaskTypes.minimum WORKER_STORAGE_PROTOCOL_RANGE)
                  (TaskTypes.maximum WORKER_STORAGE_PROTOCOL_RANGE))
  end.
