(* ===== verification/Workers.v ===== *)
(** Workers in the database: a registration reads back as it was made, the retry
    policy of a handler is fixed once it is known, and the demand a queue reports
    agrees with what its workers can claim. *)

From stdpp Require Import sorting.
From S2P Require Import Prelude Text Identifier Json Retry TaskTypes Outcome Rows Tables Protocol Fleet.
From S2P Require Import Lifecycle Dispatch Triggers Store StoreSpec Registry Durable Control Health Runtime.

(** ** Policies *)

Lemma retention_policies now rows : forall d, policies (foldl (delete_task now) d rows) = policies d.
Proof.
  induction rows as [|kt rows IH]; intros d; cbn; [done|]. rewrite IH. unfold delete_task, update_key.
  by case_match.
Qed.

Lemma steps_keep_policies d d' : rtc db_step d d' -> policies d ⊆ policies d'.
Proof.
  induction 1 as [|d d1 d2 Hs _ IH]; [done|]. etransitivity; [|exact IH].
  destruct Hs as [c e H|e q limit n H]; [by apply exec_keeps in H as [_ H]|].
  unfold Protocol.delete_expired_terminal in H. injection H as <- _. by rewrite retention_policies.
Qed.

Lemma ensure_queue_policies now q d : policies (ensure_queue now q d) = policies d.
Proof. unfold ensure_queue. by case_match. Qed.

(** What a registration that reaches the database sends. *)
Lemma store_register_inv e id queue version caps ttl d :
  (exists error, Store.register_worker e id queue version caps ttl d = (d, Err error)) \/
  (exists ms rows,
     Store.register_worker e id queue version caps ttl d = execute (Fleet.register_worker e id queue version rows ms) d /\
     ms = as_millis ttl /\
     Forall2 (fun c r => exists columns, version_i32 c.1.2 = Ok c.1.2 /\ retry_policy_columns c.2 = Ok columns /\
       r = (c.1.1, c.1.2, policy_row columns)) caps rows).
Proof.
  unfold Store.register_worker. destruct (bool_decide (caps = [])); [left; by eexists|]. cbn [negb].
  rewrite bind_lift. destruct (ttl_milliseconds _ ttl) as [ms|] eqn:Ems; [|left; by eexists].
  rewrite bind_lift. destruct (collect (fun c => version_i32 c.1.2) caps) as [vs|] eqn:Ev; [|left; by eexists].
  rewrite bind_lift. destruct (collect (fun c => retry_policy_columns c.2) caps) as [ps|] eqn:Ep; [|left; by eexists].
  rewrite bind_lift. unfold bind_text. destruct (bool_decide (NUL ∈ version)); [left; by eexists|].
  right. eexists ms, _. split; [reflexivity|]. split.
  - unfold ttl_milliseconds in Ems. ok_inv. simplify_eq. by apply ok_or_inv, try_from_inv in E as [-> _].
  - apply collect_Forall2 in Ev, Ep. clear -Ev Ep. revert vs ps Ev Ep.
    induction caps as [|c caps IH]; intros vs ps Ev Ep; inversion Ev; inversion Ep; subst; cbn; constructor; eauto.
    match goal with H : version_i32 _ = Ok ?v |- _ => pose proof (version_i32_inv _ _ H); subst v end. eauto.
Qed.

(** Claim C32.  The retry policy of a handler is immutable: once a worker has
    registered one for a queue, task name and version, no sequence of protocol
    calls and retention changes or removes it, and registering a worker with
    another policy for that handler is refused and changes nothing. *)
Theorem handler_policy_is_immutable d d' queue name version y :
  rtc db_step d d' -> policies d !! (queue, name, version) = Some y ->
  policies d' !! (queue, name, version) = Some y /\
  forall e id text caps policy columns ttl,
    (name, version, policy) ∈ caps -> retry_policy_columns policy = Ok columns -> policy_row columns <> y ->
    exists error, Store.register_worker e id queue text caps ttl d' = (d', Err error).
Proof.
  intros Hsteps Hy. assert (policies d' !! (queue, name, version) = Some y) as Hy'
    by (eapply lookup_weaken; [done|]; by apply steps_keep_policies).
  split; [done|]. intros e id text caps policy columns ttl Hin Hcol Hne.
  destruct (store_register_inv e id queue text caps ttl d') as [?|(ms & rows & -> & _ & HF)]; [done|].
  unfold execute. destruct (Fleet.register_worker _ _ _ _ _ _ _) as [[d1 u]|code] eqn:E; [|by eexists]. exfalso.
  unfold Fleet.register_worker in E. ok_inv.
  apply list_elem_of_lookup in Hin as [i Hi]. destruct (Forall2_lookup_l _ _ _ _ _ HF Hi) as (r & Hr & columns' & _ & Hc & ->).
  cbn in Hc. assert (columns' = columns) as -> by congruence.
  match goal with H : forallb (policies_agree _ _) _ = true |- _ =>
    rewrite forallb_forall in H; specialize (H _ (proj1 (list_elem_of_In _ _) (list_elem_of_lookup_2 _ _ _ Hr)));
    unfold policies_agree in H; cbn [fst snd policies set_workers] in H;
    rewrite ensure_queue_policies, Hy' in H; apply bool_decide_eq_true in H; congruence end.
Qed.

(** ** Registrations *)

Global Instance capability_le_total : Total capability_le.
Proof.
  intros [a v] [b w]. unfold capability_le. cbn. pose proof (str_compare_antisym a b) as Ha.
  destruct (str_compare a b) eqn:E; [apply str_compare_eq in E as ->|by left; left|by right; left; rewrite Ha].
  destruct (Z.le_ge_cases v w); [left|right]; by right.
Qed.

Lemma capabilities_after id rows d :
  NoDup (map fst rows) ->
  merge_sort capability_le (map (fun c => (c.1.2, c.2)) (filter (fun c : Z * list Z * Z => c.1.1 = id)
    (elements (replace_capabilities id rows d)))) ≡ₚ map fst rows.
Proof.
  intros Hnd. rewrite (merge_sort_Permutation capability_le). apply NoDup_Permutation; [|done|].
  - apply NoDup_fmap_2_strong; [|apply NoDup_filter, NoDup_elements].
    intros [[a n] v] [[b m] w] [Ha _]%list_elem_of_filter [Hb _]%list_elem_of_filter [= -> ->]. cbn in *. congruence.
  - intros [n v]. rewrite list_elem_of_fmap. unfold replace_capabilities. split.
    + intros ([[i m] w] & [= -> ->] & [Hi Hin]%list_elem_of_filter). cbn in Hi. subst i.
      apply elem_of_elements, elem_of_union in Hin as [[? _]%elem_of_filter|Hin]; [done|].
      apply elem_of_list_to_set, list_elem_of_fmap in Hin as ([[m' w'] y] & [= -> ->] & Hin).
      apply list_elem_of_fmap. by exists (m', w', y).
    + intros ([[m w] y] & [= -> ->] & Hin)%list_elem_of_fmap. exists (id, m, w). split; [done|].
      apply list_elem_of_filter. split; [done|]. apply elem_of_elements, elem_of_union_r, elem_of_list_to_set.
      apply list_elem_of_fmap. by exists (m, w, y).
Qed.

Lemma collect_map_ok {E A B} (f : A -> result E B) (g : A -> B) l :
  Forall (fun a => f a = Ok (g a)) l -> collect f l = Ok (map g l).
Proof. induction 1 as [|a l Ha _ IH]; cbn [collect map]; [done|]. by rewrite Ha, IH. Qed.

Lemma parse_name_same kind maximum s :
  is_ok (name_new kind maximum s) = true -> parse_name (name_new kind maximum) s = Ok s.
Proof. unfold parse_name, name_new. intros H. by destruct (validate_name s kind maximum). Qed.

(** A capability that could be announced reads back. *)
Lemma capability_reads n v :
  is_ok (TaskName_new n) = true -> version_i32 v = Ok v -> 0 < v ->
  capability_try_from {| cr_task_name := n; cr_handler_version := v |} = Ok (n, v).
Proof.
  intros Hn Hv Hpos. unfold capability_try_from. cbn [cr_task_name cr_handler_version].
  unfold TaskName_new in *. rewrite parse_name_same by done. cbn [mbind result_bind].
  apply ok_or_inv, try_from_inv in Hv as [_ Hv].
  rewrite handler_version_ok; [done|]. unfold i32_min, i32_max in *. lia.
Qed.

(** A registration reads back as it was made: after [register_worker]
    has succeeded, [get_worker] returns the worker with its queue, version and
    expiry, not draining, and with exactly the capabilities it announced, in the
    order of task name and version, whatever was registered under its id
    before. *)
Theorem register_worker_roundtrip e id queue text caps ttl d d' :
  is_ok (QueueName_new queue) = true -> Forall (fun c => is_ok (TaskName_new c.1.1) = true) caps ->
  Store.register_worker e id queue text caps ttl d = (d', Ok tt) ->
  exists record, Store.get_worker id d' = (d', Ok (Some record)) /\
    wr_id record = id /\ wr_queue_name record = queue /\ wr_version record = text /\
    wr_draining record = false /\ wr_heartbeat_at record = e_now e /\
    wr_expires_at record = e_now e + milliseconds (as_millis ttl) /\
    wr_capabilities record ≡ₚ map fst caps /\ Sorted capability_le (wr_capabilities record).
Proof.
  intros Hq Hnames H.
  destruct (store_register_inv e id queue text caps ttl d) as [[error E]|(ms & rows & E & -> & HF)];
    rewrite E in H; [done|]. unfold execute in H.
  destruct (Fleet.register_worker _ _ _ _ _ _ _) as [[d1 u]|code] eqn:Er; [|done]. injection H as <- _.
  unfold Fleet.register_worker in Er. ok_inv. simplify_eq.
  assert (map fst rows = map fst caps) as Hfst.
  { clear -HF. induction HF as [|c r caps rows (columns & _ & _ & ->) _ IH]; cbn; [done|]. by destruct c as [[]]; rewrite IH. }
  match goal with H : bool_decide (NoDup _) = true |- _ => apply bool_decide_eq_true in H; rename H into Hnd end.
  match goal with H : forallb (fun r => 0 <? _) _ = true |- _ => rename H into Hpos end.
  unfold Store.get_worker. rewrite bind_fetch. cbn [workers set_policies set_workers]. rewrite lookup_insert_eq.
  rewrite bind_fetch, bind_lift. unfold capabilities_of. cbn [worker_capabilities set_policies set_workers].
  set (cs := merge_sort capability_le _).
  assert (cs ≡ₚ map fst caps) as Hcs by (rewrite <- Hfst; by apply capabilities_after).
  unfold try_into_record.
  rewrite (collect_map_ok _ (fun c => (cr_task_name c, cr_handler_version c))).
  - unfold QueueName_new in *. cbn [mbind result_bind wk_queue_name upsert_worker].
    rewrite parse_name_same by done. cbn. eexists. split; [reflexivity|]. cbn.
    assert (map (fun c => (cr_task_name c, cr_handler_version c))
      (map (fun c : list Z * Z => {| cr_task_name := c.1; cr_handler_version := c.2 |}) cs) = cs) as ->.
    { rewrite map_map. cbn. rewrite <- (map_id cs) at 2. apply map_ext. by intros []. }
    split_and!; try done. apply (Sorted_merge_sort capability_le).
  - rewrite Forall_map. apply Forall_forall. intros [n v] Hin. rewrite Hcs in Hin.
    apply list_elem_of_fmap in Hin as ([[n' v'] p] & [= -> ->] & Hin). rewrite Forall_forall in Hnames.
    apply list_elem_of_lookup in Hin as [i Hi].
    destruct (Forall2_lookup_l _ _ _ _ _ HF Hi) as (r & Hr & columns & Hv & _ & ->).
    rewrite forallb_forall in Hpos.
    specialize (Hpos _ (proj1 (list_elem_of_In _ _) (list_elem_of_lookup_2 _ _ _ Hr))).
    apply capability_reads; [by apply (Hnames _ (list_elem_of_lookup_2 _ _ _ Hi))|done|by apply Z.ltb_lt].
Qed.

(** ** Demand *)

Lemma count_where_le {A} (p : A -> bool) l : count_where p l <= len l.
Proof. unfold count_where, len. pose proof (length_filter (fun a => p a = true) l). lia. Qed.

Lemma count_where_negb {A} (p : A -> bool) l : count_where p l + count_where (fun a => negb (p a)) l = len l.
Proof.
  unfold count_where, len. induction l as [|a l IH]; [done|]. rewrite !filter_cons.
  destruct (p a) eqn:E; cbn [negb].
  - rewrite decide_True, decide_False, !length_cons by done. lia.
  - rewrite decide_False, decide_True, !length_cons by done. lia.
Qed.

(** What a worker of the fleet claims with the capabilities it has registered is
    ready and routable. *)
Lemma candidates_routable e d queue worker row limit :
  0 <= limit -> (forall u, queues d !! queue = Some u -> 0 <= u_starvation u) ->
  workers d !! worker = Some row -> wk_queue_name row = queue -> wk_draining row = false ->
  live (e_now e) row = true ->
  Forall (fun kt => kt ∈ ready_tasks (e_now e) queue d /\ routable (e_now e) d kt.2 = true)
    (candidates e d queue (capabilities_of worker d) limit).
Proof.
  intros Hl Hst Hw Hq Hdr Hlive. pose proof (candidates_claimable e d queue (capabilities_of worker d) limit Hl Hst) as HC.
  destruct (candidates_spec e d queue (capabilities_of worker d) limit) as [_ HF].
  apply Forall_forall. intros kt Hin. rewrite Forall_forall in HC, HF. specialize (HC _ Hin).
  destruct (HF _ Hin) as (Hrow & _ & _). apply claimable_spec in HC as (Hqk & Hs & Hdue & _ & Hcap). split.
  - unfold ready_tasks. unfold candidates in Hin. destruct (queues d !! queue) as [u|]; [|by apply elem_of_nil in Hin].
    destruct (u_paused_at u); [by apply elem_of_nil in Hin|]. apply list_elem_of_filter. split; [done|].
    destruct kt. by apply elem_of_map_to_list.
  - unfold routable. apply existsb_exists. exists (worker, row). split; [by apply list_elem_of_In, elem_of_map_to_list|].
    cbn [fst snd]. rewrite Hqk, Hq, Hdr, Hlive, bool_decide_eq_true_2 by done. apply bool_decide_eq_true.
    unfold capable in Hcap. apply bool_decide_eq_true in Hcap. unfold capabilities_of in Hcap.
    rewrite (merge_sort_Permutation capability_le) in Hcap.
    apply list_elem_of_fmap in Hcap as ([[w n] v] & [= -> ->] & [Hw' Hin']%list_elem_of_filter).
    cbn in Hw'. subst w. by apply elem_of_elements in Hin'.
Qed.

(** The demand a sample reports is what the fleet can claim: the
    routable and unroutable tasks are the due tasks of the queue, each counted
    once; the unroutable ones agree with [queue_demand]; and no live worker of
    the queue, claiming at that moment with the capabilities it has registered,
    gets more tasks than are counted routable, so that it gets none when all
    are unroutable. *)
Theorem sampled_demand_bounds_claims e row_lock queue ms d d' live_count routable_count unroutable_count :
  (forall u, queues d !! queue = Some u -> 0 <= u_starvation u) ->
  Fleet.sample_queue_demand e true row_lock queue ms d = Ok (d', (true, live_count, routable_count, unroutable_count)) ->
  routable_count + unroutable_count = len (ready_tasks (e_now e) queue d) /\
  (forall caps ready capable unroutable,
     Fleet.queue_demand e queue caps d = Ok (ready, capable, unroutable) -> unroutable = unroutable_count) /\
  forall worker row limit lease_ms d2 rows,
    workers d !! worker = Some row -> wk_queue_name row = queue -> wk_draining row = false ->
    live (e_now e) row = true -> 0 <= limit ->
    Protocol.claim e queue worker (capabilities_of worker d) limit lease_ms d = Ok (d2, rows) ->
    len rows <= routable_count.
Proof.
  intros Hst H. unfold Fleet.sample_queue_demand in H. ok_inv. destruct (queues d !! queue) as [u|] eqn:Eu; [|done].
  cbn [negb orb] in H. unfold last_sample in H.
  destruct (sample_fresh _ _ _ _); [by case_match|]. destruct row_lock; [|by case_match]. simplify_eq.
  set (ready := ready_tasks (e_now e) queue d). split_and!; [lia| |].
  - intros caps r c un Hd. unfold Fleet.queue_demand in Hd. ok_inv. simplify_eq. fold ready.
    pose proof (count_where_negb (fun kt : Z * TaskRec => routable (e_now e) d kt.2) ready) as Hn. cbn beta in Hn. lia.
  - intros worker row limit lease_ms d2 rows Hw Hq Hdr Hlive Hlim Hc.
    apply claim_inv in Hc as (-> & _ & _). unfold len at 1. rewrite length_map. unfold claimed_rows. rewrite length_imap.
    set (cands := candidates e d queue (capabilities_of worker d) limit).
    pose proof (candidates_routable e d queue worker row limit Hlim ltac:(by rewrite Eu) Hw Hq Hdr Hlive) as HF.
    destruct (candidates_spec e d queue (capabilities_of worker d) limit) as [Hnd _].
    fold cands in HF, Hnd. unfold count_where, len. apply inj_le.
    apply submseteq_length, NoDup_submseteq; [by apply NoDup_fmap_1 in Hnd|]. intros kt Hin.
    rewrite Forall_forall in HF. destruct (HF _ Hin). by apply list_elem_of_filter.
Qed.

(** ** Witnesses: one worker that can run the task of [demo1] *)

Definition demo_capabilities : list (rstring * Z * RetryPolicy) := [(str "mail", 1, Fixed (from_secs 1))].
Definition demo_fleet : Db :=
  (Store.register_worker (demo_env 15 0) 7 (str "default") (str "1.0") demo_capabilities (from_secs 60) demo1).1.
Definition demo_policy : RetryColumns :=
  {| y_kind := Some (str "fixed"); y_base_delay := Some 1000; y_factor := None; y_max_delay := None |}.

Lemma handler_policy_is_immutable_witness :
  policies demo_fleet !! (str "default", str "mail", 1) = Some demo_policy /\
  exists error, Store.register_worker (demo_env 16 0) 8 (str "default") (str "1.1") [(str "mail", 1, Never)]
    (from_secs 60) demo_fleet = (demo_fleet, Err error).
Proof.
  destruct (handler_policy_is_immutable demo_fleet demo_fleet (str "default") (str "mail") 1 demo_policy)
    as [H1 H2]; [apply rtc_refl|vm_compute; reflexivity|]. split; [exact H1|].
  apply (H2 (demo_env 16 0) 8 (str "1.1") [(str "mail", 1, Never)] Never
    {| rc_kind := str "never"; rc_base_delay := None; rc_factor := None; rc_max_delay := None |} (from_secs 60));
    [by apply list_elem_of_singleton|reflexivity|vm_compute; discriminate].
Defined.

Lemma register_worker_roundtrip_witness :
  exists record, Store.get_worker 7 demo_fleet = (demo_fleet, Ok (Some record)) /\
    wr_capabilities record ≡ₚ [(str "mail", 1)].
Proof.
  destruct (register_worker_roundtrip (demo_env 15 0) 7 (str "default") (str "1.0") demo_capabilities (from_secs 60)
    demo1 demo_fleet) as (record & Hr & _ & _ & _ & _ & _ & _ & Hc & _);
    [vm_compute; reflexivity|repeat constructor|vm_compute; reflexivity|].
  exists record. split; [exact Hr|exact Hc].
Defined.

Lemma sampled_demand_bounds_claims_witness :
  exists d', Fleet.sample_queue_demand (demo_env 20 0) true true (str "default") 5000 demo_fleet
      = Ok (d', (true, 1, 1, 0)) /\
    len (ready_tasks 20 (str "default") demo_fleet) = 1 /\
    forall limit d2 rows, 0 <= limit ->
      Protocol.claim (demo_env 20 0) (str "default") 7 (capabilities_of 7 demo_fleet) limit 30000 demo_fleet
        = Ok (d2, rows) -> len rows <= 1.
Proof.
  destruct (Fleet.sample_queue_demand (demo_env 20 0) true true (str "default") 5000 demo_fleet)
    as [[d' [[[s l] r] u]]|] eqn:E; [|by vm_compute in E].
  assert ((s, l, r, u) = (true, 1, 1, 0)) as [= -> -> -> ->] by (vm_compute in E; by injection E as _ <- <- <- <-).
  assert (forall u, queues demo_fleet !! str "default" = Some u -> 0 <= u_starvation u) as Hst
    by (intros u Hu; vm_compute in Hu; injection Hu as <-; vm_compute; discriminate).
  destruct (sampled_demand_bounds_claims _ _ _ _ _ _ _ _ _ Hst E) as (Hsum & _ & Hclaim).
  exists d'. split; [done|]. split; [exact (eq_sym Hsum)|]. intros limit d2 rows Hl Hc.
  destruct (workers demo_fleet !! 7) as [row|] eqn:Er; [|by vm_compute in Er].
  apply (Hclaim 7 row limit 30000 d2 rows Er); [..|done|exact Hc];
    vm_compute in Er; injection Er as <-; vm_compute; reflexivity.
Defined.
