(* ===== verification/Notifications.v ===== *)
(** Notifications: the hub between the LISTEN connection and the listeners, and
    those who wait on it.

    [pgtask-postgres/src/store.rs]: [ReadyListener], [NotificationHub],
    [run_notification_hub], [ready_listener_for], [result_listener] and
    [wait_for_task_result]; [pgtask-worker/src/runtime.rs]: [listen_for_ready].

    The tasks of the program run concurrently; each is a state that changes in
    steps, and a step is what happens between two awaits.  [tokio]'s broadcast
    channel is the log of everything sent on it and a receiver is its position in
    the log; what it receives is an argument, [Broadcast], with the laws [tokio]
    documents.  Of [sqlx] the model has a connection with the
    channels it listens to and the notifications it has received; what its
    calls answer is an argument.  The hash that shards the channels is
    PostgreSQL's and an argument too. *)

From S2P Require Import Prelude Text Identifier Json TaskTypes Outcome Rows Tables Protocol Fleet.
From S2P Require Import Lifecycle Store Control Health.

(** ** Listeners *)

Record Notice := { n_channel : rstring; n_payload : rstring }.

Inductive NotificationEvent : Type :=
| Ready (notification : Notice)
| Disconnected (error : rstring)
| Reconnected.

Definition BROADCAST_CAPACITY : nat := 1024.

Inductive Received : Type :=
| Received_event (event : NotificationEvent) (position : nat)
| Received_lagged (position : nat)
| Received_empty.

(** [broadcast::Receiver::recv] of a receiver that has read [position] of the
    events in the log. *)
Class Broadcast := broadcast_recv : list NotificationEvent -> nat -> Received.

(** What [tokio] documents of it: a receiver gets the events in order as long as
    it is at most the capacity behind, and otherwise an error and the position of
    the oldest event the channel holds. *)
Class BroadcastLaws `{Broadcast} : Prop := {
  recv_event log position event : (length log - position <= BROADCAST_CAPACITY)%nat ->
    log !! position = Some event -> broadcast_recv log position = Received_event event (S position);
  recv_empty log position : (length log - position <= BROADCAST_CAPACITY)%nat ->
    log !! position = None -> broadcast_recv log position = Received_empty;
  recv_lagged log position : (BROADCAST_CAPACITY < length log - position)%nat ->
    broadcast_recv log position = Received_lagged (length log - BROADCAST_CAPACITY);
}.

Abbreviation Filters := (gmap (list Z) (option (list Z))) (only parsing).

Record ReadyListener := { rl_filters : gmap (list Z) (option (list Z)); rl_position : nat }.

Definition at_position (listener : ReadyListener) (position : nat) : ReadyListener :=
  {| rl_filters := rl_filters listener; rl_position := position |}.

Definition accepts (filters : Filters) (notification : Notice) : bool :=
  match filters !! n_channel notification with
  | Some (Some payload) => bool_decide (payload = n_payload notification)
  | Some None => true
  | None => false
  end.

(** One iteration of the loop of [ReadyListener::recv]. *)
Inductive Recv : Type :=
| Recv_return (answer : result PostgresError Notice)
| Recv_again
| Recv_pending.

Definition recv_step `{Broadcast} (log : list NotificationEvent) (listener : ReadyListener) : ReadyListener * Recv :=
  match broadcast_recv log (rl_position listener) with
  | Received_event (Ready notification) position =>
      (at_position listener position,
       if accepts (rl_filters listener) notification then Recv_return (Ok notification) else Recv_again)
  | Received_lagged position => (at_position listener position, Recv_again)
  | Received_event (Disconnected error) position =>
      (at_position listener position, Recv_return (Err (Notification error)))
  | Received_event Reconnected position =>
      (at_position listener position, Recv_return (Err NotificationReconnected))
  | Received_empty => (listener, Recv_pending)
  end.

(** ** The hub *)

(** The connection of the [PgListener]: [cn_lost] once the network has lost it. *)
Record Connection := {
  cn_listening : gset (list Z);
  cn_inbox : list Notice;
  cn_lost : bool;
}.

Record Hub := {
  hub_channels : gset (list Z);
  hub_connection : option Connection;
  hub_events : list NotificationEvent;
}.

Definition set_connection (connection : option Connection) (hub : Hub) : Hub :=
  {| hub_channels := hub_channels hub; hub_connection := connection; hub_events := hub_events hub |}.
Definition add_channels (channels : list rstring) (hub : Hub) : Hub :=
  {| hub_channels := hub_channels hub ∪ list_to_set channels; hub_connection := hub_connection hub;
     hub_events := hub_events hub |}.
Definition send_event (event : NotificationEvent) (hub : Hub) : Hub :=
  {| hub_channels := hub_channels hub; hub_connection := hub_connection hub;
     hub_events := hub_events hub ++ [event] |}.

Definition listen_on (channel : rstring) (connection : Connection) : Connection :=
  {| cn_listening := {[channel]} ∪ cn_listening connection; cn_inbox := cn_inbox connection;
     cn_lost := cn_lost connection |}.
Definition new_connection : Connection := {| cn_listening := ∅; cn_inbox := []; cn_lost := false |}.

(** [listener.listen(&channel).await?] for each of [channels]; [listen] is the
    error of each LISTEN that fails. *)
Fixpoint listen_to_channels (listen : rstring -> option rstring) (channels : list rstring)
    (connection : Connection) : result rstring Connection :=
  match channels with
  | [] => Ok connection
  | channel :: channels' =>
      match listen channel with
      | Some error => Err error
      | None => listen_to_channels listen channels' (listen_on channel connection)
      end
  end.

(** [run_notification_hub] receives a command.  Without a connection it connects
    ([connect] is the error, if it fails) and listens to all channels; with one
    it listens to the channels that are new. *)
Definition hub_command (connect : option rstring) (listen : rstring -> option rstring)
    (channels : list rstring) (hub : Hub) : Hub * result rstring unit :=
  match hub_connection hub with
  | None =>
      let hub := add_channels channels hub in
      match connect with
      | Some error => (hub, Err error)
      | None =>
          match listen_to_channels listen (elements (hub_channels hub)) new_connection with
          | Ok connection => (set_connection (Some connection) hub, Ok tt)
          | Err error => (hub, Err error)
          end
      end
  | Some connection =>
      let new_channels := filter (fun channel => channel ∉ hub_channels hub) (remove_dups channels) in
      let hub := add_channels channels hub in
      match listen_to_channels listen new_channels connection with
      | Ok connection => (set_connection (Some connection) hub, Ok tt)
      | Err error => (send_event (Disconnected error) (set_connection None hub), Err error)
      end
  end.

(** What [listener.try_recv()] answers: the next notification, [None] after it
    has connected again, or an error. *)
Definition hub_receive (answer : result rstring (option Notice)) (hub : Hub) : Hub :=
  match answer with
  | Ok (Some notification) => send_event (Ready notification) hub
  | Ok None => send_event Reconnected hub
  | Err error => send_event (Disconnected error) (set_connection None hub)
  end.

(** ** Subscribing *)

Section Listeners.
(** [pgtask.ready_channel] and [pgtask.result_channel]. *)
Context (ready_channel : rstring -> rstring) (result_channel : uuid -> rstring).

Definition queue_filters (queue_names : list rstring) : Filters :=
  foldl (fun filters queue_name => <[ready_channel queue_name := Some queue_name]> filters)
    (<[str "pgtask_schedule" := None]> {[str "pgtask_wait" := None]}) queue_names.

(** The filters of [ready_listener_for], or its error. *)
Definition ready_listener_for (queue_names : list rstring) : result PostgresError Filters :=
  if bool_decide (queue_names = []) then Err MissingQueues else Ok (queue_filters queue_names).
Definition ready_listener (queue_name : rstring) : result PostgresError Filters :=
  ready_listener_for [queue_name].

Definition result_listener (task_id : uuid) : Filters := {[result_channel task_id := Some (uuid_text task_id)]}.

(** [NotificationHub::subscribe]: the receiver subscribes before the command is
    sent, and the listener is returned once the hub has confirmed it. *)
Definition subscribe (filters : Filters) (hub : Hub) : ReadyListener * list rstring :=
  ({| rl_filters := filters; rl_position := length (hub_events hub) |}, map fst (map_to_list filters)).
Definition confirm (answer : result rstring unit) : result PostgresError unit := map_err Notification answer.

(** ** Waiting for a result *)

Inductive TaskResultWait : Type :=
| WaitReady (result : TaskResult)
| NotFound
| TimedOut.

(** Where [wait_for_task_result] is: subscribed and waiting for the hub to
    confirm, before its first read, in the loop, about to read again, or done. *)
Inductive Phase : Type :=
| Subscribing
| Reading
| Looping
| Rereading
| Done (answer : result PostgresError TaskResultWait).

Record Waiter := { wt_listener : ReadyListener; wt_phase : Phase }.

Definition start_waiting (task_id : uuid) (hub : Hub) : Waiter :=
  {| wt_listener := (subscribe (result_listener task_id) hub).1; wt_phase := Subscribing |}.
Definition set_phase (phase : Phase) (w : Waiter) : Waiter :=
  {| wt_listener := wt_listener w; wt_phase := phase |}.

Definition wait_confirmed (answer : result rstring unit) (w : Waiter) : Waiter :=
  match confirm answer with
  | Ok tt => set_phase Reading w
  | Err error => set_phase (Done (Err error)) w
  end.

(** The first read, and the ones in the loop. *)
Definition wait_read (task_id : uuid) (d : Db) (w : Waiter) : Waiter :=
  match (task_result task_id d).2 with
  | Err error => set_phase (Done (Err error)) w
  | Ok None => set_phase (Done (Ok NotFound)) w
  | Ok (Some result) =>
      if is_terminal (tr_state result) then set_phase (Done (Ok (WaitReady result))) w else set_phase Looping w
  end.
Definition wait_reread (task_id : uuid) (d : Db) (w : Waiter) : Waiter :=
  match (task_result task_id d).2 with
  | Err error => set_phase (Done (Err error)) w
  | Ok None =>
      set_phase (Done (Err (InvalidTask (Message (str "task disappeared while waiting for result"))))) w
  | Ok (Some result) =>
      if is_terminal (tr_state result) then set_phase (Done (Ok (WaitReady result))) w else set_phase Looping w
  end.

(** One iteration of the [recv] the loop awaits. *)
Definition wait_receive `{Broadcast} (task_id : uuid) (log : list NotificationEvent) (w : Waiter) : Waiter :=
  let (listener, recv) := recv_step log (wt_listener w) in
  {| wt_listener := listener;
     wt_phase := match recv with
                 | Recv_return (Ok notification) =>
                     if bool_decide (n_payload notification = uuid_text task_id) then Rereading else Looping
                 | Recv_return (Err NotificationReconnected) => Rereading
                 | Recv_return (Err error) => Done (Err error)
                 | Recv_again | Recv_pending => Looping
                 end |}.
End Listeners.

(** ** The listener of the worker *)

Record Wakeups := { wake_tasks : bool; wake_schedules : bool }.

(** What [listen_for_ready] does with an answer of [recv]: whom it wakes, or
    that it has to connect again. *)
Definition on_notification (queues : list rstring) (answer : result PostgresError Notice) : option Wakeups :=
  match answer with
  | Ok notification =>
      if starts_with (str "pgtask_ready_") (n_channel notification)
         && bool_decide (n_payload notification ∈ queues)
      then Some {| wake_tasks := true; wake_schedules := false |}
      else if bool_decide (n_channel notification = str "pgtask_schedule")
              || bool_decide (n_channel notification = str "pgtask_wait")
      then Some {| wake_tasks := false; wake_schedules := true |}
      else Some {| wake_tasks := false; wake_schedules := false |}
  | Err _ => None
  end.

Definition RECONNECT_DELAY_START : Z := from_millis 100.

(** The state of the loop: connected, or about to connect after [retry_delay]. *)
Record Listening := {
  ls_connected : bool;
  ls_retry_delay : Z;
  ls_health : HealthState;
}.

(** The inner loop ends with an error. *)
Definition listener_lost (l : Listening) : Listening :=
  {| ls_connected := false; ls_retry_delay := ls_retry_delay l; ls_health := set_listener false (ls_health l) |}.

(** One attempt of the reconnection loop, with the delay it sleeps for when it
    fails. *)
Definition reconnect_attempt (reconnected : result PostgresError unit) (l : Listening)
    : Listening * Wakeups * option Z :=
  match reconnected with
  | Ok _ =>
      ({| ls_connected := true; ls_retry_delay := RECONNECT_DELAY_START;
          ls_health := set_listener true (set_database true (ls_health l)) |},
       {| wake_tasks := true; wake_schedules := true |}, None)
  | Err _ =>
      ({| ls_connected := false; ls_retry_delay := Z.min (ls_retry_delay l * 2) (from_secs 5);
          ls_health := set_database false (ls_health l) |},
       {| wake_tasks := false; wake_schedules := false |}, Some (ls_retry_delay l))
  end.
