(* ===== verification/Waiting.v ===== *)
(** Waiting for a result misses no completion as long as the listener keeps up,
    and can miss one when it falls behind; a queue that shares its shard with
    another queue of the worker is not heard.

    The system is a database that commits statements, the hub with its
    connection, other listeners that subscribe, and one caller of
    [wait_for_task_result].  Their steps interleave in any order. *)

From S2P Require Import Prelude Text Identifier Json TaskTypes Outcome Rows Tables Protocol Fleet.
From S2P Require Import Lifecycle Store StoreSpec Notifications.

(** ** The hub *)

(** A connection listens to all channels of the hub. *)
Definition hub_ok (hub : Hub) : Prop := forall c, hub_connection hub = Some c -> hub_channels hub ⊆ cn_listening c.

Lemma listen_to_channels_ok listen channels : forall c c',
  listen_to_channels listen channels c = Ok c' ->
  list_to_set channels ∪ cn_listening c ⊆ cn_listening c' /\ cn_inbox c' = cn_inbox c /\ cn_lost c' = cn_lost c.
Proof.
  induction channels as [|a channels IH]; intros c c' H; cbn [listen_to_channels] in H.
  { injection H as <-. split_and!; [set_solver|done..]. }
  destruct (listen a); [done|]. apply IH in H as (Hl & -> & ->). cbn in *. split_and!; [set_solver|done..].
Qed.

(** What a command can do to a hub, seen by those who listen. *)
Lemma hub_command_cases connect listen channels hub hub' answer :
  hub_ok hub -> hub_command connect listen channels hub = (hub', answer) ->
  hub_ok hub' /\
  match hub_connection hub, answer with
  | None, Err _ => hub_connection hub' = None /\ hub_events hub' = hub_events hub
  | None, Ok _ => hub_events hub' = hub_events hub /\
      exists c, hub_connection hub' = Some c /\ list_to_set channels ⊆ cn_listening c
  | Some c, Ok _ => hub_events hub' = hub_events hub /\
      exists c', hub_connection hub' = Some c' /\ list_to_set channels ∪ cn_listening c ⊆ cn_listening c' /\
        cn_inbox c' = cn_inbox c /\ cn_lost c' = cn_lost c
  | Some c, Err error => hub_connection hub' = None /\ hub_events hub' = hub_events hub ++ [Disconnected error]
  end.
Proof.
  intros Hok H. unfold hub_command in H. destruct (hub_connection hub) as [c|] eqn:Ec.
  - destruct (listen_to_channels _ _ c) as [c'|error] eqn:E; injection H as <- <-; [|by split].
    apply listen_to_channels_ok in E as (Hl & Hi & Hlost). specialize (Hok c Ec).
    assert (list_to_set channels ∪ cn_listening c ⊆ cn_listening c') as Hall.
    { intros x [Hx|Hx]%elem_of_union; [|set_solver]. destruct (decide (x ∈ hub_channels hub)); [set_solver|].
      apply Hl, elem_of_union_l, elem_of_list_to_set, list_elem_of_filter. split; [done|].
      apply elem_of_remove_dups. by apply elem_of_list_to_set in Hx. }
    split; [|cbn; eauto 6]. intros c2 [= <-]. cbn. set_solver.
  - assert (hub_ok (add_channels channels hub)) as Hnone by (intros c Hc; cbn in Hc; congruence).
    destruct connect; [by injection H as <- <-|].
    destruct (listen_to_channels _ _ _) as [c'|error] eqn:E; injection H as <- <-; [|done].
    apply listen_to_channels_ok in E as (Hl & Hi & Hlost).
    assert (hub_channels (add_channels channels hub) ⊆ cn_listening c') as Hall.
    { intros x Hx. apply Hl, elem_of_union_l, elem_of_list_to_set. by apply elem_of_elements. }
    split; [by intros c2 [= <-]|]. cbn in *. split; [done|]. exists c'. split; [done|]. set_solver.
Qed.

(** What a committed statement sends reaches a connection that listens. *)
Definition deliver (notices : list Notice) (c : Connection) : Connection :=
  if cn_lost c then c
  else {| cn_listening := cn_listening c; cn_lost := false;
          cn_inbox := cn_inbox c ++ filter (fun n => n_channel n ∈ cn_listening c) notices |}.
Definition with_inbox (inbox : list Notice) (lost : bool) (c : Connection) : Connection :=
  {| cn_listening := cn_listening c; cn_inbox := inbox; cn_lost := lost |}.

(** *** Changes of the hub *)

(** What a listener may rely on when the hub changes: events stay, and a
    connection keeps its channels and what it holds, unless an event tells. *)
Definition evolves (hub hub' : Hub) : Prop :=
  exists more, hub_events hub' = hub_events hub ++ more /\
  forall c, hub_connection hub = Some c ->
    (exists error, Disconnected error ∈ more) \/
    (exists c', hub_connection hub' = Some c' /\ cn_listening c ⊆ cn_listening c' /\
       (cn_lost c = true -> cn_lost c' = true \/ Reconnected ∈ more) /\
       forall n, n ∈ cn_inbox c -> n ∈ cn_inbox c' \/ cn_lost c' = true \/ Ready n ∈ more \/ Reconnected ∈ more).

Lemma evolves_command connect listen channels hub hub' answer :
  hub_ok hub -> hub_command connect listen channels hub = (hub', answer) -> evolves hub hub'.
Proof.
  intros Hok H. apply hub_command_cases in H as [_ H]; [|done].
  unfold evolves. destruct (hub_connection hub) as [c|] eqn:Ec, answer as [u|error].
  - destruct H as (He & c' & Ec' & Hl & Hi & Hlost). exists []. rewrite app_nil_r. split; [done|].
    intros c2 Hc2. simplify_eq. right. exists c'. rewrite Hi, Hlost. split_and!; [done|set_solver|auto..].
  - destruct H as [Hc He]. exists [Disconnected error]. split; [done|]. intros c2 Hc2. left. exists error. set_solver.
  - destruct H as [He _]. exists []. rewrite app_nil_r. split; [done|]. by intros c2 Hc2.
  - destruct H as [_ He]. exists []. rewrite app_nil_r. split; [done|]. by intros c2 Hc2.
Qed.

(** A step of the connection [c] that turns it into [c'] and sends [more]. *)
Lemma evolves_connection hub hub' c c' more :
  hub_connection hub = Some c -> hub_connection hub' = Some c' -> hub_events hub' = hub_events hub ++ more ->
  cn_listening c ⊆ cn_listening c' -> (cn_lost c = true -> cn_lost c' = true \/ Reconnected ∈ more) ->
  (forall n, n ∈ cn_inbox c -> n ∈ cn_inbox c' \/ cn_lost c' = true \/ Ready n ∈ more \/ Reconnected ∈ more) ->
  evolves hub hub'.
Proof.
  intros Ec Ec' He Hl Hlost Hi. exists more. split; [done|]. intros c2 Hc2.
  assert (c2 = c) as -> by congruence. right. eauto 6.
Qed.

Lemma evolves_deliver notices hub :
  evolves hub (set_connection (deliver notices <$> hub_connection hub) hub).
Proof.
  destruct (hub_connection hub) as [c|] eqn:Ec; cbn.
  - eapply (evolves_connection _ _ c (deliver notices c) []); [done|done|by rewrite app_nil_r|..];
      unfold deliver; destruct (cn_lost c) eqn:El; cbn; auto; set_solver.
  - exists []. split; [by rewrite app_nil_r|]. intros c Hc. congruence.
Qed.

Lemma hub_ok_connection hub c c' :
  hub_ok hub -> hub_connection hub = Some c -> cn_listening c ⊆ cn_listening c' ->
  hub_ok (set_connection (Some c') hub).
Proof. intros Hok Hc Hl c2 [= <-]. cbn. specialize (Hok c Hc). set_solver. Qed.

Lemma hub_ok_deliver notices hub :
  hub_ok hub -> hub_ok (set_connection (deliver notices <$> hub_connection hub) hub).
Proof.
  intros Hok. destruct (hub_connection hub) as [c|] eqn:Ec; cbn; [|by intros c].
  eapply hub_ok_connection; [done..|]. unfold deliver. by destruct (cn_lost c).
Qed.

Set Default Proof Using "Type*".

Section Waiting.
Context `{receiver : Broadcast, laws : !BroadcastLaws} (result_channel : uuid -> rstring) (task_id : uuid).

(** ** The system *)

Record Sys := { s_db : Db; s_hub : Hub; s_waiter : option Waiter }.

Definition notice_of (id : uuid) : Notice := {| n_channel := result_channel id; n_payload := uuid_text id |}.
Abbreviation channel := (result_channel task_id).
Abbreviation notice := (notice_of task_id).

(** [tasks_notify_result_shard]: a statement announces every task it finishes. *)
Definition announces (d d' : Db) (notices : list Notice) : Prop :=
  forall id t t', tasks d !! id = Some t -> outstanding (k_state t) = true ->
    tasks d' !! id = Some t' -> is_terminal (k_state t') = true -> notice_of id ∈ notices.

Definition with_hub (hub : Hub) (s : Sys) : Sys := {| s_db := s_db s; s_hub := hub; s_waiter := s_waiter s |}.
Definition with_waiter (w : Waiter) (s : Sys) : Sys := {| s_db := s_db s; s_hub := s_hub s; s_waiter := Some w |}.

(** The steps of the hub and of the caller once it waits. *)
Inductive quiet_step (s : Sys) : Sys -> Prop :=
| hub_receives c n inbox :
    hub_connection (s_hub s) = Some c -> cn_inbox c = n :: inbox ->
    quiet_step s (with_hub (hub_receive (Ok (Some n))
      (set_connection (Some (with_inbox inbox (cn_lost c) c)) (s_hub s))) s)
| hub_reconnects c :
    hub_connection (s_hub s) = Some c -> cn_lost c = true ->
    quiet_step s (with_hub (hub_receive (Ok None)
      (set_connection (Some (with_inbox [] false c)) (s_hub s))) s)
| waiter_receives w :
    s_waiter s = Some w -> wt_phase w = Looping ->
    quiet_step s (with_waiter (wait_receive task_id (hub_events (s_hub s)) w) s)
| waiter_rereads w :
    s_waiter s = Some w -> wt_phase w = Rereading ->
    quiet_step s (with_waiter (wait_reread task_id (s_db s) w) s).

Inductive sys_step (s : Sys) : Sys -> Prop :=
| quietly s' : quiet_step s s' -> sys_step s s'
| commits d' notices :
    db_step (s_db s) d' -> announces (s_db s) d' notices ->
    sys_step s {| s_db := d'; s_waiter := s_waiter s;
                  s_hub := set_connection (deliver notices <$> hub_connection (s_hub s)) (s_hub s) |}
| subscribes_other connect listen channels :
    sys_step s (with_hub (hub_command connect listen channels (s_hub s)).1 s)
| loses_connection c n :
    hub_connection (s_hub s) = Some c ->
    sys_step s (with_hub (set_connection (Some (with_inbox (take n (cn_inbox c)) true c)) (s_hub s)) s)
| fails_to_receive c error :
    hub_connection (s_hub s) = Some c -> sys_step s (with_hub (hub_receive (Err error) (s_hub s)) s)
| starts_waiting :
    s_waiter s = None -> sys_step s (with_waiter (start_waiting result_channel task_id (s_hub s)) s)
| is_confirmed w connect listen hub answer :
    s_waiter s = Some w -> wt_phase w = Subscribing ->
    hub_command connect listen [channel] (s_hub s) = (hub, answer) ->
    sys_step s (with_waiter (wait_confirmed answer w) (with_hub hub s))
| reads_first w :
    s_waiter s = Some w -> wt_phase w = Reading -> sys_step s (with_waiter (wait_read task_id (s_db s) w) s)
| times_out w :
    s_waiter s = Some w -> wt_phase w = Looping \/ wt_phase w = Rereading ->
    sys_step s (with_waiter (set_phase (Done (Ok TimedOut)) w) s).

Definition start : Sys :=
  {| s_db := empty_db; s_waiter := None;
     s_hub := {| hub_channels := ∅; hub_connection := None; hub_events := [] |} |}.

(** The caller is never more than the capacity of the channel behind. *)
Definition keeps_up (s : Sys) : Prop :=
  match s_waiter s with
  | Some w => (length (hub_events (s_hub s)) - rl_position (wt_listener w) <= BROADCAST_CAPACITY)%nat
  | None => True
  end.
Definition prompt_step (s s' : Sys) : Prop := keeps_up s /\ sys_step s s'.

(** ** The invariant *)

Definition unread (log : list NotificationEvent) (w : Waiter) (event : NotificationEvent) : Prop :=
  exists i, (rl_position (wt_listener w) <= i)%nat /\ log !! i = Some event.

Definition wakes (event : NotificationEvent) : Prop := match event with Ready n => n = notice | _ => True end.

(** The caller will hear of a notification, or of the loss of the connection. *)
Definition attached (hub : Hub) (w : Waiter) : Prop :=
  (exists error, unread (hub_events hub) w (Disconnected error)) \/
  (exists c, hub_connection hub = Some c /\ channel ∈ cn_listening c).

Definition unfinished (d : Db) : Prop :=
  exists t, tasks d !! task_id = Some t /\ outstanding (k_state t) = true.

(** Something is on its way that ends the wait of the loop, or it waits rightly. *)
Definition woken (d : Db) (hub : Hub) (w : Waiter) : Prop :=
  (exists event, unread (hub_events hub) w event /\ wakes event) \/
  (exists c, hub_connection hub = Some c /\ (cn_lost c = true \/ notice ∈ cn_inbox c)) \/
  unfinished d.

Definition waiter_ok (d : Db) (hub : Hub) (w : Waiter) : Prop :=
  rl_filters (wt_listener w) = result_listener result_channel task_id /\
  (rl_position (wt_listener w) <= length (hub_events hub))%nat /\
  match wt_phase w with
  | Subscribing | Done _ => True
  | Reading | Rereading => attached hub w
  | Looping => attached hub w /\ woken d hub w
  end.

Definition sys_inv (s : Sys) : Prop :=
  db_inv (s_db s) /\ hub_ok (s_hub s) /\
  match s_waiter s with Some w => waiter_ok (s_db s) (s_hub s) w | None => True end.

Lemma unread_more log more w event : unread log w event -> unread (log ++ more) w event.
Proof. intros (i & Hi & He). exists i. split; [done|]. by apply lookup_app_l_Some. Qed.

Lemma unread_new log more w event :
  (rl_position (wt_listener w) <= length log)%nat -> event ∈ more -> unread (log ++ more) w event.
Proof.
  intros Hp [i Hi]%list_elem_of_lookup. exists (length log + i)%nat. split; [lia|].
  rewrite lookup_app_r by lia. by replace (length log + i - length log)%nat with i by lia.
Qed.

Lemma evolves_attached hub hub' w :
  evolves hub hub' -> (rl_position (wt_listener w) <= length (hub_events hub))%nat ->
  attached hub w -> attached hub' w.
Proof.
  intros (more & He & Hc) Hp [[error Hu]|(c & Ec & Hl)]; unfold attached; rewrite He.
  - left. exists error. by apply unread_more.
  - destruct (Hc c Ec) as [[error Hin]|(c' & Ec' & Hsub & _)].
    + left. exists error. by apply unread_new.
    + right. exists c'. split; [done|]. clear - Hsub Hl. set_solver.
Qed.

Lemma evolves_woken d hub hub' w :
  evolves hub hub' -> (rl_position (wt_listener w) <= length (hub_events hub))%nat ->
  woken d hub w -> woken d hub' w.
Proof.
  intros (more & He & Hc) Hp [(event & Hu & Hw)|[(c & Ec & Hn)|Hun]]; unfold woken; rewrite He; [| |by right; right].
  { left. exists event. split; [by apply unread_more|done]. }
  assert (forall event, event ∈ more -> wakes event ->
    exists event, unread (hub_events hub ++ more) w event /\ wakes event) as Hnew.
  { intros event Hin Hw. exists event. split; [by apply unread_new|done]. }
  destruct (Hc c Ec) as [[error Hin]|(c' & Ec' & _ & Hlost & Hinbox)]; [by left; eapply Hnew|].
  destruct Hn as [Hl|Hn].
  - destruct (Hlost Hl) as [?|Hr]; [right; left; eauto|]. left. by eapply Hnew.
  - destruct (Hinbox notice Hn) as [?|[?|[Hr|Hr]]]; [right; left; eauto..| |]; left; by eapply Hnew.
Qed.

Lemma evolves_ok d hub hub' w :
  evolves hub hub' -> waiter_ok d hub w -> waiter_ok d hub' w.
Proof.
  intros Hev (Hf & Hp & Hph). split_and!; [done| |].
  - destruct Hev as (more & -> & _). rewrite length_app. lia.
  - destruct (wt_phase w); try done; [by eapply evolves_attached..| |].
    + destruct Hph. split; [by eapply evolves_attached|by eapply evolves_woken].
    + by eapply evolves_attached.
Qed.

(** *** Reading *)

Lemma TaskResult_try_from_state t r : TaskResult_try_from (task_result_row t) = Ok r -> tr_state r = k_state t.
Proof.
  unfold TaskResult_try_from. cbn [trr_state task_result_row]. rewrite parse_state_as_str.
  intros H. cbn in H. by injection H as <-.
Qed.

(** What a read of the task tells about its row. *)
Lemma read_row (d : Db) r :
  (task_result task_id d).2 = Ok (Some r) ->
  exists t, tasks d !! task_id = Some t /\ tr_state r = k_state t.
Proof.
  unfold task_result. rewrite bind_fetch. unfold lift, convert_optional. cbn.
  destruct (tasks d !! task_id) as [t|]; cbn; [|done].
  destruct (TaskResult_try_from _) as [r'|] eqn:E; cbn; [|done]. intros [= <-].
  exists t. split; [done|]. by apply TaskResult_try_from_state.
Qed.

Lemma read_unfinished d r :
  (task_result task_id d).2 = Ok (Some r) -> is_terminal (tr_state r) = false -> unfinished d.
Proof.
  intros (t & Ht & Hs)%read_row Hn. exists t. split; [done|]. unfold outstanding. by rewrite <- Hs, Hn.
Qed.

(** A reader that has subscribed and finds the task unfinished waits rightly. *)
Lemma read_ok d hub w phase :
  waiter_ok d hub w -> attached hub w ->
  (phase = Looping -> unfinished d) -> match phase with Looping | Done _ => True | _ => False end ->
  waiter_ok d hub (set_phase phase w).
Proof.
  intros (Hf & Hp & _) Ha Hl Hph. split_and!; [done..|]. destruct phase; try done.
  cbn. split; [done|]. right. right. by apply Hl.
Qed.

Lemma wait_read_ok d hub w : waiter_ok d hub w -> attached hub w -> waiter_ok d hub (wait_read task_id d w).
Proof.
  intros Hok Ha. unfold wait_read. destruct ((task_result task_id d).2) as [[r|]|] eqn:E; [|by apply read_ok..].
  destruct (is_terminal _) eqn:Et; apply read_ok; try done. intros _. by eapply read_unfinished.
Qed.

Lemma wait_reread_ok d hub w : waiter_ok d hub w -> attached hub w -> waiter_ok d hub (wait_reread task_id d w).
Proof.
  intros Hok Ha. unfold wait_reread. destruct ((task_result task_id d).2) as [[r|]|] eqn:E; [|by apply read_ok..].
  destruct (is_terminal _) eqn:Et; apply read_ok; try done. intros _. by eapply read_unfinished.
Qed.

(** *** Receiving *)

Lemma unread_next log w event event' listener :
  unread log w event -> log !! rl_position (wt_listener w) = Some event' -> event <> event' ->
  rl_position listener = S (rl_position (wt_listener w)) ->
  forall phase, unread log {| wt_listener := listener; wt_phase := phase |} event.
Proof.
  intros (i & Hi & He) He' Hne Hl phase. exists i. split; [|done]. cbn. rewrite Hl.
  destruct (decide (i = rl_position (wt_listener w))) as [->|]; [congruence|lia].
Qed.

Lemma accepts_result n :
  accepts (result_listener result_channel task_id) n = true <-> n = notice.
Proof.
  unfold accepts, result_listener, notice_of. split.
  - destruct n as [c p]. cbn. destruct (decide (c = channel)) as [->|Hne].
    + rewrite lookup_singleton_eq. by intros <-%bool_decide_eq_true.
    + by rewrite lookup_singleton_ne.
  - intros ->. cbn. rewrite lookup_singleton_eq. by apply bool_decide_eq_true.
Qed.

(** A receive of a caller that keeps up: it is over, about to read again, or it
    has passed an event that does not concern it. *)
Lemma wait_receive_cases log w :
  rl_filters (wt_listener w) = result_listener result_channel task_id ->
  (length log - rl_position (wt_listener w) <= BROADCAST_CAPACITY)%nat ->
  match log !! rl_position (wt_listener w) with
  | None => wait_receive task_id log w = set_phase Looping w
  | Some event =>
      exists phase, wait_receive task_id log w =
        {| wt_listener := at_position (wt_listener w) (S (rl_position (wt_listener w))); wt_phase := phase |} /\
      ((exists error, phase = Done (Err error)) \/
       ((forall error, event <> Disconnected error) /\
        ((phase = Rereading /\ wakes event) \/ (phase = Looping /\ ~ wakes event))))
  end.
Proof.
  intros Hf Hk. unfold wait_receive, recv_step. destruct (log !! _) as [event|] eqn:Ee;
    [rewrite (recv_event _ _ event) by done; destruct event as [n|error|]|rewrite recv_empty by done].
  - destruct (accepts _ n) eqn:Ea; rewrite Hf in Ea.
    + apply accepts_result in Ea as ->. cbn. rewrite bool_decide_eq_true_2 by done. eexists. split; [done|].
      right. split; [done|]. by left.
    + eexists. split; [done|]. right. split; [done|]. right. split; [done|]. cbn. intros ->.
      by rewrite (proj2 (accepts_result _)) in Ea.
  - cbn. eexists. split; [done|]. left. by eexists.
  - cbn. eexists. split; [done|]. right. split; [done|]. by left.
  - done.
Qed.

Lemma wait_receive_ok d hub w :
  waiter_ok d hub w -> wt_phase w = Looping ->
  (length (hub_events hub) - rl_position (wt_listener w) <= BROADCAST_CAPACITY)%nat ->
  waiter_ok d hub (wait_receive task_id (hub_events hub) w).
Proof.
  intros Hok Hloop Hk. pose proof Hok as (Hf & Hp & Hph). rewrite Hloop in Hph. destruct Hph as [Ha Hw].
  pose proof (wait_receive_cases (hub_events hub) w Hf Hk) as H.
  destruct (hub_events hub !! _) as [event|] eqn:Ee.
  2:{ rewrite H. split_and!; done. }
  destruct H as (phase & -> & H). apply lookup_lt_Some in Ee as Hlt. split_and!; [done|cbn; lia|]. cbn [wt_phase].
  destruct H as [[error ->]|[Hnd H]]; [done|].
  assert (attached hub {| wt_listener := at_position (wt_listener w) (S (rl_position (wt_listener w)));
                          wt_phase := phase |}) as Ha'.
  { destruct Ha as [[error Hu]|?]; [left|by right]. exists error. eapply unread_next; eauto. }
  destruct H as [[-> Hwk]|[-> Hwk]]; [done|]. split; [done|].
  destruct Hw as [(e & Hu & He)|?]; [left|by right]. exists e. split; [|done].
  eapply unread_next; eauto. intros ->. done.
Qed.

(** *** Committing *)

Lemma unfinished_step d d' :
  db_inv d -> db_step d d' -> unfinished d ->
  unfinished d' \/ exists t t', tasks d !! task_id = Some t /\ outstanding (k_state t) = true /\
    tasks d' !! task_id = Some t' /\ is_terminal (k_state t') = true.
Proof.
  intros Hinv Hs (t & Ht & Ho).
  assert (exists t', tasks d' !! task_id = Some t') as [t' Ht'].
  { destruct Hs as [c e Hs|e queue limit n Hs].
    - pose proof (exec_grows _ _ _ _ (db_inv_wf _ Hinv) Hs task_id) as Hg. rewrite Ht in Hg.
      destruct Hg as (t' & Ht' & _). eauto.
    - exists t. unfold delete_expired_terminal in Hs. injection Hs as <- _. apply delete_tasks_keep; [done|].
      intros ([id' t2] & -> & Hin)%list_elem_of_fmap. cbn in *.
      destruct (select_tasks_spec e d (deletable e queue d) completion_le limit) as [_ HF].
      rewrite Forall_forall in HF. destruct (HF _ Hin) as (Ht2 & Hd & _). cbn in Ht2.
      rewrite Ht in Ht2. injection Ht2 as <-. unfold deletable in Hd. unfold outstanding in Ho. cbn in Hd.
      destruct (is_terminal (k_state t)); [done|]. by rewrite ?andb_false_l, ?andb_false_r in Hd. }
  destruct (is_terminal (k_state t')) eqn:Et; [right; eauto 8|left].
  exists t'. split; [done|]. unfold outstanding. by rewrite Et.
Qed.

Lemma commit_woken d d' notices hub w :
  db_inv d -> db_step d d' -> announces d d' notices -> waiter_ok d hub w ->
  waiter_ok d' (set_connection (deliver notices <$> hub_connection hub) hub) w.
Proof.
  intros Hinv Hs Hann Hok. pose proof (evolves_ok d hub _ w (evolves_deliver notices hub) Hok) as (Hf & Hp & Hph).
  split_and!; [done..|]. destruct (wt_phase w) eqn:Ephase; try done. destruct Hph as [Ha [Hw|[Hw|Hun]]].
  - split; [done|]. by left.
  - split; [done|]. right. by left.
  - split; [done|]. destruct (unfinished_step d d' Hinv Hs Hun) as [?|(t & t' & Ht & Ho & Ht' & Et)]; [by right; right|].
    specialize (Hann _ _ _ Ht Ho Ht' Et). destruct Hok as (_ & _ & Hph). rewrite Ephase in Hph.
    destruct Hph as [[[error Hu]|(c & Ec & Hl)] _].
    + left. exists (Disconnected error). by split.
    + right. left. cbn. rewrite Ec. cbn. eexists. split; [done|]. unfold deliver.
      destruct (cn_lost c) eqn:El; [by left|right]. cbn. apply elem_of_app. right.
      by apply list_elem_of_filter.
Qed.

(** *** Every step keeps the invariant *)

Lemma inv_evolves s hub :
  sys_inv s -> hub_ok hub -> evolves (s_hub s) hub -> sys_inv (with_hub hub s).
Proof.
  intros (Hdb & Hok & Hw) Hok' Hev. split_and!; [done..|]. cbn. destruct (s_waiter s); [|done].
  by eapply evolves_ok.
Qed.

Lemma inv_waiter s w : sys_inv s -> waiter_ok (s_db s) (s_hub s) w -> sys_inv (with_waiter w s).
Proof. intros (Hdb & Hok & _) Hw. by split_and!. Qed.

Lemma inv_quiet s s' : sys_inv s -> keeps_up s -> quiet_step s s' -> sys_inv s'.
Proof.
  intros Hinv Hk Hs. pose proof Hinv as (Hdb & Hok & Hw). destruct Hs as [c n inbox Ec Ei|c Ec El|w Ew Ep|w Ew Ep].
  - apply inv_evolves; [done|by eapply (hub_ok_connection _ c)|].
    eapply (evolves_connection _ _ c _ [Ready n]); [done|done|done|done|by left|].
    rewrite Ei. cbn. intros n'. set_solver.
  - apply inv_evolves; [done|by eapply (hub_ok_connection _ c)|].
    eapply (evolves_connection _ _ c _ [Reconnected]); [done|done|done|done|set_solver|].
    intros n' _. do 3 right. set_solver.
  - rewrite Ew in Hw. unfold keeps_up in Hk. rewrite Ew in Hk. apply inv_waiter; [done|]. by apply wait_receive_ok.
  - rewrite Ew in Hw. apply inv_waiter; [done|]. apply wait_reread_ok; [done|].
    destruct Hw as (_ & _ & Hw). by rewrite Ep in Hw.
Qed.

Lemma confirm_ok connect listen s w hub answer :
  sys_inv s -> s_waiter s = Some w -> hub_command connect listen [channel] (s_hub s) = (hub, answer) ->
  sys_inv (with_waiter (wait_confirmed answer w) (with_hub hub s)).
Proof.
  intros Hinv Ew H. pose proof Hinv as (_ & Hok & Hw). rewrite Ew in Hw.
  pose proof (evolves_command _ _ _ _ _ _ Hok H) as Hev.
  apply hub_command_cases in H as [Hok' H]; [|done].
  apply inv_waiter; [by apply inv_evolves|]. cbn. apply (evolves_ok _ _ _ _ Hev) in Hw as (Hf & Hp & _).
  split_and!; [by destruct answer as [[]|]..|]. destruct answer as [[]|]; [|done]. cbn. right.
  destruct (hub_connection (s_hub s)) as [c|]; destruct H as (_ & c' & Hc' & H); exists c'; (split; [done|]).
  - destruct H as [H _]. clear - H. set_solver.
  - clear - H. set_solver.
Qed.

Lemma inv_step s s' : sys_inv s -> prompt_step s s' -> sys_inv s'.
Proof.
  intros Hinv [Hk Hs]. pose proof Hinv as (Hdb & Hok & Hw).
  destruct Hs as [s' Hs|d' notices Hs Hann|connect listen channels|c n Ec|c error Ec|Ew|w connect listen hub answer Ew Ep H
                 |w Ew Ep|w Ew Ep].
  - by eapply inv_quiet.
  - split_and!; [by eapply db_inv_step|by apply hub_ok_deliver|]. cbn.
    destruct (s_waiter s); [|done]. by eapply commit_woken.
  - destruct (hub_command _ _ _ _) as [hub answer] eqn:H. cbn.
    pose proof (evolves_command _ _ _ _ _ _ Hok H). apply hub_command_cases in H as [? _]; [|done].
    by apply inv_evolves.
  - apply inv_evolves; [done|by eapply (hub_ok_connection _ c)|].
    eapply (evolves_connection _ _ c _ []); [done|done|by rewrite app_nil_r|done|by left|]. cbn. by right; left.
  - apply inv_evolves; [done|by intros c'|]. exists [Disconnected error]. split; [done|]. intros c' _. left.
    exists error. set_solver.
  - by apply inv_waiter.
  - by eapply confirm_ok.
  - rewrite Ew in Hw. apply inv_waiter; [done|]. apply wait_read_ok; [done|]. destruct Hw as (_ & _ & Hw).
    by rewrite Ep in Hw.
  - rewrite Ew in Hw. destruct Hw as (Hf & Hp & _). apply inv_waiter; [done|]. by split_and!.
Qed.

Lemma inv_reachable s : rtc prompt_step start s -> sys_inv s.
Proof.
  intros H. assert (sys_inv start) as H0 by (split_and!; [by intros id t|by intros c|done]).
  induction H; eauto using inv_step.
Qed.

(** ** The wait ends *)

Definition finishes_with (w : Waiter) : Prop :=
  match wt_phase w with
  | Done (Ok (WaitReady r)) => is_terminal (tr_state r) = true
  | Done (Err _) => True
  | _ => False
  end.

(** The state can reach, without another statement, the end of the wait. *)
Definition can_finish (s : Sys) : Prop :=
  exists s' w', rtc quiet_step s s' /\ s_db s' = s_db s /\ s_waiter s' = Some w' /\ finishes_with w'.

Lemma can_finish_step s s1 : quiet_step s s1 -> s_db s1 = s_db s -> can_finish s1 -> can_finish s.
Proof.
  intros Hs Hdb (s' & w' & Hr & Hdb' & Hw & Hf). exists s', w'. split_and!; [by eapply rtc_l|congruence|done..].
Qed.

Lemma reread_finishes s w :
  s_waiter s = Some w -> wt_phase w = Rereading -> ~ unfinished (s_db s) -> can_finish s.
Proof.
  intros Ew Ep Hn. eexists _, (wait_reread task_id (s_db s) w).
  split_and!; [by apply rtc_once, waiter_rereads|done|done|].
  unfold finishes_with, wait_reread. destruct ((task_result task_id (s_db s)).2) as [[r|]|] eqn:E; [|done..].
  destruct (is_terminal _) eqn:Et; cbn; [done|]. exfalso. eauto using read_unfinished.
Qed.

(** What is still to be received, by the hub and by the caller. *)
Definition backlog (s : Sys) (w : Waiter) : nat :=
  (length (hub_events (s_hub s)) - rl_position (wt_listener w) +
   match hub_connection (s_hub s) with
   | Some c => 2 * length (cn_inbox c) + (if cn_lost c then 2 else 0)
   | None => 0
   end)%nat.

Lemma receive_progress s w event :
  sys_inv s -> keeps_up s -> s_waiter s = Some w -> wt_phase w = Looping -> ~ unfinished (s_db s) ->
  hub_events (s_hub s) !! rl_position (wt_listener w) = Some event ->
  can_finish s \/
  exists s' w', quiet_step s s' /\ s_db s' = s_db s /\ keeps_up s' /\ s_waiter s' = Some w' /\
    wt_phase w' = Looping /\ (backlog s' w' < backlog s w)%nat.
Proof.
  intros Hinv Hk Ew Ep Hn Ee. pose proof Hinv as (_ & _ & Hw). rewrite Ew in Hw. destruct Hw as (Hf & Hp & _).
  unfold keeps_up in Hk. rewrite Ew in Hk.
  pose proof (wait_receive_cases _ _ Hf Hk) as H. rewrite Ee in H. destruct H as (phase & H & Hcases).
  pose proof (waiter_receives s w Ew Ep) as Hstep. rewrite H in Hstep. apply lookup_lt_Some in Ee.
  destruct Hcases as [[error ->]|[_ [[-> _]|[-> _]]]].
  - left. eexists _, _. split_and!; [by apply rtc_once|done|done|done].
  - left. eapply can_finish_step; [done|done|]. by eapply reread_finishes.
  - right. eexists _, _. split_and!; [done|done| |done|done|]; unfold keeps_up, backlog; cbn; lia.
Qed.

(** With nothing left to read, the hub has the notice or the loss to report. *)
Lemma hub_progress s w :
  sys_inv s -> s_waiter s = Some w -> wt_phase w = Looping -> ~ unfinished (s_db s) ->
  hub_events (s_hub s) !! rl_position (wt_listener w) = None ->
  exists s', quiet_step s s' /\ s_db s' = s_db s /\ keeps_up s' /\ s_waiter s' = Some w /\
    (backlog s' w < backlog s w)%nat.
Proof.
  intros (_ & _ & Hw) Ew Ep Hn Ee%lookup_ge_None. rewrite Ew in Hw. destruct Hw as (_ & Hp & Hw). rewrite Ep in Hw.
  destruct Hw as [_ [(event & (i & Hi & He%lookup_lt_Some) & _)|[(c & Ec & Hc)|Hun]]]; [lia| |done].
  unfold backlog. rewrite Ec. destruct (cn_lost c) eqn:El.
  - eexists. split_and!; [by apply (hub_reconnects s c)|done| |done|].
    + unfold keeps_up. cbn. rewrite Ew, length_app. cbn. unfold BROADCAST_CAPACITY. lia.
    + cbn. rewrite length_app. cbn. lia.
  - destruct Hc as [Hc|Hin]; [done|]. destruct (cn_inbox c) as [|n inbox] eqn:Ei; [by apply not_elem_of_nil in Hin|].
    eexists. split_and!; [by apply (hub_receives s c n inbox)|done| |done|].
    + unfold keeps_up. cbn. rewrite Ew, length_app. cbn. unfold BROADCAST_CAPACITY. lia.
    + cbn. rewrite length_app, El. cbn. lia.
Qed.

Lemma wait_can_finish n : forall s w,
  sys_inv s -> keeps_up s -> s_waiter s = Some w -> wt_phase w = Looping -> ~ unfinished (s_db s) ->
  (backlog s w < n)%nat -> can_finish s.
Proof.
  induction n as [|n IH]; intros s w Hinv Hk Ew Ep Hn Hb; [lia|].
  destruct (hub_events (s_hub s) !! rl_position (wt_listener w)) as [event|] eqn:Ee.
  - destruct (receive_progress s w event) as [?|(s' & w' & Hs & Hdb & Hk' & Ew' & Ep' & Hlt)]; [done..|].
    eapply can_finish_step; [done..|]. eapply (IH s' w'); try done; [by eapply inv_quiet|congruence|lia].
  - destruct (hub_progress s w) as (s' & Hs & Hdb & Hk' & Ew' & Hlt); [done..|].
    eapply can_finish_step; [done..|]. eapply (IH s' w); try done; [by eapply inv_quiet|congruence|lia].
Qed.

(** Claim C19.  No lost wake-up: in every interleaving of committed statements,
    the hub, other subscribers, lost connections and one caller of
    [wait_for_task_result] in which the caller is never more than the capacity
    of the channel behind, a caller that waits in its loop while the task is
    finished (or deleted) is not stuck: without any further statement the hub
    and the caller reach the end of the wait, with the finished result or an
    error. *)
Theorem finished_task_ends_the_wait s w :
  rtc prompt_step start s -> keeps_up s -> s_waiter s = Some w -> wt_phase w = Looping ->
  ~ unfinished (s_db s) ->
  exists s' w', rtc quiet_step s s' /\ s_db s' = s_db s /\ s_waiter s' = Some w' /\ finishes_with w'.
Proof.
  intros Hr Hk Ew Ep Hn. eapply (wait_can_finish (S (backlog s w))); eauto using inv_reachable with lia.
Qed.

End Waiting.

(** ** A run, and a caller that lags *)

Section Demo.
Context `{receiver : Broadcast, laws : !BroadcastLaws}.

Definition one_channel (_ : uuid) : rstring := str "pgtask_result_00".
Abbreviation demo_step := (sys_step one_channel 100).

(** After the enqueue of task 100, a caller waits for it; then it is claimed,
    and the statement that completes it is committed with [more] notices of the
    same shard behind its own. *)
Definition demo_hub : Hub :=
  (hub_command None (fun _ => None) [one_channel 100] (s_hub start)).1.
Definition demo_waiter : Waiter := set_phase Looping (start_waiting one_channel 100 (s_hub start)).
Definition demo_notices (more : nat) : list Notice := notice_of one_channel 100 :: replicate more (notice_of one_channel 101).
Definition demo_finished (more : nat) : Sys :=
  {| s_db := demo3; s_waiter := Some demo_waiter;
     s_hub := set_connection (deliver (demo_notices more) <$> hub_connection demo_hub) demo_hub |}.

Definition demo_sys (d : Db) (phase : Phase) (hub : Hub) : Sys :=
  {| s_db := d; s_hub := hub; s_waiter := Some (set_phase phase demo_waiter) |}.

Lemma demo_tasks : tasks demo2 = {[100 := demo_row demo2]} /\ tasks demo3 = {[100 := demo_row demo3]}.
Proof. split; vm_compute; reflexivity. Qed.

Lemma demo_prompt d phase hub s :
  hub_events hub = [] -> demo_step (demo_sys d phase hub) s -> prompt_step one_channel 100 (demo_sys d phase hub) s.
Proof. intros He Hs. split; [|done]. unfold keeps_up. cbn. rewrite He. apply Nat.le_0_l. Qed.

Lemma demo_reads :
  with_waiter (wait_read 100 demo1 (set_phase Reading demo_waiter)) (demo_sys demo1 Reading demo_hub)
  = demo_sys demo1 Looping demo_hub.
Proof.
  assert (wait_read 100 demo1 (set_phase Reading demo_waiter) = set_phase Looping demo_waiter) as ->; [|reflexivity].
  vm_compute. reflexivity.
Qed.

Lemma demo_run more : rtc (prompt_step one_channel 100) start (demo_finished more).
Proof.
  destruct demo_steps as (H1 & H2 & H3). destruct demo_tasks as [T2 T3].
  assert (rtc (prompt_step one_channel 100) start (demo_sys demo1 Subscribing (s_hub start))) as R.
  { eapply rtc_l.
    { split; [exact I|]. apply (commits _ _ _ demo1 []); [eapply step_call, H1|]. intros id t t' Ht. discriminate Ht. }
    apply rtc_once. split; [exact I|]. by apply starts_waiting. }
  etransitivity; [exact R|]. clear R.
  apply (rtc_l _ _ (demo_sys demo1 Reading demo_hub)).
  { apply demo_prompt; [done|].
    apply (is_confirmed _ _ (demo_sys demo1 Subscribing (s_hub start)) (set_phase Subscribing demo_waiter)
             None (fun _ => None) demo_hub (Ok tt)); reflexivity. }
  apply (rtc_l _ _ (demo_sys demo1 Looping demo_hub)).
  { apply demo_prompt; [done|]. rewrite <- demo_reads. by apply reads_first. }
  apply (rtc_l _ _ (demo_sys demo2 Looping demo_hub)).
  { apply demo_prompt; [done|]. apply (commits _ _ (demo_sys demo1 Looping demo_hub) demo2 []).
    - eapply step_call, H2.
    - intros id t t' _ _ Ht'. cbn in Ht'. rewrite T2 in Ht'. apply lookup_singleton_Some in Ht' as [_ <-].
      intros Ht. vm_compute in Ht. discriminate Ht. }
  apply rtc_once, demo_prompt; [done|].
  apply (commits _ _ (demo_sys demo2 Looping demo_hub) demo3 (demo_notices more)).
  - eapply step_call, H3.
  - intros id t t' _ _ Ht' _. cbn in Ht'. rewrite T3 in Ht'. apply lookup_singleton_Some in Ht' as [<- _]. left.
Qed.

Lemma demo_not_unfinished : ~ unfinished 100 demo3.
Proof.
  intros (t & Ht & Ho). rewrite (proj2 demo_tasks) in Ht. apply lookup_singleton_Some in Ht as [_ <-].
  vm_compute in Ho. discriminate.
Qed.

(** *** A caller that lags *)

Definition drained (c : Connection) (s : Sys) : Sys :=
  with_hub {| hub_channels := hub_channels (s_hub s); hub_connection := Some (with_inbox [] (cn_lost c) c);
              hub_events := hub_events (s_hub s) ++ map Ready (cn_inbox c) |} s.

Lemma hub_drains inbox : forall s c,
  hub_connection (s_hub s) = Some c -> cn_inbox c = inbox -> rtc (quiet_step 100) s (drained c s).
Proof.
  induction inbox as [|n inbox IH]; intros s c Ec Ei.
  - unfold drained. rewrite Ei. cbn. rewrite app_nil_r.
    destruct s as [d [chans conn events] w], c as [l i lost]. cbn in *. subst. apply rtc_refl.
  - eapply rtc_l; [by apply (hub_receives _ s c n inbox)|].
    set (s1 := with_hub _ s). replace (drained c s) with (drained (with_inbox inbox (cn_lost c) c) s1).
    + by apply IH.
    + unfold drained. cbn. rewrite Ei. cbn. by rewrite <- app_assoc.
Qed.

(** The laws leave no choice. *)
Definition documented_recv : Broadcast := fun log position =>
  if (BROADCAST_CAPACITY <? length log - position)%nat
  then Received_lagged (length log - BROADCAST_CAPACITY)
  else match log !! position with
       | Some event => Received_event event (S position)
       | None => Received_empty
       end.
Lemma recv_documented log position : broadcast_recv log position = documented_recv log position.
Proof.
  unfold documented_recv. destruct (Nat.ltb_spec BROADCAST_CAPACITY (length log - position)).
  - by apply recv_lagged.
  - destruct (log !! position) eqn:E; [by apply recv_event|by apply recv_empty].
Qed.

Fixpoint receives `{Broadcast} (fuel : nat) (log : list NotificationEvent) (w : Waiter) : option Waiter :=
  match fuel with
  | O => Some w
  | S fuel' => match wt_phase w with Looping => receives fuel' log (wait_receive 100 log w) | _ => None end
  end.

Lemma waiter_reads fuel : forall s w w',
  s_waiter s = Some w -> receives fuel (hub_events (s_hub s)) w = Some w' ->
  rtc (quiet_step 100) s (with_waiter w' s).
Proof.
  induction fuel as [|fuel IH]; intros s w w' Ew H; cbn in H.
  - injection H as <-. destruct s. cbn in *. subst. apply rtc_refl.
  - destruct (wt_phase w) eqn:Ep; try done. eapply rtc_l; [by apply (waiter_receives _ s w)|].
    by eapply (IH (with_waiter _ s)).
Qed.

Lemma receives_documented fuel log : forall w,
  receives fuel log w = @receives documented_recv fuel log w.
Proof.
  induction fuel as [|fuel IH]; intros w; [done|]. cbn [receives]. rewrite <- IH.
  unfold wait_receive at 2, recv_step at 1. by rewrite <- recv_documented.
Qed.

(** Nothing to receive, and nothing on its way. *)
Definition stuck (s : Sys) : Prop :=
  exists c w, hub_connection (s_hub s) = Some c /\ cn_inbox c = [] /\ cn_lost c = false /\
    s_waiter s = Some w /\ wt_phase w = Looping /\ rl_position (wt_listener w) = length (hub_events (s_hub s)).

Lemma stuck_step s s' : stuck s -> quiet_step 100 s s' -> s' = s.
Proof.
  intros (c & w & Ec & Ei & El & Ew & Ep & Hp) Hs.
  destruct Hs as [c' n inbox Ec' Ei'|c' Ec' El'|w' Ew' Ep'|w' Ew' Ep']; [congruence..| |congruence].
  assert (w' = w) as -> by congruence. unfold wait_receive, recv_step. rewrite recv_empty.
  2:{ rewrite Hp, Nat.sub_diag. apply Nat.le_0_l. }
  2:{ rewrite Hp. by apply lookup_ge_None_2. }
  cbn. destruct s, w as [l phase]. cbn in *. by subst.
Qed.

End Demo.

#[local] Instance documented_recv_laws : @BroadcastLaws documented_recv.
Proof.
  split; intros; unfold broadcast_recv, documented_recv.
  - rewrite (proj2 (Nat.ltb_ge _ _)) by done. by simplify_option_eq.
  - rewrite (proj2 (Nat.ltb_ge _ _)) by done. by simplify_option_eq.
  - by rewrite (proj2 (Nat.ltb_lt _ _)).
Qed.

Lemma finished_task_ends_the_wait_witness :
  exists s' w', rtc (@quiet_step documented_recv 100) (demo_finished 0) s' /\ s_db s' = s_db (demo_finished 0) /\
    s_waiter s' = Some w' /\ finishes_with w'.
Proof.
  apply (@finished_task_ends_the_wait documented_recv documented_recv_laws one_channel 100 (demo_finished 0) demo_waiter).
  - apply demo_run.
  - apply Nat.le_0_l.
  - reflexivity.
  - reflexivity.
  - exact demo_not_unfinished.
Defined.



(** ** Listening to several queues *)

Section Queues.
Context (ready_channel : rstring -> rstring).
(** The channel of a queue is one of the 64 shards. *)
Hypothesis ready_channel_shard : forall q, starts_with (str "pgtask_ready_") (ready_channel q) = true.

Definition ready_notice (q : rstring) : Notice := {| n_channel := ready_channel q; n_payload := q |}.

Lemma queue_filters_app qs q :
  queue_filters ready_channel (qs ++ [q]) = <[ready_channel q := Some q]> (queue_filters ready_channel qs).
Proof. unfold queue_filters. by rewrite foldl_app. Qed.

Lemma queue_filters_lookup qs q :
  queue_filters ready_channel qs !! ready_channel q =
    Some <$> last (filter (fun q' => ready_channel q' = ready_channel q) qs).
Proof using ready_channel_shard.
  induction qs as [|q' qs IH] using rev_ind.
  - unfold queue_filters. cbn [foldl filter list_filter last fmap option_fmap option_map].
    pose proof (ready_channel_shard q) as Hq.
    assert (ready_channel q <> str "pgtask_schedule" /\ ready_channel q <> str "pgtask_wait") as [H1 H2].
    { split; intros E; rewrite E in Hq; vm_compute in Hq; discriminate. }
    rewrite lookup_insert_ne by done. by rewrite lookup_singleton_ne.
  - rewrite queue_filters_app, filter_app. destruct (decide (ready_channel q' = ready_channel q)) as [E|Hne].
    + rewrite E, lookup_insert_eq. rewrite filter_cons_True, filter_nil by done. by rewrite last_snoc.
    + rewrite lookup_insert_ne by done. rewrite filter_cons_False, filter_nil by done. by rewrite app_nil_r.
Qed.

(** A worker's listener hears the notifications of a queue exactly if
    it is the last of its queues on its shard: [ready_listener_for] keeps one
    payload per channel, so of two queues whose names hash to the same of the 64
    shards only the later one is heard, and tasks of the other wait for the poll. *)
Theorem ready_listener_hears_last_of_shard qs q :
  accepts (queue_filters ready_channel qs) (ready_notice q) = true <->
  last (filter (fun q' => ready_channel q' = ready_channel q) qs) = Some q.
Proof using ready_channel_shard.
  unfold accepts. cbn. rewrite queue_filters_lookup. destruct (last _) as [q'|]; cbn; [|done].
  rewrite bool_decide_eq_true. split; congruence.
Qed.
End Queues.

Lemma ready_listener_hears_last_of_shard_witness :
  accepts (queue_filters (fun _ => str "pgtask_ready_07") [str "mail"; str "report"])
    (ready_notice (fun _ => str "pgtask_ready_07") (str "mail")) = true <->
  last (filter (fun _ => str "pgtask_ready_07" = str "pgtask_ready_07") [str "mail"; str "report"])
  = Some (str "mail").
Proof.
  apply (ready_listener_hears_last_of_shard (fun _ => str "pgtask_ready_07")).
  intros q. vm_compute. reflexivity.
Defined.
