(* ===== verification/Execution.v ===== *)
(** A finished handler gets its outcome recorded.

    [execute] is proved against an interface of the transition writer,
    [WriterLaws]: what a request may answer and what it leaves in the database.
    The batching writer of [Runtime] satisfies it whatever else its batches
    hold and whatever other transactions run in between. *)

From S2P Require Import Prelude Text Identifier Json Retry TaskTypes Outcome Rows Tables Protocol.
From S2P Require Import Lifecycle Dispatch Triggers Store StoreSpec Registry Runtime.

(** ** The interface *)

Definition storable (limit : Z) (v : Value) : Prop := no_nul v = true /\ jsonb_text_len v <= limit.

(** The delay fits the [bigint] of milliseconds. *)
Definition retry_fits (delay : option Z) : Prop :=
  match delay with Some delay => 0 <= delay /\ as_millis delay <= i64_max | None => True end.

Class WriterLaws (W : Type) `{TransitionWriter W} := {
  writer_inv : W -> Prop;
  (** The attempt was started; its lease is over; its task has the result. *)
  writer_started : LeaseRenewal -> W -> Prop;
  writer_over : LeaseRenewal -> W -> Prop;
  writer_stored : LeaseRenewal -> Value -> W -> Prop;
  complete_law lease v w :
    storable RESULT_LIMIT_BYTES v -> writer_inv w -> writer_started lease w ->
    exists w' answer, writer_complete {| tc_lease := lease; tc_result := Some v |} w = (w', answer) /\
      writer_inv w' /\ writer_started lease w' /\
      ((exists b, answer = Ok b /\ writer_over lease w' /\ (b = true -> writer_stored lease v w')) \/
       (exists error, answer = Err (TransitionPostgres error) /\ is_rejected_value error = true));
  fail_law lease error delay w :
    storable ERROR_LIMIT_BYTES error -> retry_fits delay -> writer_inv w -> writer_started lease w ->
    exists w' state,
      writer_fail {| tf_lease := lease; tf_error := error; tf_retry_after := delay |} w = (w', Ok state) /\
      writer_inv w' /\ writer_over lease w';
}.

Section Client.
Context {W : Type} `{WriterLaws W}.
Context (error_text : PostgresError -> rstring).

(** The text of the value has a [usize] length. *)
Definition measurable (v : Value) : Prop := jsonb_text_len (escape_nul v) <= u64_max.

Lemma prepared_storable error : measurable error -> storable ERROR_LIMIT_BYTES (prepare_error error).
Proof. intros Hm. split; [apply prepare_error_no_nul|by apply prepare_error_len]. Qed.

Lemma storable_measurable error : storable ERROR_LIMIT_BYTES error -> measurable error.
Proof.
  intros [Hn Hl]. unfold measurable. rewrite escape_nul_id by done.
  unfold ERROR_LIMIT_BYTES, u64_max in *. lia.
Qed.

(** A prepared error is never rejected, so the replacement is not needed. *)
Lemma write_failure_total task token error delay w :
  measurable error -> retry_fits delay -> writer_inv w -> writer_started (task_lease task token) w ->
  exists w' state, write_failure error_text task token error delay w = (w', Ok state) /\
    writer_inv w' /\ writer_over (task_lease task token) w'.
Proof.
  intros Hm Hf Hi Hs. unfold write_failure.
  destruct (fail_law (task_lease task token) (prepare_error error) delay w (prepared_storable _ Hm) Hf Hi Hs)
    as (w' & state & -> & Hi' & Ho).
  by exists w', state.
Qed.

(** The outcome of a failure written in full: no success is recorded. *)
Definition recorded (lease : LeaseRenewal) (w : W) (ms : list Metric) : Prop :=
  writer_inv w /\ writer_over lease w /\ RecordSucceeded ∉ ms.

Lemma failure_metrics state label :
  RecordSucceeded ∉ lost_lease state ++ record_failure_state state ++ [RecordExecution label].
Proof. destruct state as [[]|]; cbn; set_solver. Qed.

Lemma bind_write_failure task token error delay w (label : option TaskState -> rstring) :
  measurable error -> retry_fits delay -> writer_inv w -> writer_started (task_lease task token) w ->
  exists w' ms, (let? state := write_failure error_text task token error delay in
     mret (lost_lease state ++ record_failure_state state ++ [RecordExecution (label state)])) w = (w', Ok ms) /\
    recorded (task_lease task token) w' ms.
Proof.
  intros Hm Hf Hi Hs. destruct (write_failure_total task token error delay w Hm Hf Hi Hs)
    as (w' & state & E & Hi' & Ho).
  unfold mbind, tio_bind. rewrite E. eexists w', _. split; [done|].
  split_and!; [done..|]. apply failure_metrics.
Qed.

Lemma complete_execution_records task token v w :
  measurable v -> writer_inv w -> writer_started (task_lease task token) w ->
  exists w' ms, complete_execution error_text task token v w = (w', Ok ms) /\
    writer_over (task_lease task token) w' /\
    (RecordSucceeded ∈ ms -> writer_stored (task_lease task token) (escape_nul v) w').
Proof.
  intros Hm Hi Hs. unfold complete_execution, fail_rejected_result.
  destruct (prepare_result v) as [v'|error] eqn:Ep.
  - unfold prepare_result in Ep. destruct (Z.leb_spec (jsonb_text_len (escape_nul v)) RESULT_LIMIT_BYTES);
      [|done]. injection Ep as <-.
    destruct (complete_law (task_lease task token) (escape_nul v) w) as (w' & answer & -> & Hi' & Hs' & Ha);
      [by split; [apply escape_nul_no_nul|]|done|done|].
    destruct Ha as [(b & -> & Ho & Hst)|(error & -> & Hr)].
    + destruct b; eexists w', _; (split; [done|]); split; [done|auto|done|set_solver].
    + rewrite Hr. destruct (rejected_value_error_storable (str "result_rejected") (error_text error));
        [by_compute..|].
      destruct (bind_write_failure task token
        (rejected_value_error (str "result_rejected") (error_text error)) None w' (fun _ => str "failed"))
        as (w2 & ms & E & (_ & Ho & Hn)); [by apply storable_measurable|done|done|done|].
      exists w2, ms. split; [done|]. split; [done|]. by intros ?%Hn.
  - destruct (bind_write_failure task token error None w (fun _ => str "failed"))
      as (w2 & ms & E & (_ & Ho & Hn)); [|done..|].
    { apply storable_measurable. split.
      - unfold prepare_result in Ep. case_Z; [done|]. injection Ep as <-. done.
      - by eapply prepare_result_too_large. }
    exists w2, ms. split; [done|]. split; [done|]. by intros ?%Hn.
Qed.

Context (random_range : Z -> Z) (random_range_in : forall n, 0 <= n -> 0 <= random_range n <= n).

(** A policy whose delays fit the column. *)
Definition policy_fits (p : RetryPolicy) : Prop :=
  wf_policy p /\ match p with Fixed delay => as_millis delay <= i64_max | _ => True end.

Lemma retry_after_fits task policy :
  policy_fits (default policy (t_retry_policy task)) -> retry_fits (retry_after random_range task policy).
Proof using random_range_in.
  unfold retry_after. destruct (default policy (t_retry_policy task)) as [|delay|base factor max]; intros [Hw Hf];
    cbn [delay_for retry_fits]; [done|unfold wf_policy, wf_duration in Hw; lia|].
  assert (0 <= ceiling_nanos base factor max (u16_saturating_add (t_failed_attempts task) 1) <= u64_max) as Hc.
  { unfold ceiling_nanos. destruct (try_u64 _) as [c|] eqn:E; cbn; [|unfold u64_max; lia].
    unfold try_u64 in E. apply try_from_inv in E. lia. }
  destruct (random_range_in _ (proj1 Hc)) as [H0r H1r]. split; [done|].
  unfold as_millis, from_nanos, NANOS_PER_MILLI, u64_max, i64_max in *.
  apply Z.div_le_upper_bound; lia.
Qed.

(** The executions that end with an outcome to write. *)
Definition outcome_fits (outcome : HandlerOutcome) : Prop :=
  match outcome with
  | Returned v => measurable v
  | Raised error => is_suspended error = false /\ measurable (he_error error)
  | Panicked => True
  end.

Lemma execute_records task token policy outcome w :
  outcome_fits outcome -> policy_fits (default policy (t_retry_policy task)) ->
  writer_inv w -> writer_started (task_lease task token) w ->
  exists w' ms, execute_outcome error_text random_range task token policy (Some outcome) w = (w', Ok ms) /\
    writer_over (task_lease task token) w' /\
    (RecordSucceeded ∈ ms -> exists v, outcome = Returned v /\
       writer_stored (task_lease task token) (escape_nul v) w').
Proof using random_range_in.
  intros Ho Hp Hi Hs. pose proof (retry_after_fits task policy Hp) as Hr.
  destruct outcome as [v|error|]; cbn [execute_outcome outcome_fits] in *.
  - destruct (complete_execution_records task token v w Ho Hi Hs) as (w' & ms & E & Hov & Hst).
    exists w', ms. split_and!; [done..|]. intros Hin. exists v. auto.
  - destruct Ho as [-> Hm]. unfold fail_execution.
    destruct (bind_write_failure task token (he_error error)
      (if he_retryable error then retry_after random_range task policy else None) w
      (fun state => if bool_decide (state = Some Pending) then str "retry" else str "failed"))
      as (w' & ms & E & (_ & Hov & Hn)); [done|by destruct (he_retryable error)|done|done|].
    exists w', ms. split_and!; [done..|]. by intros ?%Hn.
  - unfold record_panicked_execution.
    destruct (bind_write_failure task token (VObject [(str "type", VString (str "handler_panic"))])
      (retry_after random_range task policy) w (fun _ => str "panic"))
      as (w' & ms & E & (_ & Hov & Hn)); [by_compute|done..|].
    exists w', ms. split_and!; [done..|]. by intros ?%Hn.
Qed.
End Client.

(** ** The batching writer *)

Lemma call_step_grows d d' : wf d -> call_step d d' -> grows d d'.
Proof. intros Hwf Hs. apply calls_grow; [by apply rtc_once|done]. Qed.

Section Batches.
Context {A B : Type} (many : Env -> list A -> io (list B)) (alone : Env -> A -> io B).
(** What a request needs, and what its answer means: both outlive later
    statements. *)
Context (Pre : A -> Db -> Prop) (Post : A -> Db -> result PostgresError B -> Prop).
Hypothesis Pre_grows : forall a d d', grows d d' -> Pre a d -> Pre a d'.
Hypothesis Post_grows : forall a d d' r, grows d d' -> Post a d r -> Post a d' r.
Hypothesis many_ok : forall e l d d' rs, db_inv d -> many e l d = (d', Ok rs) ->
  grows d d' /\ forall i a, l !! i = Some a -> Pre a d -> exists b, rs !! i = Some b /\ Post a d' (Ok b).
Hypothesis many_err : forall e l d d' x, many e l d = (d', Err x) -> d' = d.
Hypothesis alone_step : forall e a d d' r, db_inv d -> alone e a d = (d', r) ->
  grows d d' /\ (Pre a d -> Post a d' r).
#[local] Set Default Proof Using "All".

Lemma write_each_spec e l : forall n d d' rs,
  db_inv d -> write_each alone e n l d = (d', rs) ->
  grows d d' /\ forall i a, l !! i = Some a -> Pre a d -> exists r, rs !! i = Some r /\ Post a d' r.
Proof.
  induction l as [|a l IH]; intros n d d' rs Hinv H; cbn [write_each] in H.
  { injection H as <- <-. split; [apply grows_tasks; [by apply db_inv_wf|done]|done]. }
  destruct (alone (e n) a d) as [d1 r] eqn:E1. destruct (write_each alone e (S n) l d1) as [d2 rs2] eqn:E2.
  injection H as <- <-. destruct (alone_step _ _ _ _ _ Hinv E1) as [G1 P1].
  destruct (IH _ _ _ _ (grows_inv _ _ Hinv G1) E2) as [G2 P2]. split; [by eapply grows_trans|].
  intros [|i] b Hb HPre; cbn in *; [|eauto].
  injection Hb as <-. exists r. split; [done|]. eauto.
Qed.

Lemma write_batch_spec e l d d' rs :
  db_inv d -> write_batch many alone e l d = (d', rs) ->
  grows d d' /\ forall i a, l !! i = Some a -> Pre a d -> exists r, rs !! i = Some (Some r) /\ Post a d' r.
Proof.
  intros Hinv H. unfold write_batch in H. destruct (many (e 0%nat) l d) as [d1 [results|x]] eqn:E.
  - injection H as <- <-. destruct (many_ok _ _ _ _ _ Hinv E) as [G P]. split; [done|].
    intros i a Ha HPre. destruct (P i a Ha HPre) as (b & Hb & Hp). exists (Ok b). split; [|done].
    unfold zip_answers. by rewrite list_lookup_imap, Ha; cbn; rewrite Hb.
  - apply many_err in E as ->. destruct (write_each alone e 1 l d) as [d2 answers] eqn:E2.
    injection H as <- <-. destruct (write_each_spec _ _ _ _ _ _ Hinv E2) as [G P]. split; [done|].
    intros i a Ha HPre. destruct (P i a Ha HPre) as (r & Hr & Hp). exists r. split; [|done].
    change (map Some answers) with (Some <$> answers). by rewrite list_lookup_fmap, Hr.
Qed.
End Batches.

(** *** Completions *)

Definition stored (lease : LeaseRenewal) (result : option Value) (d : Db) : Prop :=
  exists t, tasks d !! lr_task_id lease = Some t /\ k_state t = Succeeded /\ k_result t = result.

Lemma grows_stored lease result d d' : grows d d' -> stored lease result d -> stored lease result d'.
Proof.
  intros Hg (t & Ht & Hs & Hr). specialize (Hg (lr_task_id lease)). rewrite Ht in Hg.
  destruct Hg as (t' & Ht' & (_ & _ & Hsteps)). exists t'. split; [done|].
  apply succeeded_final in Hsteps; [|done].
  split; [by apply (f_equal li_state) in Hsteps; cbn in Hsteps; congruence|].
  apply (f_equal li_result) in Hsteps. cbn in Hsteps. congruence.
Qed.

Definition completion_pre (c : TaskCompletion) (d : Db) : Prop :=
  lease_started (tc_lease c) d /\ exists v, tc_result c = Some v /\ storable RESULT_LIMIT_BYTES v.
Definition completion_post (c : TaskCompletion) (d : Db) (r : result PostgresError bool) : Prop :=
  (exists b, r = Ok b /\ lease_over (tc_lease c) d /\ (b = true -> stored (tc_lease c) (tc_result c) d)) \/
  (exists error, r = Err error /\ is_rejected_value error = true).

Lemma completion_post_grows c d d' r : grows d d' -> completion_post c d r -> completion_post c d' r.
Proof.
  intros Hg [(b & -> & Ho & Hs)|Hx]; [left|by right]. exists b.
  split_and!; [done|by eapply grows_over|]. intros ->. eapply grows_stored; [done|auto].
Qed.

Lemma completion_pre_grows c d d' : grows d d' -> completion_pre c d -> completion_pre c d'.
Proof. intros Hg [Hs Hv]. split; [by eapply grows_started|done]. Qed.

(** One statement, on a batch or on one request. *)
Lemma complete_tasks_post e l d d' rs i lease result :
  db_inv d -> complete_tasks e l d = Ok (d', rs) ->
  l !! i = Some {| co_lease := lease; co_result := result |} -> lease_started lease d ->
  exists b, rs !! i = Some b /\ lease_over lease d' /\ (b = true -> stored lease result d').
Proof.
  intros Hinv H Hi Hst. pose proof (db_inv_wf _ Hinv) as Hwf.
  destruct (complete_tasks_answers _ _ _ _ _ Hwf H) as [-> Hall].
  pose proof (complete_tasks_over _ _ _ _ _ _ Hwf H (list_elem_of_lookup_2 _ _ _ Hi) Hst) as Hov.
  change (map ?f l) with (f <$> l). rewrite list_lookup_fmap, Hi. eexists. split; [done|]. split; [done|].
  intros Hb%bool_decide_eq_true. destruct (Hall _ (list_elem_of_lookup_2 _ _ _ Hi) Hb) as (t & ? & ? & ?).
  by exists t.
Qed.

Lemma complete_many_ok e l d d' rs :
  db_inv d -> complete_many e l d = (d', Ok rs) ->
  grows d d' /\ forall i c, l !! i = Some c -> completion_pre c d ->
    exists b, rs !! i = Some b /\ completion_post c d' (Ok b).
Proof.
  intros Hinv [(-> & -> & ->)|E]%complete_many_inv.
  { split; [apply grows_tasks; [by apply db_inv_wf|done]|done]. }
  split; [eapply complete_tasks_grows; [by apply db_inv_wf|done]|]. intros i c Hi [Hst _].
  destruct (complete_tasks_post _ _ _ _ _ i (tc_lease c) (tc_result c) Hinv E) as (b & Hb & Ho & Hs).
  - change (map ?f l) with (f <$> l). by rewrite list_lookup_fmap, Hi.
  - done.
  - exists b. split; [done|]. left. eauto.
Qed.

Lemma complete_many_err e l d d' x : complete_many e l d = (d', Err x) -> d' = d.
Proof.
  unfold complete_many. repeat case_match; try done; try (by intros [= <-]).
  unfold execute. destruct (complete_tasks e _ d) as [[? ?]|]; [done|]. by intros [= <- _].
Qed.

Lemma complete_alone_step e c d d' r :
  db_inv d -> write_alone e c d = (d', r) -> grows d d' /\ (completion_pre c d -> completion_post c d' r).
Proof.
  intros Hinv H. unfold write_alone, complete, execute in H. pose proof (db_inv_wf _ Hinv) as Hwf.
  destruct (complete_task e (tc_lease c) (tc_result c) d) as [[d1 b]|code] eqn:E; injection H as <- <-.
  - unfold complete_task in E. destruct (complete_tasks _ _ _) as [[d2 rs]|] eqn:E2; [|done].
    cbn [mbind result_bind] in E. injection E as <- <-. split; [by eapply complete_tasks_grows|].
    intros [Hst _]. destruct (complete_tasks_post _ _ _ _ _ 0 _ _ Hinv E2 eq_refl Hst) as (b & Hb & Ho & Hs).
    left. exists b. destruct rs as [|b0 rs]; [done|]. cbn in *. injection Hb as ->. done.
  - split; [by apply grows_tasks|]. intros [_ (v & Hv & Hn & _)]. rewrite Hv in E. right. eexists. split; [done|].
    by apply complete_task_err in E as ->.
Qed.

(** *** Failures *)

Definition failure_pre (f : TaskFailure) (d : Db) : Prop :=
  lease_started (tf_lease f) d /\ storable ERROR_LIMIT_BYTES (tf_error f) /\ retry_fits (tf_retry_after f).
Definition failure_post (f : TaskFailure) (d : Db) (r : result PostgresError (option TaskState)) : Prop :=
  exists state, r = Ok state /\ lease_over (tf_lease f) d.

Lemma failure_post_grows f d d' r : grows d d' -> failure_post f d r -> failure_post f d' r.
Proof. intros Hg (s & -> & Ho). exists s. split; [done|]. by eapply grows_over. Qed.

Lemma failure_pre_grows f d d' : grows d d' -> failure_pre f d -> failure_pre f d'.
Proof. intros Hg (Hs & ? & ?). split_and!; [by eapply grows_started|done..]. Qed.

Lemma fail_many_ok e l d d' rs :
  db_inv d -> fail_many e l d = (d', Ok rs) ->
  grows d d' /\ forall i f, l !! i = Some f -> failure_pre f d ->
    exists s, rs !! i = Some s /\ failure_post f d' (Ok s).
Proof.
  intros Hinv [(-> & -> & ->)|(payload & E & HF)]%fail_many_inv; pose proof (db_inv_wf _ Hinv) as Hwf.
  { split; [by apply grows_tasks|done]. }
  split; [by eapply fail_tasks_grows|]. intros i f Hi (Hst & _).
  destruct (Forall2_lookup_l _ _ _ _ _ HF Hi) as (p & Hp & (Hl & _)).
  rewrite (fail_tasks_answers _ _ _ _ _ E). change (map ?f payload) with (f <$> payload).
  rewrite list_lookup_fmap, Hp. eexists. split; [done|]. eexists. split; [done|]. rewrite <- Hl in *.
  eapply fail_tasks_over; [done|exact E| |done]. by eapply list_elem_of_lookup_2.
Qed.

Lemma fail_many_err e l d d' x : fail_many e l d = (d', Err x) -> d' = d.
Proof.
  unfold fail_many. repeat case_match; try done; try (by intros [= <-]).
  autorewrite with store. destruct (collect _ l) as [payload|]; [|by intros [= <-]].
  autorewrite with store. destruct (fail_tasks e payload d) as [[d1 states]|]; [|by intros [= <-]].
  unfold lift. rewrite collect_id by (intros [s|]; [cbn; by rewrite parse_state_as_str|done]). done.
Qed.

Lemma retry_milliseconds_fits delay :
  retry_fits delay ->
  exists ms, transpose (option_map (duration_i64 InvalidLeaseDuration) delay) = Ok ms.
Proof.
  destruct delay as [delay|]; cbn; [|by eexists]. intros [H0 H1]. unfold duration_i64, try_i64.
  rewrite try_from_Some; [by eexists|]. unfold as_millis in *.
  pose proof (Z.div_pos delay NANOS_PER_MILLI H0 ltac:(done)). unfold i64_min. lia.
Qed.

Lemma fail_alone_step e f d d' r :
  db_inv d -> fail_alone e f d = (d', r) -> grows d d' /\ (failure_pre f d -> failure_post f d' r).
Proof.
  intros Hinv H. unfold fail_alone, fail in H. pose proof (db_inv_wf _ Hinv) as Hwf.
  autorewrite with store in H. destruct (transpose _) as [ms|x] eqn:Et; last first.
  { injection H as <- <-. split; [by apply grows_tasks|]. intros (_ & _ & Hf).
    destruct (retry_milliseconds_fits _ Hf) as [? Hx]. congruence. }
  autorewrite with store in H. destruct (fail_task e _ _ ms d) as [[d1 s]|code] eqn:E; last first.
  { injection H as <- <-. split; [by apply grows_tasks|]. intros (_ & [Hn Hl] & _).
    destruct (fail_task_total e (tf_lease f) (tf_error f) ms d Hinv Hn Hl) as (? & ? & Hx). congruence. }
  unfold lift, parse_optional_state in H.
  assert (transpose (option_map (fun state => parse_state (state_as_str state)) s) = Ok s) as Hp
    by (destruct s; cbn; by rewrite ?parse_state_as_str).
  rewrite Hp in H. injection H as <- <-. unfold fail_task in E.
  destruct (fail_tasks e _ d) as [[d2 states]|] eqn:E2; [|done]. cbn [mbind result_bind] in E.
  injection E as -> _. split; [by eapply fail_tasks_grows|]. intros (Hst & _). eexists. split; [done|].
  eapply (fail_tasks_over _ _ _ _ _ {| fa_lease := tf_lease f; fa_error := tf_error f; fa_retry_ms := ms |});
    [done|exact E2|set_solver|done].
Qed.

(** *** The writer *)

(** The other transactions are calls of the storage protocol. *)
Definition world_inv (w : World) : Prop :=
  db_inv (w_db w) /\ forall n d, rtc call_step d (u_others (w_turns w n) d).

Lemma batch_spec ec ef requests d d' cs fs :
  db_inv d -> write_transition_batch ec ef requests d = (d', cs, fs) ->
  grows d d' /\
  (forall i c, batch_completions requests !! i = Some c -> completion_pre c d ->
     exists r, cs !! i = Some (Some r) /\ completion_post c d' r) /\
  (forall i f, batch_failures requests !! i = Some f -> failure_pre f d ->
     exists r, fs !! i = Some (Some r) /\ failure_post f d' r).
Proof.
  intros Hinv H. unfold write_transition_batch in H.
  destruct (write_completions ec _ d) as [d1 cs1] eqn:E1.
  destruct (write_failures ef _ d1) as [d2 fs2] eqn:E2. injection H as <- <- <-.
  destruct (write_batch_spec complete_many write_alone completion_pre completion_post
    completion_pre_grows completion_post_grows complete_many_ok complete_many_err complete_alone_step
    _ _ _ _ _ Hinv E1) as [G1 P1].
  destruct (write_batch_spec fail_many fail_alone failure_pre failure_post
    failure_pre_grows failure_post_grows fail_many_ok fail_many_err fail_alone_step
    _ _ _ _ _ (grows_inv _ _ Hinv G1) E2) as [G2 P2].
  split_and!; [by eapply grows_trans| |].
  - intros i c Hi Hp. destruct (P1 i c Hi Hp) as (r & Hr & Hpost). exists r. split; [done|].
    by eapply completion_post_grows.
  - intros i f Hi Hp. apply P2; [done|]. by eapply failure_pre_grows.
Qed.

Lemma send_spec request w w' cs fs :
  world_inv w -> send request w = (w', cs, fs) ->
  let u := w_turns w (w_turn w) in
  world_inv w' /\ grows (w_db w) (w_db w') /\
  (forall c, request = Complete c -> completion_pre c (w_db w) ->
     exists r, cs !! length (batch_completions (u_before u)) = Some (Some r) /\ completion_post c (w_db w') r) /\
  (forall f, request = Fail f -> failure_pre f (w_db w) ->
     exists r, fs !! length (batch_failures (u_before u)) = Some (Some r) /\ failure_post f (w_db w') r).
Proof.
  intros [Hinv Hoth] H u. unfold send in H. fold u in H.
  destruct (write_transition_batch _ _ _ _) as [[d' cs'] fs'] eqn:E. injection H as <- <- <-. cbn [w_db].
  assert (grows (w_db w) (u_others u (w_db w))) as G0 by (apply calls_grow; [apply Hoth|by apply db_inv_wf]).
  pose proof (grows_inv _ _ Hinv G0) as Hinv0.
  destruct (batch_spec _ _ _ _ _ _ _ Hinv0 E) as (G & Pc & Pf).
  split_and!.
  - split; [by eapply grows_inv|exact Hoth].
  - by eapply grows_trans.
  - intros c -> Hp. apply Pc; [|by eapply completion_pre_grows].
    unfold batch_completions. rewrite omap_app. cbn.
    by rewrite lookup_app_r, Nat.sub_diag.
  - intros f -> Hp. apply Pf; [|by eapply failure_pre_grows].
    unfold batch_failures. rewrite omap_app. cbn.
    by rewrite lookup_app_r, Nat.sub_diag.
Qed.

Lemma batching_complete lease v w :
  storable RESULT_LIMIT_BYTES v -> world_inv w -> lease_started lease (w_db w) ->
  exists w' answer, writer_complete {| tc_lease := lease; tc_result := Some v |} w = (w', answer) /\
    world_inv w' /\ lease_started lease (w_db w') /\
    ((exists b, answer = Ok b /\ lease_over lease (w_db w') /\ (b = true -> stored lease (Some v) (w_db w'))) \/
     (exists error, answer = Err (TransitionPostgres error) /\ is_rejected_value error = true)).
Proof.
  intros Hv Hinv Hst. cbn [writer_complete batching_writer].
  destruct (send _ w) as [[w' cs] fs] eqn:E.
  destruct (send_spec _ _ _ _ _ Hinv E) as (Hi & G & Pc & _).
  destruct (Pc _ eq_refl) as (r & Hr & Hp); [split; [done|by eexists]|].
  cbn zeta in Hr. rewrite Hr. eexists w', _. split; [done|].
  split; [done|]. split; [by eapply grows_started|].
  destruct Hp as [(b & -> & Ho & Hs)|(error & -> & He)]; [left; by exists b|right; by exists error].
Qed.

Lemma batching_fail lease error delay w :
  storable ERROR_LIMIT_BYTES error -> retry_fits delay -> world_inv w -> lease_started lease (w_db w) ->
  exists w' state,
    writer_fail {| tf_lease := lease; tf_error := error; tf_retry_after := delay |} w = (w', Ok state) /\
    world_inv w' /\ lease_over lease (w_db w').
Proof.
  intros Hv Hf Hinv Hst. cbn [writer_fail batching_writer].
  destruct (send _ w) as [[w' cs] fs] eqn:E.
  destruct (send_spec _ _ _ _ _ Hinv E) as (Hi & G & _ & Pf).
  destruct (Pf _ eq_refl) as (r & Hr & (s & -> & Ho)); [by split_and!|].
  cbn zeta in Hr. rewrite Hr. by exists w', s.
Qed.

Global Instance batching_writer_laws : WriterLaws World := {|
  writer_inv := world_inv;
  writer_started lease w := lease_started lease (w_db w);
  writer_over lease w := lease_over lease (w_db w);
  writer_stored lease v w := stored lease (Some v) (w_db w);
  complete_law := batching_complete;
  fail_law := batching_fail;
|}.

(** ** Claims *)


(** ** Witness: a result stored although its batch holds a value the database
    rejects *)

Definition demo_task : Task := {|
  t_id := 100; t_parent_task_id := None; t_queue_name := str "default"; t_task_name := str "mail";
  t_handler_version := 1; t_payload := VNull; t_headers := []; t_state := Running; t_priority := 0;
  t_run_at := 10; t_attempt := 1; t_failed_attempts := 0; t_max_attempts := 5; t_retry_policy := None;
  t_lease_token := Some 200; t_lease_owner := Some 7; t_lease_expires_at := None; t_created_at := 10;
  t_updated_at := 20; t_completed_at := None; t_result := None; t_error := None |}.
Definition demo_neighbour : TransitionRequest :=
  Complete {| tc_lease := {| lr_task_id := 101; lr_attempt := 1; lr_lease_token := 201 |};
              tc_result := Some (VString [0]) |}.
Definition demo_turn : Turn := {|
  u_others := id; u_before := [demo_neighbour]; u_after := [];
  u_completions := fun n => demo_env (30 + Z.of_nat n) 300; u_failures := fun n => demo_env 40 400 |}.
Definition demo_world : World := {| w_db := demo2; w_turns := fun _ => demo_turn; w_turn := 0 |}.


Lemma demo_execution_succeeds :
  (execute_outcome (fun _ => []) id demo_task 200 RetryPolicy_default (Some (Returned (VString (str "sent"))))
    demo_world).2 = Ok [RecordSucceeded; RecordExecution (str "succeeded")].
Proof. vm_compute. reflexivity. Qed.
