(* ===== verification/Maintenance.v ===== *)
(** The loops of the worker keep their promises: a claim hands over leases
    within the admission limit, a recovery tick takes back every lease that has
    expired, and the leases a worker holds are either renewed or given up in
    time. *)

From S2P Require Import Prelude Text Identifier Json TaskTypes Outcome Rows Tables Protocol.
From S2P Require Import Lifecycle Dispatch Triggers Cascade Store StoreSpec Registry Control Health Runtime.

(** ** Claiming *)

(** The worker holds the lease the task came with. *)
Definition held (d : Db) (t : Task) : Prop :=
  exists token, t_lease_token t = Some token /\ is_Some (active (task_lease t token) d).

Lemma claimed_task_fields kt t :
  Task_try_from (task_row kt) = Ok t ->
  t_id t = kt.1 /\ t_attempt t = k_attempt kt.2 /\ t_lease_token t = l_token <$> k_lease kt.2.
Proof.
  intros H. unfold Task_try_from in H. ok_inv. cbn. split_and!; [done| |done].
  match goal with H : number try_u16 (tw_attempt _) = Ok _ |- _ => by apply number_inv in H as [-> _] end.
Qed.

(** A claim of the [Store] that succeeds. *)
Lemma store_claim_spec e q w caps limit duration d d' ts :
  0 <= limit -> Store.claim e q w caps limit duration d = (d', Ok ts) ->
  len ts <= limit /\ NoDup (map t_id ts) /\ Forall (held d') ts /\
  (forall id t, tasks d !! id = Some t -> k_state t = Running -> tasks d' !! id = Some t) /\
  Forall (fun t => exists old, tasks d !! t_id t = Some old /\ k_state old = Pending /\ k_queue_name old = q) ts.
Proof.
  intros Hl H. unfold Store.claim in H. repeat case_match; try done. autorewrite with store in H.
  destruct (bind_capabilities caps) as [handlers|]; [|done]. autorewrite with store in H.
  destruct (duration_i64 _ _) as [ms|]; [|done]. autorewrite with store in H.
  destruct (Protocol.claim e q w handlers limit ms d) as [[d1 rows]|] eqn:Ec; [|done].
  unfold lift in H. injection H as <- Hts. apply collect_Forall2 in Hts.
  pose proof (claim_rows_running _ _ _ _ _ _ _ _ _ Ec) as Hrun.
  apply claim_inv in Ec as (-> & Ht & _). set (cands := candidates e d q handlers limit) in *.
  set (l := claimed_rows e d w ms cands) in *.
  destruct (candidates_spec e d q handlers limit) as [Hnd HF]. fold cands in Hnd, HF.
  assert (map t_id ts = map fst cands) as Hids.
  { rewrite <- (claimed_rows_fst e d w ms cands). fold l.
    transitivity (map fst (map (fun r => (r.1.1, r.2)) l)); [|by rewrite map_map]. clear -Hts.
    induction Hts as [|kt t ks ts Hk _ IH]; [done|]. cbn [map]. apply claimed_task_fields in Hk as [-> _].
    by rewrite IH. }
  split_and!.
  - replace (len ts) with (len cands); [by apply candidates_len|].
    apply (f_equal len) in Hids. unfold len in *. by rewrite !length_map in Hids.
  - by rewrite Hids.
  - apply Forall_forall. intros t Hin. apply list_elem_of_lookup in Hin as [i Hi].
    destruct (Forall2_lookup_r _ _ _ _ _ Hts Hi) as (kt & Hk & Hconv).
    apply claimed_task_fields in Hconv as (Hid & Ha & Htok). rewrite Forall_forall in Hrun.
    destruct (Hrun kt (list_elem_of_lookup_2 _ _ _ Hk)) as (Hrow & Hs & (lease & Hlease & _)).
    rewrite Hlease in Htok. exists (l_token lease). split; [done|]. unfold active. cbn. rewrite Hid, Hrow.
    assert (holds_lease (t_attempt t) (l_token lease) kt.2 = true) as -> by (apply holds_lease_spec; by rewrite Ha, Hlease).
    by eexists.
  - intros id t Hid Hs. rewrite Ht, foldl_put_other; [done|]. unfold l. rewrite claimed_rows_fst.
    intros (kt & -> & Hin)%list_elem_of_fmap. rewrite Forall_forall in HF.
    destruct (HF kt Hin) as (Hkt & _ & due & Hc). apply claimable_spec in Hc as (_ & Hp & _). congruence.
  - apply Forall_forall. intros t Hin.
    assert (t_id t ∈ map fst cands) as (kt & Hkt & Hk)%list_elem_of_fmap
      by (rewrite <- Hids; apply list_elem_of_fmap; eauto).
    rewrite Forall_forall in HF. destruct (HF kt Hk) as (Hrow & _ & due & Hc). exists kt.2. rewrite Hkt.
    split; [done|]. by apply claimable_spec in Hc as (? & ? & _).
Qed.

Lemma held_row d t :
  held d t -> exists row, tasks d !! t_id t = Some row /\ k_state row = Running.
Proof. intros (token & _ & [row Hr]). apply active_running in Hr. eauto. Qed.

Lemma held_keeps d d' t :
  (forall id row, tasks d !! id = Some row -> k_state row = Running -> tasks d' !! id = Some row) ->
  held d t -> held d' t.
Proof.
  intros Hk Hh. destruct (held_row d t Hh) as (row & Hrow & Hs). destruct Hh as (token & Ht & Ha).
  exists token. split; [done|]. unfold active in *. cbn in *. rewrite Hrow in Ha. by rewrite (Hk _ _ Hrow Hs).
Qed.

Lemma claim_queues_spec e w caps duration limit queues : forall n claimed health d d' health' ts,
  len claimed <= limit -> NoDup (map t_id claimed) -> Forall (held d) claimed ->
  claim_queues e w caps duration limit queues n claimed health d = (d', health', Some ts) ->
  len ts <= limit /\ NoDup (map t_id ts) /\ Forall (held d') ts.
Proof.
  induction queues as [|q queues IH]; intros n claimed health d d' health' ts Hlen Hnd Hheld H;
    cbn [claim_queues] in H; [by simplify_eq|].
  destruct (Z.eqb_spec (limit - len claimed) 0); [by simplify_eq|].
  destruct (Store.claim _ q w caps _ duration d) as [d1 [new|error]] eqn:E; [|done].
  apply store_claim_spec in E as (Hl & Hn & Hh & Hkeep & Hpend); [|lia].
  eapply (IH _ _ _ d1); [| | |exact H].
  - rewrite len_app. lia.
  - rewrite map_app. apply NoDup_app. split_and!; [done| |done].
    intros id (t & -> & Ht)%list_elem_of_fmap (t2 & Hid & Ht2)%list_elem_of_fmap.
    rewrite Forall_forall in Hheld, Hpend. destruct (held_row d t (Hheld t Ht)) as (row & Hrow & Hs).
    destruct (Hpend t2 Ht2) as (old & Hold & Hp & _). rewrite Hid in Hrow. congruence.
  - apply Forall_app. split; [|done]. eapply Forall_impl; [exact Hheld|]. intros t. by apply held_keeps.
Qed.

Lemma claim_tasks_spec e w caps duration control config active_handlers health d d' health' limit ts :
  wf_control control -> wf_nonzero (cf_claim_batch_size config) -> 0 <= active_handlers ->
  claim_tasks e w caps duration control config active_handlers health d = (d', health', Some (limit, ts)) ->
  0 <= limit <= u16_max /\ len ts <= limit /\ limit <= cf_claim_batch_size config /\
  (ts <> [] -> active_handlers + len ts <= wc_effective control) /\
  NoDup (map t_id ts) /\ Forall (held d') ts.
Proof.
  intros Hc Hb Ha H. unfold wf_control, wf_nonzero in *. unfold claim_tasks in H.
  set (n := claim_limit control (cf_claim_batch_size config) active_handlers) in H.
  assert (0 <= n <= cf_claim_batch_size config /\ (n <> 0 -> active_handlers + n <= wc_effective control)) as [Hn He].
  { unfold n, claim_limit, u64_saturating_sub, saturate, u64_max, u16_max in *. lia. }
  destruct (Z.eqb_spec n 0) as [H0|H0].
  { injection H as <- <- <- <-. rewrite H0. split_and!; try lia; try done. constructor. }
  destruct (claim_queues _ _ _ _ n _ _ _ _ _) as [[d1 h1] [ts1|]] eqn:E; [|done].
  injection H as <- <- <- <-.
  apply claim_queues_spec in E as (Hlen & Hnd & Hh); [|by apply Hn|constructor..].
  split_and!; try lia; done.
Qed.

(** Claim C13.  A worker never takes on more than it may run, and what it takes
    on it holds: whatever its queues contain, a round of [claim_tasks] that
    succeeds returns distinct tasks, at most the claim batch and at most what
    the effective concurrency leaves free beside the running handlers, and for
    every one of them, also those claimed from the first of several queues, the
    lease it came with is the current one in the database when the round
    ends.  The limit each queue is asked for is within [u16]. *)
Theorem claim_tasks_hands_over_leases e w caps duration control config active_handlers health d d' health' limit ts :
  wf_control control -> wf_nonzero (cf_claim_batch_size config) -> 0 <= active_handlers ->
  claim_tasks e w caps duration control config active_handlers health d = (d', health', Some (limit, ts)) ->
  0 <= limit <= u16_max /\ len ts <= limit /\ limit <= cf_claim_batch_size config /\
  (ts <> [] -> active_handlers + len ts <= wc_effective control) /\
  NoDup (map t_id ts) /\ Forall (held d') ts.
Proof. apply claim_tasks_spec. Qed.

Lemma claim_tasks_hands_over_leases_witness :
  let config := WorkerConfig_with_queues [str "other"; str "default"] in
  let control := {| wc_configured := 10; wc_effective := 4; wc_proposed := 4 |} in
  exists d' health' ts,
    claim_tasks (fun _ => demo_env 20 200) 7 [(str "mail", 1)] (from_secs 30) control config 3
      (Health_new 0) demo1 = (d', health', Some (1, ts)) /\
    map t_id ts = [100] /\ (ts <> [] -> 3 + len ts <= 4) /\ Forall (held d') ts.
Proof.
  cbn zeta. destruct (claim_tasks (fun _ => demo_env 20 200) 7 [(str "mail", 1)] (from_secs 30)
    {| wc_configured := 10; wc_effective := 4; wc_proposed := 4 |}
    (WorkerConfig_with_queues [str "other"; str "default"]) 3 (Health_new 0) demo1)
    as [[d' health'] [[limit ts]|]] eqn:E; [|by vm_compute in E].
  exists d', health', ts.
  assert (wf_control {| wc_configured := 10; wc_effective := 4; wc_proposed := 4 |}) as Hc
    by (unfold wf_control, u16_max; cbn; lia).
  assert (wf_nonzero (cf_claim_batch_size (WorkerConfig_with_queues [str "other"; str "default"]))) as Hb
    by (unfold wf_nonzero, u16_max; cbn; lia).
  assert (0 <= 3) as Hactive by lia.
  destruct (claim_tasks_hands_over_leases _ _ _ _ _ _ _ _ _ _ _ _ _ Hc Hb Hactive E)
    as (_ & _ & _ & Hcap & _ & Hheld).
  assert (limit = 1 /\ map t_id ts = [100]) as [-> ?].
  { vm_compute in E. injection E as <- <- <- <-. vm_compute. done. }
  split_and!; [done..|exact Hcap|exact Hheld].
Defined.

(** ** Recovery *)

(** No task enters [Running]. *)
Definition quiets (d d' : Db) : Prop :=
  forall id t, tasks d' !! id = Some t -> k_state t = Running -> tasks d !! id = Some t.
Global Instance quiets_preorder : PreOrder quiets.
Proof. split; [by intros d id t|]. intros d1 d2 d3 H12 H23 id t Ht Hs. eauto. Qed.

Lemma fades_quiets d d' : fades d d' -> quiets d d'.
Proof.
  intros Hf id t' Ht' Hs. specialize (Hf id). destruct (tasks d !! id) as [t|]; [|congruence].
  destruct Hf as (t2 & E2 & (_ & _ & Hr)). rewrite E2 in Ht'. injection Ht' as <-. f_equal. symmetry. auto.
Qed.

Lemma expired_running now q id t : expired now q (id, t) = true -> k_queue_name t = q /\ k_state t = Running.
Proof.
  unfold expired. intros [[Hq%bool_decide_eq_true Hs%bool_decide_eq_true]%andb_true_iff _]%andb_true_iff. done.
Qed.

Lemma expired_later now now' q kt : now <= now' -> expired now q kt = true -> expired now' q kt = true.
Proof.
  intros Hle. unfold expired. rewrite !andb_true_iff. intros [? Hl]. split; [done|].
  destruct (k_lease kt.2); [|done]. apply Z.leb_le in Hl. apply Z.leb_le. lia.
Qed.

Section Recover.
Context (e : Env) (q : rstring) (limit : Z).
Let rows (d : Db) := select_tasks e d (expired (e_now e) q) expiry_le limit.

Lemma expired_rows_spec d :
  NoDup (map fst (rows d)) /\
  Forall (fun kt => tasks d !! kt.1 = Some kt.2 /\ k_queue_name kt.2 = q /\ k_state kt.2 = Running) (rows d).
Proof.
  destruct (select_tasks_spec e d (expired (e_now e) q) expiry_le limit) as [Hnd HF]. split; [done|].
  eapply Forall_impl; [exact HF|]. intros [id t] (Hid & Hp & _). split; [done|]. by apply expired_running in Hp.
Qed.

Lemma recover_expired_total d :
  db_inv d -> exists d', Protocol.recover_expired e q limit d = Ok (d', len (rows d)).
Proof.
  intros Hinv. unfold Protocol.recover_expired. fold (rows d). destruct (expired_rows_spec d) as [Hnd HF].
  set (l := map _ (rows d)).
  assert (forall kt, kt ∈ rows d -> known kt.2 /\ life_inv (life kt.2) /\ k_state kt.2 = Running /\
    tasks d !! kt.1 = Some kt.2) as Hkt.
  { rewrite Forall_forall in HF. intros kt Hin. destruct (HF kt Hin) as (Hid & _ & Hs).
    destruct (Hinv _ _ Hid). done. }
  destruct (update_rows_ok (e_now e) l
    (finish_attempts (fun _ => finish_attempt ALost (e_now e) (Some lease_expired)) l) d) as [d' E].
  - done.
  - split; [unfold l; by rewrite map_map|]. unfold l. rewrite Forall_map, Forall_forall.
    intros kt (Hk & _ & Hs & Hid)%Hkt. split; [done|]. by apply life_charge_lost.
  - intros. apply finish_attempts_tasks.
  - unfold l. rewrite Forall_map, Forall_forall. intros kt (_ & Hi & Hs & _)%Hkt. cbn [fst snd].
    split; [unfold reopens; by rewrite Hs|]. eapply small_error; [|done|by_compute]. cbn.
    apply (inv_result _ Hi). cbn. by rewrite Hs.
  - exists d'. rewrite E. cbn [mbind result_bind]. unfold l, len. by rewrite length_map.
Qed.

(** A recovered row is not running; every other row that runs is untouched. *)
Lemma recover_expired_quiets d d' n :
  Protocol.recover_expired e q limit d = Ok (d', n) ->
  quiets d d' /\ forall id t, tasks d' !! id = Some t -> k_state t = Running -> id ∉ map fst (rows d).
Proof.
  intros H. unfold Protocol.recover_expired in H. fold (rows d) in H. ok_inv. simplify_eq.
  unfold update_rows in E. ok_inv. rename a into d1.
  destruct (expired_rows_spec d) as [Hnd HF]. rewrite Forall_forall in HF.
  set (l := map _ (rows d)) in *.
  assert (NoDup (map (fun r : uuid * TaskRec * TaskRec => r.1.1) l)) as Hndl by (unfold l; by rewrite map_map).
  assert (forall r, r ∈ l -> tasks d !! r.1.1 = Some r.1.2 /\ k_state r.2 <> Running) as Hl.
  { intros r (kt & -> & Hin)%list_elem_of_fmap. destruct (HF kt Hin) as (Hid & _). split; [done|].
    cbn. by destruct (retries d kt.1 kt.2). }
  apply foldM_fades in E; [|intros ? [[id old] new] ? Hx; by eapply after_update_fades].
  pose proof (update_moves_rows l d d1 Hndl (fun r Hr => proj1 (Hl r Hr)) E0) as Hrow.
  assert (forall id t, tasks d' !! id = Some t -> k_state t = Running ->
    tasks d1 !! id = Some t) as Hd1.
  { intros id t Ht Hs. apply fades_quiets in E. specialize (E id t Ht Hs). by rewrite finish_attempts_tasks in E. }
  split.
  - intros id t Ht Hs. destruct (Hrow id t (Hd1 id t Ht Hs)) as (t0 & Ht0 & [->|Hin]); [done|].
    by destruct (Hl _ Hin) as [_ ?].
  - intros id t Ht Hs (kt & Hid & Hin)%list_elem_of_fmap.
    destruct (update_moves_lookup l d d1 id kt.2 (recover_row (e_now e) d kt.1 kt.2) Hndl E0) as [Hnew _].
    assert ((id, kt.2, recover_row (e_now e) d kt.1 kt.2) ∈ l) as Hm
      by (apply list_elem_of_fmap; exists kt; by rewrite Hid).
    specialize (Hnew Hm). rewrite (Hd1 id t Ht Hs) in Hnew. injection Hnew as ->. by destruct (Hl _ Hm) as [_ ?].
Qed.
End Recover.

Global Instance expiry_le_total : Total expiry_le.
Proof. intros a b. unfold expiry_le. lia. Qed.
Global Instance expiry_le_trans : Transitive expiry_le.
Proof. intros a b c. unfold expiry_le. lia. Qed.

(** The running tasks of a queue. *)
Definition running_in (q : rstring) (d : Db) : gset Z :=
  dom (filter (fun kt : Z * TaskRec => k_queue_name kt.2 = q /\ k_state kt.2 = Running) (tasks d)).

Lemma elem_of_running q d id :
  id ∈ running_in q d <-> exists t, tasks d !! id = Some t /\ k_queue_name t = q /\ k_state t = Running.
Proof.
  unfold running_in. rewrite elem_of_dom. split.
  - intros [t [Ht Ho]%map_lookup_filter_Some]. eauto.
  - intros (t & Ht & Ho). exists t. by apply map_lookup_filter_Some.
Qed.

Lemma quiets_running q d d' : quiets d d' -> running_in q d' ⊆ running_in q d.
Proof. intros Hq id (t & Ht & Hn & Hs)%elem_of_running. apply elem_of_running. exists t. eauto. Qed.

Lemma recover_expired_running e q limit d d' n :
  Protocol.recover_expired e q limit d = Ok (d', n) ->
  Z.of_nat (size (running_in q d'))
    + len (select_tasks e d (expired (e_now e) q) expiry_le limit) <= Z.of_nat (size (running_in q d)).
Proof.
  intros H. destruct (recover_expired_quiets _ _ _ _ _ _ H) as [Hq Hout].
  destruct (expired_rows_spec e q limit d) as [Hnd HF]. set (rows := select_tasks _ _ _ _ _) in *.
  assert (running_in q d' ## list_to_set (map fst rows)) as Hdisj.
  { intros id (t & Ht & _ & Hs)%elem_of_running Hin%elem_of_list_to_set. by eapply Hout. }
  assert (running_in q d' ∪ list_to_set (map fst rows) ⊆ running_in q d) as Hsub.
  { apply union_least; [by apply quiets_running|]. intros id Hin%elem_of_list_to_set.
    apply list_elem_of_fmap in Hin as ([i t] & -> & Hin). rewrite Forall_forall in HF.
    apply elem_of_running. exists t. by apply HF in Hin. }
  apply subseteq_size in Hsub. rewrite size_union, size_list_to_set in Hsub by done.
  rewrite length_map in Hsub. unfold len. lia.
Qed.

Lemma store_recover_expired e q limit d :
  db_inv d -> wf_nonzero limit ->
  exists d', Store.recover_expired e q limit d =
    (d', Ok (len (select_tasks e d (expired (e_now e) q) expiry_le limit))) /\
    Protocol.recover_expired e q limit d = Ok (d', len (select_tasks e d (expired (e_now e) q) expiry_le limit)).
Proof.
  intros Hinv Hl. unfold wf_nonzero in Hl. destruct (recover_expired_total e q limit d Hinv) as [d' E].
  exists d'. split; [|done]. unfold Store.recover_expired, count_with_limit.
  destruct (Z.eqb_spec limit 0); [lia|]. cbn [negb]. autorewrite with store. rewrite E. unfold lift.
  pose proof (select_tasks_len e d (expired (e_now e) q) expiry_le limit ltac:(lia)) as Hle.
  pose proof (len_nonneg (select_tasks e d (expired (e_now e) q) expiry_le limit)).
  assert (forall m, 0 <= m <= limit -> number try_u64 m = Ok m) as Hn
    by (intros m Hm; apply number_ok; unfold u16_max, u64_max in *; lia).
  by rewrite Hn by lia.
Qed.

(** Enough batches leave no lease that had expired when the drain began. *)
Lemma drain_recovers e q limit now batches : forall n d,
  db_inv d -> wf_nonzero limit ->
  (forall k, now <= e_now (e k) /\ e_locked (e k) = ∅) ->
  Z.of_nat (size (running_in q d)) < Z.of_nat batches * limit ->
  let d' := drain limit (fun k => Store.recover_expired (e k) q limit) batches n d in
  db_inv d' /\ quiets d d' /\ forall id t, tasks d' !! id = Some t -> expired now q (id, t) = false.
Proof.
  induction batches as [|batches IH]; intros n d Hinv Hl He Hsize; [lia|]. cbn [drain].
  destruct (store_recover_expired (e n) q limit d Hinv Hl) as (d1 & -> & E).
  pose proof (recover_expired_running _ _ _ _ _ _ E) as Hrun.
  destruct (recover_expired_quiets _ _ _ _ _ _ E) as [Hq Hout].
  assert (db_inv d1) as Hinv1.
  { eapply grows_inv; [exact Hinv|]. eapply recover_expired_grows; [by apply db_inv_wf|exact E]. }
  set (rows := select_tasks (e n) d (expired (e_now (e n)) q) expiry_le limit) in *.
  unfold wf_nonzero in Hl. destruct (Z.ltb_spec (len rows) limit) as [Hlt|Hge].
  - split_and!; [done..|]. intros id t Ht. apply not_true_iff_false. intros Hx.
    destruct (expired_running _ _ _ _ Hx) as [_ Hs]. apply (Hout id t Ht Hs).
    apply list_elem_of_fmap. exists (id, t). split; [done|]. destruct (He n) as [Hnow Hlock].
    apply select_tasks_all; [apply _|apply _|lia|done|]. split_and!; [by apply Hq|by eapply expired_later|].
    rewrite Hlock. set_solver.
  - destruct (IH (S n) d1 Hinv1 Hl He ltac:(lia)) as (? & Hq2 & ?).
    split_and!; [done| |done]. by transitivity d1.
Qed.

(** The queues of a tick one after another. *)
Lemma recover_queues e limit now : wf_nonzero limit ->
  (forall i k, now <= e_now (e i k) /\ e_locked (e i k) = ∅) ->
  forall queues (f : nat -> nat) d, db_inv d ->
  Forall (fun q => Z.of_nat (size (running_in q d)) < 16 * limit) queues ->
  let d' := foldl (fun d nq => recover_queue (e nq.1) nq.2 limit d) d (imap (fun i q => (f i, q)) queues) in
  db_inv d' /\ quiets d d' /\
  forall q id t, q ∈ queues -> tasks d' !! id = Some t -> expired now q (id, t) = false.
Proof.
  intros Hl He queues. induction queues as [|q queues IH]; intros f d Hinv HF; cbn [imap foldl].
  { split_and!; [done..|]. by intros q id t ?%not_elem_of_nil. }
  apply Forall_cons in HF as [Hq HF].
  destruct (drain_recovers (e (f 0%nat)) q limit now 16 0 d Hinv Hl (He _) Hq) as (Hinv1 & Hq1 & Hno1).
  set (d1 := drain _ _ _ _ _) in *. fold (recover_queue (e (f 0%nat)) q limit d) in d1.
  destruct (IH (f ∘ S) d1 Hinv1) as (Hinv2 & Hq2 & Hno2).
  { eapply Forall_impl; [exact HF|]. intros q' Hq'. cbn beta in Hq'.
    pose proof (subseteq_size _ _ (quiets_running q' _ _ Hq1)). lia. }
  split_and!; [done|by transitivity d1|]. intros q' id t [->|Hin]%elem_of_cons Ht; [|by eapply Hno2].
  apply not_true_iff_false. intros Hx. destruct (expired_running _ _ _ _ Hx) as [_ Hs].
  specialize (Hno1 id t (Hq2 id t Ht Hs)). congruence.
Qed.



(** ** Lease renewal *)

(** The map is keyed by the task of each lease. *)
Definition keyed (active : gmap Z ActiveLease) : Prop :=
  forall id l, active !! id = Some l -> lr_task_id (al_renewal l) = id.

(** What a loop over the leases [l] of a snapshot does to one lease of the map. *)
Definition changed (f : ActiveLease -> ActiveLease -> ActiveLease) (l : option ActiveLease) (c : ActiveLease)
    : ActiveLease :=
  match l with
  | Some l => if decide (al_renewal c = al_renewal l) then f l c else c
  | None => c
  end.

Lemma change_leases_lookup (f : ActiveLease -> ActiveLease -> ActiveLease) active m id :
  keyed active ->
  foldl (fun a lease => change_lease (f lease) lease a) m (map snd (map_to_list active)) !! id
  = changed f (active !! id) <$> m !! id.
Proof.
  intros Hk. rewrite <- (list_to_map_to_list active) at 2.
  assert (Forall (fun kl : Z * ActiveLease => lr_task_id (al_renewal kl.2) = kl.1) (map_to_list active)) as HF.
  { apply Forall_forall. intros [k l] H%elem_of_map_to_list. by apply Hk. }
  pose proof (NoDup_fst_map_to_list active) as Hnd. revert m Hnd HF.
  generalize (map_to_list active) as kls. clear.
  induction kls as [|[k l] kls IH]; intros m Hnd HF; cbn [map foldl fst snd list_to_map].
  { cbn. rewrite lookup_empty. by destruct (m !! id). }
  apply NoDup_cons in Hnd as [Hni Hnd]. apply Forall_cons in HF as [Hkey HF]. cbn [fst snd] in Hkey.
  rewrite IH by done. unfold change_lease. rewrite Hkey. cbn. destruct (decide (k = id)) as [->|Hne].
  - rewrite lookup_alter_eq, lookup_insert_eq, (not_elem_of_list_to_map_1 kls id) by done.
    by destruct (m !! id).
  - by rewrite lookup_alter_ne, lookup_insert_ne.
Qed.

(** The leases of the age the database cannot vouch for. *)
Definition uncertain (clock : uuid -> Z) (duration : Z) (l : ActiveLease) : bool :=
  duration * 2 / 3 <=? Z.max (clock (lr_task_id (al_renewal l)) - al_last_renewed l) 0.

Lemma cancel_uncertain_lookup clock duration active m id :
  keyed active ->
  cancel_uncertain_leases clock (map snd (map_to_list active)) duration m !! id =
  changed (fun l c => if uncertain clock duration l then cancel_lease c else c) (active !! id) <$> m !! id.
Proof.
  intros Hk. rewrite <- change_leases_lookup by done. f_equal. unfold cancel_uncertain_leases.
  generalize (map snd (map_to_list active)) as ls. intros ls. revert m.
  induction ls as [|l ls IH]; intros m; [done|]. cbn [foldl]. rewrite IH. f_equal.
  fold (uncertain clock duration l). destruct (uncertain clock duration l); [done|].
  unfold change_lease. symmetry. apply map_eq. intros i.
  destruct (decide (lr_task_id (al_renewal l) = i)) as [<-|]; [|by rewrite lookup_alter_ne].
  rewrite lookup_alter_eq. destruct (m !! _) as [x|]; cbn; [|done]. by destruct (decide _).
Qed.

Section Renewal.
Context (e : Env) (now : Z) (clock : uuid -> Z) (duration : Z).
Context (meanwhile : gmap Z ActiveLease -> gmap Z ActiveLease) (active : gmap Z ActiveLease).
Hypothesis Hkeyed : keyed active.
Hypothesis Hclock : forall id, now <= clock id.
Hypothesis Hage : forall id l, active !! id = Some l -> al_last_renewed l <= now.
Hypothesis Hduration : from_millis 3 <= duration.
(** A handler that ends takes its lease out of the map, and one that starts puts
    a lease of its own there; neither renews one. *)
Hypothesis Hmeanwhile : forall id l c, active !! id = Some l -> meanwhile active !! id = Some c ->
  al_renewal c = al_renewal l -> al_last_renewed c = al_last_renewed l.

(** Claim C12.  A renewal tick settles every lease it has asked the database
    about and is still in the map: one the database renewed is kept and starts
    over, one it did not renew is cancelled at once, and when the database did
    not answer exactly those at least two thirds of the lease duration old are
    cancelled.  So each of them is either cancelled or younger than two thirds
    of its duration.  A lease that was taken out of the map during the
    statement does not come back, and one that was put there, also under the
    same task, is left alone. *)
Theorem renewal_tick_settles_leases health d d' active' health' :
  active <> ∅ ->
  renew_tick e now clock duration meanwhile active health d = (d', active', health') ->
  forall id, match meanwhile active !! id with
  | None => active' !! id = None
  | Some c => exists c', active' !! id = Some c' /\
      if decide (al_renewal <$> active !! id = Some (al_renewal c)) then
        al_renewal c' = al_renewal c /\ (al_lost c = true -> al_lost c' = true) /\
        (al_lost c' = true \/ now - al_last_renewed c' < duration * 2 / 3) /\
        match (Store.renew_leases e (map al_renewal (map snd (map_to_list active))) duration d).2 with
        | Ok renewed => c' = if decide (id ∈ renewed) then touch_lease now c else cancel_lease c
        | Err _ => c' = if duration * 2 / 3 <=? clock id - al_last_renewed c then cancel_lease c else c
        end
      else c' = c
  end.
Proof using Hkeyed Hclock Hage Hduration Hmeanwhile.
  intros Hne H id. unfold from_millis, NANOS_PER_MILLI in Hduration.
  assert (0 < duration * 2 / 3) as Hpos by (apply Z.div_str_pos; lia).
  unfold renew_tick in H. case_bool_decide as He.
  { destruct Hne. apply map_to_list_empty_iff. by destruct (map_to_list active). }
  destruct (Store.renew_leases e _ duration d) as [d1 [renewed|error]]; injection H as <- <- <-; cbn [snd].
  - unfold update_renewed_leases. rewrite (change_leases_lookup (fun l =>
      if decide (lr_task_id (al_renewal l) ∈ renewed) then touch_lease now else cancel_lease)) by done.
    destruct (meanwhile active !! id) as [c|]; [|done]. cbn. eexists. split; [done|].
    destruct (active !! id) as [l|] eqn:El; cbn; [|done]. rewrite (Hkeyed id l El).
    destruct (decide (al_renewal c = al_renewal l)) as [Heq|], (decide _) as [Hd|Hd]; try congruence.
    destruct (decide (id ∈ renewed)); cbn; split_and!; auto. right. lia.
  - rewrite cancel_uncertain_lookup by done.
    destruct (meanwhile active !! id) as [c|] eqn:Ec; [|done]. cbn. eexists. split; [done|].
    destruct (active !! id) as [l|] eqn:El; cbn; [|done].
    destruct (decide (al_renewal c = al_renewal l)) as [Heq|], (decide _) as [Hd|Hd]; try congruence.
    unfold uncertain. rewrite (Hkeyed id l El), (Hmeanwhile id l c El Ec Heq).
    specialize (Hclock id). specialize (Hage id l El). rewrite Z.max_l by lia.
    destruct (Z.leb_spec (duration * 2 / 3) (clock id - al_last_renewed l)); cbn; split_and!; auto.
    right. rewrite (Hmeanwhile id l c El Ec Heq). lia.
Qed.
End Renewal.

(** The lease of [demo2] beside one that the database no longer honours, while
    the task of a third lease ends. *)
Lemma renewal_tick_settles_leases_witness :
  let lease := fun id token => {| al_renewal := {| lr_task_id := id; lr_attempt := 1; lr_lease_token := token |};
    al_lost := false; al_last_renewed := 0 |} in
  let active : gmap Z ActiveLease :=
    <[100 := lease 100 (lr_lease_token demo_lease)]> (<[101 := lease 101 9]> {[102 := lease 102 9]}) in
  exists d' active' health',
    renew_tick (demo_env 30 0) (from_secs 10) (fun _ => from_secs 10) (from_secs 30) (delete 102) active
      (Health_new 0) demo2 = (d', active', health') /\
    active' !! 100 = Some (touch_lease (from_secs 10) (lease 100 (lr_lease_token demo_lease))) /\
    active' !! 102 = None /\ exists c, active' !! 101 = Some c /\ al_lost c = true.
Proof.
  cbn zeta. match goal with |- context [renew_tick _ _ _ _ _ ?a _ _] => set (active := a) end.
  destruct (renew_tick (demo_env 30 0) (from_secs 10) (fun _ => from_secs 10) (from_secs 30) (delete 102) active
    (Health_new 0) demo2) as [[d' active'] health'] eqn:E.
  exists d', active', health'. split; [done|].
  assert (forall id l, active !! id = Some l -> lr_task_id (al_renewal l) = id /\ al_last_renewed l <= from_secs 10) as Hall.
  { intros id l H. unfold active in H.
    apply lookup_insert_Some in H as [[<- <-]|[_ [[<- <-]|[_ [<- <-]%lookup_singleton_Some]]%lookup_insert_Some]];
      split; done. }
  assert (from_millis 3 <= from_secs 30) as Hdur by by_compute.
  assert (forall id l c, active !! id = Some l -> delete 102 active !! id = Some c ->
    al_renewal c = al_renewal l -> al_last_renewed c = al_last_renewed l) as Hkeep.
  { intros id l c Hl [_ Hc]%lookup_delete_Some _. congruence. }
  assert (active <> ∅) as Hne by (apply insert_non_empty).
  pose proof (renewal_tick_settles_leases (demo_env 30 0) (from_secs 10) (fun _ => from_secs 10) (from_secs 30)
    (delete 102) active (fun id l H => proj1 (Hall id l H)) (fun _ => Z.le_refl _)
    (fun id l H => proj2 (Hall id l H)) Hdur Hkeep _ _ _ _ _ Hne E) as H.
  assert ((Store.renew_leases (demo_env 30 0) (map al_renewal (map snd (map_to_list active))) (from_secs 30) demo2).2
    = Ok [100]) as Hanswer by (vm_compute; reflexivity).
  rewrite Hanswer in H. split_and!.
  - specialize (H 100). rewrite lookup_delete_ne in H by done. unfold active in H at 1.
    rewrite lookup_insert_eq in H. destruct H as (c & -> & Hc).
    unfold active in Hc. rewrite lookup_insert_eq, decide_True in Hc by done.
    destruct Hc as (_ & _ & _ & ->). by rewrite decide_True by set_solver.
  - specialize (H 102). by rewrite lookup_delete_eq in H.
  - specialize (H 101). rewrite lookup_delete_ne in H by done. unfold active in H at 1.
    rewrite lookup_insert_ne, lookup_insert_eq in H by done. destruct H as (c & -> & Hc). exists c. split; [done|].
    unfold active in Hc. rewrite lookup_insert_ne, lookup_insert_eq, decide_True in Hc by done.
    destruct Hc as (_ & _ & _ & ->). by rewrite decide_False by set_solver.
Defined.
