(* ===== verification/Drain.v ===== *)
(** A worker drains its queues: the claim, the execution of what was claimed and
    the transition writer composed into rounds, with a measure that every round
    decreases.

    [work_step] are the transitions of the lifecycle machine that a worker whose
    handlers do not suspend makes, triggers included; [working] is the course
    along which its statements move tasks.  The work left in a queue is the
    number of attempts its outstanding tasks can still be charged.  A claimed
    task costs at least one of them by the time its outcome is recorded, so no
    sequence of rounds can be longer than the work it starts with. *)

From S2P Require Import Prelude Text Identifier Json Retry TaskTypes Outcome Rows Tables Protocol.
From S2P Require Import Lifecycle Dispatch Triggers Store StoreSpec Registry Control Health Runtime.
From S2P Require Import Execution Maintenance.

(** ** The machine of a worker at work *)

(** No finished task is reopened, and a running one ends by finishing or by being
    charged: it neither parks nor waits. *)
Definition work_step (l l' : Life) : Prop :=
  life_step l l' /\ outstanding (li_state l) = true /\
  (li_state l = Running -> outstanding (li_state l') = false \/ li_failed l' = li_failed l + 1).

(** The attempts an outstanding task can still be charged. *)
Definition weight (l : Life) : Z := if outstanding (li_state l) then li_max l - li_failed l else 0.

Lemma weight_nonneg l : life_inv l -> 0 <= weight l.
Proof. intros [_ _ [_ Hf] _ _ _]. unfold weight. destruct (outstanding _); lia. Qed.

Lemma weight_outstanding l : life_inv l -> outstanding (li_state l) = true -> 0 < weight l.
Proof.
  intros Hi Ho. unfold weight. rewrite Ho. pose proof (inv_budget l Hi) as Hb.
  unfold outstanding in Ho. apply negb_true_iff in Ho. specialize (Hb Ho). lia.
Qed.

Lemma work_step_max l l' : work_step l l' -> li_max l' = li_max l.
Proof.
  intros (Hs & Ho & _). destruct Hs; cbn in *; try done. exfalso.
  match goal with H : _ \/ _ |- _ => destruct H as [E|E]; by rewrite E in Ho end.
Qed.

Lemma weight_step l l' : work_step l l' -> life_inv l -> weight l' <= weight l.
Proof.
  intros Hw Hi. pose proof (work_step_max _ _ Hw) as Hm. destruct Hw as (Hs & Ho & _).
  pose proof (weight_outstanding l Hi Ho) as Hp. apply counters_step in Hs as (_ & Hf & _).
  unfold weight in *. rewrite Ho in *. destruct (outstanding (li_state l')); lia.
Qed.

Lemma weight_charged l l' :
  work_step l l' -> life_inv l -> li_state l = Running -> weight l' < weight l.
Proof.
  intros Hw Hi Hr. pose proof (work_step_max _ _ Hw) as Hm. destruct Hw as (_ & Ho & Hc).
  pose proof (weight_outstanding l Hi Ho) as Hp. specialize (Hc Hr). unfold weight in *. rewrite Ho in *.
  destruct (outstanding (li_state l')) eqn:Eo; [|done]. destruct Hc as [|Hc]; [done|lia].
Qed.

Lemma work_steps_life l l' : rtc work_step l l' -> life_steps l l'.
Proof. apply rtc_subrel. by intros ? ? [? _]. Qed.

Lemma weight_steps l l' : rtc work_step l l' -> life_inv l -> weight l' <= weight l.
Proof.
  induction 1 as [|l l1 l2 Hs _ IH]; intros Hi; [lia|].
  pose proof (weight_step _ _ Hs Hi). destruct Hs as [Hs _]. specialize (IH (life_inv_step _ _ Hs Hi)). lia.
Qed.

(** An attempt that ends costs the task an attempt. *)
Lemma weight_over l l' a token :
  rtc work_step l l' -> life_inv l -> li_state l = Running -> ~ over a token l -> over a token l' ->
  weight l' < weight l.
Proof.
  intros Hs Hi Hr Hn Hov. destruct Hs as [|l l1 l2 Hs Hs2]; [done|].
  pose proof (weight_charged _ _ Hs Hi Hr). destruct Hs as [Hs _].
  pose proof (weight_steps _ _ Hs2 (life_inv_step _ _ Hs Hi)). lia.
Qed.

Definition working : Course.
Proof.
  refine {| cr_step := work_step; cr_new _ := False |}.
  - by intros.
  - intros l Ho. split_and!; [by apply ls_cancel|done|by left].
  - intros l Hw. split_and!; [by apply ls_wake|by rewrite Hw|by rewrite Hw].
Defined.

Global Instance working_works : Works working.
Proof.
  split; intros l; intros; (split_and!; [by constructor| |]);
    try match goal with H : li_state l = _ |- _ => by rewrite H end; intros _; auto.
Qed.

Lemma working_grows d d' : grows_by working d d' -> grows d d'.
Proof.
  intros Hg id. specialize (Hg id). destruct (tasks d !! id) as [t|].
  - destruct Hg as (t' & Ht & Hk & Hsp & Hs). exists t'. split; [done|]. split_and!; [done..|].
    by apply work_steps_life.
  - intros t' Ht'. by destruct (Hg t' Ht') as [_ []].
Qed.

Lemma working_inv d d' : grows_by working d d' -> db_inv d -> db_inv d'.
Proof. intros Hg Hi. by eapply grows_inv, working_grows. Qed.

(** ** The work left in some queues *)

Definition task_work (queues : list rstring) (t : TaskRec) : Z :=
  if bool_decide (k_queue_name t ∈ queues) then weight (life t) else 0.

Definition total_work (queues : list rstring) (m : gmap Z TaskRec) : Z :=
  map_fold (fun _ t n => task_work queues t + n) 0 m.

Definition work (queues : list rstring) (d : Db) : Z := total_work queues (tasks d).

Definition drained (queues : list rstring) (d : Db) : Prop :=
  forall id t, tasks d !! id = Some t -> k_queue_name t ∈ queues -> outstanding (k_state t) = false.

Lemma total_work_insert queues m id t :
  m !! id = None -> total_work queues (<[id := t]> m) = task_work queues t + total_work queues m.
Proof. intros Hid. unfold total_work. rewrite map_fold_insert_L; [done|intros; lia|done]. Qed.

Lemma total_work_delete queues m id t :
  m !! id = Some t -> total_work queues m = task_work queues t + total_work queues (delete id m).
Proof.
  intros Hid. rewrite <- (total_work_insert _ _ id) by apply lookup_delete_eq.
  by rewrite insert_delete_id.
Qed.

(** Rows that do not get heavier, and no new ones. *)
Definition lighter (queues : list rstring) (m m' : gmap Z TaskRec) : Prop :=
  forall id t', m' !! id = Some t' ->
    exists t, m !! id = Some t /\ task_work queues t' <= task_work queues t.

Lemma total_work_lighter queues m m' :
  (forall id t, m !! id = Some t -> 0 <= task_work queues t) ->
  lighter queues m m' -> total_work queues m' <= total_work queues m.
Proof.
  revert m. induction m' as [|id t' m' Hid IH] using map_ind; intros m Hpos Hl.
  - change (total_work queues ∅) with 0. clear Hl. induction m as [|id t m Hid IH] using map_ind; [done|].
    rewrite total_work_insert by done. pose proof (Hpos id t ltac:(by rewrite lookup_insert_eq)).
    assert (0 <= total_work queues m); [|lia]. apply IH. intros id' t2 Ht2. apply (Hpos id').
    rewrite lookup_insert_ne; [done|congruence].
  - destruct (Hl id t') as (t & Ht & Hle); [by rewrite lookup_insert_eq|].
    rewrite total_work_insert by done. rewrite (total_work_delete queues m id t Ht).
    assert (total_work queues m' <= total_work queues (delete id m)); [|lia]. apply IH.
    + intros id' t2 [_ Ht2]%lookup_delete_Some. eauto.
    + intros id' t2 Ht2. assert (id <> id') as Hne by congruence.
      destruct (Hl id' t2) as (t3 & Ht3 & ?); [by rewrite lookup_insert_ne|].
      exists t3. split; [|done]. by apply lookup_delete_Some.
Qed.

Lemma task_work_nonneg queues d id t : db_inv d -> tasks d !! id = Some t -> 0 <= task_work queues t.
Proof.
  intros Hi Ht. unfold task_work. case_bool_decide; [|done]. apply weight_nonneg. by destruct (Hi id t Ht).
Qed.

Lemma working_row d d' id t' :
  grows_by working d d' -> tasks d' !! id = Some t' ->
  exists t, tasks d !! id = Some t /\ k_spec t' = k_spec t /\ rtc work_step (life t) (life t').
Proof.
  intros Hg Ht'. specialize (Hg id). destruct (tasks d !! id) as [t|].
  - destruct Hg as (t2 & E2 & (_ & ? & ?)). exists t. rewrite E2 in Ht'. by injection Ht' as <-.
  - by destruct (Hg t' Ht') as [_ []].
Qed.

Lemma working_lighter queues d d' :
  db_inv d -> grows_by working d d' -> lighter queues (tasks d) (tasks d').
Proof.
  intros Hi Hg id t' Ht'. destruct (working_row _ _ _ _ Hg Ht') as (t & Ht & Hsp & Hs).
  exists t. split; [done|]. unfold task_work, k_queue_name. rewrite Hsp. case_bool_decide; [|done].
  apply weight_steps; [done|]. by destruct (Hi id t Ht).
Qed.

Lemma working_work queues d d' : db_inv d -> grows_by working d d' -> work queues d' <= work queues d.
Proof.
  intros Hi Hg. apply total_work_lighter; [|by apply working_lighter].
  intros id t. by apply task_work_nonneg.
Qed.

Lemma work_nonneg queues d : db_inv d -> 0 <= work queues d.
Proof.
  intros Hi. change 0 with (total_work queues ∅). apply total_work_lighter; [|by intros id t].
  intros id t. by apply task_work_nonneg.
Qed.

(** A held lease of one of the queues that is over afterwards has cost an attempt. *)
Lemma lease_over_work queues d d' lease t :
  db_inv d -> grows_by working d d' -> active lease d = Some t -> k_queue_name t ∈ queues ->
  lease_over lease d' -> work queues d' < work queues d.
Proof.
  intros Hi Hg Ha Hq (t' & Ht' & Hov). apply active_spec in Ha as [Ht Hh].
  destruct (working_row _ _ _ _ Hg Ht') as (t2 & Ht2 & Hsp & Hs). assert (t2 = t) as -> by congruence.
  destruct (Hi _ _ Ht) as [_ Hl]. apply over_life in Hov.
  assert (task_work queues t' < task_work queues t) as Hlt.
  { unfold task_work. replace (k_queue_name t') with (k_queue_name t) by (unfold k_queue_name; by rewrite Hsp).
    rewrite bool_decide_eq_true_2 by done. eapply weight_over; [done..| | |exact Hov].
    - by apply holds_lease_spec in Hh as [? _].
    - intros [_ Hn]. apply Hn. by apply holds_lease_spec in Hh. }
  unfold work. rewrite (total_work_delete queues _ _ _ Ht), (total_work_delete queues _ _ _ Ht').
  assert (total_work queues (delete (lr_task_id lease) (tasks d')) <=
          total_work queues (delete (lr_task_id lease) (tasks d))); [|lia].
  apply total_work_lighter.
  - intros id t3 [_ Ht3]%lookup_delete_Some. by eapply task_work_nonneg.
  - intros id t3 [Hne Ht3]%lookup_delete_Some.
    destruct (working_lighter queues _ _ Hi Hg id t3 Ht3) as (t4 & Ht4 & ?). exists t4.
    split; [by apply lookup_delete_Some|done].
Qed.

(** No work, no outstanding task. *)
Lemma work_drained queues d : db_inv d -> work queues d <= 0 -> drained queues d.
Proof.
  intros Hi Hw id t Ht Hq. apply not_true_iff_false. intros Ho. destruct (Hi id t Ht) as [_ Hl].
  pose proof (weight_outstanding _ Hl Ho) as Hp. unfold work in Hw.
  rewrite (total_work_delete queues _ _ _ Ht) in Hw.
  assert (total_work queues ∅ <= total_work queues (delete id (tasks d))) as Hn.
  { apply total_work_lighter; [|by intros]. intros id' t2 [_ Ht2]%lookup_delete_Some. by eapply task_work_nonneg. }
  change (total_work queues ∅) with 0 in Hn. unfold task_work in Hw.
  rewrite bool_decide_eq_true_2 in Hw by done. lia.
Qed.

Lemma drained_work queues d : drained queues d -> work queues d = 0.
Proof.
  unfold drained, work. generalize (tasks d). intros m Hd. induction m as [|id t m Hid IH] using map_ind; [done|].
  rewrite total_work_insert, IH by (done || intros id' t' Ht'; apply (Hd id'); rewrite lookup_insert_ne; congruence).
  unfold task_work. case_bool_decide as Hq; [|done].
  unfold weight. cbn. rewrite (Hd id t); [done|by rewrite lookup_insert_eq|done].
Qed.

(** ** What an execution does to the database *)

(** Whatever the two requests of a writer preserve, an execution preserves. *)
Section Preserved.
Context {W : Type} `{!TransitionWriter W} (R : W -> W -> Prop) `{!PreOrder R}.
Hypothesis complete_preserved : forall completion w, R w (writer_complete completion w).1.
Hypothesis fail_preserved : forall failure w, R w (writer_fail failure w).1.
Context (error_text : PostgresError -> rstring) (random_range : Z -> Z).
#[local] Set Default Proof Using "All".

Lemma write_failure_preserved task token error delay w :
  R w (write_failure error_text task token error delay w).1.
Proof.
  unfold write_failure. match goal with |- context [writer_fail ?f w] => pose proof (fail_preserved f w) as Hf;
    destruct (writer_fail f w) as [w' [state|[|x]]] end; cbn in Hf |- *; [done..|].
  destruct (is_rejected_value x); [|done]. etrans; [exact Hf|apply fail_preserved].
Qed.

Lemma bind_failure_preserved {A} task token error delay (k : option TaskState -> A) w :
  R w ((let? state := write_failure error_text task token error delay in mret (k state)) w).1.
Proof.
  pose proof (write_failure_preserved task token error delay w) as Hf. unfold mbind, tio_bind.
  by destruct (write_failure error_text task token error delay w) as [w' [state|x]].
Qed.

Lemma complete_execution_preserved task token v w : R w (complete_execution error_text task token v w).1.
Proof.
  unfold complete_execution. destruct (prepare_result v); [|apply bind_failure_preserved].
  match goal with |- context [writer_complete ?c w] => pose proof (complete_preserved c w) as Hc;
    destruct (writer_complete c w) as [w' [[]|[|x]]] end; cbn in Hc |- *; [done..|].
  destruct (is_rejected_value x); [|done]. etrans; [exact Hc|apply bind_failure_preserved].
Qed.

Lemma execute_outcome_preserved task token policy outcome w :
  R w (execute_outcome error_text random_range task token policy outcome w).1.
Proof.
  destruct outcome as [[v|error|]|]; cbn [execute_outcome]; [apply complete_execution_preserved| | |done].
  - destruct (is_suspended error); [done|apply bind_failure_preserved].
  - apply bind_failure_preserved.
Qed.
End Preserved.

(** The statements of the writer keep tasks on their course. *)
Section Statements.
Context {A B : Type} (many : Env -> list A -> io (list B)) (alone : Env -> A -> io B).
Hypothesis many_works : forall e l d, wf d -> grows_by working d (many e l d).1.
Hypothesis alone_works : forall e a d, wf d -> grows_by working d (alone e a d).1.
#[local] Set Default Proof Using "All".

Lemma write_each_works e l : forall n d, wf d -> grows_by working d (write_each alone e n l d).1.
Proof.
  induction l as [|a l IH]; intros n d Hwf; cbn [write_each]; [by apply grows_tasks_by|].
  pose proof (alone_works (e n) a d Hwf) as Ha. destruct (alone (e n) a d) as [d1 r].
  specialize (IH (S n) d1 (grows_wf_by _ _ _ Ha)). destruct (write_each alone e (S n) l d1) as [d2 rs].
  by eapply grows_trans_by.
Qed.

Lemma write_batch_works e l d : wf d -> grows_by working d (write_batch many alone e l d).1.
Proof.
  intros Hwf. unfold write_batch. pose proof (many_works (e 0%nat) l d Hwf) as Hm.
  destruct (many (e 0%nat) l d) as [d1 [rs|x]]; [done|].
  pose proof (write_each_works e l 1 d1 (grows_wf_by _ _ _ Hm)) as He.
  destruct (write_each alone e 1 l d1) as [d2 rs]. by eapply grows_trans_by.
Qed.
End Statements.

Lemma complete_many_works e l d : wf d -> grows_by working d (complete_many e l d).1.
Proof.
  intros Hwf. destruct (complete_many e l d) as [d' [rs|x]] eqn:E; cbn.
  - apply complete_many_inv in E as [(_ & -> & _)|E]; [by apply grows_tasks_by|].
    by eapply (complete_tasks_grows_by working).
  - apply complete_many_err in E as ->. by apply grows_tasks_by.
Qed.

Lemma fail_many_works e l d : wf d -> grows_by working d (fail_many e l d).1.
Proof.
  intros Hwf. destruct (fail_many e l d) as [d' [rs|x]] eqn:E; cbn.
  - apply fail_many_inv in E as [(_ & -> & _)|(payload & E & _)]; [by apply grows_tasks_by|].
    by eapply (fail_tasks_grows_by working).
  - apply fail_many_err in E as ->. by apply grows_tasks_by.
Qed.

Lemma write_alone_works e c d : wf d -> grows_by working d (write_alone e c d).1.
Proof.
  intros Hwf. unfold write_alone, complete, execute.
  destruct (complete_task e _ _ d) as [[d' b]|] eqn:E; cbn; [|by apply grows_tasks_by].
  unfold complete_task in E. destruct (complete_tasks e _ d) as [[d2 rs]|] eqn:E2; [|done].
  cbn [mbind result_bind] in E. injection E as -> _. by eapply (complete_tasks_grows_by working).
Qed.

Lemma fail_alone_works e f d : wf d -> grows_by working d (fail_alone e f d).1.
Proof.
  intros Hwf. unfold fail_alone, fail. autorewrite with store. destruct (transpose _); [|by apply grows_tasks_by].
  autorewrite with store. destruct (fail_task e _ _ _ d) as [[d' b]|] eqn:E; [|by apply grows_tasks_by].
  unfold fail_task in E. destruct (fail_tasks e _ d) as [[d2 rs]|] eqn:E2; [|done].
  cbn [mbind result_bind] in E. injection E as -> _. by eapply (fail_tasks_grows_by working).
Qed.

Lemma batch_works ec ef requests d :
  wf d -> grows_by working d (write_transition_batch ec ef requests d).1.1.
Proof.
  intros Hwf. unfold write_transition_batch.
  pose proof (write_batch_works _ _ complete_many_works write_alone_works ec (batch_completions requests) d Hwf) as Hc.
  unfold write_completions. destruct (write_batch _ _ ec _ d) as [d1 cs].
  pose proof (write_batch_works _ _ fail_many_works fail_alone_works ef (batch_failures requests) d1
    (grows_wf_by _ _ _ Hc)) as Hf.
  unfold write_failures. destruct (write_batch _ _ ef _ d1) as [d2 fs]. by eapply grows_trans_by.
Qed.

(** Other transactions are those of workers at work, too. *)
Definition turns_work (turns : nat -> Turn) : Prop :=
  forall n d, rtc call_step d (u_others (turns n) d) /\ (wf d -> grows_by working d (u_others (turns n) d)).

Definition world_works (w w' : World) : Prop :=
  w_turns w' = w_turns w /\
  (turns_work (w_turns w) -> wf (w_db w) -> grows_by working (w_db w) (w_db w')).

Global Instance world_works_preorder : PreOrder world_works.
Proof.
  split.
  - intros w. split; [done|]. intros _ Hwf. by apply grows_tasks_by.
  - intros w1 w2 w3 [E12 H12] [E23 H23]. split; [congruence|]. intros Ht Hwf. specialize (H12 Ht Hwf).
    eapply grows_trans_by; [exact H12|]. apply H23; [by rewrite E12|]. by eapply grows_wf_by.
Qed.

Lemma send_works request w : world_works w (send request w).1.1.
Proof.
  unfold send. set (u := w_turns w (w_turn w)).
  destruct (write_transition_batch _ _ _ _) as [[d' cs] fs] eqn:E. split; [done|]. intros Ht Hwf. cbn.
  destruct (Ht (w_turn w) (w_db w)) as [_ Ho]. specialize (Ho Hwf). fold u in Ho.
  eapply grows_trans_by; [exact Ho|]. apply (f_equal (fun x => x.1.1)) in E. cbn in E. rewrite <- E.
  apply batch_works. by eapply grows_wf_by.
Qed.

Lemma complete_works completion w : world_works w (writer_complete completion w).1.
Proof.
  pose proof (send_works (Complete completion) w) as Hs. cbn.
  by destruct (send (Complete completion) w) as [[w' cs] fs].
Qed.

Lemma fail_works failure w : world_works w (writer_fail failure w).1.
Proof.
  pose proof (send_works (Fail failure) w) as Hs. cbn. by destruct (send (Fail failure) w) as [[w' cs] fs].
Qed.

(** ** Claims find what is ready *)

(** A task the next claims of these queues can take: it is pending in an unpaused
    queue, a handler of the worker can run it, and whenever one of the claims
    runs it is due and not locked by another transaction. *)
Definition ready (e : nat -> Env) (caps : list (rstring * Z)) (queues_ : list rstring) (d : Db) : Prop :=
  exists q u id t, q ∈ queues_ /\ queues d !! q = Some u /\ u_paused_at u = None /\
    tasks d !! id = Some t /\ k_queue_name t = q /\ k_state t = Pending /\ capable caps t = true /\
    forall n, k_run_at t <= e_now (e n) /\ id ∉ e_locked (e n).

Lemma candidates_ready e d q caps limit u id t :
  db_inv d -> 0 < limit -> queues d !! q = Some u -> u_paused_at u = None ->
  tasks d !! id = Some t -> k_queue_name t = q -> k_state t = Pending -> capable caps t = true ->
  k_run_at t <= e_now e -> id ∉ e_locked e -> candidates e d q caps limit <> [].
Proof.
  intros Hi Hlim Hq Hu Ht Hn Hs Hcap Hdue Hlock Hc. unfold candidates in Hc. rewrite Hq, Hu in Hc.
  apply app_eq_nil in Hc as [Hf Hc]. rewrite Hf in Hc.
  assert (claimable d q caps (e_now e) (id, t) = true) as Hclaim.
  { destruct (Hi id t Ht) as [Hk Hl]. unfold claimable. cbn. rewrite failures_known by done.
    rewrite !andb_true_iff, !bool_decide_eq_true, Z.leb_le, Z.ltb_lt. split_and!; try done.
    apply (inv_budget _ Hl). cbn. by rewrite Hs. }
  pose proof (select_tasks_all e d
    (fun kt => claimable d q caps (e_now e) kt && negb (bool_decide (kt.1 ∈ map fst ([] : list (uuid * TaskRec)))))
    priority_le (Z.max (limit - len ([] : list (uuid * TaskRec))) 0) (id, t)) as Hall.
  rewrite Hc in Hall. apply (not_elem_of_nil (id, t)), Hall; [lia|change (len []) with 0; lia|].
  split_and!; [done| |done]. by rewrite Hclaim.
Qed.

Lemma bind_capabilities_id caps handlers : bind_capabilities caps = Ok handlers -> handlers = caps.
Proof.
  unfold bind_capabilities. intros H%collect_Forall2. induction H as [|c h cs hs Hc _ ->]; [done|].
  cbn beta in Hc. unfold version_i32, try_i32 in Hc. destruct (try_from _ _ c.2) as [v|] eqn:E; [|done].
  cbn in Hc. injection Hc as <-. apply try_from_inv in E as [-> _]. by destruct c.
Qed.

(** A claim that succeeds ran its statement. *)
Lemma store_claim_inv e q w caps limit duration d d' ts :
  Store.claim e q w caps limit duration d = (d', Ok ts) ->
  exists ms rows, Protocol.claim e q w caps limit ms d = Ok (d', rows) /\ length rows = length ts.
Proof.
  intros H. unfold Store.claim in H. repeat case_match; try done. autorewrite with store in H.
  destruct (bind_capabilities caps) as [handlers|] eqn:Eb; [|done]. apply bind_capabilities_id in Eb as ->.
  autorewrite with store in H. destruct (duration_i64 _ _) as [ms|]; [|done]. autorewrite with store in H.
  destruct (Protocol.claim e q w caps limit ms d) as [[d1 rows]|] eqn:Ec; [|done].
  unfold lift in H. injection H as <- Hts. apply collect_Forall2, Forall2_length in Hts. by exists ms, rows.
Qed.

Lemma claim_works e q w caps limit ms d d' rows :
  wf d -> Protocol.claim e q w caps limit ms d = Ok (d', rows) -> grows_by working d d'.
Proof. apply (claim_grows_by working). Qed.

Lemma claim_length e q w caps limit ms d d' rows :
  Protocol.claim e q w caps limit ms d = Ok (d', rows) -> length rows = length (candidates e d q caps limit).
Proof.
  intros (-> & _)%claim_inv. rewrite length_map. unfold claimed_rows. by rewrite length_imap.
Qed.

(** A claim that finds nothing changes nothing. *)
Lemma claim_nothing e q w caps limit ms d d' :
  Protocol.claim e q w caps limit ms d = Ok (d', []) -> d' = d.
Proof.
  intros H. pose proof (claim_length _ _ _ _ _ _ _ _ _ H) as Hlen. unfold Protocol.claim in H.
  destruct (candidates e d q caps limit); [|done]. cbn in H. by injection H.
Qed.

Section Claims.
Context (e : nat -> Env) (w : uuid) (caps : list (rstring * Z)) (duration limit : Z).

(** What was claimed stays claimed, and every claimed task is of a queue asked. *)
Lemma claim_queues_works queues : forall n claimed health d d' health' ts,
  0 <= limit - len claimed -> db_inv d ->
  claim_queues e w caps duration limit queues n claimed health d = (d', health', Some ts) ->
  grows_by working d d' /\ claimed `prefix_of` ts /\
  (forall t, t ∈ ts -> t ∈ claimed \/
     exists row, tasks d' !! t_id t = Some row /\ k_queue_name row ∈ queues).
Proof.
  induction queues as [|q queues IH]; intros n claimed health d d' health' ts Hlim Hi H; cbn [claim_queues] in H.
  { simplify_eq. split_and!; [apply grows_tasks_by; [by apply db_inv_wf|done]|done|auto]. }
  destruct (Z.eqb_spec (limit - len claimed) 0).
  { simplify_eq. split_and!; [apply grows_tasks_by; [by apply db_inv_wf|done]|done|auto]. }
  destruct (Store.claim _ q w caps _ duration d) as [d1 [new|error]] eqn:E; [|done].
  pose proof (store_claim_spec _ _ _ _ _ _ _ _ _ Hlim E) as (Hlen & _ & _ & _ & Hpend).
  apply store_claim_inv in E as (ms & rows & Ec & _).
  pose proof (claim_works _ _ _ _ _ _ _ _ _ (db_inv_wf _ Hi) Ec) as G1.
  assert (0 <= limit - len (claimed ++ new)) as Hlim1 by (rewrite len_app; lia).
  destruct (IH _ _ _ _ _ _ _ Hlim1 (working_inv _ _ G1 Hi) H) as (G2 & Hpre & Hin).
  assert (grows_by working d d') as G by (by eapply grows_trans_by).
  split_and!; [done| |].
  - etrans; [|exact Hpre]. by apply prefix_app_r.
  - intros t Ht. destruct (Hin t Ht) as [[Hc|Hn]%elem_of_app|(row & Hr & Hq)].
    + by left.
    + right. rewrite Forall_forall in Hpend. destruct (Hpend t Hn) as (old & Hold & _ & <-).
      specialize (G (t_id t)). rewrite Hold in G. destruct G as (row & Hr & (_ & Hsp & _)).
      exists row. split; [done|]. unfold k_queue_name. rewrite Hsp. set_solver.
    + right. exists row. split; [done|]. set_solver.
Qed.

Lemma claim_queues_ready queues : forall n health d d' health' ts,
  0 < limit -> db_inv d -> ready e caps queues d ->
  claim_queues e w caps duration limit queues n [] health d = (d', health', Some ts) -> ts <> [].
Proof.
  induction queues as [|q queues IH]; intros n health d d' health' ts Hlim Hi Hr H.
  { by destruct Hr as (q & _ & _ & _ & ?%not_elem_of_nil & _). }
  cbn [claim_queues] in H. change (len []) with 0 in H. rewrite Z.sub_0_r in H.
  destruct (Z.eqb_spec limit 0); [lia|].
  destruct (Store.claim _ q w caps _ duration d) as [d1 [new|error]] eqn:E; [|done].
  pose proof (store_claim_spec _ _ _ _ _ _ _ _ _ (Z.lt_le_incl _ _ Hlim) E) as (Hlen & _).
  apply store_claim_inv in E as (ms & rows & Ec & Hl).
  pose proof (claim_works _ _ _ _ _ _ _ _ _ (db_inv_wf _ Hi) Ec) as G1.
  destruct new as [|t new].
  - destruct rows; [|done]. pose proof (claim_nothing _ _ _ _ _ _ _ _ Ec) as ->.
    eapply (IH _ _ d); [done..| |exact H]. apply claim_length in Ec.
    destruct Hr as (q' & u & id & t & Hq & Hu & Hp & Ht & Hn & Hs & Hcap & Hdue).
    exists q', u, id, t. split_and!; try done.
    apply elem_of_cons in Hq as [->|Hq]; [|done]. exfalso. destruct (Hdue n) as [Hd1 Hd2].
    apply (candidates_ready (e n) d q caps limit u id t); try done.
    by destruct (candidates (e n) d q caps limit).
  - cbn [app] in H. apply claim_queues_works in H as (_ & [k Hk] & _).
    + by rewrite Hk.
    + lia.
    + by eapply working_inv.
Qed.
End Claims.

Lemma claim_limit_positive control batch :
  wf_control control -> wf_nonzero batch -> 0 < claim_limit control batch 0.
Proof. unfold wf_control, wf_nonzero, claim_limit, u64_saturating_sub, saturate, u64_max, u16_max. lia. Qed.

Lemma claim_tasks_works e w caps duration control config health d d' health' limit ts :
  wf_control control -> wf_nonzero (cf_claim_batch_size config) -> db_inv d ->
  claim_tasks e w caps duration control config 0 health d = (d', health', Some (limit, ts)) ->
  grows_by working d d' /\
  (forall t, t ∈ ts -> exists row, tasks d' !! t_id t = Some row /\ k_queue_name row ∈ cf_queues config) /\
  (ready e caps (cf_queues config) d -> ts <> []).
Proof.
  intros Hc Hb Hi H. pose proof (claim_limit_positive _ _ Hc Hb) as Hl. unfold claim_tasks in H.
  destruct (Z.eqb_spec (claim_limit control (cf_claim_batch_size config) 0) 0); [lia|].
  destruct (claim_queues _ _ _ _ _ _ _ _ _ _) as [[d1 h1] [ts1|]] eqn:E; [|done]. injection H as <- <- <- <-.
  pose proof E as (G & _ & Hin)%claim_queues_works; [|change (len []) with 0; lia|done].
  split_and!; [done| |].
  - intros t Ht. by destruct (Hin t Ht) as [?%not_elem_of_nil|].
  - intros Hr. by eapply claim_queues_ready.
Qed.

(** ** Rounds *)

(** What a round meets: the environments of its claims, the state of its health,
    the batches of the transition writer and how each handler ends. *)
Record WorkRound := {
  wr_env : nat -> Env;
  wr_health : HealthState;
  wr_turns : nat -> Turn;
  wr_outcome : Task -> HandlerOutcome;
}.

Section Rounds.
Context (worker_id : uuid) (caps : list (rstring * Z)) (lease_duration : Z).
Context (control : WorkerControl) (config : WorkerConfig).
Context (error_text : PostgresError -> rstring) (random_range : Z -> Z).
(** The retry policy of the handler a task is routed to. *)
Context (retry_policy : Task -> RetryPolicy).

(** The end of an execution, with the lease its task was claimed with. *)
Definition end_execution (x : WorkRound) (w : World) (t : Task) : World :=
  match t_lease_token t with
  | Some token =>
      (execute_outcome error_text random_range t token (retry_policy t) (Some (wr_outcome x t)) w).1
  | None => w
  end.

Definition round_claims (x : WorkRound) (d : Db) : Db * HealthState * option (Z * list Task) :=
  claim_tasks (wr_env x) worker_id caps lease_duration control config 0 (wr_health x) d.

(** A worker with nothing running claims, and every task it got ends. *)
Definition work_round (x : WorkRound) (d : Db) : Db :=
  match round_claims x d with
  | (d', _, Some (_, ts)) =>
      w_db (foldl (end_execution x) {| w_db := d'; w_turns := wr_turns x; w_turn := 0 |} ts)
  | (d', _, None) => d'
  end.

Fixpoint work_rounds (xs : nat -> WorkRound) (n : nat) (d : Db) : Db :=
  match n with
  | O => d
  | S n' => work_round (xs n') (work_rounds xs n' d)
  end.

(** A handler ends with an outcome to write, without suspending. *)
Definition ends (x : WorkRound) (t : Task) : Prop :=
  outcome_fits (wr_outcome x t) /\ policy_fits (default (retry_policy t) (t_retry_policy t)).

(** The claims of the round succeed, its handlers end, whoever else writes is at
    work on its own tasks, and unless there is nothing left the worker can take
    a task. *)
Record served (x : WorkRound) (d : Db) : Prop := {
  sv_claims : exists d' health limit ts, round_claims x d = (d', health, Some (limit, ts)) /\ Forall (ends x) ts;
  sv_turns : turns_work (wr_turns x);
  sv_ready : ~ drained (cf_queues config) d -> ready (wr_env x) caps (cf_queues config) d;
}.

Hypothesis control_wf : wf_control control.
Hypothesis batch_wf : wf_nonzero (cf_claim_batch_size config).
Hypothesis random_range_in : forall n, 0 <= n -> 0 <= random_range n <= n.

Lemma end_execution_works x w t : world_works w (end_execution x w t).
Proof.
  unfold end_execution. destruct (t_lease_token t); [|done].
  apply (execute_outcome_preserved world_works complete_works fail_works).
Qed.

Lemma end_executions_work x ts : forall w, world_works w (foldl (end_execution x) w ts).
Proof.
  induction ts as [|t ts IH]; intros w; cbn [foldl]; [done|].
  etrans; [apply end_execution_works|apply IH].
Qed.

Lemma end_execution_over x w t token :
  turns_work (w_turns w) -> db_inv (w_db w) -> ends x t -> t_lease_token t = Some token ->
  lease_started (task_lease t token) (w_db w) ->
  lease_over (task_lease t token) (w_db (end_execution x w t)).
Proof using random_range_in.
  intros Ht Hi [Ho Hp] Htok Hst. unfold end_execution. rewrite Htok.
  destruct (@execute_records World _ batching_writer_laws error_text random_range random_range_in t token
    (retry_policy t) (wr_outcome x t) w Ho Hp) as (w' & ms & -> & Hov & _); [|done..].
  split; [done|]. intros n d. apply Ht.
Qed.

(** Every claimed task's lease is over at the end of the round. *)
Lemma end_executions_over x t token ts : forall w,
  turns_work (w_turns w) -> db_inv (w_db w) -> t ∈ ts -> ends x t -> t_lease_token t = Some token ->
  lease_started (task_lease t token) (w_db w) ->
  lease_over (task_lease t token) (w_db (foldl (end_execution x) w ts)).
Proof using random_range_in.
  induction ts as [|t1 ts IH]; intros w Ht Hi Hin Hends Htok Hst; [by apply not_elem_of_nil in Hin|].
  cbn [foldl]. destruct (end_execution_works x w t1) as [Eturn Hg].
  specialize (Hg Ht (db_inv_wf _ Hi)). pose proof (working_inv _ _ Hg Hi) as Hi1.
  rewrite <- Eturn in Ht. apply elem_of_cons in Hin as [<-|Hin].
  - destruct (end_executions_work x ts (end_execution x w t)) as [_ Hg2].
    eapply grows_over; [apply working_grows, Hg2; [done|by apply db_inv_wf]|].
    apply end_execution_over; [by rewrite <- Eturn|done..].
  - apply IH; try done. eapply grows_started; [by apply working_grows|done].
Qed.

Lemma work_round_works x d : db_inv d -> served x d ->
  grows_by working d (work_round x d) /\
  (0 < work (cf_queues config) d -> work (cf_queues config) (work_round x d) < work (cf_queues config) d).
Proof using control_wf batch_wf random_range_in.
  intros Hi [(d1 & h1 & limit & ts & E & Hends) Hturns Hready]. unfold work_round. rewrite E. unfold round_claims in E.
  pose proof (claim_tasks_works _ _ _ _ _ _ _ _ _ _ _ _ control_wf batch_wf Hi E) as (G1 & Hq & Hne).
  pose proof (claim_tasks_spec _ _ _ _ _ _ _ _ _ _ _ _ _ control_wf batch_wf (Z.le_refl 0) E)
    as (_ & _ & _ & _ & _ & Hheld).
  set (w := {| w_db := d1; w_turns := wr_turns x; w_turn := 0 |}).
  pose proof (working_inv _ _ G1 Hi) as Hi1.
  destruct (end_executions_work x ts w) as [_ G2]. specialize (G2 Hturns (db_inv_wf _ Hi1)).
  split; [by eapply grows_trans_by|]. intros Hw.
  assert (ts <> []) as Hts.
  { apply Hne, Hready. intros Hdr. pose proof (drained_work _ _ Hdr). lia. }
  destruct ts as [|t ts]; [done|]. rewrite Forall_cons in Hheld, Hends.
  destruct Hheld as [(token & Htok & [row Hact]) _], Hends as [Hend _].
  destruct (Hq t) as (row' & Hrow & Hqueue); [set_solver|]. pose proof Hact as [Hrow2 Hh]%active_spec.
  cbn in Hrow2. assert (row' = row) as -> by congruence.
  eapply Z.lt_le_trans; [|by apply working_work]. eapply (lease_over_work _ d1); [done..|].
  apply end_executions_over; [done|done|set_solver|done..|].
  exists row. split; [done|]. cbn. apply holds_lease_spec in Hh as (_ & Ha & _). cbn in Ha. lia.
Qed.

Lemma work_rounds_decrease xs n d :
  db_inv d -> (forall k, (k < n)%nat -> served (xs k) (work_rounds xs k d)) ->
  grows_by working d (work_rounds xs n d) /\
  work (cf_queues config) (work_rounds xs n d) <= Z.max 0 (work (cf_queues config) d - Z.of_nat n).
Proof using control_wf batch_wf random_range_in.
  intros Hi. induction n as [|n IH]; intros Hs; cbn [work_rounds].
  { split; [apply grows_tasks_by; [by apply db_inv_wf|done]|lia]. }
  destruct IH as [Gn Hn]; [intros k ?; apply Hs; lia|]. pose proof (working_inv _ _ Gn Hi) as Hin.
  destruct (work_round_works (xs n) _ Hin (Hs n ltac:(lia))) as [G Hlt].
  split; [by eapply grows_trans_by|]. pose proof (working_work (cf_queues config) _ _ Hin G).
  destruct (Z.lt_ge_cases 0 (work (cf_queues config) (work_rounds xs n d))) as [H0|]; [specialize (Hlt H0)|]; lia.
Qed.
End Rounds.

(** ** Claims *)


(** ** Witness: one task with two attempts, the first of which fails *)

Definition drain_enqueue : call := CEnqueue (str "mail") VNull (str "default") 1 None 0 2 None (VObject []).
Definition drain_demo : Db := run drain_enqueue (demo_env 10 100) empty_db.
Definition drain_config : WorkerConfig := WorkerConfig_with_queues [str "other"; str "default"].
Definition drain_control : WorkerControl := {| wc_configured := 10; wc_effective := 4; wc_proposed := 4 |}.
Definition drain_round (k : nat) : WorkRound :=
  let now := from_secs (10000 * (Z.of_nat k + 1)) in
  {| wr_env := fun n => demo_env (now + Z.of_nat n) (now + 100 * (Z.of_nat n + 1));
     wr_health := Health_new 0;
     wr_turns := fun n => {| u_others := id; u_before := []; u_after := [];
       u_completions := fun m => demo_env (now + 50) (now + 5000);
       u_failures := fun m => demo_env (now + 50) (now + 6000) |};
     wr_outcome := fun t => match k with
       | O => Raised (HandlerError_retryable (str "busy"))
       | _ => Returned (VString (str "sent"))
       end |}.
Definition drain_rounds : nat -> Db -> Db :=
  work_rounds 7 [(str "mail", 1)] (from_secs 30) drain_control drain_config (fun _ => []) id
    (fun _ => RetryPolicy_default) drain_round.

Lemma drain_demo_reachable : rtc db_step empty_db drain_demo.
Proof. apply rtc_once, (step_call _ _ drain_enqueue (demo_env 10 100)). vm_compute. reflexivity. Qed.

(** What a round of the example needs, as facts to compute. *)
Lemma drain_served k d t u ts d' health limit :
  round_claims 7 [(str "mail", 1)] (from_secs 30) drain_control drain_config (drain_round k) d
    = (d', health, Some (limit, ts)) ->
  Forall (fun task => t_retry_policy task = None) ts ->
  queues d !! str "default" = Some u -> u_paused_at u = None -> tasks d !! 100 = Some t ->
  k_queue_name t = str "default" -> k_state t = Pending -> capable [(str "mail", 1)] t = true ->
  k_run_at t <= from_secs (10000 * (Z.of_nat k + 1)) ->
  served 7 [(str "mail", 1)] (from_secs 30) drain_control drain_config (fun _ => RetryPolicy_default)
    (drain_round k) d.
Proof.
  intros E Hp Hu Hpa Ht Hq Hs Hc Hr. split.
  - exists d', health, limit, ts. split; [done|]. eapply Forall_impl; [exact Hp|]. intros task Htask.
    split; [destruct k; [split; by_compute|by_compute]|]. rewrite Htask. split; [by_compute|done].
  - intros n d0. split; [apply rtc_refl|]. intros Hwf. by apply grows_tasks_by.
  - intros _. exists (str "default"), u, 100, t. split_and!; try done; [set_solver|].
    intros n. split; [cbn; lia|by apply not_elem_of_empty].
Qed.

