(* ===== verification/Pace.v ===== *)
(** Loops paced by an interval: [tokio::time::interval] with [MissedTickBehavior::Delay],
    which renewal, recovery, retention, heartbeats and demand sampling of
    [pgtask-worker/src/runtime.rs] wait for at the head of their loops.

    The interval is a parameter, [DelayInterval], with its documented behaviour.  The lemmas
    say how far apart the turns of such a loop can be. *)

From S2P Require Import Prelude.

(** The deadline that follows a tick taken at [now]: a period after the one that
    was due, or after the tick itself when it is late. *)
Class DelayInterval := {
  next_deadline : Z -> Z -> Z -> Z;
  next_deadline_in period deadline now :
    deadline <= now -> deadline + period <= next_deadline period deadline now <= now + period;
}.

(** A turn of a loop: when it takes its tick, and when it is ready for the next. *)
Record Beat := { bt_started : Z; bt_answered : Z }.

Section Pace.
Context `{DelayInterval} (period latency slack begun first : Z) (beats : nat -> Beat).

(** The deadline of the interval before the [n]-th tick. *)
Fixpoint pace_deadline (n : nat) : Z :=
  match n with
  | O => first
  | S n' => next_deadline period (pace_deadline n') (bt_started (beats n'))
  end.

(** When the loop is ready for the [n]-th tick, and when the one before was taken. *)
Definition free_at (n : nat) : Z := match n with O => begun | S n' => bt_answered (beats n') end.
Definition last_start (n : nat) : Z := match n with O => begun | S n' => bt_started (beats n') end.

(** The executor takes a tick when it is due and the loop is free, at most [slack] later, and
    a turn takes at most [latency]. *)
Record paced : Prop := {
  pc_due n : pace_deadline n <= bt_started (beats n);
  pc_free n : free_at n <= bt_started (beats n);
  pc_slack n : bt_started (beats n) <= Z.max (pace_deadline n) (free_at n) + slack;
  pc_latency n : bt_started (beats n) <= bt_answered (beats n) <= bt_started (beats n) + latency;
}.

Context (paced_run : paced) (first_deadline : first <= begun + period).
#[local] Set Default Proof Using "All".

Lemma pace_deadline_bound n : pace_deadline n <= last_start n + period.
Proof. destruct n as [|n]; [done|]. cbn. apply next_deadline_in, (pc_due paced_run). Qed.

Lemma last_start_free n : last_start n <= free_at n.
Proof. destruct n as [|n]; cbn; [lia|]. apply (pc_latency paced_run). Qed.

Lemma last_start_started n : last_start n <= bt_started (beats n).
Proof. pose proof (last_start_free n). pose proof (pc_free paced_run n). lia. Qed.

(** Two ticks are at most a period, or a turn if that takes longer, and a slack apart. *)
Lemma paced_gap n : bt_started (beats n) <= last_start n + Z.max period latency + slack.
Proof.
  pose proof (pace_deadline_bound n). pose proof (pc_slack paced_run n). pose proof (pc_latency paced_run 0).
  assert (free_at n <= last_start n + latency); [|lia]. destruct n as [|n]; cbn; [lia|]. apply (pc_latency paced_run).
Qed.

(** The deadlines go up by at least a period each. *)
Lemma pace_deadline_grows n : first + Z.of_nat n * period <= pace_deadline n.
Proof.
  induction n as [|n IH]; [cbn; lia|]. cbn [pace_deadline].
  pose proof (next_deadline_in period (pace_deadline n) (bt_started (beats n)) (pc_due paced_run n)). lia.
Qed.

(** Soon after any time there is a tick. *)
Lemma paced_reaches x :
  0 < period -> begun <= x ->
  exists n, x <= bt_started (beats n) <= x + Z.max period latency + slack.
Proof.
  intros Hp Hx.
  assert (exists n, x <= bt_started (beats n)) as [n Hn].
  { exists (Z.to_nat (x - first)). pose proof (pace_deadline_grows (Z.to_nat (x - first))) as Hg.
    pose proof (pc_due paced_run (Z.to_nat (x - first))).
    destruct (Z.le_gt_cases first x); [|lia]. rewrite Z2Nat.id in Hg by lia. nia. }
  induction n as [|n IH].
  - exists 0%nat. split; [done|]. pose proof (paced_gap 0). cbn in *. lia.
  - destruct (Z.le_gt_cases x (bt_started (beats n))) as [Hle|Hgt]; [by apply IH|].
    exists (S n). split; [done|]. pose proof (paced_gap (S n)). cbn in *. lia.
Qed.
End Pace.

(** The interval of tokio, which lets ticks up to five milliseconds late count as in
    time. *)
Definition tokio_delay : DelayInterval.
Proof.
  refine {| next_deadline period deadline now :=
    if now <=? deadline + from_millis 5 then deadline + period else now + period |}.
  intros period deadline now Hle. destruct (now <=? _); lia.
Defined.
