(* ===== verification/Renewer.v ===== *)
(** The renewal loop in time: [renew_leases] of [pgtask-worker/src/runtime.rs].

    [Runtime.renew_tick] is what one tick does; here the ticks follow one another
    the way the interval of tokio paces them, each with the time it starts at, the
    time its statement is answered and the answer, which an unreachable database
    makes an error.  The theorem bounds how long a handler can go on under a
    lease that is not confirmed any more.

    The interval is that of [Pace]. *)

From S2P Require Import Prelude Text Identifier Json TaskTypes Rows Tables Protocol Lifecycle Store.
From S2P Require Import Registry Control Health Runtime Maintenance Pace.

Section Renewer.
Context `{DelayInterval} (lease_duration : Z).

Definition renewal_interval : Z := lease_duration / 3.

Record Renewer := {
  rw_deadline : Z;
  rw_active : gmap Z ActiveLease;
  rw_health : HealthState;
}.

(** [interval_at(Instant::now() + renewal_interval, renewal_interval)]. *)
Definition renewer_start (now : Z) (active : gmap Z ActiveLease) (health : HealthState) : Renewer :=
  {| rw_deadline := now + renewal_interval; rw_active := active; rw_health := health |}.

(** What follows the [await] of the statement. *)
Definition settle_renewal (now : Z) (clock : uuid -> Z) (leases : list ActiveLease)
    (answer : result PostgresError (list uuid)) (active : gmap Z ActiveLease) (health : HealthState)
    : gmap Z ActiveLease * HealthState :=
  match answer with
  | Ok renewed =>
      (update_renewed_leases now leases renewed active,
       record_lease_renewal now (len renewed =? len leases) (set_database true health))
  | Err _ =>
      (cancel_uncertain_leases clock leases lease_duration active,
       record_lease_renewal now false (set_database false health))
  end.

(** A tick with its times.  [tk_between] and [tk_meanwhile] are what the handlers that
    start and end do to the map before the tick and during its statement;
    [tk_clock] is what [elapsed] reads afterwards. *)
Record Tick := {
  tk_started : Z;
  tk_answered : Z;
  tk_answer : result PostgresError (list uuid);
  tk_clock : uuid -> Z;
  tk_between : gmap Z ActiveLease -> gmap Z ActiveLease;
  tk_meanwhile : gmap Z ActiveLease -> gmap Z ActiveLease;
}.

(** The map a tick asks about, and the one its answer meets. *)
Definition asked (u : Tick) (r : Renewer) : gmap Z ActiveLease := tk_between u (rw_active r).
Definition met (u : Tick) (r : Renewer) : gmap Z ActiveLease :=
  if bool_decide (map_to_list (asked u r) = []) then asked u r else tk_meanwhile u (asked u r).

Definition renewer_tick (u : Tick) (r : Renewer) : Renewer :=
  let leases := map snd (map_to_list (asked u r)) in
  let deadline := next_deadline renewal_interval (rw_deadline r) (tk_started u) in
  if bool_decide (leases = [])
  then {| rw_deadline := deadline; rw_active := asked u r; rw_health := set_active_leases false (rw_health r) |}
  else
    let (active, health) := settle_renewal (tk_answered u) (tk_clock u) leases (tk_answer u) (met u r) (rw_health r) in
    {| rw_deadline := deadline; rw_active := active; rw_health := health |}.

Fixpoint renewer_run (us : nat -> Tick) (n : nat) (r : Renewer) : Renewer :=
  match n with
  | O => r
  | S n' => renewer_tick (us n') (renewer_run us n' r)
  end.

(** A tick is the [renew_tick] of [Runtime] with the answer of the database. *)
Lemma renewer_tick_is_renew_tick e u r d :
  tk_answer u = (Store.renew_leases e (map al_renewal (map snd (map_to_list (asked u r)))) lease_duration d).2 ->
  let '(d', active, health) := renew_tick e (tk_answered u) (tk_clock u) lease_duration (tk_meanwhile u)
    (asked u r) (rw_health r) d in
  rw_active (renewer_tick u r) = active /\ rw_health (renewer_tick u r) = health.
Proof.
  intros Ha. unfold renew_tick, renewer_tick, met. case_bool_decide as He; [done|].
  rewrite bool_decide_eq_false_2 by (intros Hn; apply He; by rewrite Hn). rewrite Ha.
  by destruct (Store.renew_leases e _ lease_duration d) as [d' [renewed|error]].
Qed.

(** ** How old an unconfirmed lease can get *)

(** Handlers that end take their leases out of the map, and those that start at [since]
    or later put leases of their own there. *)
Definition handlers_change (since : Z) (m m' : gmap Z ActiveLease) : Prop :=
  forall id c, m' !! id = Some c -> m !! id = Some c \/
    (since <= al_last_renewed c /\ lr_task_id (al_renewal c) = id /\
     forall l, m !! id = Some l -> al_renewal l <> al_renewal c).

Definition beat (u : Tick) : Beat := {| bt_started := tk_started u; bt_answered := tk_answered u |}.

(** The ticks are paced by the interval, an answer being a result or an error, and clocks do
    not go back. *)
Record timely (latency slack begun : Z) (us : nat -> Tick) (r : Renewer) : Prop := {
  ty_paced : paced renewal_interval latency slack begun (rw_deadline r) (fun n => beat (us n));
  ty_clock n id : tk_answered (us n) <= tk_clock (us n) id;
  ty_between n : handlers_change (free_at begun (fun n => beat (us n)) n)
                   (rw_active (renewer_run us n r)) (asked (us n) (renewer_run us n r));
  ty_meanwhile n : handlers_change (tk_started (us n)) (asked (us n) (renewer_run us n r))
                     (tk_meanwhile (us n) (asked (us n) (renewer_run us n r)));
}.

(** The deadlines of the loop are those of its interval. *)
Lemma renewer_deadline us r n :
  rw_deadline (renewer_run us n r) = pace_deadline renewal_interval (rw_deadline r) (fun n => beat (us n)) n.
Proof.
  induction n as [|n IH]; [done|]. cbn [renewer_run pace_deadline]. rewrite <- IH. unfold renewer_tick.
  case_bool_decide; [done|]. by destruct (settle_renewal _ _ _ _ _ _).
Qed.

(** How long a lease stays trusted without a confirmation. *)
Definition trust (latency slack : Z) : Z :=
  lease_duration * 2 / 3 + Z.max renewal_interval latency + slack + latency.

(** Every lease of the map is cancelled or was young when the last tick started. *)
Definition young (since : Z) (m : gmap Z ActiveLease) : Prop :=
  keyed m /\ forall id c, m !! id = Some c ->
    al_lost c = true \/ since < al_last_renewed c + lease_duration * 2 / 3.

Context (duration_positive : 3 <= lease_duration).

Lemma two_thirds_positive : 0 < lease_duration * 2 / 3.
Proof using duration_positive. apply Z.div_str_pos. lia. Qed.

Lemma young_change since m m' : young since m -> handlers_change since m m' -> young since m'.
Proof using duration_positive.
  pose proof two_thirds_positive. intros [Hk Hy] Hc. split; intros id c Hid; destruct (Hc id c Hid) as [?|(? & ? & _)];
    eauto. right. lia.
Qed.

Lemma young_later since since' m : since <= since' -> young since' m -> young since m.
Proof. intros Hle [Hk Hy]. split; [done|]. intros id c Hc. destruct (Hy id c Hc); [by left|right; lia]. Qed.

(** What an answer does to a lease that was asked about. *)
Lemma settle_young u r since :
  since <= tk_started u -> tk_started u <= tk_answered u ->
  (forall id, tk_answered u <= tk_clock u id) ->
  young since (asked u r) -> handlers_change (tk_started u) (asked u r) (tk_meanwhile u (asked u r)) ->
  young (tk_started u) (rw_active (renewer_tick u r)).
Proof using duration_positive.
  intros Hs Ha Hclock [Hk Hy] Hm. pose proof two_thirds_positive as Hpos.
  unfold renewer_tick. case_bool_decide as He.
  { assert (asked u r = ∅) as Hempty by (apply map_to_list_empty_iff; by destruct (map_to_list (asked u r))).
    cbn. rewrite Hempty. split; by intros id c. }
  unfold met. rewrite bool_decide_eq_false_2 by (intros Hn; apply He; by rewrite Hn).
  assert (keyed (tk_meanwhile u (asked u r))) as Hk2.
  { intros id c Hc. destruct (Hm id c Hc) as [?|(_ & ? & _)]; eauto. }
  assert (forall id c, tk_meanwhile u (asked u r) !! id = Some c ->
    match asked u r !! id with Some l => al_renewal c = al_renewal l -> l = c | None => True end /\
    (asked u r !! id = Some c \/ tk_started u <= al_last_renewed c)) as Hsame.
  { intros id c Hc. destruct (Hm id c Hc) as [E|(Hnew & _ & Hne)].
    - rewrite E. auto.
    - split; [|by right]. destruct (asked u r !! id) as [l|]; [|done]. intros E. destruct (Hne l eq_refl). done. }
  destruct (tk_answer u) as [renewed|error]; cbn; split; intros id c'; try (intros Hc';
    first [rewrite cancel_uncertain_lookup in Hc' by done
          |unfold update_renewed_leases in Hc'; rewrite (change_leases_lookup (fun l =>
             if decide (lr_task_id (al_renewal l) ∈ renewed) then touch_lease (tk_answered u) else cancel_lease)) in Hc' by done];
    apply fmap_Some in Hc' as (c & Hc & ->); destruct (Hsame id c Hc) as [Hl Hnew]; pose proof (Hk2 id c Hc) as Hid;
    unfold changed; destruct (asked u r !! id) as [l|] eqn:El;
    [destruct (decide (al_renewal c = al_renewal l)) as [E|E]; [rewrite (Hl E)|]|]).
  all: try (repeat case_match; done).
  all: try (right; destruct Hnew as [Hx|Hx]; [congruence|lia]).
  - case_decide; cbn; [right; lia|by left].
  - unfold uncertain. rewrite Hid. specialize (Hclock id).
    destruct (Z.leb_spec (lease_duration * 2 / 3) (Z.max (tk_clock u id - al_last_renewed c) 0)); cbn; [by left|].
    right. lia.
Qed.

Section Run.
Context (latency slack begun : Z) (us : nat -> Tick) (r : Renewer).
Context (timely_run : timely latency slack begun us r).
(** At the beginning the loop is about to wait for its interval. *)
Context (start_deadline : rw_deadline r <= begun + renewal_interval) (start_young : young begun (rw_active r)).
#[local] Set Default Proof Using "All".
Let beats : nat -> Beat := fun n => beat (us n).
Let pacing : paced renewal_interval latency slack begun (rw_deadline r) beats := ty_paced _ _ _ _ _ timely_run.

(** What the handlers change before a tick happens after the tick before. *)
Lemma between_change n :
  handlers_change (last_start begun beats n) (rw_active (renewer_run us n r)) (asked (us n) (renewer_run us n r)).
Proof.
  intros id c Hc. pose proof (last_start_free _ _ _ _ _ _ pacing start_deadline n).
  destruct (ty_between _ _ _ _ _ timely_run n id c Hc) as [?|(? & ? & ?)]; [by left|right].
  split_and!; [etrans; eassumption|done..].
Qed.

Lemma run_young n : young (last_start begun beats n) (rw_active (renewer_run us n r)).
Proof.
  induction n as [|n IH]; [done|]. cbn [renewer_run].
  pose proof (last_start_started _ _ _ _ _ _ pacing start_deadline n) as Hs.
  apply (settle_young _ _ (last_start begun beats n)); [exact Hs|apply (pc_latency _ _ _ _ _ _ pacing n)| | |].
  - apply (ty_clock _ _ _ _ _ timely_run).
  - eapply young_change; [exact IH|apply between_change].
  - apply (ty_meanwhile _ _ _ _ _ timely_run).
Qed.

(** The leases an answer meets. *)
Lemma met_young n : young (last_start begun beats n) (met (us n) (renewer_run us n r)).
Proof.
  assert (young (last_start begun beats n) (asked (us n) (renewer_run us n r))) as Ha
    by (eapply young_change; [apply run_young|apply between_change]).
  unfold met. case_bool_decide; [done|]. eapply young_change; [exact Ha|]. intros id c Hc.
  pose proof (last_start_started _ _ _ _ _ _ pacing start_deadline n) as Hs.
  destruct (ty_meanwhile _ _ _ _ _ timely_run n id c Hc) as [?|(? & ? & ?)]; [by left|right].
  unfold beats in *. cbn in Hs. split_and!; [lia|done..].
Qed.
End Run.
End Renewer.

(** ** Claims *)

(** Claim C15.  A handler does not go on for long under a lease nobody confirms:
    in every run of the renewal loop, with whatever answers and errors of the
    database and handlers starting and ending at any moment, as long as an
    answer comes within [latency] and a tick is taken within [slack], every
    lease that is not cancelled was claimed or renewed less than [trust] ago,
    even at the moment before an answer is settled.  That is two thirds of the
    lease duration, one renewal interval (or one latency, if that is longer),
    the latency and the slack: the lease duration, and up to a latency and a
    slack more. *)
Theorem unconfirmed_leases_are_given_up `{DelayInterval} lease_duration latency slack begun us r n id c :
  3 <= lease_duration -> timely lease_duration latency slack begun us r ->
  rw_deadline r <= begun + renewal_interval lease_duration -> young lease_duration begun (rw_active r) ->
  met (us n) (renewer_run lease_duration us n r) !! id = Some c -> al_lost c = false ->
  tk_answered (us n) < al_last_renewed c + trust lease_duration latency slack.
Proof.
  intros Hd Ht Hs Hy Hc Hl.
  destruct (met_young lease_duration Hd latency slack begun us r Ht Hs Hy n) as [_ Hm].
  destruct (Hm id c Hc) as [|Hage]; [congruence|].
  pose proof (paced_gap _ _ _ _ _ _ (ty_paced _ _ _ _ _ _ Ht) Hs n) as Hb.
  destruct (pc_latency _ _ _ _ _ _ (ty_paced _ _ _ _ _ _ Ht) n) as [_ Ha]. cbn in Ha, Hb. unfold trust. lia.
Qed.

(** With answers that come within a renewal interval, that is at most the lease duration, a
    latency and a slack. *)
Lemma trust_le lease_duration latency slack :
  0 <= lease_duration -> latency <= renewal_interval lease_duration ->
  trust lease_duration latency slack <= lease_duration + latency + slack.
Proof.
  intros H0 Hl. unfold trust, renewal_interval in *. rewrite Z.max_l by done.
  pose proof (Z.mul_div_le (lease_duration * 2) 3). pose proof (Z.mul_div_le lease_duration 3). lia.
Qed.

(** ** Witness: an outage after one renewal *)

#[local] Existing Instance tokio_delay.

Definition outage_lease : ActiveLease :=
  {| al_renewal := demo_lease; al_lost := false; al_last_renewed := 0 |}.

(** A tick every ten seconds.  The first renews the lease, at 10.2 s; then the database is
    unreachable: two statements fail at once, the next ones after five seconds. *)
Definition outage_tick (n : nat) : Tick := {|
  tk_started := from_secs (10 * (Z.of_nat n + 1));
  tk_answered := from_secs (10 * (Z.of_nat n + 1)) +
    match n with O => from_millis 200 | 1%nat | 2%nat => from_millis 100 | _ => from_secs 5 end;
  tk_answer := match n with O => Ok [100] | _ => Err (Database OtherSqlxError) end;
  tk_clock := fun _ => from_secs (10 * (Z.of_nat n + 1)) +
    match n with O => from_millis 200 | 1%nat | 2%nat => from_millis 100 | _ => from_secs 5 end;
  tk_between := id; tk_meanwhile := id |}.
Definition outage_start : Renewer := renewer_start (from_secs 30) 0 {[100 := outage_lease]} (Health_new 0).

Lemma outage_deadline n :
  pace_deadline (renewal_interval (from_secs 30)) (rw_deadline outage_start) (fun n => beat (outage_tick n)) n
  = from_secs (10 * (Z.of_nat n + 1)).
Proof.
  induction n as [|n IH]; [done|]. cbn [pace_deadline]. rewrite IH.
  cbn [beat bt_started tk_started outage_tick next_deadline tokio_delay].
  replace (_ <=? _) with true by (symmetry; apply Z.leb_le; unfold from_millis, NANOS_PER_MILLI; lia).
  change (renewal_interval (from_secs 30)) with (from_secs 10). unfold from_secs. lia.
Qed.

Lemma outage_timely : timely (from_secs 30) (from_secs 5) 0 0 outage_tick outage_start.
Proof.
  assert (forall since m, handlers_change since m m) as Hrefl by (intros since m id c; by left).
  split; [split; intros n|intros n..].
  - by rewrite outage_deadline.
  - destruct n as [|[|[|[|n]]]]; cbn [free_at beat bt_started bt_answered outage_tick tk_answered tk_started];
      unfold from_secs, from_millis, NANOS_PER_SEC, NANOS_PER_MILLI; lia.
  - rewrite outage_deadline. cbn [beat bt_started outage_tick tk_started]. lia.
  - destruct n as [|[|[|n]]]; cbn [beat bt_started bt_answered outage_tick tk_answered tk_started];
      unfold from_secs, from_millis, NANOS_PER_SEC, NANOS_PER_MILLI; lia.
  - intros task. apply Z.le_refl.
  - apply Hrefl.
  - apply Hrefl.
Qed.

(** The lease was confirmed at 10.2 s for thirty seconds; at 45 s its handler has not been told
    to stop, although no statement took longer than five seconds. *)
Definition outage_state : ActiveLease := touch_lease (from_secs 10 + from_millis 200) outage_lease.

Lemma outage_outlives_the_lease :
  met (outage_tick 3) (renewer_run (from_secs 30) outage_tick 3 outage_start) !! 100 = Some outage_state /\
  al_lost outage_state = false /\
  al_last_renewed outage_state + from_secs 30 < tk_answered (outage_tick 3).
Proof. split_and!; vm_compute; reflexivity. Qed.

Lemma unconfirmed_leases_are_given_up_witness :
  met (outage_tick 3) (renewer_run (from_secs 30) outage_tick 3 outage_start) !! 100 = Some outage_state /\
  tk_answered (outage_tick 3) < al_last_renewed outage_state + trust (from_secs 30) (from_secs 5) 0.
Proof.
  split; [vm_compute; reflexivity|].
  apply (unconfirmed_leases_are_given_up (from_secs 30) (from_secs 5) 0 0 outage_tick outage_start 3 100).
  - vm_compute. discriminate.
  - apply outage_timely.
  - vm_compute. discriminate.
  - split.
    + intros id l H. change (({[100 := outage_lease]} : gmap Z ActiveLease) !! id = Some l) in H.
      apply lookup_singleton_Some in H as [<- <-]. reflexivity.
    + intros id l H. change (({[100 := outage_lease]} : gmap Z ActiveLease) !! id = Some l) in H.
      apply lookup_singleton_Some in H as [<- <-]. right. vm_compute. reflexivity.
  - vm_compute. reflexivity.
  - reflexivity.
Defined.
