(* ===== verification/Recovery.v ===== *)
(** The recovery loop in time: [recover_expired_leases] of [pgtask-worker/src/runtime.rs].

    [Runtime.recover_tick] is what one tick does and [Maintenance] shows that it frees
    every lease that has expired; here the ticks follow one another at the pace of
    their interval ([Pace]) while other workers and producers make calls.  A lease its worker
    does not renew any more is over soon after it has expired: a crash costs a
    task a bounded time. *)

From S2P Require Import Prelude Text Identifier Json TaskTypes Rows Tables Protocol Lifecycle Triggers Store.
From S2P Require Import Registry Control Health Runtime Maintenance Pace.

Section Recovery.
Context `{DelayInterval} (config : WorkerConfig).

(** [tokio::time::interval(config.lease_duration / 3)], whose first tick is due at
    once. *)
Definition recovery_interval : Z := cf_lease_duration config / 3.

(** A turn: its times, the environments of its statements and what others did to the
    database since the turn before. *)
Record RecoveryTurn := {
  rt_beat : Beat;
  rt_env : nat -> nat -> Env;
  rt_others : Db -> Db;
}.

Definition recovery_turn (u : RecoveryTurn) (d : Db) : Db := recover_tick (rt_env u) config (rt_others u d).

Fixpoint recovery_run (us : nat -> RecoveryTurn) (n : nat) (d : Db) : Db :=
  match n with
  | O => d
  | S n' => recovery_turn (us n') (recovery_run us n' d)
  end.

(** The turns are paced by the interval and their statements run after they start; no other
    transaction locks the rows meanwhile, and no queue has as many running tasks
    as the budget of a tick.  Others make protocol calls. *)
Record recovering (latency slack begun : Z) (us : nat -> RecoveryTurn) (d : Db) : Prop := {
  rc_paced : paced recovery_interval latency slack begun begun (fun n => rt_beat (us n));
  rc_env n i k : bt_started (rt_beat (us n)) <= e_now (rt_env (us n) i k) /\ e_locked (rt_env (us n) i k) = ∅;
  rc_others n : rtc call_step (recovery_run us n d) (rt_others (us n) (recovery_run us n d));
  rc_running n : Forall (fun q => Z.of_nat (size (running_in q (rt_others (us n) (recovery_run us n d))))
                                    < 16 * cf_recovery_batch_size config) (cf_queues config);
}.

(** The lease was not renewed past [x]. *)
Definition unrenewed (lease : LeaseRenewal) (x : time) (d : Db) : Prop :=
  forall t, active lease d = Some t -> exists l, k_lease t = Some l /\ l_expires_at l <= x.

Context (batch_wf : wf_nonzero (cf_recovery_batch_size config)).
#[local] Set Default Proof Using "All".

(** *** A tick keeps to the lifecycle *)

Lemma drain_grows e q limit batches : forall n d,
  wf_nonzero limit -> db_inv d ->
  grows d (drain limit (fun k => Store.recover_expired (e k) q limit) batches n d).
Proof.
  induction batches as [|batches IH]; intros n d Hl Hi; cbn [drain]; [apply grows_tasks; [by apply db_inv_wf|done]|].
  destruct (store_recover_expired (e n) q limit d Hi Hl) as (d1 & -> & E).
  assert (grows d d1) as G by (eapply recover_expired_grows; [by apply db_inv_wf|exact E]).
  destruct (_ <? _); [done|]. eapply grows_trans; [exact G|]. apply IH; [done|]. by eapply grows_inv.
Qed.

Lemma recover_tick_grows e d : db_inv d -> grows d (recover_tick e config d).
Proof.
  unfold recover_tick. generalize (imap pair (cf_queues config)) as l. intros l. revert d.
  induction l as [|[i q] l IH]; intros d Hi; cbn [foldl]; [apply grows_tasks; [by apply db_inv_wf|done]|].
  assert (grows d (recover_queue (e i) q (cf_recovery_batch_size config) d)) as G by (by apply drain_grows).
  eapply grows_trans; [exact G|]. apply IH. by eapply grows_inv.
Qed.

Section Run.
Context (latency slack begun : Z) (us : nat -> RecoveryTurn) (d : Db).
Context (recovering_run : recovering latency slack begun us d) (start_inv : db_inv d).

Lemma others_grow n : db_inv (recovery_run us n d) ->
  grows (recovery_run us n d) (rt_others (us n) (recovery_run us n d)).
Proof. intros Hi. apply calls_grow; [apply (rc_others _ _ _ _ _ recovering_run)|by apply db_inv_wf]. Qed.

Lemma run_grows n : grows d (recovery_run us n d).
Proof.
  induction n as [|n IH]; cbn [recovery_run]; [apply grows_tasks; [by apply db_inv_wf|done]|].
  pose proof (grows_inv _ _ start_inv IH) as Hi. pose proof (others_grow n Hi) as Ho.
  eapply grows_trans; [exact IH|]. eapply grows_trans; [exact Ho|]. apply recover_tick_grows. by eapply grows_inv.
Qed.

Lemma run_grows_later n m : (n <= m)%nat -> grows (recovery_run us n d) (recovery_run us m d).
Proof.
  induction 1 as [|m _ IH]; cbn [recovery_run].
  { apply grows_tasks; [|done]. apply db_inv_wf. eapply grows_inv; [exact start_inv|apply run_grows]. }
  assert (db_inv (recovery_run us m d)) as Hi by (eapply grows_inv; [exact start_inv|apply run_grows]).
  pose proof (others_grow m Hi) as Ho. eapply grows_trans; [exact IH|]. eapply grows_trans; [exact Ho|].
  apply recover_tick_grows. by eapply grows_inv.
Qed.

(** What a turn that starts at [x] or later does to a lease that has expired by then. *)
Lemma turn_ends_lease lease x t n :
  active lease d = Some t -> k_queue_name t ∈ cf_queues config ->
  unrenewed lease x (rt_others (us n) (recovery_run us n d)) -> x <= bt_started (rt_beat (us n)) ->
  lease_over lease (recovery_run us (S n) d).
Proof.
  intros Ha Hq Hun Hx. pose proof (run_grows (S n)) as G. pose proof Ha as [Ht Hh]%active_spec.
  assert (db_inv (rt_others (us n) (recovery_run us n d))) as Hi.
  { assert (db_inv (recovery_run us n d)) as Hn by (eapply grows_inv; [exact start_inv|apply run_grows]).
    eapply grows_inv; [exact Hn|by apply others_grow]. }
  destruct (recover_queues (rt_env (us n)) _ _ batch_wf (rc_env _ _ _ _ _ recovering_run n) (cf_queues config) (fun i => i)
    _ Hi (rc_running _ _ _ _ _ recovering_run n)) as (_ & Hquiet & Hfree).
  fold (recover_tick (rt_env (us n)) config (rt_others (us n) (recovery_run us n d))) in Hquiet, Hfree.
  apply lease_over_inactive.
  { eapply grows_started; [exact G|]. exists t. split; [done|]. apply holds_lease_spec in Hh as (_ & <- & _). lia. }
  apply eq_None_not_Some. intros [t' Ha']. pose proof Ha' as [Ht' Hh']%active_spec.
  cbn [recovery_run] in Ht'. unfold recovery_turn in Ht'.
  pose proof Hh' as (Hs & _ & _)%holds_lease_spec. pose proof (Hquiet _ _ Ht' Hs) as Hold.
  destruct (Hun t') as (l & Hl & Hle).
  { unfold active. by rewrite Hold, Hh'. }
  specialize (G (lr_task_id lease)). rewrite Ht in G. destruct G as (t2 & Ht2 & (_ & Hsp & _)).
  cbn [recovery_run] in Ht2. unfold recovery_turn in Ht2. assert (t2 = t') as -> by congruence.
  assert (k_queue_name t' = k_queue_name t) as Hname by (unfold k_queue_name; by rewrite Hsp).
  specialize (Hfree _ _ _ Hq Ht'). unfold expired in Hfree. cbn in Hfree.
  rewrite Hl, Hname, !bool_decide_eq_true_2 in Hfree by done. cbn in Hfree. apply Z.leb_gt in Hfree. lia.
Qed.
End Run.
End Recovery.

(** ** Claims *)


(** ** Witness: the claimed task of [demo2], whose worker is gone *)

#[local] Existing Instance tokio_delay.

Definition crash_config : WorkerConfig := WorkerConfig_new (str "default").
Definition crash_turn (n : nat) : RecoveryTurn :=
  let started := 30 + Z.of_nat n * from_secs 10 in
  {| rt_beat := {| bt_started := started; bt_answered := started + from_secs 1 |};
     rt_env := fun _ _ => demo_env started 0; rt_others := id |}.

Lemma crash_deadline n :
  pace_deadline (recovery_interval crash_config) 30 (fun n => rt_beat (crash_turn n)) n = 30 + Z.of_nat n * from_secs 10.
Proof.
  induction n as [|n IH]; [done|]. cbn [pace_deadline]. rewrite IH.
  cbn [rt_beat crash_turn bt_started next_deadline tokio_delay].
  replace (_ <=? _) with true by (symmetry; apply Z.leb_le; unfold from_millis, NANOS_PER_MILLI; lia).
  change (recovery_interval crash_config) with (from_secs 10). lia.
Qed.

(** Nothing is claimed meanwhile, so what runs was running before. *)
Lemma crash_quiet n :
  db_inv (recovery_run crash_config crash_turn n demo2) /\ quiets demo2 (recovery_run crash_config crash_turn n demo2).
Proof.
  induction n as [|n [Hi Hq]]; cbn [recovery_run]; [by split; [apply db_inv_reachable, demo_reachable|]|].
  destruct (recover_queues (rt_env (crash_turn n)) (cf_recovery_batch_size crash_config) (30 + Z.of_nat n * from_secs 10)
    ltac:(by_compute) (fun i k => conj (Z.le_refl _) eq_refl) (cf_queues crash_config) (fun i => i) _ Hi) as (Hi' & Hq' & _).
  - constructor; [|constructor]. apply (Z.le_lt_trans _ (Z.of_nat (size (running_in (str "default") demo2)))).
    + apply inj_le, subseteq_size. by apply quiets_running.
    + vm_compute. reflexivity.
  - split; [exact Hi'|]. etrans; [exact Hq|exact Hq'].
Qed.

Lemma crash_recovering : recovering crash_config (from_secs 1) 0 30 crash_turn demo2.
Proof.
  split; [split; intros n|intros n..].
  - by rewrite crash_deadline.
  - destruct n as [|n]; cbn [free_at rt_beat crash_turn bt_started bt_answered];
      unfold from_secs, NANOS_PER_SEC; lia.
  - rewrite crash_deadline. cbn [rt_beat crash_turn bt_started]. lia.
  - cbn [rt_beat crash_turn bt_started bt_answered]. unfold from_secs, NANOS_PER_SEC. lia.
  - intros i k. split; [apply Z.le_refl|done].
  - apply rtc_refl.
  - constructor; [|constructor]. apply (Z.le_lt_trans _ (Z.of_nat (size (running_in (str "default") demo2)))).
    + apply inj_le, subseteq_size, quiets_running. apply crash_quiet.
    + vm_compute. reflexivity.
Qed.

