(* ===== verification/Writer.v ===== *)
(** The loop of [write_transitions] in [pgtask-worker/src/runtime.rs]: executions
    send requests into a bounded channel, and one task collects them into batches.

    A step is a send, a receive, the end of a batch (it is full, its millisecond
    is over or the channel is closed), the shutdown, or a statement of somebody
    else.  [wr_sent] and [wr_written] record what was sent and which batches were
    written; the program does not keep them. *)

From S2P Require Import Prelude Text Identifier Json TaskTypes Rows Tables Protocol Lifecycle Store Control Runtime.

Record Writer := {
  wr_db : Db;
  wr_channel : list TransitionRequest;
  wr_requests : list TransitionRequest;
  wr_returned : bool;
  wr_sent : list TransitionRequest;
  wr_written : list (list TransitionRequest);
}.

Section Writer.
(** The concurrency of the worker is the capacity of the channel and the size of
    a batch. *)
Context (batch_size : nat).

Definition writer_start (d : Db) : Writer := {|
  wr_db := d; wr_channel := []; wr_requests := []; wr_returned := false; wr_sent := []; wr_written := [] |}.

(** [self.sender.send(request)] once there is room. *)
Definition writer_send (request : TransitionRequest) (w : Writer) : Writer := {|
  wr_db := wr_db w; wr_channel := wr_channel w ++ [request]; wr_requests := wr_requests w;
  wr_returned := wr_returned w; wr_sent := wr_sent w ++ [request]; wr_written := wr_written w |}.

(** [receiver.recv()], the first of a batch and the others. *)
Definition writer_receive (w : Writer) : option Writer :=
  if (length (wr_requests w) <? batch_size)%nat
  then match wr_channel w with
       | [] => None
       | request :: channel => Some {|
           wr_db := wr_db w; wr_channel := channel; wr_requests := wr_requests w ++ [request];
           wr_returned := wr_returned w; wr_sent := wr_sent w; wr_written := wr_written w |}
       end
  else None.

(** [write_transition_batch(&store, requests, &shutdown)]. *)
Definition writer_flush (ec ef : nat -> Env) (w : Writer) : Writer := {|
  wr_db := (write_transition_batch ec ef (wr_requests w) (wr_db w)).1.1; wr_channel := wr_channel w; wr_requests := [];
  wr_returned := wr_returned w; wr_sent := wr_sent w; wr_written := wr_written w ++ [wr_requests w] |}.

Definition writer_return (w : Writer) : Writer := {|
  wr_db := wr_db w; wr_channel := wr_channel w; wr_requests := wr_requests w;
  wr_returned := true; wr_sent := wr_sent w; wr_written := wr_written w |}.
Definition writer_database (d : Db) (w : Writer) : Writer := {|
  wr_db := d; wr_channel := wr_channel w; wr_requests := wr_requests w;
  wr_returned := wr_returned w; wr_sent := wr_sent w; wr_written := wr_written w |}.

(** The steps of the writer itself. *)
Inductive own_step (w : Writer) : Writer -> Prop :=
| receives w' : wr_returned w = false -> writer_receive w = Some w' -> own_step w w'
| flushes ec ef : wr_returned w = false -> wr_requests w <> [] -> own_step w (writer_flush ec ef w).

Inductive writer_step (w : Writer) : Writer -> Prop :=
| by_itself w' : own_step w w' -> writer_step w w'
| sends request : (length (wr_channel w) < batch_size)%nat -> writer_step w (writer_send request w)
| returns : writer_step w (writer_return w)
| others d : rtc db_step (wr_db w) d -> writer_step w (writer_database d w).

(** ** The invariant *)

Definition pending (w : Writer) : list TransitionRequest := wr_requests w ++ wr_channel w.

Record writer_inv (w : Writer) : Prop := {
  wi_sent : concat (wr_written w) ++ pending w = wr_sent w;
  wi_batches : Forall (fun batch => batch <> [] /\ (length batch <= batch_size)%nat) (wr_written w);
  wi_requests : (length (wr_requests w) <= batch_size)%nat;
  wi_channel : (length (wr_channel w) <= batch_size)%nat;
}.

Lemma receive_inv w w' : writer_inv w -> writer_receive w = Some w' -> writer_inv w' /\ pending w' = pending w /\
  wr_sent w' = wr_sent w /\ wr_returned w' = wr_returned w /\ wr_written w' = wr_written w /\
  length (wr_channel w) = S (length (wr_channel w')).
Proof.
  intros [Hs Hb Hr Hc] H. unfold writer_receive in H.
  destruct (Nat.ltb_spec (length (wr_requests w)) batch_size); [|done].
  destruct (wr_channel w) as [|r channel] eqn:E; [done|]. injection H as <-.
  assert (pending w = (wr_requests w ++ [r]) ++ channel) as Hp by (unfold pending; by rewrite E, <- app_assoc).
  split; [split|]; cbn in *; [|done| |lia|].
  - rewrite <- Hs, Hp. reflexivity.
  - rewrite length_app. cbn. lia.
  - by split_and!.
Qed.

Lemma flush_inv ec ef w : writer_inv w -> wr_requests w <> [] -> writer_inv (writer_flush ec ef w).
Proof.
  intros [Hs Hb Hr Hc] Hne. split; cbn; [| |lia|done].
  - rewrite concat_app. cbn. rewrite app_nil_r, <- app_assoc. exact Hs.
  - apply Forall_app. split; [done|]. by apply Forall_singleton.
Qed.

Lemma step_inv w w' : writer_step w w' -> writer_inv w -> writer_inv w'.
Proof.
  intros [w2 [w3 _ H|ec ef _ H]|request Hroom| |d _] Hinv.
  - by eapply receive_inv.
  - by apply flush_inv.
  - destruct Hinv as [Hs Hb Hr Hc]. split; cbn; [|done..|rewrite length_app; cbn; lia].
    unfold pending in *. cbn. by rewrite <- Hs, <- !app_assoc.
  - by destruct Hinv; split.
  - by destruct Hinv; split.
Qed.

Lemma reachable_inv d w : rtc writer_step (writer_start d) w -> writer_inv w.
Proof.
  intros H. assert (writer_inv (writer_start d)) as Hi by (split; cbn; [done|constructor|lia|lia]).
  remember (writer_start d) as w0. clear Heqw0. induction H; [done|]. eauto using step_inv.
Qed.

(** ** Progress *)

(** Steps the writer has to take for what is pending. *)
Definition distance (w : Writer) : nat := 2 * length (wr_channel w) + length (wr_requests w).

Lemma writer_progress w :
  writer_inv w -> wr_returned w = false -> (0 < batch_size)%nat -> pending w <> [] ->
  exists w', own_step w w' /\ writer_inv w' /\ wr_returned w' = false /\ wr_sent w' = wr_sent w /\ (distance w' < distance w)%nat.
Proof.
  intros Hinv Hret Hpos Hp. destruct (writer_receive w) as [w'|] eqn:E.
  - exists w'. destruct (receive_inv w w' Hinv E) as (Hi & Hpend & Hs & Hr & _ & Hl).
    split_and!; [by constructor|done|congruence|done|]. apply (f_equal length) in Hpend.
    unfold pending in Hpend. rewrite !length_app in Hpend. unfold distance. lia.
  - assert (wr_requests w <> []) as Hne.
    { intros Hn. unfold writer_receive in E. unfold pending in Hp. rewrite Hn in E, Hp.
      rewrite (proj2 (Nat.ltb_lt _ _) Hpos : (length [] <? batch_size)%nat = true) in E.
      by destruct (wr_channel w). }
    exists (writer_flush (fun _ => {| e_now := 0; e_uuid := fun _ => 0; e_locked := ∅ |})
                         (fun _ => {| e_now := 0; e_uuid := fun _ => 0; e_locked := ∅ |}) w).
    split_and!; [by constructor|by apply flush_inv|done|done|]. unfold distance. cbn.
    destruct (wr_requests w); [done|]. cbn. lia.
Qed.

Lemma writer_drains n : forall w,
  (distance w < n)%nat -> writer_inv w -> wr_returned w = false -> (0 < batch_size)%nat ->
  exists w', rtc own_step w w' /\ pending w' = [] /\ writer_inv w' /\ wr_sent w' = wr_sent w.
Proof.
  induction n as [|n IH]; intros w Hn Hinv Hret Hpos; [lia|].
  destruct (decide (pending w = [])) as [Hp|Hp]; [by exists w|].
  destruct (writer_progress w) as (w1 & Hs & Hi & Hr & Hsent & Hlt); [done..|].
  destruct (IH w1) as (w' & Hrun & Hp' & Hi' & Hs'); [lia|done..|].
  exists w'. split_and!; [by eapply rtc_l|done|done|congruence].
Qed.

End Writer.

Definition demo_completion : TransitionRequest :=
  Complete {| tc_lease := demo_lease; tc_result := Some VNull |}.
Definition demo_written : Writer :=
  writer_flush (fun _ => demo_env 30 300) (fun _ => demo_env 30 300)
    (default (writer_start demo2) (writer_receive 2 (writer_send demo_completion (writer_start demo2)))).

