(* ===== verification/RunLoop.v ===== *)
(** The loop of [Worker::run_handlers] in [pgtask-worker/src/runtime.rs], beside
    the tasks it runs with.

    The state is what the loop, its handlers and the lease renewer share.  A step
    is a turn of the loop, something a handler or the renewer does between two
    awaits, a change of the control, or a statement of somebody else; steps come
    in any order.  [lp_aborted] records the leases of handlers that were aborted
    at shutdown; the program does not keep it. *)

From S2P Require Import Prelude Text Identifier Json Retry TaskTypes Outcome Rows Tables Protocol Fleet.
From S2P Require Import Lifecycle Dispatch Triggers Store StoreSpec Registry Control Health Runtime Execution Maintenance.

(** ** The loop *)

Inductive Status : Type := Executing | Ended.

(** A task of the [JoinSet]. *)
Record RunningHandler := { rn_lease : LeaseRenewal; rn_status : Status }.

(** Before the loop breaks, until the handlers have ended or the grace is over,
    after [abort_all], and returned. *)
Inductive Mode : Type := Admitting | Draining | Aborting | Stopped (answer : result WorkerError unit).

Record Loop := {
  lp_mode : Mode;
  lp_db : Db;
  lp_control : WorkerControl;
  lp_health : HealthState;
  lp_active : gmap Z ActiveLease;
  lp_handlers : list RunningHandler;
  lp_renewing : option (list ActiveLease);
  lp_aborted : list LeaseRenewal;
}.

Definition set_mode (mode : Mode) (l : Loop) : Loop := {|
  lp_mode := mode; lp_db := lp_db l; lp_control := lp_control l; lp_health := lp_health l;
  lp_active := lp_active l; lp_handlers := lp_handlers l; lp_renewing := lp_renewing l; lp_aborted := lp_aborted l |}.
Definition set_handlers (handlers : list RunningHandler) (l : Loop) : Loop := {|
  lp_mode := lp_mode l; lp_db := lp_db l; lp_control := lp_control l; lp_health := lp_health l;
  lp_active := lp_active l; lp_handlers := handlers; lp_renewing := lp_renewing l; lp_aborted := lp_aborted l |}.
Definition set_db (d : Db) (l : Loop) : Loop := {|
  lp_mode := lp_mode l; lp_db := d; lp_control := lp_control l; lp_health := lp_health l;
  lp_active := lp_active l; lp_handlers := lp_handlers l; lp_renewing := lp_renewing l; lp_aborted := lp_aborted l |}.
Definition set_leases (active : gmap Z ActiveLease) (health : HealthState) (l : Loop) : Loop := {|
  lp_mode := lp_mode l; lp_db := lp_db l; lp_control := lp_control l; lp_health := health;
  lp_active := active; lp_handlers := lp_handlers l; lp_renewing := lp_renewing l; lp_aborted := lp_aborted l |}.
Definition set_health (health : HealthState) (l : Loop) : Loop := set_leases (lp_active l) health l.
Definition set_control (control : WorkerControl) (l : Loop) : Loop := {|
  lp_mode := lp_mode l; lp_db := lp_db l; lp_control := control; lp_health := lp_health l;
  lp_active := lp_active l; lp_handlers := lp_handlers l; lp_renewing := lp_renewing l; lp_aborted := lp_aborted l |}.
Definition set_renewing (renewing : option (list ActiveLease)) (l : Loop) : Loop := {|
  lp_mode := lp_mode l; lp_db := lp_db l; lp_control := lp_control l; lp_health := lp_health l;
  lp_active := lp_active l; lp_handlers := lp_handlers l; lp_renewing := renewing; lp_aborted := lp_aborted l |}.
Definition add_aborted (lease : LeaseRenewal) (l : Loop) : Loop := {|
  lp_mode := lp_mode l; lp_db := lp_db l; lp_control := lp_control l; lp_health := lp_health l;
  lp_active := lp_active l; lp_handlers := lp_handlers l; lp_renewing := lp_renewing l;
  lp_aborted := lease :: lp_aborted l |}.

Definition executing (h : RunningHandler) : Prop := rn_status h = Executing.
Global Instance executing_dec h : Decision (executing h).
Proof. unfold executing. destruct (rn_status h); [left|right]; done. Defined.
Definition ended (h : RunningHandler) : RunningHandler := {| rn_lease := rn_lease h; rn_status := Ended |}.

Section Worker.
Context (worker_id : uuid) (registry : gmap (list Z * Z) RegisteredHandler) (config : WorkerConfig).

(** [Worker::spawn_task]. *)
Definition spawn_task (now : Z) (task : Task) (l : Loop) : result WorkerError Loop :=
  let? (handler, active, health) := spawn_lease registry now task (lp_active l) (lp_health l) in
  let? lease_token := ok_or (MissingLeaseToken (t_id task)) (t_lease_token task) in
  Ok (set_handlers (lp_handlers l ++ [{| rn_lease := task_lease task lease_token; rn_status := Executing |}])
        (set_leases active health l)).

(** [for task in tasks { self.spawn_task(...).await?; }]. *)
Fixpoint spawn_tasks (now : Z) (tasks : list Task) (l : Loop) : Loop :=
  match tasks with
  | [] => l
  | task :: tasks' =>
      match spawn_task now task l with
      | Ok l => spawn_tasks now tasks' l
      | Err error => set_mode (Stopped (Err error)) l
      end
  end.

(** The body of the loop up to the [select!]; [shutdown] is what the token
    answers. *)
Definition turn (e : nat -> Env) (now : Z) (shutdown : bool) (l : Loop) : Loop :=
  let l := set_health (record_runtime_progress now (lp_health l)) l in
  let l := set_handlers (filter executing (lp_handlers l)) l in
  if shutdown then set_mode Draining l
  else
    let capabilities := registry_capabilities registry in
    match claim_tasks e worker_id capabilities (cf_lease_duration config) (lp_control l) config
            (len (lp_handlers l)) (lp_health l) (lp_db l) with
    | (d, health, None) => set_health health (set_db d l)
    | (d, health, Some (limit, tasks)) =>
        let l := spawn_tasks now tasks (set_health health (set_db d l)) in
        if bool_decide (tasks = []) && negb (limit =? 0)
        then set_health (worker_next_task_delay (fun n => e (length (cf_queues config) + n)%nat) capabilities
                           config (lp_health l) (lp_db l)).1 l
        else l
    end.

(** What follows the last [join_next]. *)
Definition finish (e : Env) (l : Loop) : Loop :=
  let (d, _) := release_aborted_leases e (lp_active l) (lp_db l) in
  set_mode (Stopped (Ok tt)) (set_leases ∅ (lp_health l) (set_db d l)).

(** ** Steps *)

Inductive loop_step (l : Loop) : Loop -> Prop :=
| loop_turns e now shutdown : lp_mode l = Admitting -> loop_step l (turn e now shutdown l)
| loop_is_shut_down : lp_mode l = Admitting -> loop_step l (set_mode Draining l)
| loop_joins before h after :
    lp_handlers l = before ++ h :: after -> rn_status h = Ended -> loop_step l (set_handlers (before ++ after) l)
| loop_aborts : lp_mode l = Draining -> lp_handlers l <> [] -> loop_step l (set_mode Aborting l)
| loop_finishes e :
    lp_mode l = Draining \/ lp_mode l = Aborting -> lp_handlers l = [] -> loop_step l (finish e l)
| handler_ends before h after d :
    lp_handlers l = before ++ h :: after -> rn_status h = Executing -> rtc call_step (lp_db l) d ->
    loop_step l (let (active, health) := remove_lease (lr_task_id (rn_lease h)) (lp_active l) (lp_health l) in
                 set_handlers (before ++ ended h :: after) (set_leases active health (set_db d l)))
| handler_unwinds before h after :
    lp_mode l = Aborting -> lp_handlers l = before ++ h :: after -> rn_status h = Executing ->
    loop_step l (add_aborted (rn_lease h) (set_handlers (before ++ ended h :: after) l))
| renewer_reads :
    lp_renewing l = None -> loop_step l (set_renewing (Some (map snd (map_to_list (lp_active l)))) l)
| renewer_renews now leases renewed d health :
    lp_renewing l = Some leases -> rtc call_step (lp_db l) d ->
    loop_step l (set_renewing None (set_leases (update_renewed_leases now leases renewed (lp_active l)) health
      (set_db d l)))
| renewer_fails clock leases health :
    lp_renewing l = Some leases ->
    loop_step l (set_renewing None (set_leases
      (cancel_uncertain_leases clock leases (cf_lease_duration config) (lp_active l)) health l))
| control_changes control :
    wf_control control -> wc_configured control = wc_configured (lp_control l) -> loop_step l (set_control control l)
| database_changes d : rtc db_step (lp_db l) d -> loop_step l (set_db d l)
| health_changes health : loop_step l (set_health health l).
End Worker.

(** How the loop starts. *)
Definition starts (l : Loop) : Prop :=
  lp_mode l = Admitting /\ lp_active l = ∅ /\ lp_handlers l = [] /\ lp_renewing l = None /\ lp_aborted l = [] /\
  wf_control (lp_control l).

(** ** Concurrency *)

Section Concurrency.
Context (worker_id : uuid) (registry : gmap (list Z * Z) RegisteredHandler) (config : WorkerConfig).
Hypothesis batch_size : wf_nonzero (cf_claim_batch_size config).

Abbreviation step := (loop_step worker_id registry config).

(** What spawning leaves alone. *)
Lemma spawn_tasks_frame now tasks : forall l,
  lp_control (spawn_tasks registry now tasks l) = lp_control l /\
  lp_db (spawn_tasks registry now tasks l) = lp_db l /\
  lp_aborted (spawn_tasks registry now tasks l) = lp_aborted l /\
  len (lp_handlers (spawn_tasks registry now tasks l)) <= len (lp_handlers l) + len tasks.
Proof.
  induction tasks as [|task tasks IH]; intros l; cbn [spawn_tasks].
  { split_and!; [done..|]. rewrite len_nil. lia. }
  unfold spawn_task. rewrite len_cons.
  assert (0 <= len tasks) by apply len_nonneg.
  destruct (spawn_lease _ _ _ _ _) as [[[handler active] health]|]; cbn [mbind result_bind];
    [|split_and!; [done..|cbn; lia]].
  destruct (ok_or _ _) as [token|]; cbn [mbind result_bind]; [|split_and!; [done..|cbn; lia]].
  edestruct IH as (-> & -> & -> & Hl). split_and!; [done..|]. cbn [lp_handlers set_handlers] in Hl.
  rewrite len_app, len_cons, len_nil in Hl. lia.
Qed.

Lemma filter_len {A} (P : A -> Prop) `{!forall x, Decision (P x)} l : len (filter P l) <= len l.
Proof. unfold len. apply inj_le, length_filter. Qed.

Definition within (configured : Z) (l : Loop) : Prop :=
  wf_control (lp_control l) /\ wc_configured (lp_control l) = configured /\ len (lp_handlers l) <= configured.

Lemma turn_within configured e now shutdown l :
  within configured l -> within configured (turn worker_id registry config e now shutdown l).
Proof using batch_size.
  intros (Hc & Hcf & Hl). unfold turn. set (l1 := set_handlers _ _).
  assert (within configured l1) as Hw.
  { split_and!; [done..|]. unfold l1. cbn. pose proof (filter_len executing (lp_handlers l)). lia. }
  clearbody l1. clear Hc Hcf Hl. destruct Hw as (Hc & Hcf & Hl). destruct shutdown; [done|].
  destruct (claim_tasks _ _ _ _ _ _ _ _ _) as [[d health] [[limit ts]|]] eqn:E; [|done].
  apply claim_tasks_spec in E as (_ & _ & _ & Hcap & _ & _); [|done|done|apply len_nonneg].
  assert (within configured (spawn_tasks registry now ts (set_health health (set_db d l1)))) as Hw.
  { destruct (spawn_tasks_frame now ts (set_health health (set_db d l1))) as (Ec & _ & _ & Hlen).
    unfold within. rewrite Ec. split_and!; [done..|]. cbn [lp_handlers set_health set_leases set_db] in Hlen.
    destruct ts as [|t ts]; [rewrite len_nil in Hlen; lia|]. specialize (Hcap ltac:(done)).
    unfold wf_control in Hc. lia. }
  destruct (bool_decide _ && _); [exact Hw|exact Hw].
Qed.

Lemma step_within configured l l' : step l l' -> within configured l -> within configured l'.
Proof using batch_size.
  intros Hs Hw. pose proof Hw as (Hc & Hcf & Hl). destruct Hs; try done.
  - by apply turn_within.
  - split_and!; [done..|]. cbn. rewrite H, len_app, len_cons in Hl. rewrite len_app. lia.
  - unfold finish. destruct (release_aborted_leases _ _ _). done.
  - cbn. split_and!; [done..|]. cbn. rewrite H, len_app, len_cons in Hl. rewrite len_app, len_cons. lia.
  - split_and!; [done..|]. cbn. rewrite H0, len_app, len_cons in Hl. rewrite len_app, len_cons. lia.
  - split_and!; [done| |done]. cbn. congruence.
Qed.

(** Claim C21.  A worker never runs more handlers than it is configured for:
    whatever claims, handlers, renewals, changes of the effective concurrency and
    statements of others interleave, the handlers of its loop that have not been
    joined are at most the configured concurrency. *)
Theorem handlers_within_concurrency l0 l :
  starts l0 -> rtc step l0 l -> len (lp_handlers l) <= wc_configured (lp_control l0).
Proof using batch_size.
  intros (_ & _ & Hh & _ & _ & Hc) Hr.
  assert (within (wc_configured (lp_control l0)) l0) as Hw.
  { split_and!; [done..|]. rewrite Hh, len_nil. unfold wf_control in Hc. lia. }
  clear Hh Hc. revert Hw. generalize (wc_configured (lp_control l0)). induction Hr as [l|l1 l2 l3 Hs _ IH]; intros n Hw; [apply Hw|].
  apply IH. by eapply step_within.
Qed.
End Concurrency.

(** ** Leases *)

(** [handler]'s lease is in the map, so it is renewed. *)
Definition tracked (lease : LeaseRenewal) (active : gmap Z ActiveLease) : Prop :=
  exists a, active !! lr_task_id lease = Some a /\ al_renewal a = lease.

(** The leases of the handlers that execute, and of those that were aborted. *)
Definition executing_leases (l : Loop) : list LeaseRenewal := map rn_lease (filter executing (lp_handlers l)).
Definition owed (l : Loop) : list LeaseRenewal := executing_leases l ++ lp_aborted l.

(** They are of different tasks. *)
Definition distinct (l : Loop) : Prop := NoDup (map lr_task_id (owed l)).

(** Every one of them is in the map. *)
Definition leases_tracked (l : Loop) : Prop :=
  match lp_mode l with
  | Stopped _ => True
  | _ => forall lease, lease ∈ owed l -> tracked lease (lp_active l)
  end.

Lemma change_lease_renewal f lease active id a :
  (forall a, al_renewal (f a) = al_renewal a) ->
  active !! id = Some a -> exists a', change_lease f lease active !! id = Some a' /\ al_renewal a' = al_renewal a.
Proof.
  intros Hf Ha. unfold change_lease. destruct (decide (id = lr_task_id (al_renewal lease))) as [->|Hne].
  - rewrite lookup_alter_eq, Ha. cbn. eexists. split; [done|]. by case_decide.
  - rewrite lookup_alter_ne by done. eauto.
Qed.

(** The renewer changes no lease in the map. *)
Lemma fold_tracked {A} (f : gmap Z ActiveLease -> A -> gmap Z ActiveLease) l lease :
  (forall m a, tracked lease m -> tracked lease (f m a)) -> forall m, tracked lease m -> tracked lease (foldl f m l).
Proof. intros Hf. induction l as [|a l IH]; intros m Hm; [done|]. cbn. auto. Qed.

Lemma renewed_tracked now leases renewed lease m :
  tracked lease m -> tracked lease (update_renewed_leases now leases renewed m).
Proof.
  unfold update_renewed_leases. apply fold_tracked. intros m' a (x & Hx & <-).
  eapply (change_lease_renewal _ a) in Hx as (y & Hy & Hr); [by exists y|]. intros z. by case_decide.
Qed.
Lemma uncertain_tracked clock leases duration lease m :
  tracked lease m -> tracked lease (cancel_uncertain_leases clock leases duration m).
Proof.
  unfold cancel_uncertain_leases. apply fold_tracked. intros m' a (x & Hx & <-). case_Z; [|by exists x].
  eapply (change_lease_renewal _ a) in Hx as (y & Hy & Hr); [by exists y|done].
Qed.

Lemma tracked_other id lease active :
  lr_task_id lease <> id -> tracked lease active -> tracked lease (delete id active).
Proof. intros Hne (a & Ha & Hr). exists a. split; [|done]. by rewrite lookup_delete_ne. Qed.

Lemma spawn_task_inv registry now task l l' :
  spawn_task registry now task l = Ok l' ->
  exists lease x health, lr_task_id lease = t_id task /\ al_renewal x = lease /\
    l' = set_handlers (lp_handlers l ++ [{| rn_lease := lease; rn_status := Executing |}])
           (set_leases (<[t_id task := x]> (lp_active l)) health l).
Proof.
  unfold spawn_task, spawn_lease. intros H. destruct (t_lease_token task) as [token|]; [|done]. cbn in H.
  destruct (registry_get _ _ _); [|done]. cbn in H. injection H as <-.
  exists (task_lease task token),
    {| al_renewal := task_lease task token; al_lost := false; al_last_renewed := now |}.
  eexists. split_and!; reflexivity.
Qed.

Lemma tracked_insert lease x active leases :
  al_renewal x = lease -> lr_task_id lease ∉ map lr_task_id leases ->
  (forall ls, ls ∈ leases -> tracked ls active) ->
  forall ls, ls = lease \/ ls ∈ leases -> tracked ls (<[lr_task_id lease := x]> active).
Proof.
  intros Hx Hni Ht ls [->|Hin].
  - exists x. by rewrite lookup_insert_eq.
  - destruct (Ht ls Hin) as (a & Ha & Hr). exists a. split; [|done]. rewrite lookup_insert_ne; [done|].
    intros E. apply Hni. rewrite E. apply list_elem_of_fmap. eauto.
Qed.

Definition add_handler (lease : LeaseRenewal) (active : gmap Z ActiveLease) (health : HealthState) (l : Loop) : Loop :=
  set_handlers (lp_handlers l ++ [{| rn_lease := lease; rn_status := Executing |}]) (set_leases active health l).

Lemma add_handler_owed lease active health l : owed (add_handler lease active health l) ≡ₚ lease :: owed l.
Proof.
  unfold owed, executing_leases, add_handler. cbn [lp_handlers lp_aborted set_handlers set_leases].
  rewrite filter_app, map_app. cbn. rewrite <- app_assoc. cbn. symmetry. apply Permutation_middle.
Qed.

Lemma spawn_tasks_owed registry now tasks : forall l,
  exists more, owed (spawn_tasks registry now tasks l) ≡ₚ more ++ owed l.
Proof.
  induction tasks as [|task tasks IH]; intros l; cbn [spawn_tasks]; [by exists []|].
  destruct (spawn_task registry now task l) as [l1|error] eqn:E; [|by exists []].
  destruct (IH l1) as [more Hm]. apply spawn_task_inv in E as (lease & x & health & _ & _ & ->).
  exists (more ++ [lease]). rewrite Hm. fold (add_handler lease (<[t_id task:=x]> (lp_active l)) health l).
  by rewrite add_handler_owed, <- app_assoc.
Qed.

Lemma spawn_tasks_tracked registry now tasks : forall l,
  leases_tracked l -> distinct (spawn_tasks registry now tasks l) ->
  leases_tracked (spawn_tasks registry now tasks l).
Proof.
  induction tasks as [|task tasks IH]; intros l Hl Hd; [done|]. cbn [spawn_tasks] in *.
  destruct (spawn_task registry now task l) as [l1|error] eqn:E; [|done].
  apply IH; [|done].
  assert (distinct l1) as Hd1.
  { destruct (spawn_tasks_owed registry now tasks l1) as [more Hm]. unfold distinct in *. rewrite Hm in Hd.
    rewrite map_app in Hd. by apply NoDup_app in Hd as (_ & _ & ?). }
  apply spawn_task_inv in E as (lease & x & health & Hid & Hx & ->). rewrite <- Hid in *.
  fold (add_handler lease (<[lr_task_id lease:=x]> (lp_active l)) health l) in *.
  unfold distinct in Hd1. rewrite add_handler_owed in Hd1. apply NoDup_cons in Hd1 as [Hni _].
  unfold leases_tracked in *. cbn [lp_mode lp_active add_handler set_handlers set_leases] in *.
  destruct (lp_mode l); try done;
    (intros ls Hin; rewrite add_handler_owed in Hin; apply elem_of_cons in Hin; by eapply tracked_insert).
Qed.

Lemma owed_split before h after l :
  lp_handlers l = before ++ h :: after -> rn_status h = Executing ->
  owed l ≡ₚ rn_lease h :: owed (set_handlers (before ++ ended h :: after) l).
Proof.
  intros Eh Hs. unfold owed, executing_leases. cbn [lp_handlers lp_aborted set_handlers]. rewrite Eh, !filter_app.
  rewrite filter_cons_True by done. rewrite filter_cons_False by done. rewrite !map_app. cbn [map].
  rewrite <- !app_assoc. cbn. symmetry. apply Permutation_middle.
Qed.

Lemma owed_join before h after l :
  lp_handlers l = before ++ h :: after -> rn_status h = Ended -> owed (set_handlers (before ++ after) l) = owed l.
Proof.
  intros Eh Hs. unfold owed, executing_leases. cbn [lp_handlers lp_aborted set_handlers]. rewrite Eh, !filter_app.
  rewrite (filter_cons_False _ h); [done|]. unfold executing. by rewrite Hs.
Qed.

Lemma owed_running l : owed (set_handlers (filter executing (lp_handlers l)) l) = owed l.
Proof.
  unfold owed, executing_leases. cbn [lp_handlers lp_aborted set_handlers]. do 2 f_equal.
  induction (lp_handlers l) as [|h hs IH]; [done|]. rewrite filter_cons. destruct (decide (executing h)); [|done].
  rewrite filter_cons_True by done. by f_equal.
Qed.

Section Leases.
Context (worker_id : uuid) (registry : gmap (list Z * Z) RegisteredHandler) (config : WorkerConfig).

(** A step after which the handlers that execute are still of different tasks:
    no task is claimed again while its former handler executes. *)
Definition fresh_step (l l' : Loop) : Prop := loop_step worker_id registry config l l' /\ distinct l'.

(** What no part of the state but these can break. *)
Lemma tracked_frame l l' :
  owed l' = owed l -> lp_active l' = lp_active l -> (forall r, lp_mode l = Stopped r -> exists r', lp_mode l' = Stopped r') ->
  leases_tracked l -> leases_tracked l'.
Proof.
  unfold leases_tracked. intros -> -> Hm Hl. destruct (lp_mode l) eqn:E; [destruct (lp_mode l'); done..|].
  destruct (Hm _ eq_refl) as [r ->]. done.
Qed.

Lemma turn_tracked e now shutdown l :
  lp_mode l = Admitting -> leases_tracked l -> distinct (turn worker_id registry config e now shutdown l) ->
  leases_tracked (turn worker_id registry config e now shutdown l).
Proof.
  intros Hm Hl. unfold turn.
  set (l0 := set_health _ l). set (l1 := set_handlers _ l0).
  assert (leases_tracked l1 /\ lp_mode l1 = Admitting) as [H1 Hm1].
  { split; [|done]. eapply tracked_frame; [| | |exact Hl]; [by apply (owed_running l0)|done|]. intros r. congruence. }
  clearbody l1. clear l0 Hl Hm. destruct shutdown.
  { intros _. eapply tracked_frame; [| | |exact H1]; [done|done|]. intros r. congruence. }
  destruct (claim_tasks _ _ _ _ _ _ _ _ _) as [[d health] [[limit ts]|]].
  - set (l2 := set_health health (set_db d l1)).
    assert (leases_tracked l2) as H2 by (eapply tracked_frame; [| | |exact H1]; [done|done|intros r; cbn; congruence]).
    intros Hd. assert (distinct (spawn_tasks registry now ts l2)) as Hd2 by (by destruct (bool_decide _ && _)).
    apply (spawn_tasks_tracked registry now ts l2 H2) in Hd2. destruct (bool_decide _ && _); [|done].
    eapply tracked_frame; [| | |exact Hd2]; [done|done|]. intros r Hr. exists r. exact Hr.
  - intros _. eapply tracked_frame; [| | |exact H1]; [done|done|]. intros r. cbn. congruence.
Qed.

Lemma step_tracked l l' : distinct l -> leases_tracked l -> fresh_step l l' -> leases_tracked l'.
Proof.
  intros Hd Hl [Hs Hd'].
  destruct Hs as [e now shutdown Hm|Hm|before h after Eh Hh|Hm Hn|e Hm Hn|before h after d Eh Hh Hc
                 |before h after Hm Eh Hh|Hr|now leases renewed d health Hr Hc|clock leases health Hr|control Hc Hcf
                 |d Hc|health].
  - by apply turn_tracked.
  - eapply tracked_frame; [| | |exact Hl]; [done|done|]. intros r. congruence.
  - eapply tracked_frame; [| | |exact Hl]; [by eapply owed_join|done|]. eauto.
  - eapply tracked_frame; [| | |exact Hl]; [done|done|]. intros r. congruence.
  - unfold finish. by destruct (release_aborted_leases _ _ _).
  - pose proof (owed_split _ _ _ _ Eh Hh) as Hp. unfold distinct in Hd. rewrite Hp in Hd.
    apply NoDup_cons in Hd as [Hni _]. unfold leases_tracked in *.
    cbn [remove_lease lp_mode lp_active set_handlers set_leases set_db] in *.
    assert ((forall lease, lease ∈ owed l -> tracked lease (lp_active l)) ->
      forall lease, lease ∈ owed (set_handlers (before ++ ended h :: after) l) ->
        tracked lease (delete (lr_task_id (rn_lease h)) (lp_active l))) as Hgoal.
    { intros Ht lease Hin. apply tracked_other; [|apply Ht; rewrite Hp; by right].
      intros E. apply Hni. rewrite <- E. apply list_elem_of_fmap. eauto. }
    destruct (lp_mode l); auto.
  - pose proof (owed_split _ _ _ _ Eh Hh) as Hp. unfold leases_tracked in *. rewrite Hm in Hl. cbn. rewrite Hm.
    intros lease Hin. apply Hl. rewrite Hp. unfold owed in Hin |- *. cbn in Hin |- *.
    rewrite elem_of_cons, !elem_of_app, elem_of_cons in *. naive_solver.
  - eapply tracked_frame; [| | |exact Hl]; [done|done|]. eauto.
  - unfold leases_tracked in *. cbn [lp_mode lp_active set_renewing set_leases set_db] in *.
    destruct (lp_mode l); try done; intros lease Hin; apply renewed_tracked; by apply Hl.
  - unfold leases_tracked in *. cbn [lp_mode lp_active set_renewing set_leases] in *.
    destruct (lp_mode l); try done; intros lease Hin; apply uncertain_tracked; by apply Hl.
  - eapply tracked_frame; [| | |exact Hl]; [done|done|]. eauto.
  - eapply tracked_frame; [| | |exact Hl]; [done|done|]. eauto.
  - eapply tracked_frame; [| | |exact Hl]; [done|done|]. eauto.
Qed.

Lemma reachable_tracked l0 l : starts l0 -> rtc fresh_step l0 l -> leases_tracked l.
Proof.
  intros (_ & _ & Hh & _ & Ha & _) Hr.
  assert (owed l0 = []) as H0 by (unfold owed, executing_leases; by rewrite Hh, Ha).
  assert (distinct l0 /\ leases_tracked l0) as [Hd Hl].
  { unfold distinct, leases_tracked. rewrite H0. split; [constructor|].
    destruct (lp_mode l0); try done; by intros lease ?%not_elem_of_nil. }
  clear Hh Ha H0. induction Hr as [l|l1 l2 l3 Hs _ IH]; [done|].
  apply IH; [by destruct Hs|by eapply step_tracked].
Qed.
End Leases.

(** *** Releasing *)

Lemma held_leases_complete leases d lease t : forall seen,
  lease ∈ leases -> active lease d = Some t -> lr_task_id lease ∉ seen ->
  (lr_task_id lease, t) ∈ held_leases leases seen d.
Proof.
  induction leases as [|l leases IH]; intros seen Hin Ha Hs; [by apply not_elem_of_nil in Hin|].
  apply elem_of_cons in Hin as [->|Hin]; cbn [held_leases]; unfold active in Ha.
  - destruct (tasks d !! lr_task_id l) as [t'|]; [|done]. destruct (holds_lease _ _ t'); [|done].
    injection Ha as ->. rewrite bool_decide_eq_false_2 by done. left.
  - destruct (tasks d !! lr_task_id l) as [t'|] eqn:Et; [|by apply IH].
    destruct (holds_lease _ _ t' && _) eqn:Eh; [|by apply IH].
    destruct (decide (lr_task_id lease = lr_task_id l)) as [E|Hne].
    + rewrite E, Et in Ha. rewrite E. destruct (holds_lease (lr_attempt lease) _ t'); [|done]. injection Ha as ->. left.
    + right. apply IH; [done|done|set_solver].
Qed.

Lemma release_lookup e leases d lease t :
  lease ∈ leases -> active lease d = Some t ->
  exists d' ids, release_tasks e leases d = Ok (d', ids) /\
    tasks d' !! lr_task_id lease = Some (release_row (e_now e) t).
Proof.
  intros Hin Ha. destruct (held_leases_spec leases [] d) as [Hnd HF].
  pose proof (held_leases_complete leases d lease t [] Hin Ha (not_elem_of_nil _)) as Hheld.
  unfold release_tasks. rewrite update_rows_plain.
  - eexists _, _. split; [done|]. rewrite finish_attempts_tasks.
    eapply (foldl_put_lookup _ _ _ t); [by rewrite map_map|]. apply list_elem_of_fmap.
    by exists (lr_task_id lease, t).
  - rewrite Forall_map. eapply Forall_impl; [exact HF|]. intros [id t'] (_ & Hs & _). cbn in *. by rewrite Hs.
Qed.


(** ** A run, and a task claimed again *)

Definition demo_registry : gmap (list Z * Z) RegisteredHandler :=
  {[(str "mail", 1) := {| rh_function := fun _ _ d => (d, Panicked); rh_retry_policy := Never |}]}.
Definition demo_loop_config : WorkerConfig := WorkerConfig_with_queues [str "default"].
Definition demo_loop : Loop := {|
  lp_mode := Admitting; lp_db := demo1;
  lp_control := {| wc_configured := 10; wc_effective := 10; wc_proposed := 10 |};
  lp_health := Health_new 0; lp_active := ∅; lp_handlers := []; lp_renewing := None; lp_aborted := [] |}.
Abbreviation demo_turn := (turn 7 demo_registry demo_loop_config).

(** The first turn claims the task. *)
Definition demo_claimed1 : Loop := demo_turn (fun _ => demo_env 20 200) 20 false demo_loop.
Definition demo_lease2 : LeaseRenewal := {| lr_task_id := 100; lr_attempt := 2; lr_lease_token := 300 |}.

Lemma demo_starts : starts demo_loop.
Proof. unfold starts, wf_control, u16_max. cbn. split_and!; try done; lia. Qed.
Lemma demo_batch : wf_nonzero (cf_claim_batch_size demo_loop_config).
Proof. unfold wf_nonzero, u16_max. cbn. lia. Qed.

Lemma demo_claimed1_spec :
  lp_mode demo_claimed1 = Admitting /\ lp_db demo_claimed1 = demo2 /\ lp_aborted demo_claimed1 = [] /\
  lp_handlers demo_claimed1 = [{| rn_lease := demo_lease; rn_status := Executing |}].
Proof. split_and!; vm_compute; reflexivity. Qed.

Lemma demo_step1 : loop_step 7 demo_registry demo_loop_config demo_loop demo_claimed1.
Proof. by apply loop_turns. Qed.

Lemma handlers_within_concurrency_witness : len (lp_handlers demo_claimed1) <= 10.
Proof.
  apply (handlers_within_concurrency 7 demo_registry demo_loop_config demo_batch demo_loop demo_claimed1 demo_starts).
  apply rtc_once, demo_step1.
Defined.

(** Shut down at once, and the handler is aborted. *)
Definition abort_demo (l : Loop) : Loop :=
  set_handlers [] (add_aborted demo_lease (set_handlers [{| rn_lease := demo_lease; rn_status := Ended |}]
    (set_mode Aborting (set_mode Draining l)))).

Lemma abort_demo_run l :
  lp_mode l = Admitting -> lp_aborted l = [] ->
  lp_handlers l = [{| rn_lease := demo_lease; rn_status := Executing |}] ->
  distinct l /\ rtc (fresh_step 7 demo_registry demo_loop_config) l (abort_demo l).
Proof.
  intros Hm Ha Hh.
  assert (forall l', lp_aborted l' = [] -> lp_handlers l' = lp_handlers l -> distinct l') as Hd.
  { intros l' El Eh. unfold distinct, owed, executing_leases. rewrite El, Eh, Hh. cbn. repeat constructor; set_solver. }
  assert (forall l', lp_aborted l' = [demo_lease] -> filter executing (lp_handlers l') = [] -> distinct l') as Hd2.
  { intros l' El Eh. unfold distinct, owed, executing_leases. rewrite El, Eh. cbn. repeat constructor; set_solver. }
  split; [by apply Hd|]. eapply rtc_l; [split; [by apply loop_is_shut_down|by apply Hd]|].
  eapply rtc_l; [split; [apply loop_aborts; [done|cbn; by rewrite Hh]|by apply Hd]|].
  eapply rtc_l.
  { split; [by apply (handler_unwinds _ _ _ _ [] {| rn_lease := demo_lease; rn_status := Executing |} [])|].
    apply Hd2; [cbn; by rewrite Ha|done]. }
  apply rtc_once. split; [|apply Hd2; [cbn; by rewrite Ha|done]].
  by apply (loop_joins _ _ _ _ [] {| rn_lease := demo_lease; rn_status := Ended |} []).
Qed.

Definition demo_aborted : Loop := abort_demo demo_claimed1.
Lemma demo_abort_run : rtc (fresh_step 7 demo_registry demo_loop_config) demo_loop demo_aborted.
Proof.
  destruct demo_claimed1_spec as (Hm & _ & Ha & Hh). destruct (abort_demo_run demo_claimed1 Hm Ha Hh) as [Hd Hr].
  eapply rtc_l; [split; [exact demo_step1|exact Hd]|exact Hr].
Qed.


(** The lease expires, the task is recovered, and the same worker claims it again
    while the first handler still executes; then the first handler ends. *)
Definition demo_recovered : Loop :=
  set_db (run (CRecover (str "default") 10) (demo_env (from_secs 100) 0) demo2) demo_claimed1.
Definition demo_claimed2 : Loop := demo_turn (fun _ => demo_env (from_secs 200) 300) (from_secs 200) false demo_recovered.
Definition demo_untracked : Loop :=
  let (active, health) := remove_lease 100 (lp_active demo_claimed2) (lp_health demo_claimed2) in
  set_handlers [{| rn_lease := demo_lease; rn_status := Ended |}; {| rn_lease := demo_lease2; rn_status := Executing |}]
    (set_leases active health (set_db (lp_db demo_claimed2) demo_claimed2)).

Lemma demo_recovers : rtc db_step (lp_db demo_claimed1) (lp_db demo_recovered).
Proof.
  rewrite (proj1 (proj2 demo_claimed1_spec)). apply rtc_once.
  apply (step_call _ _ (CRecover (str "default") 10) (demo_env (from_secs 100) 0)). vm_compute. reflexivity.
Qed.

Lemma demo_claimed2_spec :
  lp_handlers demo_claimed2 =
    [{| rn_lease := demo_lease; rn_status := Executing |}; {| rn_lease := demo_lease2; rn_status := Executing |}].
Proof. vm_compute. reflexivity. Qed.

(** Claim C39.  A worker can stop renewing a lease it holds: when a task's lease
    expired and the same worker claims the task again while its first handler
    still executes, the new lease replaces the old one in the map, which is keyed
    by the task, and the first handler removes it when it ends.  The second
    handler then executes with the current lease of the task, and no renewal
    knows of it. *)
Theorem reclaimed_task_loses_its_renewal :
  exists l0 l h, starts l0 /\ rtc (loop_step 7 demo_registry demo_loop_config) l0 l /\
    h ∈ lp_handlers l /\ rn_status h = Executing /\ is_Some (active (rn_lease h) (lp_db l)) /\ lp_active l = ∅.
Proof.
  exists demo_loop, demo_untracked, {| rn_lease := demo_lease2; rn_status := Executing |}.
  split; [exact demo_starts|]. split.
  - eapply rtc_l; [exact demo_step1|].
    eapply rtc_l; [apply (database_changes _ _ _ _ _ demo_recovers)|].
    eapply rtc_l; [apply (loop_turns _ _ _ demo_recovered (fun _ => demo_env (from_secs 200) 300) (from_secs 200) false)|].
    { exact (proj1 demo_claimed1_spec). }
    apply rtc_once. apply (handler_ends _ _ _ _ [] {| rn_lease := demo_lease; rn_status := Executing |}
      [{| rn_lease := demo_lease2; rn_status := Executing |}] _ demo_claimed2_spec eq_refl (rtc_refl _ _)).
  - split_and!; [right; left|reflexivity|eexists; vm_compute; reflexivity|vm_compute; reflexivity].
Qed.
