(* ===== verification/Startup.v ===== *)
(** How a worker starts and stops: [Worker::run] in [pgtask-worker/src/runtime.rs]
    around its loops, and [Supervisor::start] of [health.rs].

    A start is a sequence of calls that can each fail; [Boot] has what they
    answer.  A worker that has started is in the fleet, its declared schedules are
    stored and it is ready; one that has not is neither.  It joins the fleet on its
    first queue only, so the others look as if nobody served them. *)

From S2P Require Import Prelude Text Identifier Json Retry TaskTypes Chrono Schedule Outcome Rows Tables Protocol Fleet.
From S2P Require Import Lifecycle Dispatch Store StoreSpec Registry Durable Control Health Runtime Workers Notifications.

(** ** The calls *)

(** What the calls of a start are answered.  [bt_bind] is whether the health
    address can be bound, if there is one; [bt_subscribe] what [ready_listener_for]
    is answered for its channels and its subscription; a schedule is put with the
    clock it reads and a statement. *)
Record Boot := {
  bt_protocol : result SqlxError (Z * Z);
  bt_runtime : bool;
  bt_thread : bool;
  bt_bind : option bool;
  bt_subscribe : result PostgresError unit;
  bt_schedules : nat -> time * Env;
  bt_register : Env;
}.

(** What [run_supervisor] sends back before it serves. *)
Definition supervisor_startup (bind : option bool) : bool := default true bind.

(** [Supervisor::start]: the runtime, the thread, and the answer of the thread. *)
Definition Supervisor_start (runtime thread : bool) (bind : option bool) : result WorkerError unit :=
  if runtime && thread && supervisor_startup bind then Ok tt else Err SupervisorError.

Section Startup.
Context {C : ChronoOps} {K : CronOps} (ready_channel : rstring -> rstring).

(** [for schedule in &self.config.declared_schedules { self.store.put_schedule(schedule).await?; }]. *)
Fixpoint put_schedules (clock : nat -> time * Env) (n : nat) (configs : list ScheduleConfig) : io unit :=
  match configs with
  | [] => lift (Ok tt)
  | config :: configs' =>
      let? _ := put_schedule (clock n).1 (clock n).2 config in
      put_schedules clock (S n) configs'
  end.

(** [Worker::run] up to its loops; the answer has the channels it listens to. *)
Definition Worker_start (worker_id : uuid) (version : rstring) (registry : gmap (list Z * Z) RegisteredHandler)
    (config : WorkerConfig) (boot : Boot) (health : HealthState) (d : Db)
    : Db * HealthState * result WorkerError (gmap (list Z) (option (list Z))) :=
  match worker_ensure_storage_protocol (bt_protocol boot) with
  | Err error => (d, health, Err error)
  | Ok _ =>
  match Supervisor_start (bt_runtime boot) (bt_thread boot) (bt_bind boot) with
  | Err error => (d, health, Err error)
  | Ok _ =>
  match (let? filters := ready_listener_for ready_channel (cf_queues config) in
         let? _ := bt_subscribe boot in Ok filters) with
  | Err error => (d, health, Err (Postgres error))
  | Ok filters =>
  let health := set_listener true health in
  match put_schedules (bt_schedules boot) 0 (cf_declared_schedules config) d with
  | (d, Err error) => (d, health, Err (Postgres error))
  | (d, Ok _) =>
  match Store.register_worker (bt_register boot) worker_id (default [] (head (cf_queues config))) version
          (registrations registry) (cf_worker_ttl config) d with
  | (d, Err error) => (d, health, Err (Postgres error))
  | (d, Ok _) => (d, set_admission true (set_database true health), Ok filters)
  end end end end end.

(** The end of [Worker::run]: [run_handlers] has returned, and the heartbeat
    answers the shutdown. *)
Definition Worker_stop (e : Env) (worker_id : uuid) (config : WorkerConfig) (health : HealthState) (d : Db)
    : Db * HealthState :=
  (heartbeat_stop e {| hb_worker_id := worker_id; hb_queue_name := default [] (head (cf_queues config));
                       hb_interval := cf_worker_heartbeat_interval config; hb_ttl := cf_worker_ttl config |} d,
   set_admission false health).

(** ** Schedules *)

(** [r] has what [s] declares. *)
Record declares (s : ScheduleConfig) (r : ScheduleRow) : Prop := {
  dc_name : sr_name r = sc_name s;
  dc_queue : sr_queue_name r = er_queue_name (sc_task s);
  dc_task : sr_task_name r = er_task_name (sc_task s);
  dc_version : sr_handler_version r = er_handler_version (sc_task s);
  dc_priority : sr_priority r = er_priority (sc_task s);
  dc_attempts : sr_max_attempts r = er_max_attempts (sc_task s);
  dc_policy : (sr_misfire_policy r, sr_catch_up_limit r) = misfire_columns (sc_misfire_policy s);
  dc_definition : definition_columns (sc_definition s) = Ok (sr_kind r, sr_interval_milliseconds r, sr_cron_expression r);
}.

Definition schedules_keyed (d : Db) : Prop := map_Forall (fun id r => sr_id r = id) (schedules d).
Definition has_schedule (s : ScheduleConfig) (d : Db) : Prop := exists id r, schedules d !! id = Some r /\ declares s r.

(** What a start leaves alone until it registers. *)
Definition same_fleet (d d' : Db) : Prop :=
  tasks d' = tasks d /\ workers d' = workers d /\ worker_capabilities d' = worker_capabilities d /\
  policies d' = policies d.

Lemma same_fleet_trans d1 d2 d3 : same_fleet d1 d2 -> same_fleet d2 d3 -> same_fleet d1 d3.
Proof. unfold same_fleet. intuition congruence. Qed.

Lemma ensure_queue_fleet now q d : same_fleet d (ensure_queue now q d) /\ schedules (ensure_queue now q d) = schedules d.
Proof. unfold ensure_queue, same_fleet. by case_match. Qed.

Lemma schedule_named_Some name d r :
  schedules_keyed d -> schedule_named name d = Some r -> schedules d !! sr_id r = Some r /\ sr_name r = name.
Proof.
  unfold schedule_named. intros Hk H. destruct (find _ _) as [[id r']|] eqn:E; [|done]. injection H as <-.
  apply find_some in E as [Hin%list_elem_of_In%elem_of_map_to_list Hn%bool_decide_eq_true]. cbn in *.
  by rewrite (Hk id r' Hin).
Qed.

(** They agree on what a declaration says. *)
Definition same_columns (a b : ScheduleRow) : Prop :=
  sr_kind a = sr_kind b /\ sr_interval_milliseconds a = sr_interval_milliseconds b /\
  sr_cron_expression a = sr_cron_expression b /\ sr_misfire_policy a = sr_misfire_policy b /\
  sr_catch_up_limit a = sr_catch_up_limit b /\ sr_queue_name a = sr_queue_name b /\
  sr_task_name a = sr_task_name b /\ sr_handler_version a = sr_handler_version b /\
  sr_priority a = sr_priority b /\ sr_max_attempts a = sr_max_attempts b.

Lemma same_schedule_columns a b : same_schedule a b = true -> same_columns a b.
Proof.
  unfold same_schedule. intros H. repeat (apply andb_true_iff in H as [H ?]).
  repeat match goal with
  | H : bool_decide _ = true |- _ => apply bool_decide_eq_true in H
  | H : (_ =? _) = true |- _ => apply Z.eqb_eq in H
  end. by repeat split.
Qed.

Lemma put_row_spec e r d d' out :
  schedules_keyed d -> Protocol.put_schedule e r d = Ok (d', out) ->
  same_fleet d d' /\ schedules_keyed d' /\
  (exists id r', schedules d' !! id = Some r' /\ sr_name r' = sr_name r /\ same_columns r' r) /\
  forall id x, schedules d !! id = Some x -> sr_name x <> sr_name r -> schedules d' !! id = Some x.
Proof.
  intros Hk H. unfold Protocol.put_schedule in H. ok_inv.
  set (d1 := ensure_queue _ _ d) in *.
  destruct (ensure_queue_fleet (e_now e) (sr_queue_name r) d) as [Hf Hs]. fold d1 in Hf, Hs.
  assert (schedules_keyed d1) as Hk1 by (unfold schedules_keyed; by rewrite Hs).
  destruct (schedule_named (sr_name r) d1) as [old|] eqn:En.
  - apply schedule_named_Some in En as [Hold Hn]; [|done]. destruct (same_schedule old r) eqn:Esame; simplify_eq.
    + split_and!; [done|done| |by rewrite Hs]. eexists _, _. split; [done|]. split; [done|]. by apply same_schedule_columns.
    + cbn. split_and!; [done| | |].
      * by apply map_Forall_insert_2.
      * eexists _, _. rewrite lookup_insert_eq. by repeat split.
      * intros id x Hx Hne. rewrite lookup_insert_ne, Hs; [done|]. intros <-. rewrite Hs in Hold. congruence.
  - destruct (schedules d1 !! sr_id r) eqn:Er; simplify_eq. cbn. split_and!; [done| | |].
    + by apply map_Forall_insert_2.
    + eexists _, _. rewrite lookup_insert_eq. by repeat split.
    + intros id x Hx Hne. rewrite lookup_insert_ne, Hs; [done|]. intros <-. rewrite Hs in Er. congruence.
Qed.

Lemma put_schedule_spec now e s d d' answer :
  schedules_keyed d -> put_schedule now e s d = (d', answer) ->
  same_fleet d d' /\ schedules_keyed d' /\ (is_ok answer = true -> has_schedule s d') /\
  forall s', sc_name s' <> sc_name s -> has_schedule s' d -> has_schedule s' d'.
Proof.
  intros Hk H. assert (same_fleet d d) as Hrefl by done. unfold put_schedule in H.
  rewrite bind_lift in H. destruct (validate_request _); [|by simplify_eq].
  rewrite bind_lift in H. destruct (map_err _ (next_after _ _)) as [next|]; [|by simplify_eq].
  rewrite bind_lift in H. destruct (definition_columns _) as [[[kind ms] cron]|] eqn:Ed; [|by simplify_eq].
  destruct (misfire_columns _) as [policy limit] eqn:Em.
  rewrite bind_lift in H. destruct (version_i32 _) as [version|] eqn:Ev; [|by simplify_eq].
  apply version_i32_inv in Ev as ->.
  rewrite bind_lift in H. destruct (transpose _) as [cron'|] eqn:Ec; [|by simplify_eq].
  assert (cron' = cron) as ->.
  { destruct cron as [x|]; [|by injection Ec as <-]. cbn in Ec. unfold bind_text in Ec.
    destruct (bool_decide _); [done|]. by injection Ec as <-. }
  rewrite bind_execute in H. destruct (Protocol.put_schedule _ _ _) as [[d1 row]|] eqn:E; [|by simplify_eq].
  apply put_row_spec in E as (Hf & Hk' & (id & r & Hr & Hn & Hc) & Hkeep); [|done].
  unfold lift in H. injection H as <- <-. split_and!; [done..| |].
  - intros _. exists id, r. split; [done|]. destruct Hc as (? & ? & ? & ? & ? & ? & ? & ? & ? & ?). cbn in *.
    split; congruence.
  - intros s' Hne (id' & r' & Hr' & Hd). exists id', r'. split; [|done]. apply Hkeep; [done|]. cbn.
    by rewrite (dc_name _ _ Hd).
Qed.

Lemma put_schedules_spec clock configs : forall n d d' answer,
  schedules_keyed d -> NoDup (map sc_name configs) -> put_schedules clock n configs d = (d', answer) ->
  same_fleet d d' /\ (is_ok answer = true -> Forall (fun s => has_schedule s d') configs) /\
  forall s', sc_name s' ∉ map sc_name configs -> has_schedule s' d -> has_schedule s' d'.
Proof.
  induction configs as [|s configs IH]; intros n d d' answer Hk Hnd H; cbn [put_schedules] in H.
  { unfold lift in H. simplify_eq. split_and!; [done|by constructor|done]. }
  apply NoDup_cons in Hnd as [Hni Hnd].
  unfold mbind, io_bind in H. destruct (put_schedule _ _ s d) as [d1 a] eqn:E.
  apply put_schedule_spec in E as (Hf & Hk1 & Hs & Hkeep); [|done]. destruct a as [a|error].
  - apply IH in H as (Hf2 & Hall & Hkeep2); [|done..]. split_and!; [by eapply same_fleet_trans| |].
    + intros Hok. constructor; [|by apply Hall]. apply Hkeep2; [done|]. by apply Hs.
    + intros s' [Hne Hni']%not_elem_of_cons Hs'. apply Hkeep2; [done|]. by apply Hkeep.
  - simplify_eq. split_and!; [done|done|]. intros s' [Hne _]%not_elem_of_cons. by apply Hkeep.
Qed.
(** ** Registration *)

Definition joined (e : Env) (worker_id : uuid) (queue : rstring) (ttl : Z) (d : Db) : Prop :=
  exists row, workers d !! worker_id = Some row /\ wk_queue_name row = queue /\ wk_draining row = false /\
    wk_expires_at row = e_now e + milliseconds (as_millis ttl).

Lemma register_spec e id queue version caps ttl d d' answer :
  Store.register_worker e id queue version caps ttl d = (d', answer) ->
  match answer with
  | Ok _ => tasks d' = tasks d /\ schedules d' = schedules d /\ joined e id queue ttl d' /\
            (forall w, w <> id -> workers d' !! w = workers d !! w) /\
            capabilities_of id d' ≡ₚ map fst caps
  | Err _ => d' = d
  end.
Proof.
  intros H. destruct (store_register_inv e id queue version caps ttl d) as [[error E]|(ms & rows & E & -> & HF)];
    rewrite E in H; [by simplify_eq|]. unfold execute in H.
  destruct (Fleet.register_worker _ _ _ _ _ _ _) as [[d1 u]|code] eqn:Er; simplify_eq; [|done].
  unfold Fleet.register_worker in Er. ok_inv. simplify_eq.
  destruct (ensure_queue_fleet (e_now e) queue d) as [(Ht & Hw & _) Hs].
  assert (map fst rows = map fst caps) as Hfst.
  { clear -HF. induction HF as [|c r caps rows (columns & _ & _ & ->) _ IH]; cbn; [done|]. by destruct c as [[]]; rewrite IH. }
  match goal with H : bool_decide (NoDup _) = true |- _ => apply bool_decide_eq_true in H; rename H into Hnd end.
  split_and!; cbn; [done|done| | |].
  - eexists. cbn. rewrite lookup_insert_eq. split; [reflexivity|]. done.
  - intros w Hne. by rewrite lookup_insert_ne, Hw by done.
  - rewrite <- Hfst. unfold capabilities_of. cbn. by apply capabilities_after.
Qed.

(** ** Starting *)

Lemma queue_filters_listen queues queue :
  queue ∈ queues -> is_Some (queue_filters ready_channel queues !! ready_channel queue).
Proof.
  unfold queue_filters. induction queues as [|q queues IH] using rev_ind; [by intros ?%elem_of_nil|].
  rewrite foldl_app. cbn. intros Hin. destruct (decide (ready_channel q = ready_channel queue)) as [->|Hne].
  - rewrite lookup_insert_eq. by eexists.
  - rewrite lookup_insert_ne by done. apply IH. apply elem_of_app in Hin as [?|Hin]; [done|].
    apply list_elem_of_singleton in Hin as ->. done.
Qed.

Lemma registrations_capabilities registry : map fst (registrations registry) = registry_capabilities registry.
Proof. unfold registrations, registry_capabilities. rewrite map_map. by apply map_ext. Qed.

(** Claim C33.  A worker is ready exactly if it has started, and a started worker
    is in the fleet: when the start of [Worker::run] succeeds, the protocol of the
    database is one it knows, the worker is registered on its first queue, not
    draining, for its time to live and with the capabilities of its handlers, all
    its declared schedules are stored as declared and it listens to the channel of
    each of its queues.  When it fails, for whatever reason, the fleet is as
    before and the worker is not ready.  Either way no task changes. *)
Theorem started_worker_is_ready worker_id version registry config boot now d d' health answer :
  schedules_keyed d -> NoDup (map sc_name (cf_declared_schedules config)) ->
  Worker_start worker_id version registry config boot (Health_new now) d = (d', health, answer) ->
  tasks d' = tasks d /\ ready health = is_ok answer /\
  match answer with
  | Err _ => same_fleet d d'
  | Ok filters =>
      worker_ensure_storage_protocol (bt_protocol boot) = Ok tt /\
      (exists queue, head (cf_queues config) = Some queue /\
         joined (bt_register boot) worker_id queue (cf_worker_ttl config) d') /\
      capabilities_of worker_id d' ≡ₚ registry_capabilities registry /\
      Forall (fun s => has_schedule s d') (cf_declared_schedules config) /\
      Forall (fun queue => is_Some (filters !! ready_channel queue)) (cf_queues config)
  end.
Proof.
  intros Hk Hnd H. unfold Worker_start in H.
  assert (same_fleet d d) as Hrefl by done.
  destruct (worker_ensure_storage_protocol _) as [[]|]; [|simplify_eq; by split_and!].
  destruct (Supervisor_start _ _ _) as [[]|]; [|simplify_eq; by split_and!].
  unfold ready_listener_for in H. case_bool_decide as Hq; cbn [mbind result_bind] in H; [simplify_eq; by split_and!|].
  destruct (bt_subscribe boot) as [[]|]; cbn [mbind result_bind] in H; [|simplify_eq; by split_and!].
  destruct (put_schedules _ _ _ _) as [d1 a] eqn:Ep.
  apply put_schedules_spec in Ep as (Hf & Hs & _); [|done..].
  destruct a as [[]|error]; [|simplify_eq; split_and!; [apply Hf|done|exact Hf]]. specialize (Hs eq_refl).
  destruct (Store.register_worker _ _ _ _ _ _ _) as [d2 a] eqn:Er. apply register_spec in Er.
  destruct a as [[]|error]; [|simplify_eq; split_and!; [apply Hf|done|exact Hf]].
  simplify_eq. destruct Er as (Ht & Hsch & Hj & _ & Hcaps). split_and!; [rewrite Ht; apply Hf|done|done| | | |].
  - destruct (cf_queues config) as [|queue queues]; [done|]. exists queue. by split.
  - by rewrite Hcaps, registrations_capabilities.
  - eapply Forall_impl; [exact Hs|]. intros s (id & r & Hr & Hd). exists id, r. by rewrite Hsch.
  - apply Forall_forall. intros queue Hin. by apply queue_filters_listen.
Qed.
End Startup.

(** ** Stopping *)

Lemma routable_spec now d t :
  routable now d t = true <-> exists id w, workers d !! id = Some w /\ wk_queue_name w = k_queue_name t /\
    wk_draining w = false /\ live now w = true /\
    (id, sp_task_name (k_spec t), sp_handler_version (k_spec t)) ∈ worker_capabilities d.
Proof.
  unfold routable. rewrite existsb_exists. split.
  - intros ([id w] & Hin%list_elem_of_In%elem_of_map_to_list & H). cbn [fst snd] in *.
    rewrite !andb_true_iff, negb_true_iff, !bool_decide_eq_true in H. destruct H as [[[? ?] ?] ?]. by exists id, w.
  - intros (id & w & Hw & Hq & Hd & Hl & Hc). exists (id, w). split; [by apply list_elem_of_In, elem_of_map_to_list|].
    cbn [fst snd]. rewrite !andb_true_iff, negb_true_iff, !bool_decide_eq_true. by split_and!.
Qed.

(** The rows of the fleet without one worker. *)
Definition without_worker (worker_id : uuid) (d : Db) : Db :=
  set_workers (delete worker_id (workers d)) (worker_capabilities d) d.

(** A worker that stops leaves the fleet at once: no task is routable because of
    it any more, it is not ready, and after a millisecond it is not counted as
    live; nothing else changes. *)
Theorem stopped_worker_leaves_fleet e worker_id config health d d' health' :
  Worker_stop e worker_id config health d = (d', health') ->
  ready health' = false /\ tasks d' = tasks d /\
  (forall now t, routable now d' t = routable now (without_worker worker_id d) t) /\
  forall now queue, e_now e + from_millis 1 <= now -> worker_id ∉ map fst (live_workers now queue d').
Proof.
  unfold Worker_stop. intros H. apply pair_equal_spec in H as [<- <-]. split; [done|].
  unfold heartbeat_stop. cbn [hb_worker_id].
  unfold Store.heartbeat_worker. rewrite bind_lift.
  assert (ttl_milliseconds InvalidLeaseDuration (from_millis 1) = Ok 1) as -> by reflexivity. unfold execute, Fleet.heartbeat_worker.
  destruct (workers d !! worker_id) as [w|] eqn:Ew; cbn [fst].
  - change (0 <? 1) with true. cbn [fst]. split; [done|]. split.
    + intros now t. apply eq_true_iff_eq. rewrite !routable_spec. cbn. split.
      * intros (id & x & Hx & Hq & Hd & Hl). exists id, x. split; [|done]. apply lookup_insert_Some in Hx as [[<- <-]|[Hne Hx]]; [done|].
        by rewrite lookup_delete_ne.
      * intros (id & x & [Hne Hx]%lookup_delete_Some & H). exists id, x. split; [|done]. by rewrite lookup_insert_ne.
    + intros now queue Hnow Hin. apply list_elem_of_fmap in Hin as ([id x] & -> & Hin).
      apply list_elem_of_filter in Hin as [[_ Hl] Hx%elem_of_map_to_list]. cbn in *.
      rewrite lookup_insert_eq in Hx. injection Hx as <-. unfold live in Hl. cbn in Hl. apply Z.ltb_lt in Hl.
      unfold milliseconds, from_millis in *. lia.
  - split; [done|]. split.
    + intros now t. unfold without_worker. rewrite delete_id by done. by destruct d.
    + intros now queue _ Hin. apply list_elem_of_fmap in Hin as ([id x] & -> & Hin).
      apply list_elem_of_filter in Hin as [_ Hx%elem_of_map_to_list]. cbn in *. congruence.
Qed.

(** ** Witnesses, and a worker with two queues *)

Definition demo_channel (queue : rstring) : rstring := str "pgtask_ready_" ++ queue.
Definition demo_handlers : gmap (list Z * Z) RegisteredHandler :=
  {[(str "mail", 1) := {| rh_function := fun _ _ d => (d, Panicked); rh_retry_policy := Never |}]}.
Definition demo_boot : Boot := {|
  bt_protocol := Ok (2, 2); bt_runtime := true; bt_thread := true; bt_bind := None; bt_subscribe := Ok tt;
  bt_schedules := fun n => (15, demo_env 15 (Z.of_nat n)); bt_register := demo_env 15 0 |}.
Definition declaring (schedules : list ScheduleConfig) (config : WorkerConfig) : WorkerConfig := {|
  cf_queues := cf_queues config; cf_concurrency := cf_concurrency config; cf_claim_batch_size :=
  cf_claim_batch_size config; cf_recovery_batch_size := cf_recovery_batch_size config; cf_lease_duration :=
  cf_lease_duration config; cf_poll_interval := cf_poll_interval config; cf_shutdown_grace :=
  cf_shutdown_grace config; cf_worker_heartbeat_interval := cf_worker_heartbeat_interval config; cf_worker_ttl
  := cf_worker_ttl config; cf_scheduler_enabled := cf_scheduler_enabled config; cf_schedule_batch_size :=
  cf_schedule_batch_size config; cf_wait_batch_size := cf_wait_batch_size config;
  cf_schedule_reconciliation_interval := cf_schedule_reconciliation_interval config; cf_retention_enabled :=
  cf_retention_enabled config; cf_retention_batch_size := cf_retention_batch_size config;
  cf_retention_interval := cf_retention_interval config; cf_expired_worker_retention :=
  cf_expired_worker_retention config; cf_declared_schedules := schedules; cf_supervisor_interval :=
  cf_supervisor_interval config; cf_overload_protection := cf_overload_protection config |}.
Definition demo_two_queues : WorkerConfig :=
  declaring [demo_config] (WorkerConfig_with_queues [str "reports"; str "default"]).
Definition demo_started : Db * HealthState * result WorkerError (gmap (list Z) (option (list Z))) :=
  Worker_start demo_channel 7 (str "1.0.0") demo_handlers demo_two_queues demo_boot (Health_new 0) demo1.

Lemma demo_started_ok : is_ok demo_started.2 = true.
Proof. vm_compute. reflexivity. Qed.

Lemma started_worker_is_ready_witness :
  ready demo_started.1.2 = true /\ joined (demo_env 15 0) 7 (str "reports") (from_secs 30) demo_started.1.1 /\
  has_schedule demo_config demo_started.1.1.
Proof.
  pose proof demo_started_ok as Hok. destruct demo_started as [[d' health] answer] eqn:E.
  unfold demo_started in E. apply started_worker_is_ready in E as (_ & Hr & H); [| |apply NoDup_singleton].
  - cbn [fst snd] in *. rewrite Hr. split; [exact Hok|]. destruct answer as [filters|]; [|done].
    destruct H as (_ & (queue & [= <-] & Hj) & _ & Hs & _). split; [exact Hj|]. by apply Forall_inv in Hs.
  - unfold schedules_keyed. apply map_Forall_empty.
Defined.

(** A worker of several queues is in the fleet on the first one only:
    there is a database in which such a worker has just started, a sample of its
    second queue counts no live worker, nothing routable and one task no worker
    can run, and the next round of [claim_tasks] of that worker claims this very
    task. *)
Theorem second_queue_looks_unserved :
  exists d d' filters task,
    Worker_start demo_channel 7 (str "1.0.0") demo_handlers demo_two_queues demo_boot (Health_new 0) d
      = (d', set_admission true (set_database true (set_listener true (Health_new 0))), Ok filters) /\
    (demand_tick (demo_env 20 0) true true (str "default") (from_secs 10) d').2 = Some (0, 0, 1) /\
    (claim_tasks (fun _ => demo_env 20 200) 7 (registry_capabilities demo_handlers) (from_secs 30)
       {| wc_configured := 10; wc_effective := 10; wc_proposed := 10 |} demo_two_queues 0 (Health_new 0) d').2
      = Some (10, [task]) /\ t_queue_name task = str "default".
Proof.
  exists demo1. eexists _, _, _. split; [vm_compute; reflexivity|].
  split; [vm_compute; reflexivity|]. split; [vm_compute; reflexivity|]. reflexivity.
Qed.
