(* ===== verification/Cli.v ===== *)
(** The command line: [pgtask-cli/src/main.rs].

    [clap] parses the arguments into a [Command], so the model starts there, with
    the widths of its fields.  What a command prints and the error it ends with
    are its answer.  [Store::health], [migrate] and [configure_grants] do not
    touch the tables of the model: what they answer is an argument.

    A command that fails has changed nothing, and [queue put] is what [get_queue]
    reads. *)

From S2P Require Import Prelude Text Identifier Json TaskTypes Rows Tables Protocol Lifecycle Store StoreSpec.

(** ** Commands *)

Inductive QueueCommand : Type :=
| Put (name : rstring) (terminal_retention_seconds idempotency_retention_seconds : Z)
      (max_outstanding_tasks : option Z) (starvation_timeout_seconds : Z)
| Pause (name : rstring)
| Resume (name : rstring).

Inductive Command : Type :=
| Health
| Migrate
| Queue_ (command : QueueCommand)
| Cancel (task_id : uuid)
| Retention (queue : rstring) (limit : Z)
| ConfigureGrants (owner producer worker observer administrator : rstring).

(** [Box<dyn Error>]. *)
Inductive CliError : Type :=
| NameFailure (error : NameError)
| StoreFailure (error : PostgresError)
| Failure (message : rstring).

Definition QueueConfig_of (name : rstring) (terminal idempotency : Z) (maximum : option Z) (starvation : Z)
    : QueueConfig := {|
  qc_name := name;
  qc_terminal_retention := from_secs terminal;
  qc_idempotency_retention := from_secs idempotency;
  qc_max_outstanding_tasks := maximum;
  qc_starvation_timeout := from_secs starvation |}.

Section Commands.
(** What the calls outside the tables answer. *)
Context (health migrate : result PostgresError unit) (grants : list rstring -> result PostgresError unit).

Abbreviation answer := (Db * result CliError (list Z))%type (only parsing).

(** [store.set_queue_paused(&queue, paused)] and what is said about it. *)
Definition pause_queue (e : Env) (name : rstring) (paused : bool) (done : rstring) (d : Db) : answer :=
  match QueueName_new name with
  | Err error => (d, Err (NameFailure error))
  | Ok queue =>
      match Store.set_queue_paused e queue paused d with
      | (d, Err error) => (d, Err (StoreFailure error))
      | (d, Ok None) => (d, Err (Failure (str "queue " ++ queue ++ str " does not exist")))
      | (d, Ok (Some _)) => (d, Ok (str "queue " ++ queue ++ done))
      end
  end.

Definition run_queue_command (e : Env) (command : QueueCommand) (d : Db) : answer :=
  match command with
  | Put name terminal idempotency maximum starvation =>
      match QueueName_new name with
      | Err error => (d, Err (NameFailure error))
      | Ok name =>
          match Store.put_queue e (QueueConfig_of name terminal idempotency maximum starvation) d with
          | (d, Err error) => (d, Err (StoreFailure error))
          | (d, Ok queue) => (d, Ok (str "queue " ++ q_name queue ++ str " configured"))
          end
      end
  | Pause name => pause_queue e name true (str " paused") d
  | Resume name => pause_queue e name false (str " resumed") d
  end.

(** [main], with a statement for each of the two calls of [Retention]. *)
Definition run_command (e e2 : Env) (command : Command) (d : Db) : answer :=
  match command with
  | Health => (d, map_err StoreFailure health ≫= fun _ => Ok (str "healthy"))
  | Migrate => (d, map_err StoreFailure migrate ≫= fun _ => Ok (str "migrations applied"))
  | Queue_ command => run_queue_command e command d
  | Cancel task_id =>
      match Store.cancel e task_id d with
      | (d, Err error) => (d, Err (StoreFailure error))
      | (d, Ok true) => (d, Ok (str "task " ++ uuid_text task_id ++ str " cancelled"))
      | (d, Ok false) => (d, Ok (str "task " ++ uuid_text task_id ++ str " is not cancellable"))
      end
  | Retention queue limit =>
      match QueueName_new queue with
      | Err error => (d, Err (NameFailure error))
      | Ok queue =>
          match Store.delete_expired_terminal e queue limit d with
          | (d, Err error) => (d, Err (StoreFailure error))
          | (d, Ok tasks) =>
              match Store.delete_expired_idempotency_keys e2 queue limit d with
              | (d, Err error) => (d, Err (StoreFailure error))
              | (d, Ok idempotency_keys) =>
                  (d, Ok (str "deleted " ++ decimal tasks ++ str " terminal tasks and "
                          ++ decimal idempotency_keys ++ str " idempotency keys"))
              end
          end
      end
  | ConfigureGrants owner producer worker observer administrator =>
      (d, map_err StoreFailure (grants [owner; producer; worker; observer; administrator])
          ≫= fun _ => Ok (str "runtime grants configured"))
  end.
End Commands.

(** ** Widths and columns *)

Definition u64 (n : Z) : Prop := 0 <= n <= u64_max.
Definition wf_command (command : Command) : Prop :=
  match command with
  | Queue_ (Put _ terminal idempotency maximum starvation) =>
      u64 terminal /\ u64 idempotency /\ u64 starvation /\ from_option (fun m => 1 <= m <= u64_max) True maximum
  | Retention _ limit => 0 <= limit <= u16_max
  | _ => True
  end.

(** A row of [queues]: its columns are [bigint], with the CHECKs. *)
Record wf_queue (name : rstring) (u : QueueRec) : Prop := {
  wq_name : sql_name_check MAX_QUEUE_NAME_BYTES name = true;
  wq_checks : queue_checks u = true;
  wq_terminal : u_terminal_retention u <= i64_max;
  wq_idempotency : u_idempotency_retention u <= i64_max;
  wq_max : from_option (fun m => m <= i64_max) True (u_max u);
  wq_starvation : u_starvation u <= i64_max;
}.
Definition queues_wf (d : Db) : Prop := map_Forall wf_queue (queues d).

(** Such a row reads back. *)
Definition read_queue (name : rstring) (u : QueueRec) : Queue := {|
  q_name := name; q_terminal_retention := from_secs (u_terminal_retention u);
  q_idempotency_retention := from_secs (u_idempotency_retention u); q_max_outstanding_tasks := u_max u;
  q_starvation_timeout := from_secs (u_starvation u); q_paused_at := u_paused_at u;
  q_created_at := u_created_at u; q_updated_at := u_updated_at u |}.

Lemma number_u64 n : 0 <= n <= i64_max -> number try_u64 n = Ok n.
Proof.
  intros H. unfold number, try_u64. rewrite try_from_Some; [done|]. unfold i64_max, u64_max in *. lia.
Qed.

Lemma queue_converts name u : wf_queue name u -> Queue_try_from (queue_row name u) = Ok (read_queue name u).
Proof.
  intros [Hn Hc Ht Hi Hm Hs]. unfold queue_checks in Hc. rewrite !andb_true_iff, !Z.leb_le in Hc.
  destruct Hc as [[[[? ?] Hmax] ?] _]. unfold Queue_try_from. cbn [qr_name queue_row].
  unfold parse_name, QueueName_new. rewrite (proj1 (sql_name_accepted _ _ _) Hn). cbn [mbind result_bind map_err].
  cbn [qr_terminal_retention_seconds qr_idempotency_retention_seconds qr_max_outstanding_tasks
       qr_starvation_timeout_seconds queue_row]. rewrite !number_u64 by done. cbn [mbind result_bind].
  destruct (u_max u) as [m|] eqn:Em; cbn [option_map transpose mbind result_bind].
  - cbn in Hm. apply Z.ltb_lt in Hmax. rewrite number_u64 by lia. cbn [mbind result_bind]. unfold nonzero.
    destruct (Z.eqb_spec m 0); [lia|]. unfold read_queue. by rewrite Em.
  - unfold read_queue. by rewrite Em.
Qed.

Lemma secs_roundtrip n : as_secs (from_secs n) = n.
Proof. unfold as_secs, from_secs, NANOS_PER_SEC. by rewrite Z.div_mul. Qed.

Lemma i64_of_u64 {E} (error : E) n : u64 n ->
  ok_or error (try_i64 n) = if bool_decide (n <= i64_max) then Ok n else Err error.
Proof.
  intros [H _]. unfold try_i64, try_from, in_range.
  rewrite (proj2 (Z.leb_le i64_min n)) by (unfold i64_min; lia). cbn [andb].
  case_bool_decide; destruct (Z.leb_spec n i64_max); done || lia.
Qed.

Lemma outstanding_in_nonneg q d : 0 <= outstanding_in q d.
Proof. unfold outstanding_in. apply len_nonneg. Qed.

(** The numbers of a queue fit their columns. *)
Definition fits (terminal idempotency : Z) (maximum : option Z) (starvation : Z) : bool :=
  bool_decide (terminal <= i64_max) && bool_decide (idempotency <= i64_max)
  && from_option (fun m => bool_decide (m <= i64_max)) true maximum && bool_decide (starvation <= i64_max).

Lemma put_queue_spec e name terminal idempotency maximum starvation d :
  queues_wf d -> sql_name_check MAX_QUEUE_NAME_BYTES name = true ->
  u64 terminal -> u64 idempotency -> u64 starvation -> from_option (fun m => 1 <= m <= u64_max) True maximum ->
  if fits terminal idempotency maximum starvation
  then exists u, Store.put_queue e (QueueConfig_of name terminal idempotency maximum starvation) d
         = (set_queues (<[name := u]> (queues d)) d, Ok (read_queue name u)) /\ wf_queue name u /\
       u_terminal_retention u = terminal /\ u_idempotency_retention u = idempotency /\ u_max u = maximum /\
       u_starvation u = starvation /\ u_paused_at u = queues d !! name ≫= u_paused_at
  else exists error, Store.put_queue e (QueueConfig_of name terminal idempotency maximum starvation) d = (d, Err error).
Proof.
  intros Hd Hn Ht Hi Hs Hm. unfold Store.put_queue, fits. cbn [QueueConfig_of qc_name qc_terminal_retention
    qc_idempotency_retention qc_max_outstanding_tasks qc_starvation_timeout]. rewrite !secs_roundtrip.
  rewrite bind_lift, i64_of_u64 by done. case_bool_decide as Ht'; [|by eexists].
  rewrite bind_lift, i64_of_u64 by done. case_bool_decide as Hi'; [|by eexists].
  assert (transpose (option_map (fun maximum => ok_or
      (InvalidTask (Message (str "queue capacity exceeds the Postgres bigint range"))) (try_i64 maximum)) maximum)
    = if from_option (fun m => bool_decide (m <= i64_max)) true maximum then Ok maximum
      else Err (InvalidTask (Message (str "queue capacity exceeds the Postgres bigint range")))) as Emax.
  { destruct maximum as [m|]; [|done]. cbn [from_option option_map] in *. rewrite i64_of_u64 by (unfold u64; lia).
    by case_bool_decide. }
  rewrite bind_lift, Emax. destruct (from_option _ _ maximum) eqn:Em; [|by eexists]. clear Emax.
  rewrite bind_lift, i64_of_u64 by done. case_bool_decide as Hs'; [|by eexists]. cbn [andb].
  rewrite bind_execute. unfold Protocol.put_queue.
  set (u := Build_QueueRec _ _ _ _ _ _ _ _).
  assert (wf_queue name u) as Hu.
  { split; [done| |done|done| |done].
    - unfold queue_checks, u. cbn [u_terminal_retention u_idempotency_retention u_max u_starvation u_capacity].
      rewrite !andb_true_iff, !Z.leb_le. unfold u64 in *. split_and!; [lia|lia| |lia|].
      + destruct maximum; [|done]. cbn in Hm. apply Z.ltb_lt. lia.
      + destruct maximum; [|done]. destruct (queues d !! name) as [u0|] eqn:E; [|apply outstanding_in_nonneg].
        destruct (u_max u0); [|apply outstanding_in_nonneg]. pose proof (wq_checks _ _ (Hd _ _ E)) as Hc.
        unfold queue_checks in Hc. rewrite !andb_true_iff, !Z.leb_le in Hc. apply Hc.
    - cbn. destruct maximum; [|done]. cbn in *. by apply bool_decide_eq_true in Em. }
  rewrite Hn, (wq_checks _ _ Hu). cbn [andb]. unfold lift. rewrite queue_converts by done. by exists u.
Qed.

(** ** The commands *)

Section Theorems.
Context (health migrate : result PostgresError unit) (grants : list rstring -> result PostgresError unit).

Lemma pause_fails e name paused text d d' error :
  queues_wf d -> pause_queue e name paused text d = (d', Err error) -> d' = d.
Proof.
  intros Hd H. unfold pause_queue in H. destruct (QueueName_new name) as [q|]; [|by simplify_eq].
  unfold Store.set_queue_paused in H. rewrite bind_execute in H. unfold Protocol.set_queue_paused in H.
  destruct (queues d !! q) as [u|] eqn:E; [|by injection H as <- _]. specialize (Hd _ _ E).
  unfold lift, convert_optional in H. cbn [fmap option_fmap option_map] in H.
  rewrite queue_converts in H by (destruct Hd; split; done). done.
Qed.

Lemma count_fails error s limit d d' x :
  (forall d, exists d' n, s limit d = Ok (d', n) /\ 0 <= n <= i64_max) ->
  count_with_limit error s limit d = (d', Err x) -> d' = d /\ limit = 0.
Proof.
  intros Hs H. unfold count_with_limit in H. destruct (Z.eqb_spec limit 0) as [->|Hne]; cbn [negb] in H.
  - by injection H as <- _.
  - rewrite bind_execute in H. destruct (Hs d) as (d1 & n & E & Hn). rewrite E in H. unfold lift in H.
    by rewrite number_u64 in H.
Qed.
Lemma take_len {A} limit (l : list A) : 0 <= limit <= u16_max -> 0 <= len (take (Z.to_nat limit) l) <= i64_max.
Proof.
  intros H. unfold len. rewrite length_take. unfold u16_max, i64_max in *. lia.
Qed.

Lemma retention_counts e q limit d :
  0 <= limit <= u16_max ->
  (exists d' n, Protocol.delete_expired_terminal e q limit d = Ok (d', n) /\ 0 <= n <= i64_max) /\
  (exists d' n, Protocol.delete_expired_idempotency_keys e q limit d = Ok (d', n) /\ 0 <= n <= i64_max).
Proof.
  intros H. unfold Protocol.delete_expired_terminal, Protocol.delete_expired_idempotency_keys, select_tasks.
  split; eexists _, _; (split; [reflexivity|]); by apply take_len.
Qed.

(** A command that fails has changed nothing: not the queue it was to pause, and
    not one half of what [retention] deletes. *)
Theorem failed_command_changes_nothing e e2 command d d' error :
  wf_command command -> queues_wf d ->
  run_command health migrate grants e e2 command d = (d', Err error) -> d' = d.
Proof.
  intros Hc Hd H. destruct command as [| |command|task_id|queue limit|]; cbn [run_command] in H;
    try by injection H as <- _.
  - destruct command as [name terminal idempotency maximum starvation|name|name]; cbn [run_queue_command] in H;
      [|by eapply pause_fails..].
    destruct (QueueName_new name) as [name'|] eqn:En; [|by simplify_eq].
    apply name_new_ok in En as Hn. destruct Hn as [-> Hn]. destruct Hc as (Ht & Hi & Hs & Hm).
    pose proof (put_queue_spec e name terminal idempotency maximum starvation d Hd
      (proj2 (sql_name_accepted _ _ _) En) Ht Hi Hs Hm) as Hp.
    destruct (fits _ _ _ _); [destruct Hp as (u & Hp & _)|destruct Hp as (x & Hp)]; rewrite Hp in H; by simplify_eq.
  - unfold Store.cancel in H. rewrite bind_execute in H.
    destruct (Protocol.cancel_task e task_id d) as [[d1 r]|]; [|by simplify_eq]. cbn in H.
    by case_bool_decide; simplify_eq.
  - destruct (QueueName_new queue) as [q|]; [|by simplify_eq]. cbn in Hc.
    destruct (Store.delete_expired_terminal e q limit d) as [d1 [n|x]] eqn:E1.
    + destruct (Store.delete_expired_idempotency_keys e2 q limit d1) as [d2 [m|x]] eqn:E2; [done|].
      apply count_fails in E2 as [_ ->]; [|intros d0; by apply retention_counts].
      done.
    + apply count_fails in E1 as [-> _]; [by simplify_eq|]. intros d0. by apply retention_counts.
Qed.

(** [pgtask queue put] succeeds exactly if the name is a queue name and
    the numbers fit the columns of the database, and then [get_queue] reads the
    queue as it was put: the seconds as durations, the limit, and paused or not as
    before.  When it fails nothing has changed. *)
Theorem queue_put_reads_back e e2 name terminal idempotency maximum starvation d d' answer :
  queues_wf d -> wf_command (Queue_ (Put name terminal idempotency maximum starvation)) ->
  run_command health migrate grants e e2 (Queue_ (Put name terminal idempotency maximum starvation)) d = (d', answer) ->
  is_ok answer = is_ok (QueueName_new name) && fits terminal idempotency maximum starvation /\
  match answer with
  | Ok text => text = str "queue " ++ name ++ str " configured" /\ queues_wf d' /\
      exists q, Store.get_queue name d' = (d', Ok (Some q)) /\ q_name q = name /\
        q_terminal_retention q = from_secs terminal /\ q_idempotency_retention q = from_secs idempotency /\
        q_max_outstanding_tasks q = maximum /\ q_starvation_timeout q = from_secs starvation /\
        q_paused_at q = queues d !! name ≫= u_paused_at
  | Err _ => d' = d
  end.
Proof.
  intros Hd (Ht & Hi & Hs & Hm) H. cbn [run_command run_queue_command] in H.
  destruct (QueueName_new name) as [name'|] eqn:En; [|by simplify_eq].
  apply name_new_ok in En as Hn. destruct Hn as [-> Hn].
  pose proof (put_queue_spec e name terminal idempotency maximum starvation d Hd
    (proj2 (sql_name_accepted _ _ _) En) Ht Hi Hs Hm) as Hp.
  destruct (fits _ _ _ _); [|destruct Hp as (x & Hp); rewrite Hp in H; by simplify_eq].
  destruct Hp as (u & Hp & Hu & <- & <- & <- & <- & Hpaused). rewrite Hp in H. simplify_eq.
  split; [done|]. split; [done|]. split; [by apply map_Forall_insert_2|].
  exists (read_queue name u). split_and!; try done.
  unfold Store.get_queue. rewrite bind_fetch. cbn [queues set_queues]. rewrite lookup_insert_eq.
  unfold lift, convert_optional. cbn [fmap option_fmap option_map]. by rewrite queue_converts.
Qed.
End Theorems.

Definition demo_put : Command := Queue_ (Put (str "mail") 604800 2592000 (Some 100) 300).

Lemma queue_put_reads_back_witness :
  exists d', run_command (Ok tt) (Ok tt) (fun _ => Ok tt) (demo_env 10 0) (demo_env 11 0) demo_put empty_db
      = (d', Ok (str "queue mail configured")) /\
    exists q, Store.get_queue (str "mail") d' = (d', Ok (Some q)) /\ q_max_outstanding_tasks q = Some 100.
Proof.
  assert (queues_wf empty_db) as Hd by apply map_Forall_empty.
  assert (wf_command demo_put) as Hc by (vm_compute; repeat split; discriminate).
  destruct (run_command (Ok tt) (Ok tt) (fun _ => Ok tt) (demo_env 10 0) (demo_env 11 0) demo_put empty_db)
    as [d' answer] eqn:E.
  destruct (queue_put_reads_back (Ok tt) (Ok tt) (fun _ => Ok tt) _ _ _ _ _ _ _ _ _ _ Hd Hc E) as [Hok H].
  destruct answer as [text|]; [|by vm_compute in Hok]. destruct H as (-> & _ & q & Hq & _ & _ & _ & Hmax & _).
  exists d'. split; [reflexivity|]. by exists q.
Defined.
