(* ===== verification/Metrics.v ===== *)
(** The metrics: [pgtask-otel/src/metrics.rs].

    An instrument of OpenTelemetry is written to and never read, so a recording is
    what is passed on: an instrument, a number and attributes.  A [Duration] is
    recorded in seconds as an [f64]; the model keeps the duration.

    For one queue and one task there is a fixed set of series, and an execution is
    counted once. *)

From S2P Require Import Prelude Text Identifier Json TaskTypes Outcome Rows Registry Runtime.

(** ** Instruments *)

(** The fields of [KernelMetrics]. *)
Inductive Instrument : Type :=
| tasks | lease_renewals | lease_recovery_failures | queue_latency | execution_duration
| schedule_occurrences | schedule_skipped_occurrences | schedule_lag | schedule_materialization_duration
| queue_ready_tasks | workers_live | worker_heartbeats | queue_unroutable_tasks
| worker_configured_concurrency | worker_effective_concurrency | worker_active_handlers
| worker_available_slots | worker_event_loop_lag | worker_lease_renewal_age | worker_admission_limit.
Global Instance instrument_eq_dec : EqDecision Instrument.
Proof. solve_decision. Defined.

Inductive InstrumentKind : Type := Counter | Gauge | Histogram.

(** What [metrics] builds. *)
Definition instrument (i : Instrument) : rstring * InstrumentKind :=
  match i with
  | tasks => (str "pgtask.tasks", Counter)
  | lease_renewals => (str "pgtask.lease.renewals", Counter)
  | lease_recovery_failures => (str "pgtask.lease.recovery.failures", Counter)
  | queue_latency => (str "pgtask.queue.latency", Histogram)
  | execution_duration => (str "pgtask.execution.duration", Histogram)
  | schedule_occurrences => (str "pgtask.schedule.occurrences", Counter)
  | schedule_skipped_occurrences => (str "pgtask.schedule.skipped_occurrences", Counter)
  | schedule_lag => (str "pgtask.schedule.lag", Histogram)
  | schedule_materialization_duration => (str "pgtask.schedule.materialization.duration", Histogram)
  | workers_live => (str "pgtask.workers.live", Gauge)
  | worker_heartbeats => (str "pgtask.worker.heartbeats", Counter)
  | queue_ready_tasks => (str "pgtask.queue.ready.tasks", Gauge)
  | queue_unroutable_tasks => (str "pgtask.queue.unroutable.tasks", Gauge)
  | worker_configured_concurrency => (str "pgtask.worker.concurrency.configured", Gauge)
  | worker_effective_concurrency => (str "pgtask.worker.concurrency.effective", Gauge)
  | worker_active_handlers => (str "pgtask.worker.handlers.active", Gauge)
  | worker_available_slots => (str "pgtask.worker.slots.available", Gauge)
  | worker_event_loop_lag => (str "pgtask.worker.event_loop.lag", Gauge)
  | worker_lease_renewal_age => (str "pgtask.worker.lease.renewal.age", Gauge)
  | worker_admission_limit => (str "pgtask.worker.admission.limit", Gauge)
  end.

Inductive Attribute : Type := Text (text : rstring) | Bool (value : bool).
Global Instance attribute_eq_dec : EqDecision Attribute.
Proof. solve_decision. Defined.

Inductive Measurement : Type := Number (n : Z) | Seconds (duration : Z).

Record Emission := {
  em_instrument : Instrument;
  em_value : Measurement;
  em_attributes : list (rstring * Attribute);
}.
Definition emit (i : Instrument) (value : Measurement) (attributes : list (rstring * Attribute)) : Emission :=
  {| em_instrument := i; em_value := value; em_attributes := attributes |}.

(** ** Recording *)

Definition queue_attribute (queue_name : rstring) : rstring * Attribute := (str "pgtask.queue.name", Text queue_name).
Definition task_attribute (task_name : rstring) : rstring * Attribute := (str "pgtask.task.name", Text task_name).

Definition record_task_transition (state queue_name : rstring) (task_name : option rstring) (count : Z)
    : list Emission :=
  let attributes := [(str "pgtask.task.state", Text state); queue_attribute queue_name] in
  let attributes := match task_name with
                    | Some task_name => attributes ++ [task_attribute task_name]
                    | None => attributes
                    end in
  [emit tasks (Number count) attributes].

Definition record_enqueued (queue_name task_name : rstring) (count : Z) : list Emission :=
  record_task_transition (str "enqueued") queue_name (Some task_name) count.
Definition record_claimed (queue_name task_name : rstring) : list Emission :=
  record_task_transition (str "claimed") queue_name (Some task_name) 1.
Definition record_cancelled (queue_name task_name : rstring) : list Emission :=
  record_task_transition (str "cancelled") queue_name (Some task_name) 1.
Definition record_succeeded (queue_name task_name : rstring) : list Emission :=
  record_task_transition (str "succeeded") queue_name (Some task_name) 1.
Definition record_failed (queue_name task_name : rstring) : list Emission :=
  record_task_transition (str "failed") queue_name (Some task_name) 1.
Definition record_retried (queue_name task_name : rstring) : list Emission :=
  record_task_transition (str "retried") queue_name (Some task_name) 1.
Definition record_recovered (queue_name : rstring) (count : Z) : list Emission :=
  record_task_transition (str "recovered") queue_name None count.
Definition record_recovery_failure (queue_name : rstring) : list Emission :=
  [emit lease_recovery_failures (Number 1) [queue_attribute queue_name]].
Definition record_lease_lost (queue_name task_name : rstring) : list Emission :=
  record_task_transition (str "lease_lost") queue_name (Some task_name) 1.

Definition record_renewed (queue_name task_name : rstring) (renewed : bool) : list Emission :=
  [emit lease_renewals (Number 1)
     [queue_attribute queue_name; task_attribute task_name; (str "pgtask.lease.renewed", Bool renewed)]].
Definition record_queue_latency (queue_name task_name : rstring) (duration : Z) : list Emission :=
  [emit queue_latency (Seconds duration) [queue_attribute queue_name; task_attribute task_name]].
Definition record_queue_demand (queue_name : rstring) (ready_tasks unroutable_tasks : Z) : list Emission :=
  let attributes := [queue_attribute queue_name] in
  [emit queue_ready_tasks (Number ready_tasks) attributes;
   emit queue_unroutable_tasks (Number unroutable_tasks) attributes].
Definition record_heartbeat (queue_name outcome : rstring) : list Emission :=
  [emit worker_heartbeats (Number 1) [queue_attribute queue_name; (str "pgtask.heartbeat.outcome", Text outcome)]].
Definition record_live_workers (queue_name : rstring) (live : Z) : list Emission :=
  [emit workers_live (Number live) [queue_attribute queue_name]].
Definition record_execution (queue_name task_name outcome : rstring) (duration : Z) : list Emission :=
  [emit execution_duration (Seconds duration)
     [queue_attribute queue_name; task_attribute task_name; (str "pgtask.execution.outcome", Text outcome)]].

Definition record_schedule_occurrences (queue_name task_name kind : rstring) (count skipped lag : Z) : list Emission :=
  let attributes := [queue_attribute queue_name; task_attribute task_name; (str "pgtask.schedule.kind", Text kind)] in
  [emit schedule_occurrences (Number count) attributes;
   emit schedule_skipped_occurrences (Number skipped) attributes;
   emit schedule_lag (Seconds lag) attributes].
Definition record_schedule_materialization (duration : Z) : list Emission :=
  [emit schedule_materialization_duration (Seconds duration) []].

Definition record_worker_capacity (queue_name : rstring) (configured effective active : Z) : list Emission :=
  let attributes := [queue_attribute queue_name] in
  let active := default u64_max (try_u64 active) in
  [emit worker_configured_concurrency (Number configured) attributes;
   emit worker_effective_concurrency (Number effective) attributes;
   emit worker_active_handlers (Number active) attributes;
   emit worker_available_slots (Number (Z.max (effective - active) 0)) attributes].
Definition record_worker_event_loop_lag (queue_name : rstring) (duration : Z) : list Emission :=
  [emit worker_event_loop_lag (Seconds duration) [queue_attribute queue_name]].
Definition record_worker_lease_renewal_age (queue_name : rstring) (duration : Z) : list Emission :=
  [emit worker_lease_renewal_age (Seconds duration) [queue_attribute queue_name]].
Definition record_worker_admission_limit (queue_name decision reason : rstring) (limit : Z) : list Emission :=
  [emit worker_admission_limit (Number limit)
     [queue_attribute queue_name; (str "pgtask.admission.decision", Text decision);
      (str "pgtask.admission.reason", Text reason)]].

(** ** The recordings of the program *)

(** The words the call sites pass for [&'static str]. *)
Inductive HeartbeatOutcome : Type := HOk | HMissing | HError.
Inductive ExecutionOutcome : Type := XSucceeded | XFailed | XRetry | XPanic | XSuspended | XLeaseLost.
Inductive ScheduleKind : Type := KInterval | KCron.
Inductive Decision_ : Type := Applied | Proposed.
Inductive Reason : Type := DatabaseUnavailable | LeaseRenewalLate | EventLoopLag | Recovery | Manual.

Definition heartbeat_word (x : HeartbeatOutcome) : rstring :=
  match x with HOk => str "ok" | HMissing => str "missing" | HError => str "error" end.
Definition execution_word (x : ExecutionOutcome) : rstring :=
  match x with
  | XSucceeded => str "succeeded" | XFailed => str "failed" | XRetry => str "retry" | XPanic => str "panic"
  | XSuspended => str "suspended" | XLeaseLost => str "lease_lost"
  end.
Definition kind_word (x : ScheduleKind) : rstring := match x with KInterval => str "interval" | KCron => str "cron" end.
Definition decision_word (x : Decision_) : rstring := match x with Applied => str "applied" | Proposed => str "proposed" end.
Definition reason_word (x : Reason) : rstring :=
  match x with
  | DatabaseUnavailable => str "database_unavailable" | LeaseRenewalLate => str "lease_renewal_late"
  | EventLoopLag => str "event_loop_lag" | Recovery => str "recovery" | Manual => str "manual"
  end.

(** A call of one of the functions above. *)
Inductive Recording : Type :=
| REnqueued (q n : rstring) (count : Z)
| RClaimed (q n : rstring)
| RCancelled (q n : rstring)
| RSucceeded (q n : rstring)
| RFailed (q n : rstring)
| RRetried (q n : rstring)
| RRecovered (q : rstring) (count : Z)
| RRecoveryFailure (q : rstring)
| RLeaseLost (q n : rstring)
| RRenewed (q n : rstring) (renewed : bool)
| RQueueLatency (q n : rstring) (duration : Z)
| RQueueDemand (q : rstring) (ready unroutable : Z)
| RHeartbeat (q : rstring) (outcome : HeartbeatOutcome)
| RLiveWorkers (q : rstring) (live : Z)
| RExecution (q n : rstring) (outcome : ExecutionOutcome) (duration : Z)
| RScheduleOccurrences (q n : rstring) (kind : ScheduleKind) (count skipped lag : Z)
| RScheduleMaterialization (duration : Z)
| RWorkerCapacity (q : rstring) (configured effective active : Z)
| REventLoopLag (q : rstring) (duration : Z)
| RLeaseRenewalAge (q : rstring) (duration : Z)
| RAdmissionLimit (q : rstring) (decision : Decision_) (reason : Reason) (limit : Z).

Definition emissions (r : Recording) : list Emission :=
  match r with
  | REnqueued q n count => record_enqueued q n count
  | RClaimed q n => record_claimed q n
  | RCancelled q n => record_cancelled q n
  | RSucceeded q n => record_succeeded q n
  | RFailed q n => record_failed q n
  | RRetried q n => record_retried q n
  | RRecovered q count => record_recovered q count
  | RRecoveryFailure q => record_recovery_failure q
  | RLeaseLost q n => record_lease_lost q n
  | RRenewed q n renewed => record_renewed q n renewed
  | RQueueLatency q n duration => record_queue_latency q n duration
  | RQueueDemand q ready unroutable => record_queue_demand q ready unroutable
  | RHeartbeat q outcome => record_heartbeat q (heartbeat_word outcome)
  | RLiveWorkers q live => record_live_workers q live
  | RExecution q n outcome duration => record_execution q n (execution_word outcome) duration
  | RScheduleOccurrences q n kind count skipped lag =>
      record_schedule_occurrences q n (kind_word kind) count skipped lag
  | RScheduleMaterialization duration => record_schedule_materialization duration
  | RWorkerCapacity q configured effective active => record_worker_capacity q configured effective active
  | REventLoopLag q duration => record_worker_event_loop_lag q duration
  | RLeaseRenewalAge q duration => record_worker_lease_renewal_age q duration
  | RAdmissionLimit q decision reason limit =>
      record_worker_admission_limit q (decision_word decision) (reason_word reason) limit
  end.

(** The queue and the task a recording is about. *)
Definition queue_of (r : Recording) : option rstring :=
  match r with
  | REnqueued q _ _ | RClaimed q _ | RCancelled q _ | RSucceeded q _ | RFailed q _ | RRetried q _ | RRecovered q _
  | RRecoveryFailure q | RLeaseLost q _ | RRenewed q _ _ | RQueueLatency q _ _ | RQueueDemand q _ _ | RHeartbeat q _
  | RLiveWorkers q _ | RExecution q _ _ _ | RScheduleOccurrences q _ _ _ _ _ | RWorkerCapacity q _ _ _
  | REventLoopLag q _ | RLeaseRenewalAge q _ | RAdmissionLimit q _ _ _ => Some q
  | RScheduleMaterialization _ => None
  end.
Definition task_of (r : Recording) : option rstring :=
  match r with
  | REnqueued _ n _ | RClaimed _ n | RCancelled _ n | RSucceeded _ n | RFailed _ n | RRetried _ n | RLeaseLost _ n
  | RRenewed _ n _ | RQueueLatency _ n _ | RExecution _ n _ _ | RScheduleOccurrences _ n _ _ _ _ => Some n
  | _ => None
  end.

(** ** Series *)

(** A series is an instrument with attributes. *)
Abbreviation Series := (Instrument * list (rstring * Attribute))%type (only parsing).
Definition series_of (e : Emission) : Series := (em_instrument e, em_attributes e).

Definition transitions : list rstring :=
  map str ["enqueued"; "claimed"; "cancelled"; "succeeded"; "failed"; "retried"; "lease_lost"]%string.
Definition execution_words : list rstring :=
  map execution_word [XSucceeded; XFailed; XRetry; XPanic; XSuspended; XLeaseLost].
Definition reason_words : list rstring :=
  map reason_word [DatabaseUnavailable; LeaseRenewalLate; EventLoopLag; Recovery; Manual].

(** All series of a queue [q], of a task [n] on it, and of the process. *)
Definition queue_series (q : rstring) : list Series :=
  let a := queue_attribute q in
  (tasks, [(str "pgtask.task.state", Text (str "recovered")); a])
  :: map (fun i => (i, [a])) [lease_recovery_failures; queue_ready_tasks; queue_unroutable_tasks; workers_live;
       worker_configured_concurrency; worker_effective_concurrency; worker_active_handlers; worker_available_slots;
       worker_event_loop_lag; worker_lease_renewal_age]
  ++ map (fun x => (worker_heartbeats, [a; (str "pgtask.heartbeat.outcome", Text (heartbeat_word x))]))
       [HOk; HMissing; HError]
  ++ flat_map (fun d => map (fun w => (worker_admission_limit, [a; (str "pgtask.admission.decision", Text (decision_word d));
       (str "pgtask.admission.reason", Text w)])) reason_words) [Applied; Proposed].
Definition task_series (q n : rstring) : list Series :=
  let a := queue_attribute q in let b := task_attribute n in
  map (fun state => (tasks, [(str "pgtask.task.state", Text state); a; b])) transitions
  ++ map (fun r => (lease_renewals, [a; b; (str "pgtask.lease.renewed", Bool r)])) [true; false]
  ++ [(queue_latency, [a; b])]
  ++ map (fun w => (execution_duration, [a; b; (str "pgtask.execution.outcome", Text w)])) execution_words
  ++ flat_map (fun i => map (fun k => (i, [a; b; (str "pgtask.schedule.kind", Text (kind_word k))])) [KInterval; KCron])
       [schedule_occurrences; schedule_skipped_occurrences; schedule_lag].
Definition process_series : list Series := [(schedule_materialization_duration, [])].

(** The series a recording can touch. *)
Definition allowed_series (r : Recording) : list Series :=
  process_series
  ++ match queue_of r with Some q => queue_series q | None => [] end
  ++ match queue_of r, task_of r with Some q, Some n => task_series q n | _, _ => [] end.

(** The cardinality of the metrics is bounded: whatever is recorded, and with
    whatever task ids, payloads, results, errors, counts and durations, there are
    24 series per queue, 22 per queue and task, and one of the process. *)
Theorem series_are_bounded r :
  Forall (fun e => series_of e ∈ allowed_series r) (emissions r) /\
  forall q n, length (process_series ++ queue_series q ++ task_series q n) = 47%nat.
Proof.
  split; [|reflexivity].
  destruct r; repeat (apply List.Forall_nil || apply List.Forall_cons);
    try match goal with x : HeartbeatOutcome |- _ => destruct x
      | x : ExecutionOutcome |- _ => destruct x | x : ScheduleKind |- _ => destruct x
      | x : Decision_ |- _ => destruct x | x : bool |- _ => destruct x end;
    try match goal with x : Reason |- _ => destruct x end;
    apply list_elem_of_In; cbn -[str]; repeat first [left; reflexivity | right].
Qed.

(** ** What an execution counts *)

Definition transition (m : Metric) : bool := match m with RecordExecution _ => false | _ => true end.
Definition transitions_in (ms : list Metric) : nat := length (filter (fun m => transition m = true) ms).
Definition executions_in (ms : list Metric) : nat := length (filter (fun m => transition m = false) ms).
Definition label_known (m : Metric) : Prop :=
  match m with RecordExecution word => word ∈ execution_words | _ => True end.

(** One transition and one execution. *)
Definition counted (ms : list Metric) : Prop :=
  transitions_in ms = 1%nat /\ (executions_in ms <= 1)%nat /\ Forall label_known ms.

Lemma failure_counted state word :
  word ∈ execution_words -> counted (lost_lease state ++ record_failure_state state ++ [RecordExecution word]).
Proof.
  intros Hw. destruct state as [[]|]; (split; [reflexivity|]; split; [apply Nat.eq_le_incl; reflexivity|]);
    repeat (apply List.Forall_nil || apply List.Forall_cons); exact Hw || exact I.
Qed.

Section Counting.
Context {W : Type} `{!TransitionWriter W} (error_text : PostgresError -> rstring) (random_range : Z -> Z).

Lemma bind_failure_counted task token error delay (word : option TaskState -> rstring) w w' ms :
  (forall state, word state ∈ execution_words) ->
  mbind (fun state => mret (lost_lease state ++ record_failure_state state ++ [RecordExecution (word state)]))
    (write_failure error_text task token error delay) w = (w', Ok ms) -> counted ms.
Proof.
  intros Hw H. unfold mbind, tio_bind in H.
  destruct (write_failure error_text task token error delay w) as [w1 [state|]]; [|done].
  unfold mret, tio_ret in H. injection H as <- <-. by apply failure_counted.
Qed.

(** An execution is counted once: however the handler ends, an execution that
    records its outcome adds exactly one to the transitions of the task, counts at
    most one execution and labels it with one of six words; a suspended one and one
    whose lease was cancelled add no transition. *)
Theorem execution_is_counted_once task token policy outcome w w' ms :
  execute_outcome error_text random_range task token policy outcome w = (w', Ok ms) ->
  match outcome with
  | None => transitions_in ms = 0%nat /\ executions_in ms = 1%nat /\ Forall label_known ms
  | Some (Raised error) =>
      if is_suspended error then transitions_in ms = 0%nat /\ executions_in ms = 1%nat /\ Forall label_known ms
      else counted ms
  | Some _ => counted ms
  end.
Proof.
  assert (forall word, word ∈ execution_words -> transitions_in [RecordExecution word] = 0%nat /\
    executions_in [RecordExecution word] = 1%nat /\ Forall label_known [RecordExecution word]) as Hone
    by (intros word Hw; split_and!; [done..|by apply Forall_singleton]).
  assert (forall x, execution_word x ∈ execution_words) as Hword
    by (intros []; apply list_elem_of_In; cbn -[str]; repeat first [left; reflexivity | right]).
  destruct outcome as [[value|error|]|]; cbn [execute_outcome]; intros H.
  - unfold complete_execution in H. destruct (prepare_result value) as [v|v].
    + destruct (writer_complete _ w) as [w1 [[]|[|e]]]; simplify_eq.
      * split; [done|]. split; [apply Nat.eq_le_incl; reflexivity|].
        repeat (apply List.Forall_nil || apply List.Forall_cons); [exact I|apply (Hword XSucceeded)].
      * split; [done|]. split; [apply Nat.le_0_l|]. by repeat constructor.
      * destruct (is_rejected_value e); [|done]. eapply (bind_failure_counted _ _ _ _ (fun _ => str "failed")); [|exact H].
        intros _. apply (Hword XFailed).
    + eapply (bind_failure_counted _ _ _ _ (fun _ => str "failed")); [|exact H].
        intros _. apply (Hword XFailed).
  - destruct (is_suspended error).
    + unfold mret, tio_ret in H. injection H as <- <-. apply Hone, (Hword XSuspended).
    + eapply (bind_failure_counted _ _ _ _ (fun state => if bool_decide (state = Some Pending) then str "retry" else str "failed"));
        [|exact H]. intros state. case_bool_decide; [apply (Hword XRetry)|apply (Hword XFailed)].
  - eapply (bind_failure_counted _ _ _ _ (fun _ => str "panic")); [|exact H].
        intros _. apply (Hword XPanic).
  - unfold mret, tio_ret in H. injection H as <- <-. apply Hone, (Hword XLeaseLost).
Qed.
End Counting.
