(* ===== verification/Python.v ===== *)
(** The Python SDK: [sdks/python/src/lib.rs], with [StoreConfig] of
    [pgtask-postgres/src/store.rs] and [Duration::try_from_secs_f64].

    The objects of the interpreter that matter are exceptions: their class, what
    [str] gives, [__cause__] and, for a group, [exceptions].  An object is known
    by its address in the heap, as [as_ptr] is.  The code of a handler or of a
    step's operation is a function of the database; [pythonize], [depythonize],
    the parsers of addresses, times and task ids and the text of an error are
    parameters.  A Python float is a binary64 number ([spec_float]). *)

From Stdlib Require Import Floats.SpecFloat.
From S2P Require Import Prelude Text Identifier Json Retry TaskTypes Outcome Rows Tables Protocol Fleet.
From S2P Require Import Lifecycle Store Registry Control Notifications.

(** ** Seconds *)

Inductive TryFromFloatSecsError : Type := NegativeSecs | OverflowOrNan.

(** Rounding to the nearest, ties to even. *)
Definition round_ties_even (numerator denominator : Z) : Z :=
  let q := numerator / denominator in
  match 2 * (numerator mod denominator) ?= denominator with
  | Lt => q
  | Gt => q + 1
  | Eq => if Z.even q then q else q + 1
  end.

Definition try_from_secs_f64 (secs : spec_float) : result TryFromFloatSecsError Z :=
  match secs with
  | S754_zero _ => Ok 0
  | S754_infinity true | S754_finite true _ _ => Err NegativeSecs
  | S754_infinity false | S754_nan => Err OverflowOrNan
  | S754_finite false m e =>
      let numerator := Zpos m * 2 ^ Z.max e 0 in
      let denominator := 2 ^ Z.max (- e) 0 in
      if 2 ^ 64 * denominator <=? numerator then Err OverflowOrNan
      else Ok (round_ties_even (numerator * NANOS_PER_SEC) denominator)
  end.

(** ** The configuration of a store *)

Record StoreConfig := {
  st_database_url : rstring;
  st_listener_url : rstring;
  st_query_connections : Z;
  st_listener_connections : Z;
}.

Definition StoreConfig_new (database_url : rstring) : StoreConfig := {|
  st_database_url := database_url; st_listener_url := database_url;
  st_query_connections := 10; st_listener_connections := 1 |}.
Definition with_listener_url (listener_url : rstring) (c : StoreConfig) : StoreConfig := {|
  st_database_url := st_database_url c; st_listener_url := listener_url;
  st_query_connections := st_query_connections c; st_listener_connections := st_listener_connections c |}.
Definition with_query_connections (connections : Z) (c : StoreConfig) : StoreConfig := {|
  st_database_url := st_database_url c; st_listener_url := st_listener_url c;
  st_query_connections := connections; st_listener_connections := st_listener_connections c |}.
Definition with_listener_connections (connections : Z) (c : StoreConfig) : StoreConfig := {|
  st_database_url := st_database_url c; st_listener_url := st_listener_url c;
  st_query_connections := st_query_connections c; st_listener_connections := connections |}.

(** ** Exceptions *)

(** Which of the types the SDK tests an object is an instance of. *)
Record PyClass := {
  pc_exception : bool;
  pc_task_suspended : bool;
  pc_non_retryable : bool;
  pc_group : bool;
  pc_backport_group : bool;
}.

Definition plain_exception : PyClass := {|
  pc_exception := true; pc_task_suspended := false; pc_non_retryable := false; pc_group := false;
  pc_backport_group := false |}.
Definition PyRuntimeError : PyClass := plain_exception.
Definition PyValueError : PyClass := plain_exception.
Definition TaskSuspended : PyClass := {|
  pc_exception := true; pc_task_suspended := true; pc_non_retryable := false; pc_group := false;
  pc_backport_group := false |}.
Definition NonRetryableError : PyClass := {|
  pc_exception := true; pc_task_suspended := false; pc_non_retryable := true; pc_group := false;
  pc_backport_group := false |}.

(** [po_exceptions] is the attribute, when it is a tuple. *)
Record PyObject := {
  po_class : PyClass;
  po_message : rstring;
  po_cause : option Z;
  po_exceptions : option (list Z);
}.

Abbreviation Heap := (gmap Z PyObject) (only parsing).

(** An error made by [new_err] is not an object yet. *)
Inductive PyErr : Type :=
| Lazy (class : PyClass) (message : rstring)
| Normalized (value : Z).

Definition new_object (class : PyClass) (message : rstring) : PyObject :=
  {| po_class := class; po_message := message; po_cause := None; po_exceptions := None |}.

(** [error.value(py)]. *)
Definition normalize (heap : Heap) (error : PyErr) : Heap * Z :=
  match error with
  | Normalized value => (heap, value)
  | Lazy class message => let value := fresh (dom heap) in (<[value := new_object class message]> heap, value)
  end.

Definition class_of (heap : Heap) (value : Z) : PyClass :=
  match heap !! value with
  | Some object => po_class object
  | None => {| pc_exception := false; pc_task_suspended := false; pc_non_retryable := false;
               pc_group := false; pc_backport_group := false |}
  end.
Definition error_class (heap : Heap) (error : PyErr) : PyClass :=
  match error with Lazy class _ => class | Normalized value => class_of heap value end.

(** What [exception_group_types] finds: the builtin of Python 3.11, and the
    backport's type when its module has been imported. *)
Record Interpreter := { py_has_builtin_group : bool; py_backport_imported : bool }.

Inductive GroupType : Type := BuiltinGroup | BackportGroup.
Definition exception_group_types (py : Interpreter) : list GroupType :=
  (if py_has_builtin_group py then [BuiltinGroup] else [])
  ++ (if py_backport_imported py then [BackportGroup] else []).
Definition is_instance (class : PyClass) (group : GroupType) : bool :=
  match group with BuiltinGroup => pc_group class | BackportGroup => pc_backport_group class end.

(** What the loop pushes for [object], in the order of the pushes. *)
Definition held (groups : list GroupType) (object : PyObject) : list Z :=
  option_list (po_cause object)
  ++ (if existsb (is_instance (po_class object)) groups then default [] (po_exceptions object) else []).
Definition held_by (groups : list GroupType) (heap : Heap) (value : Z) : list Z :=
  match heap !! value with Some object => held groups object | None => [] end.

(** The loop of [holds_non_retryable]; the head of [pending] is the end of the
    vector.  [None] when the fuel is gone. *)
Fixpoint search (fuel : nat) (groups : list GroupType) (heap : Heap) (seen : gset Z) (pending : list Z)
    : option bool :=
  match fuel with
  | O => None
  | S fuel' =>
      match pending with
      | [] => Some false
      | value :: pending =>
          if bool_decide (value ∈ seen) then search fuel' groups heap seen pending
          else if pc_non_retryable (class_of heap value) then Some true
          else search fuel' groups heap ({[value]} ∪ seen) (rev (held_by groups heap value) ++ pending)
      end
  end.

(** Each object is expanded once, so one more iteration than there are
    references, for the error itself, and one for the empty vector. *)
Definition references (groups : list GroupType) (heap : Heap) : nat :=
  sum_list_with (fun kv : Z * PyObject => length (held groups kv.2)) (map_to_list heap).
Definition holds_non_retryable (py : Interpreter) (heap : Heap) (error : PyErr) : option bool :=
  let groups := exception_group_types py in
  let (heap, value) := normalize heap error in
  search (2 + references groups heap) groups heap ∅ [value].

(** ** Errors *)

Class Display (E : Type) := to_string : E -> rstring.

Definition runtime_error {E} `{Display E} (error : E) : PyErr := Lazy PyRuntimeError (to_string error).
Definition value_error {E} `{Display E} (error : E) : PyErr := Lazy PyValueError (to_string error).
Global Instance rstring_display : Display rstring := fun s => s.

Definition handler_error (error : HandlerError) : PyErr :=
  if is_suspended error then Lazy TaskSuspended (str "task suspended")
  else
    let message := default (str "task handler failed") (value_get (str "message") (he_error error) ≫= as_str) in
    if he_retryable error then Lazy PyRuntimeError message else Lazy NonRetryableError message.

Section Conversions.
(** The text [PyErr] displays, of the object its value is. *)
Context (py : Interpreter) (display : PyObject -> rstring).

Definition error_text (heap : Heap) (error : PyErr) : rstring :=
  let (heap, value) := normalize heap error in
  match heap !! value with Some object => display object | None => [] end.

Definition python_failure (heap : Heap) (error : PyErr) : HandlerError :=
  match holds_non_retryable py heap error with
  | Some true => HandlerError_terminal (error_text heap error)
  | _ => HandlerError_retryable (error_text heap error)
  end.

(** [StepException]: the cell after [keep]. *)
Definition keep (heap : Heap) (error : PyErr) (cell : option PyErr) : option PyErr :=
  let class := error_class heap error in
  if pc_exception class && negb (pc_task_suspended class) then Some error else cell.

(** ** Running Python code *)

(** An object the interpreter returned, and its conversion to JSON. *)
Context {PyAny : Type} (depythonize : PyAny -> result rstring Value) (pythonize : Value -> result rstring PyAny)
  (py_none : PyAny).

(** What became of a coroutine: it could not be scheduled, or it ended. *)
Inductive Outcome : Type :=
| NotStarted (error : PyErr)
| Finished (result : result PyErr PyAny).

(** Python code that runs: what it does to the database, the heap it leaves and
    what it ends with. *)
Definition PyCode : Type := Db -> Db * (Heap * Outcome).

Definition handler_result (heap : Heap) (outcome : Outcome) : HandlerOutcome :=
  match outcome with
  | NotStarted error => Raised (HandlerError_retryable (error_text heap error))
  | Finished (Err error) =>
      if pc_task_suspended (error_class heap error) then Raised HandlerError_suspended
      else Raised (python_failure heap error)
  | Finished (Ok result) =>
      match depythonize result with
      | Ok value => Returned value
      | Err error => Raised (HandlerError_terminal (str "handler returned invalid JSON: " ++ error))
      end
  end.

Definition with_task_headers (headers : list (rstring * Value)) (t : Task) : Task := {|
  t_id := t_id t; t_parent_task_id := t_parent_task_id t; t_queue_name := t_queue_name t;
  t_task_name := t_task_name t; t_handler_version := t_handler_version t; t_payload := t_payload t;
  t_headers := headers; t_state := t_state t; t_priority := t_priority t; t_run_at := t_run_at t;
  t_attempt := t_attempt t; t_failed_attempts := t_failed_attempts t; t_max_attempts := t_max_attempts t;
  t_retry_policy := t_retry_policy t; t_lease_token := t_lease_token t; t_lease_owner := t_lease_owner t;
  t_lease_expires_at := t_lease_expires_at t; t_created_at := t_created_at t; t_updated_at := t_updated_at t;
  t_completed_at := t_completed_at t; t_result := t_result t; t_error := t_error t |}.

Definition run_python_handler (span : list (rstring * rstring)) (function : Task -> TaskContext -> PyCode)
    (task : Task) (context : TaskContext) (d : Db) : Db * HandlerOutcome :=
  let task := with_task_headers (inject_span_context span (t_headers task)) task in
  let '(d', (heap, outcome)) := function task context d in
  (d', handler_result heap outcome).

Definition operation_result (heap : Heap) (outcome : Outcome) : result HandlerError Value :=
  match outcome with
  | NotStarted error => Err (HandlerError_retryable (error_text heap error))
  | Finished (Err error) => Err (python_failure heap error)
  | Finished (Ok result) =>
      map_err (fun error => HandlerError_terminal (str "step returned invalid JSON: " ++ error)) (depythonize result)
  end.
Definition run_python_operation (operation : PyCode) : hio Value := fun d =>
  let '(d', (heap, outcome)) := operation d in (d', operation_result heap outcome).

(** The cell once the operation has run. *)
Definition raised (heap : Heap) (outcome : Outcome) : option PyErr :=
  match outcome with Finished (Err error) => keep heap error None | _ => None end.

(** ** The context of a task *)

Context (postgres_text : PostgresError -> rstring) (timestamptz_text : time -> rstring).
Context `{!Display NameError} `{!Display TryFromFloatSecsError} `{!Display PostgresError}.

(** [.await.map_err(|error| handler_error(&error))]. *)
Definition awaited {A} (m : hio A) (d : Db) : Db * result PyErr A :=
  let (d', r) := m d in (d', map_err handler_error r).
Definition to_python (value : Value) : result PyErr PyAny := map_err value_error (pythonize value).
Definition finish {A B} (f : A -> result PyErr B) (answer : Db * result PyErr A) : Db * result PyErr B :=
  (answer.1, answer.2 ≫= f).
(** A failure before the call leaves the database as it is. *)
Definition checked {A B} (r : result PyErr A) (k : A -> Db -> Db * result PyErr B) (d : Db) : Db * result PyErr B :=
  match r with Ok a => k a d | Err error => (d, Err error) end.

(** [context.step] runs its operation if it is not cancelled and finds no
    checkpoint. *)
Definition operation_runs (cancelled : bool) (x : TaskContext) (step_name : rstring) (occurrence : Z) (d : Db)
    : bool :=
  negb cancelled
  && match (read_checkpoint postgres_text x step_name occurrence d).2 with Ok None => true | _ => false end.

Definition PythonTaskContext_step (callable cancelled : bool) (e : Env) (x : TaskContext) (name : rstring)
    (occurrence : Z) (operation : PyCode) : Db -> Db * result PyErr PyAny :=
  if negb callable then fun d => (d, Err (Lazy PyValueError (str "step operation must be callable")))
  else
    checked (map_err value_error (StepName_new name)) (fun step_name d =>
      let (d', r) := step postgres_text cancelled e x step_name occurrence (run_python_operation operation) d in
      let '(_, (heap, outcome)) := operation d in
      let cell := if operation_runs cancelled x step_name occurrence d then raised heap outcome else None in
      (d', map_err (fun error => default (handler_error error) cell) r ≫= to_python)).

Definition seconds (s : spec_float) : result PyErr Z := map_err value_error (try_from_secs_f64 s).
Definition optional_seconds (s : option spec_float) : result PyErr (option Z) := transpose (option_map seconds s).

Definition PythonTaskContext_sleep_for (e : Env) (x : TaskContext) (name : rstring) (occurrence : Z)
    (s : spec_float) : Db -> Db * result PyErr unit :=
  checked (map_err value_error (StepName_new name)) (fun step_name =>
  checked (seconds s) (fun duration =>
    awaited (context_sleep_for postgres_text timestamptz_text e x step_name occurrence duration))).

(** [wake_at] is what parsing its text gave. *)
Definition PythonTaskContext_sleep_until (e : Env) (x : TaskContext) (name : rstring) (occurrence : Z)
    (wake_at : result rstring time) : Db -> Db * result PyErr unit :=
  checked (map_err value_error (StepName_new name)) (fun step_name =>
  checked (map_err value_error wake_at) (fun wake_at =>
    awaited (context_sleep_until postgres_text timestamptz_text e x step_name occurrence wake_at))).

Definition PythonTaskContext_wait_for_signal (e : Env) (x : TaskContext) (name : rstring) (occurrence : Z)
    (signal : rstring) (signal_occurrence : Z) (timeout : option spec_float) : Db -> Db * result PyErr PyAny :=
  checked (map_err value_error (StepName_new name)) (fun step_name =>
  checked (map_err value_error (SignalName_new signal)) (fun signal_name =>
  checked (optional_seconds timeout) (fun timeout d =>
    finish (fun value : option Value => match value with Some value => to_python value | None => Ok py_none end)
      (awaited (context_wait_for_signal postgres_text e x step_name occurrence signal_name signal_occurrence
                  timeout) d)))).

(** [request] is what [depythonize] gave, [task_id] what parsing gave. *)
Definition PythonTaskContext_spawn (span : list (rstring * rstring)) (e : Env) (x : TaskContext) (name : rstring)
    (occurrence : Z) (request : result rstring EnqueueRequest) : Db -> Db * result PyErr rstring :=
  checked (map_err value_error (StepName_new name)) (fun step_name =>
  checked (map_err value_error request) (fun request d =>
    finish (fun task_id => Ok (uuid_text task_id))
      (awaited (context_spawn postgres_text span e x step_name occurrence request) d))).

Definition PythonTaskContext_wait_for_result (e : Env) (x : TaskContext) (name : rstring) (occurrence : Z)
    (task_id : result rstring uuid) (timeout : option spec_float) : Db -> Db * result PyErr PyAny :=
  checked (map_err value_error (StepName_new name)) (fun step_name =>
  checked (map_err value_error task_id) (fun task_id =>
  checked (optional_seconds timeout) (fun timeout d =>
    finish to_python (awaited (context_wait_for_result postgres_text e x step_name occurrence task_id timeout) d)))).

(** ** The client *)

Definition store_config (database_url : rstring) (listener_url : option rstring)
    (max_query_connections max_listener_connections : Z) : result PyErr StoreConfig :=
  let? query := ok_or (Lazy PyValueError (str "max_query_connections must be positive"))
    (nonzero max_query_connections) in
  let? listeners := ok_or (Lazy PyValueError (str "max_listener_connections must be positive"))
    (nonzero max_listener_connections) in
  let config := with_listener_connections listeners (with_query_connections query (StoreConfig_new database_url)) in
  Ok (match listener_url with Some listener_url => with_listener_url listener_url config | None => config end).

(** [connected] and [protocol] are what connecting and asking for the storage
    protocol gave. *)
Definition PythonClient_connect (database_url : rstring) (listener_url : option rstring)
    (max_query_connections max_listener_connections : Z) (connected : result PostgresError unit)
    (protocol : result SqlxError (Z * Z)) : result PyErr StoreConfig :=
  let? config := store_config database_url listener_url max_query_connections max_listener_connections in
  let? _ := map_err runtime_error connected in
  let? _ := map_err runtime_error (ensure_storage_protocol protocol STORAGE_PROTOCOL_RANGE) in
  Ok config.

(** A method of the store, its errors as [RuntimeError]. *)
Definition client_call {A} (m : io A) (d : Db) : Db * result PyErr A :=
  let (d', r) := m d in (d', map_err runtime_error r).

Definition enqueued (result : EnqueueResult) : rstring * bool := (uuid_text (eres_task_id result), eres_created result).

Definition PythonClient_enqueue (span : list (rstring * rstring)) (e : Env) (request : result rstring EnqueueRequest)
    : Db -> Db * result PyErr (rstring * bool) :=
  checked (map_err value_error request) (fun request d =>
    finish (fun result => Ok (enqueued result)) (client_call (enqueue span e request) d)).
Definition PythonClient_enqueue_many (timestamptz_of_text : time -> time) (span : list (rstring * rstring)) (e : Env)
    (requests : result rstring (list EnqueueRequest)) : Db -> Db * result PyErr (list (rstring * bool)) :=
  checked (map_err value_error requests) (fun requests d =>
    finish (fun results => Ok (map enqueued results))
      (client_call (enqueue_many timestamptz_of_text span e requests) d)).

(** [serde_json::to_value] of a [TaskResult]. *)
Definition result_value (r : TaskResult) : Value :=
  VObject (map_collect
    [(str "state", VString (state_as_str (tr_state r)));
     (str "result", default VNull (tr_result r));
     (str "error", default VNull (tr_error r));
     (str "completed_at", match tr_completed_at r with Some t => VString (timestamptz_text t) | None => VNull end)]).
Definition result_to_python (row : option TaskResult) : result PyErr PyAny :=
  match row with Some r => to_python (result_value r) | None => Ok py_none end.

Definition PythonClient_task_result (task_id : result rstring uuid) : Db -> Db * result PyErr PyAny :=
  checked (map_err value_error task_id) (fun task_id d =>
    finish result_to_python (client_call (task_result task_id) d)).

(** What [wait_result] makes of the answer of [wait_for_task_result]. *)
Definition wait_result (answer : result PostgresError TaskResultWait) : result PyErr PyAny :=
  let? wait := map_err runtime_error answer in
  match wait with
  | Notifications.WaitReady result => result_to_python (Some result)
  | NotFound | TimedOut => result_to_python None
  end.

Definition PythonClient_emit_signal (e : Env) (task_id : result rstring uuid) (name : rstring) (occurrence : Z)
    (value : result rstring Value) : Db -> Db * result PyErr PyAny :=
  checked (map_err value_error task_id) (fun task_id =>
  checked (map_err value_error (SignalName_new name)) (fun name =>
  checked (map_err value_error value) (fun value d =>
    finish (fun signal => to_python (sg_value signal)) (client_call (emit_signal e task_id name occurrence value) d)))).
Definition PythonClient_cancel (e : Env) (task_id : result rstring uuid) : Db -> Db * result PyErr bool :=
  checked (map_err value_error task_id) (fun task_id => client_call (cancel e task_id)).

(** ** The worker *)

Context {SocketAddr : Type} (parse_address : rstring -> result rstring SocketAddr).
Context `{!Display WorkerError}.

Record PythonWorkerOptions := {
  wo_concurrency : Z;
  wo_poll_interval : spec_float;
  wo_lease_duration : spec_float;
  wo_health_address : option rstring;
  wo_listener_url : option rstring;
  wo_max_query_connections : Z;
  wo_max_listener_connections : Z;
  wo_retention_enabled : bool;
  wo_retention_batch_size : Z;
  wo_retention_interval : spec_float;
  wo_shutdown_grace : spec_float;
}.

Record PythonHandler := {
  ph_function : Task -> TaskContext -> PyCode;
  ph_name : rstring;
  ph_retry_policy : RetryPolicy;
  ph_version : Z;
}.

Record PythonWorker := {
  pw_concurrency : Z;
  pw_config : StoreConfig;
  pw_handlers : list PythonHandler;
  pw_lease_duration : Z;
  pw_poll_interval : Z;
  pw_retention_enabled : bool;
  pw_retention_batch_size : Z;
  pw_retention_interval : Z;
  pw_shutdown_grace : Z;
  pw_health_address : option SocketAddr;
  pw_queues : list rstring;
}.

(** [options] is what [depythonize] gave. *)
Definition PythonWorker_new (database_url : rstring) (queue_names : list rstring)
    (options : result rstring PythonWorkerOptions) : result PyErr PythonWorker :=
  let? options := map_err value_error options in
  let? concurrency := ok_or (Lazy PyValueError (str "concurrency must be positive"))
    (nonzero (wo_concurrency options)) in
  let? config := store_config database_url (wo_listener_url options) (wo_max_query_connections options)
    (wo_max_listener_connections options) in
  let? lease_duration := seconds (wo_lease_duration options) in
  let? poll_interval := seconds (wo_poll_interval options) in
  let? batch_size := ok_or (Lazy PyValueError (str "retention_batch_size must be positive"))
    (nonzero (wo_retention_batch_size options)) in
  let? interval := seconds (wo_retention_interval options) in
  let? interval := if is_zero interval then Err (Lazy PyValueError (str "retention_interval must be positive"))
                   else Ok interval in
  let? shutdown_grace := seconds (wo_shutdown_grace options) in
  let? health_address := map_err value_error (transpose (option_map parse_address (wo_health_address options))) in
  let? queues := collect (fun name => map_err value_error (QueueName_new name)) queue_names in
  Ok {| pw_concurrency := concurrency; pw_config := config; pw_handlers := [];
        pw_lease_duration := lease_duration; pw_poll_interval := poll_interval;
        pw_retention_enabled := wo_retention_enabled options; pw_retention_batch_size := batch_size;
        pw_retention_interval := interval; pw_shutdown_grace := shutdown_grace;
        pw_health_address := health_address; pw_queues := queues |}.

Definition push_handler (handler : PythonHandler) (w : PythonWorker) : PythonWorker := {|
  pw_concurrency := pw_concurrency w; pw_config := pw_config w; pw_handlers := pw_handlers w ++ [handler];
  pw_lease_duration := pw_lease_duration w; pw_poll_interval := pw_poll_interval w;
  pw_retention_enabled := pw_retention_enabled w; pw_retention_batch_size := pw_retention_batch_size w;
  pw_retention_interval := pw_retention_interval w; pw_shutdown_grace := pw_shutdown_grace w;
  pw_health_address := pw_health_address w; pw_queues := pw_queues w |}.

Definition PythonWorker_register (name : rstring) (function : Task -> TaskContext -> PyCode)
    (handler_version : Z) (retry_delay : option spec_float) (w : PythonWorker) : result PyErr PythonWorker :=
  let? delay := optional_seconds retry_delay in
  let retry_policy := match delay with Some delay => Fixed delay | None => Never end in
  let? name := map_err value_error (TaskName_new name) in
  let? version := ok_or (Lazy PyValueError (str "handler_version must be positive")) (nonzero handler_version) in
  Ok (push_handler {| ph_function := function; ph_name := name; ph_retry_policy := retry_policy;
                      ph_version := version |} w).

(** The registry and the configuration [run] gives to [Worker::new]. *)
Definition worker_registry (span : list (rstring * rstring)) (handlers : list PythonHandler)
    : gmap (list Z * Z) RegisteredHandler :=
  foldl (fun registry handler =>
      (register_durable (ph_name handler) (ph_version handler) (ph_retry_policy handler)
         (run_python_handler span (ph_function handler)) registry).1) ∅ handlers.
Definition worker_config (w : PythonWorker) : WorkerConfig :=
  let config := WorkerConfig_with_queues (pw_queues w) in {|
  cf_queues := cf_queues config;
  cf_concurrency := pw_concurrency w;
  cf_claim_batch_size := pw_concurrency w;
  cf_recovery_batch_size := cf_recovery_batch_size config;
  cf_lease_duration := pw_lease_duration w;
  cf_poll_interval := pw_poll_interval w;
  cf_shutdown_grace := pw_shutdown_grace w;
  cf_worker_heartbeat_interval := cf_worker_heartbeat_interval config;
  cf_worker_ttl := cf_worker_ttl config;
  cf_scheduler_enabled := cf_scheduler_enabled config;
  cf_schedule_batch_size := cf_schedule_batch_size config;
  cf_wait_batch_size := cf_wait_batch_size config;
  cf_schedule_reconciliation_interval := cf_schedule_reconciliation_interval config;
  cf_retention_enabled := pw_retention_enabled w;
  cf_retention_batch_size := pw_retention_batch_size w;
  cf_retention_interval := pw_retention_interval w;
  cf_expired_worker_retention := cf_expired_worker_retention config;
  cf_declared_schedules := cf_declared_schedules config;
  cf_supervisor_interval := cf_supervisor_interval config;
  cf_overload_protection := cf_overload_protection config |}.

(** [run], up to the worker it starts. *)
Definition PythonWorker_run (span : list (rstring * rstring)) (connected : result PostgresError unit) (w : PythonWorker)
    : result PyErr WorkerControl :=
  if bool_decide (pw_handlers w = [])
  then Err (Lazy PyValueError (str "at least one handler must be registered"))
  else
    let? _ := map_err runtime_error connected in
    map_err runtime_error (Worker_new (worker_registry span (pw_handlers w)) (worker_config w)).
End Conversions.
