(* ===== verification/PythonSpec.v ===== *)
(** What the Python SDK promises: which exceptions fail a task for good, how the
    errors of the durable calls travel through Python code, and which worker
    options can run. *)

From Stdlib Require Import Floats.SpecFloat.
From S2P Require Import Prelude Text Identifier Json Retry TaskTypes Outcome Rows Tables Protocol Fleet.
From S2P Require Import Lifecycle Store Registry Durable Control Python.

(** ** The search for a [NonRetryableError] *)

Lemma elem_of_rev {A} (x : A) l : x ∈ rev l <-> x ∈ l.
Proof. rewrite !list_elem_of_In. symmetry. apply in_rev. Qed.

Section Search.
Context (groups : list GroupType) (heap : gmap Z PyObject).

(** [q] is the cause of [p], or a member of the group [p]. *)
Definition holds (p q : Z) : Prop := q ∈ held_by groups heap p.
Definition non_retryable (p : Z) : Prop := pc_non_retryable (class_of heap p) = true.

Lemma holds_in_heap p q : holds p q -> is_Some (heap !! p).
Proof. unfold holds, held_by. destruct (heap !! p); [done|]. by intros ?%not_elem_of_nil. Qed.

(** What is still to be expanded. *)
Definition budget (seen : gset Z) : nat :=
  sum_list_with (fun kv : Z * PyObject => if bool_decide (kv.1 ∈ seen) then O else length (held groups kv.2))
    (map_to_list heap).

Lemma budget_start : budget ∅ = references groups heap.
Proof. done. Qed.

Lemma sum_seen (seen : gset Z) value l :
  value ∉ map fst l ->
  sum_list_with (fun kv : Z * PyObject =>
      if bool_decide (kv.1 ∈ {[value]} ∪ seen) then O else length (held groups kv.2)) l =
  sum_list_with (fun kv : Z * PyObject => if bool_decide (kv.1 ∈ seen) then O else length (held groups kv.2)) l.
Proof.
  induction l as [|[k o] l IH]; intros Hni; [done|]. cbn in *. rewrite IH by set_solver. f_equal.
  destruct (decide (k ∈ seen)); [rewrite !bool_decide_eq_true_2 by set_solver|
    rewrite !bool_decide_eq_false_2 by set_solver]; done.
Qed.

Lemma budget_expand seen value :
  value ∉ seen -> (length (held_by groups heap value) + budget ({[value]} ∪ seen) = budget seen)%nat.
Proof.
  intros Hv. unfold budget, held_by. destruct (heap !! value) as [o|] eqn:E.
  - assert (map_to_list heap ≡ₚ (value, o) :: map_to_list (delete value heap)) as Hp.
    { rewrite <- map_to_list_insert by apply lookup_delete_eq. by rewrite insert_delete_id. }
    rewrite !Hp. cbn. rewrite (bool_decide_eq_true_2 (value ∈ {[value]} ∪ seen)) by set_solver.
    rewrite (bool_decide_eq_false_2 (value ∈ seen)) by done. cbn. f_equal. apply sum_seen.
    intros ([k o'] & Hk & Hin%elem_of_map_to_list)%list_elem_of_fmap. cbn in Hk. subst k.
    by rewrite lookup_delete_eq in Hin.
  - cbn. apply sum_seen. intros ([k o'] & Hk & Hin%elem_of_map_to_list)%list_elem_of_fmap. cbn in Hk.
    subst k. congruence.
Qed.

(** The invariant of the loop: what has been seen is no [NonRetryableError], and
    what it holds has been seen or is pending. *)
Definition explored (seen : gset Z) (pending : list Z) : Prop :=
  forall p, p ∈ seen -> ~ non_retryable p /\ forall q, holds p q -> q ∈ seen \/ q ∈ pending.

Lemma explored_done seen p q : explored seen [] -> p ∈ seen -> rtc holds p q -> ~ non_retryable q.
Proof.
  intros Hex Hp Hr. induction Hr as [p|p q r Hs _ IH]; [by apply Hex|].
  apply IH. destruct (proj2 (Hex p Hp) q Hs) as [?|?%not_elem_of_nil]; done.
Qed.

Lemma search_spec fuel start : forall seen pending,
  (length pending + budget seen < fuel)%nat ->
  explored seen pending -> (start ∈ seen \/ start ∈ pending) ->
  (forall p, p ∈ pending -> rtc holds start p) ->
  exists b, search fuel groups heap seen pending = Some b /\
    (b = true <-> exists q, rtc holds start q /\ non_retryable q).
Proof.
  induction fuel as [|fuel IH]; intros seen pending Hf Hex Hst Hr; [lia|]. cbn [search].
  destruct pending as [|value pending].
  { exists false. split; [done|]. split; [done|]. intros (q & Hq & Hn).
    destruct Hst as [Hst|?%not_elem_of_nil]; [|done]. by destruct (explored_done seen start q Hex Hst Hq). }
  cbn in Hf. case_bool_decide as Hseen.
  { apply IH; [lia| | |set_solver].
    - intros p Hp. destruct (Hex p Hp) as [Hn Hh]. split; [done|]. intros q Hq. destruct (Hh q Hq); set_solver.
    - set_solver. }
  destruct (pc_non_retryable (class_of heap value)) eqn:En.
  { exists true. split; [done|]. split; [|done]. intros _. exists value. split; [|done]. apply Hr. set_solver. }
  pose proof (budget_expand seen value Hseen) as Hb.
  apply IH.
  - rewrite length_app, length_rev. lia.
  - intros p [->%elem_of_singleton|Hp]%elem_of_union.
    + split; [unfold non_retryable; congruence|]. intros q Hq. right. apply elem_of_app. left.
      by apply (proj2 (elem_of_rev _ _)).
    + destruct (Hex p Hp) as [Hn Hh]. split; [done|]. intros q Hq. destruct (Hh q Hq) as [?|Hq']; [set_solver|].
      apply elem_of_cons in Hq' as [->|?]; [set_solver|]. right. apply elem_of_app. by right.
  - destruct Hst as [?|[->|?]%elem_of_cons]; [set_solver..|]. right. apply elem_of_app. by right.
  - intros p [Hp|Hp]%elem_of_app; [|set_solver]. apply (proj1 (elem_of_rev _ _)) in Hp.
    eapply (rtc_r _ value _); [apply Hr; left|exact Hp].
Qed.
End Search.


Lemma held_new groups class message : held groups (new_object class message) = [].
Proof. unfold held. cbn. by case_match. Qed.

(** A fresh exception, as [new_err] makes one, holds nothing. *)
Lemma holds_non_retryable_lazy py heap class message :
  holds_non_retryable py heap (Lazy class message) = Some (pc_non_retryable class).
Proof.
  unfold holds_non_retryable. cbn [normalize]. set (value := fresh (dom heap)).
  cbn [Nat.add search]. rewrite bool_decide_eq_false_2 by set_solver.
  assert (<[value := new_object class message]> heap !! value = Some (new_object class message)) as E
    by apply lookup_insert_eq.
  unfold class_of, held_by. rewrite E. cbn [po_class new_object]. rewrite held_new.
  by destruct (pc_non_retryable class).
Qed.

(** ** Errors on their way through Python *)

Section Errors.
Context (py : Interpreter) (display : PyObject -> rstring).
Context {PyAny : Type} (depythonize : PyAny -> result rstring Value) (pythonize : Value -> result rstring PyAny).
Context (postgres_text : PostgresError -> rstring).
Context `{!Display NameError}.

Lemma python_failure_kind heap error : he_control (python_failure py display heap error) = ControlFailure.
Proof. unfold python_failure. by repeat case_match. Qed.

Lemma python_failure_retryable heap error :
  he_retryable (python_failure py display heap error) = false <->
  holds_non_retryable py heap error = Some true.
Proof. unfold python_failure. destruct (holds_non_retryable _ _ _) as [[]|]; done. Qed.

(** Claim C29.  The errors of the durable calls survive Python: a handler that
    lets the exception a [TaskContext] method raised escape ends with an error of
    the same kind, suspended if the call suspended the task, and otherwise a
    failure that is retryable exactly if the call's was. *)
Theorem context_errors_survive_python heap error :
  (is_suspended error = true ->
     handler_result py display depythonize heap (Finished (Err (handler_error error)))
     = Raised HandlerError_suspended) /\
  (is_suspended error = false -> exists failure,
     handler_result py display depythonize heap (Finished (Err (handler_error error))) = Raised failure /\
     is_suspended failure = false /\ he_retryable failure = he_retryable error).
Proof.
  unfold handler_error, handler_result. destruct (is_suspended error); split; try done. intros _.
  destruct (he_retryable error) eqn:Er;
    cbn [error_class pc_task_suspended PyRuntimeError plain_exception NonRetryableError];
    (eexists; split; [done|]); unfold python_failure; rewrite holds_non_retryable_lazy; done.
Qed.
(** *** Steps *)

(** A handler that runs [step] runs the operation exactly if [operation_runs]. *)
Lemma step_without_operation cancelled e x name occ operation operation' d :
  operation_runs postgres_text cancelled x name occ d = false ->
  step postgres_text cancelled e x name occ operation d = step postgres_text cancelled e x name occ operation' d.
Proof.
  unfold operation_runs, step, read_checkpoint. destruct cancelled; [done|]. cbn [negb andb].
  rewrite !bind_store_call. unfold store_call.
  destruct (get_checkpoint _ _ _ _ d) as [d' [[c|]|error]]; cbn; done.
Qed.

Lemma step_operation_fails cancelled e x name occ (operation : hio Value) d d' error :
  operation_runs postgres_text cancelled x name occ d = true -> operation d = (d', Err error) ->
  step postgres_text cancelled e x name occ operation d = (d', Err error).
Proof.
  unfold operation_runs, step, read_checkpoint. destruct cancelled; [done|]. cbn [negb andb].
  rewrite bind_store_call. unfold store_call. pose proof (get_checkpoint_cases x name occ d) as Hg.
  destruct (get_checkpoint _ _ _ _ d) as [d0 [[c|]|]]; cbn; try done. destruct Hg as (-> & _). intros _ Hop.
  unfold mbind, hio_bind. by rewrite Hop.
Qed.

(** [step] itself never suspends. *)
Lemma step_suspends_as_operation cancelled e x name occ (operation : hio Value) d d' error :
  (forall d1 d2 error, operation d1 = (d2, Err error) -> is_suspended error = false) ->
  step postgres_text cancelled e x name occ operation d = (d', Err error) -> is_suspended error = false.
Proof.
  intros Hop H. unfold step in H. destruct cancelled; [by injection H as _ <-|].
  unfold read_checkpoint in H. rewrite bind_store_call in H.
  destruct (get_checkpoint _ _ _ _ d) as [d0 [[c|]|]]; [done| |by injection H as _ <-].
  unfold mbind at 1, hio_bind at 1 in H. destruct (operation d0) as [d1 [v|err]] eqn:Eo.
  - rewrite bind_store_call in H. destruct (commit_checkpoint _ _ _ _ _ d1) as [d2 [[c|]|]].
    + done.
    + unfold throw in H. cbn in H. injection H as _ <-. done.
    + injection H as _ <-. done.
  - injection H as _ <-. by eapply Hop.
Qed.

Lemma operation_never_suspends (operation : PyCode) d d' error :
  run_python_operation py display depythonize operation d = (d', Err error) -> is_suspended error = false.
Proof.
  unfold run_python_operation. destruct (operation d) as [d1 [heap [error'|[v|error']]]]; cbn; intros H.
  - by injection H as _ <-.
  - destruct (depythonize v); [done|]. cbn in H. by injection H as _ <-.
  - injection H as _ <-. unfold is_suspended. by rewrite python_failure_kind.
Qed.

Lemma handler_error_class heap error :
  is_suspended error = false -> pc_task_suspended (error_class heap (handler_error error)) = false.
Proof. unfold handler_error. intros ->. by destruct (he_retryable error). Qed.

Lemma raised_class heap (outcome : @Outcome PyAny) error :
  raised heap outcome = Some error -> pc_task_suspended (error_class heap error) = false.
Proof.
  unfold raised, keep. destruct outcome as [|[|error']]; try done.
  destruct (pc_exception _); [|done]. destruct (pc_task_suspended _) eqn:E; [done|]. cbn. congruence.
Qed.

(** Claim C30.  What [TaskContext.step] raises in a Python handler: never
    [TaskSuspended], whatever its operation raises, so an operation cannot
    suspend the task; and when the operation ran and raised an ordinary
    exception, that very object. *)
Theorem python_step_errors callable cancelled e x name occ operation d d' error :
  PythonTaskContext_step py display depythonize pythonize postgres_text callable cancelled e x name occ
    operation d = (d', Err error) ->
  pc_task_suspended (error_class (operation d).2.1 error) = false /\
  forall raised, callable = true -> StepName_new name = Ok name ->
    operation_runs postgres_text cancelled x name occ d = true -> (operation d).2.2 = Finished (Err raised) ->
    pc_exception (error_class (operation d).2.1 raised) = true ->
    pc_task_suspended (error_class (operation d).2.1 raised) = false -> error = raised.
Proof.
  unfold PythonTaskContext_step. destruct callable; cbn [negb]; [|by intros [= _ <-]].
  unfold checked. destruct (StepName_new name) as [n|] eqn:En; cbn [map_err]; [|by intros [= _ <-]].
  destruct (step _ _ _ _ _ _ _ d) as [d1 r] eqn:Es. destruct (operation d) as [d2 [heap outcome]] eqn:Eo.
  cbn [fst snd]. intros H. apply name_new_ok in En as Hn. destruct Hn as [-> _].
  destruct r as [v|failure].
  - injection H as _ H. unfold to_python in H. destruct (pythonize v); [done|]. cbn in H. injection H as <-.
    split; [done|]. intros raised _ _ Hrun -> _ _. exfalso.
    eapply (step_operation_fails _ e x name occ (run_python_operation py display depythonize operation) d) in Hrun.
    2: { unfold run_python_operation. rewrite Eo. cbn. reflexivity. }
    by rewrite Hrun in Es.
  - injection H as _ <-. split.
    + destruct (if operation_runs _ _ _ _ _ _ then _ else None) as [error'|] eqn:Ec; cbn [default].
      * destruct (operation_runs _ _ _ _ _ _); [|done]. by eapply raised_class.
      * apply handler_error_class. eapply step_suspends_as_operation; [|exact Es].
        intros. by eapply operation_never_suspends.
    + intros raised _ _ Hrun -> He Hs. rewrite Hrun. unfold Python.raised, keep. by rewrite He, Hs.
Qed.
End Errors.

(** ** Durations *)

Lemma round_ties_even_near n m : 0 < m -> 2 * Z.abs (round_ties_even n m * m - n) <= m.
Proof.
  intros Hm. unfold round_ties_even. pose proof (Z.div_mod n m ltac:(lia)) as Hd. pose proof (Z.mod_pos_bound n m Hm).
  set (q := n / m) in *. set (r := n mod m) in *. clearbody q r. subst n.
  destruct (Z.compare_spec (2 * r) m); [destruct (Z.even q)|..]; nia.
Qed.

Lemma round_ties_even_le n m k : 0 < m -> n <= k * m -> round_ties_even n m <= k.
Proof.
  intros Hm Hn. unfold round_ties_even. pose proof (Z.div_mod n m ltac:(lia)) as Hd.
  pose proof (Z.mod_pos_bound n m Hm). set (q := n / m) in *. set (r := n mod m) in *. clearbody q r. subst n.
  assert (q <= k) by nia. destruct (Z.compare_spec (2 * r) m); [destruct (Z.even q)|..]; nia.
Qed.

Lemma round_ties_even_nonneg n m : 0 < m -> 0 <= n -> 0 <= round_ties_even n m.
Proof.
  intros Hm Hn. unfold round_ties_even. pose proof (Z.div_pos n m Hn Hm).
  destruct (2 * (n mod m) ?= m); [destruct (Z.even _)|..]; lia.
Qed.

(** [Duration::try_from_secs_f64] accepts exactly the floats that are
    not negative, finite and below 2^64 seconds, and gives the duration that is at
    most half a nanosecond off. *)
Lemma try_from_secs_f64_bounds m e :
  let numerator := Zpos m * 2 ^ Z.max e 0 in
  let denominator := 2 ^ Z.max (- e) 0 in
  match try_from_secs_f64 (S754_finite false m e) with
  | Ok duration => numerator < 2 ^ 64 * denominator /\ 0 <= duration <= 2 ^ 64 * NANOS_PER_SEC /\
      2 * Z.abs (duration * denominator - numerator * NANOS_PER_SEC) <= denominator
  | Err error => 2 ^ 64 * denominator <= numerator /\ error = OverflowOrNan
  end.
Proof.
  cbn zeta. unfold try_from_secs_f64. assert (0 < 2 ^ Z.max (- e) 0) as Hd by (apply Z.pow_pos_nonneg; lia).
  assert (0 < 2 ^ Z.max e 0) as Hn by (apply Z.pow_pos_nonneg; lia).
  set (numerator := _ * _) in *. set (denominator := 2 ^ Z.max (- e) 0) in *.
  assert (0 <= numerator) by (unfold numerator; nia).
  case_Z; [done|]. unfold NANOS_PER_SEC. split_and!; [lia| | |].
  - apply round_ties_even_nonneg; lia.
  - apply round_ties_even_le; nia.
  - by apply round_ties_even_near.
Qed.

(** ** The options of a worker *)

Section Worker.
Context (py : Interpreter) (display : PyObject -> rstring).
Context {PyAny : Type} (depythonize : PyAny -> result rstring Value).
Context {SocketAddr : Type} (parse_address : rstring -> result rstring SocketAddr).
Context `{!Display NameError} `{!Display TryFromFloatSecsError} `{!Display PostgresError} `{!Display WorkerError}.

Lemma register_handlers span (handlers : list (@PythonHandler PyAny)) :
  handlers <> [] -> registry_capabilities (worker_registry py display depythonize span handlers) <> [].
Proof.
  destruct handlers as [|handler handlers _] using rev_ind; [done|]. intros _.
  unfold worker_registry, registry_capabilities. rewrite foldl_app. cbn. intros H%fmap_nil_inv.
  apply map_to_list_empty_iff in H. by apply insert_non_empty in H.
Qed.

Lemma seconds_nonneg s duration : seconds s = Ok duration -> 0 <= duration.
Proof.
  unfold seconds. destruct s as [b|[]| |[] m e]; try done.
  { by intros [= <-]. }
  pose proof (try_from_secs_f64_bounds m e) as H. intros Hd.
  destruct (try_from_secs_f64 _); [|done]. injection Hd as <-. by destruct H as (_ & [? _] & _).
Qed.

Lemma queue_names_kept names queues :
  collect (fun name => map_err value_error (QueueName_new name)) names = Ok queues -> queues = names.
Proof.
  revert queues. induction names as [|n names IH]; intros queues H; cbn in H; [by injection H as <-|].
  destruct (QueueName_new n) as [q|] eqn:E; cbn in H; [|done]. apply name_new_ok in E as [-> _].
  destruct (collect _ names) as [qs|]; cbn in H; [|done]. injection H as <-. f_equal. by apply IH.
Qed.

(** What [PythonWorker::new] makes of its arguments. *)
Lemma worker_made url names options (w : @PythonWorker PyAny SocketAddr) :
  0 <= wo_concurrency options -> PythonWorker_new parse_address url names (Ok options) = Ok w ->
  1 <= pw_concurrency w /\ 0 < pw_retention_interval w /\ 0 <= pw_poll_interval w /\ pw_queues w = names.
Proof.
  intros Hc H. unfold PythonWorker_new in H. cbn [map_err] in H. ok_inv. cbn.
  repeat match goal with
  | H : ok_or _ (nonzero (wo_concurrency _)) = Ok _ |- _ =>
      apply ok_or_inv in H; unfold nonzero in H; destruct (Z.eqb_spec (wo_concurrency a) 0); simplify_eq
  | H : seconds _ = Ok _ |- _ => apply seconds_nonneg in H
  | H : collect _ _ = Ok _ |- _ => apply queue_names_kept in H
  | H : is_zero _ = false |- _ => apply Z.eqb_neq in H
  end.
  split_and!; [lia..|done].
Qed.

(** Handlers may be registered in between. *)
Inductive registered (w : @PythonWorker PyAny SocketAddr) : @PythonWorker PyAny SocketAddr -> Prop :=
| registers name function version delay w' :
    PythonWorker_register name function version delay w = Ok w' -> registered w w'.

Lemma registered_config w w' : rtc registered w w' -> worker_config w' = worker_config w /\ pw_queues w' = pw_queues w.
Proof.
  induction 1 as [|w1 w2 w3 [name function version delay w' H] _ [IH1 IH2]]; [done|]. rewrite IH1, IH2.
  unfold PythonWorker_register in H. ok_inv. done.
Qed.

(** Which Python workers can run: a worker that [Worker(...)] accepted
    and that has at least one handler is started by [run] exactly if its lease is
    at least three milliseconds, its poll interval is not zero, and its queues are
    at least one and all different; everything else [Worker::new] checks is
    guaranteed by the constructor. *)
Theorem python_worker_runs span url names options w0 w :
  0 <= wo_concurrency options -> PythonWorker_new parse_address url names (Ok options) = Ok w0 ->
  rtc registered w0 w -> pw_handlers w <> [] ->
  (exists control, PythonWorker_run py display depythonize span (Ok tt) w = Ok control) <->
  from_millis 3 <= pw_lease_duration w0 /\ pw_poll_interval w0 <> 0 /\ names <> [] /\ NoDup names.
Proof.
  intros Hc Hnew Hr Hh. pose proof (worker_made _ _ _ _ Hc Hnew) as (Hcc & Hi & Hp & Hq).
  apply registered_config in Hr as [Hcfg Hqs]. unfold PythonWorker_run.
  rewrite bool_decide_eq_false_2 by done. cbn [map_err mbind result_bind]. rewrite Hcfg.
  pose proof (register_handlers span (pw_handlers w) Hh) as Hcap. set (registry := worker_registry _ _ _ _ _) in *.
  unfold Worker_new.
  cbn [worker_config cf_lease_duration cf_poll_interval cf_worker_heartbeat_interval cf_worker_ttl cf_queues
       cf_schedule_reconciliation_interval cf_retention_interval cf_supervisor_interval cf_concurrency
       cf_overload_protection op_minimum_concurrency cf_declared_schedules WorkerConfig_with_queues
       OverloadProtectionConfig_default find].
  rewrite Hq. destruct (Z.ltb_spec (pw_lease_duration w0) (from_millis 3)); [split; [by intros [??]|lia]|].
  unfold is_zero. destruct (Z.eqb_spec (pw_poll_interval w0) 0); [split; [by intros [??]|lia]|].
  change ((from_secs 10 <? from_millis 1) || (from_secs 30 <=? from_secs 10)) with false. cbn iota.
  change (from_secs 30 =? 0) with false. cbn iota. rewrite (proj2 (Z.eqb_neq (pw_retention_interval w0) 0)) by lia.
  change (from_secs 1 =? 0) with false. cbn iota. rewrite (proj2 (Z.ltb_ge (pw_concurrency w0) 1)) by lia.
  rewrite bool_decide_eq_false_2 by done. case_bool_decide; [split; [by intros [??]|naive_solver]|].
  destruct (has_duplicate_queues [] names) eqn:Ed.
  - split; [by intros [??]|]. intros (_ & _ & _ & Hnd). exfalso.
    assert (has_duplicate_queues [] names = false); [|congruence].
    apply has_duplicate_queues_spec. split; [done|]. intros q _. apply not_elem_of_nil.
  - apply has_duplicate_queues_spec in Ed as [Hnd _]. split; [done|]. intros _. by eexists.
Qed.
End Worker.

(** ** Witnesses *)

Definition demo_py : Interpreter := {| py_has_builtin_group := true; py_backport_imported := false |}.
Definition demo_heap : gmap Z PyObject := {[1 := new_object plain_exception (str "boom")]}.
Definition demo_raises : @PyCode Value := fun d => (d, (demo_heap, Finished (Err (Normalized 1)))).
#[local] Instance demo_name_text : Display NameError := fun _ => [].

Lemma python_step_errors_witness :
  pc_task_suspended (error_class demo_heap (Normalized 1)) = false.
Proof.
  apply (python_step_errors demo_py po_message (fun v : Value => Ok v) (fun v => Ok v)
           demo_text true false (demo_env 30 0) demo_context1 (str "charge") 0 demo_raises demo2 demo2
           (Normalized 1)).
  vm_compute. reflexivity.
Defined.

(** A second is the float 1.0. *)
Definition one_second : spec_float := S754_finite false 4503599627370496 (-52).
Definition demo_options : PythonWorkerOptions := {|
  wo_concurrency := 4; wo_poll_interval := one_second; wo_lease_duration := one_second;
  wo_health_address := None; wo_listener_url := None; wo_max_query_connections := 10;
  wo_max_listener_connections := 1; wo_retention_enabled := true; wo_retention_batch_size := 100;
  wo_retention_interval := one_second; wo_shutdown_grace := one_second |}.
Definition demo_parse_address (text : rstring) : result rstring unit := Err (str "invalid socket address").

#[local] Instance demo_secs_text : Display TryFromFloatSecsError := fun _ => [].
#[local] Instance demo_postgres_text : Display PostgresError := fun _ => [].
#[local] Instance demo_worker_text : Display WorkerError := fun _ => [].

Definition demo_worker0 : @PythonWorker Value unit :=
  match PythonWorker_new demo_parse_address [] [str "default"] (Ok demo_options) with
  | Ok w => w
  | Err _ => {| pw_concurrency := 0; pw_config := StoreConfig_new []; pw_handlers := []; pw_lease_duration := 0;
                pw_poll_interval := 0; pw_retention_enabled := false; pw_retention_batch_size := 0;
                pw_retention_interval := 0; pw_shutdown_grace := 0; pw_health_address := None; pw_queues := [] |}
  end.
Definition demo_worker1 : @PythonWorker Value unit :=
  match PythonWorker_register (str "mail") (fun _ _ => demo_raises) 1 (Some one_second) demo_worker0 with
  | Ok w => w
  | Err _ => demo_worker0
  end.

Lemma python_worker_runs_witness :
  (exists control, PythonWorker_run demo_py po_message (fun v : Value => Ok v) [] (Ok tt) demo_worker1 = Ok control) <->
  from_millis 3 <= pw_lease_duration demo_worker0 /\ pw_poll_interval demo_worker0 <> 0 /\
  [str "default"] <> [] /\ NoDup [str "default"].
Proof.
  apply (python_worker_runs demo_py po_message (fun v : Value => Ok v) demo_parse_address [] [] [str "default"]
           demo_options).
  - vm_compute. discriminate.
  - vm_compute. reflexivity.
  - apply rtc_once, (registers demo_worker0 (str "mail") (fun _ _ => demo_raises) 1 (Some one_second)).
    vm_compute. reflexivity.
  - vm_compute. discriminate.
Defined.
