(* ===== verification/WebModel.v ===== *)
(** The queries of the web console: [pgtask-web/src/model.rs], on the views of
    migration 0001.

    A query is a function of the database at [now].  Text is ordered by its
    bytes; rows of the same [created_at] come in some order, here the order of
    the table.  [jsonb_text] is [jsonb::text]. *)

From stdpp Require Import sorting.
From S2P Require Import Prelude Text Identifier Json TaskTypes Outcome Rows Tables Protocol Fleet Store.

(** ** Pages *)

Definition PAGE_SIZE : nat := 100.

Record Page (T C : Type) := { pg_items : list T; pg_next : option C }.
Arguments pg_items {T C} _.
Arguments pg_next {T C} _.

Section Paginate.
Context {T C : Type} (key : T -> C) (before : C -> C -> Prop) {before_dec : RelDecision before}.

(** [WHERE $1 IS NULL OR key > $1 ORDER BY key LIMIT 101]. *)
Definition row_le (a b : T) : Prop := ~ before (key b) (key a).
Global Instance row_le_dec : RelDecision row_le.
Proof using before_dec. intros a b. unfold row_le. apply _. Defined.
Definition is_after (after : option C) (row : T) : Prop :=
  match after with Some a => before a (key row) | None => True end.
Global Instance is_after_dec after row : Decision (is_after after row).
Proof using before_dec. destruct after; cbn; apply _. Defined.
Definition select_page (after : option C) (rows : list T) : list T :=
  take 101 (merge_sort row_le (filter (is_after after) rows)).

(** What each [page] does with the rows it fetched. *)
Definition make_page (items : list T) : Page T C :=
  let has_more := (PAGE_SIZE <? length items)%nat in
  let items := take PAGE_SIZE items in
  {| pg_items := items; pg_next := if has_more then key <$> last items else None |}.
Definition paginate (after : option C) (rows : list T) : Page T C := make_page (select_page after rows).
End Paginate.

Definition name_before (a b : list Z) : Prop := str_compare a b = Lt.
Global Instance name_before_dec : RelDecision name_before.
Proof. intros a b. unfold name_before. apply _. Defined.

(** [(started_at, id) < ($1, $2)], which is what comes after in the order of workers. *)
Definition worker_before (a b : time * uuid) : Prop := b.1 < a.1 \/ (b.1 = a.1 /\ b.2 < a.2).
Global Instance worker_before_dec : RelDecision worker_before.
Proof. intros a b. unfold worker_before. apply _. Defined.

(** ** Queues *)

Record QueueSummary := {
  qs_name : rstring;
  qs_paused_at : option time;
  qs_pending_count : Z;
  qs_ready_count : Z;
  qs_routable_count : Z;
  qs_unroutable_count : Z;
  qs_running_count : Z;
  qs_waiting_count : Z;
  qs_terminal_count : Z;
  qs_outstanding_count : Z;
  qs_max_outstanding_tasks : option Z;
  qs_starvation_timeout_seconds : Z;
}.

(** The tasks of a queue, of [LEFT JOIN pgtask.tasks]. *)
Definition tasks_in (queue : rstring) (d : Db) : list (uuid * TaskRec) :=
  filter (fun kt : uuid * TaskRec => k_queue_name kt.2 = queue) (map_to_list (tasks d)).
Definition count_state (s : TaskState) (l : list (uuid * TaskRec)) : Z :=
  count_where (fun kt => bool_decide (k_state kt.2 = s)) l.

(** A row of [pgtask.queue_overview]. *)
Definition queue_overview (now : time) (d : Db) (row : list Z * QueueRec) : QueueSummary :=
  let l := tasks_in row.1 d in
  let ready kt := bool_decide (k_state kt.2 = Pending) && (k_run_at kt.2 <=? now)
                  && bool_decide (u_paused_at row.2 = None) in {|
  qs_name := row.1;
  qs_paused_at := u_paused_at row.2;
  qs_pending_count := count_state Pending l;
  qs_ready_count := count_where ready l;
  qs_routable_count := count_where (fun kt => ready kt && routable now d kt.2) l;
  qs_unroutable_count := count_where (fun kt => ready kt && negb (routable now d kt.2)) l;
  qs_running_count := count_state Running l;
  qs_waiting_count := count_state Waiting l;
  qs_terminal_count := count_where (fun kt => is_terminal (k_state kt.2)) l;
  qs_outstanding_count := count_where (fun kt => outstanding (k_state kt.2)) l;
  qs_max_outstanding_tasks := u_max row.2;
  qs_starvation_timeout_seconds := u_starvation row.2 |}.

Definition queue_rows (now : time) (d : Db) : list QueueSummary :=
  map (queue_overview now d) (map_to_list (queues d)).
Definition QueueSummary_page (now : time) (after : option rstring) (d : Db) : Page QueueSummary (list Z) :=
  paginate qs_name name_before after (queue_rows now d).

(** ** Tasks *)

Record TaskSummary := {
  ts_id : uuid;
  ts_queue_name : rstring;
  ts_task_name : rstring;
  ts_state : rstring;
  ts_attempt : Z;
  ts_created_at : time;
  ts_completed_at : option time;
}.

Section Queries.
(** How the database folds the case of a character, and [jsonb::text]. *)
Context (fold_case : char -> char) (jsonb_text : Value -> rstring).

Definition same_letter (a b : char) : bool := fold_case a =? fold_case b.

(** [text ILIKE pattern]: [%] is any text, [_] any character, a backslash
    quotes the character that follows. *)
Fixpoint ilike (pattern text : rstring) : bool :=
  match pattern with
  | [] => bool_decide (text = [])
  | c :: pattern' =>
      if c =? 37 then
        (fix any (text : rstring) : bool :=
           ilike pattern' text || match text with [] => false | _ :: text' => any text' end) text
      else match text with
           | [] => false
           | x :: text' =>
               if c =? 95 then ilike pattern' text'
               else if c =? 92 then
                 match pattern' with
                 | [] => false
                 | c' :: pattern'' => same_letter c' x && ilike pattern'' text'
                 end
               else same_letter c x && ilike pattern' text'
           end
  end.

Definition matches_search (query : option rstring) (kt : uuid * TaskRec) : bool :=
  match query with
  | None => true
  | Some q => ilike (str "%" ++ q ++ str "%") (sp_task_name (k_spec kt.2)) || bool_decide (uuid_text kt.1 = q)
  end.

Definition created_desc (a b : uuid * TaskRec) : Prop := sp_created_at (k_spec b.2) <= sp_created_at (k_spec a.2).
Global Instance created_desc_dec : RelDecision created_desc.
Proof. intros a b. unfold created_desc. apply _. Defined.

Definition task_summary (kt : uuid * TaskRec) : TaskSummary := {|
  ts_id := kt.1; ts_queue_name := k_queue_name kt.2; ts_task_name := sp_task_name (k_spec kt.2);
  ts_state := state_as_str (k_state kt.2); ts_attempt := k_attempt kt.2;
  ts_created_at := sp_created_at (k_spec kt.2); ts_completed_at := k_completed_at kt.2 |}.
Definition TaskSummary_search (query : option rstring) (d : Db) : list TaskSummary :=
  map task_summary (take 100 (merge_sort created_desc
    (filter (fun kt => matches_search query kt = true) (map_to_list (tasks d))))).

(** *** One task *)

Record Attempt := {
  at_number : Z;
  at_state : rstring;
  at_started_at : time;
  at_finished_at : option time;
  at_error : option rstring;
}.
Record WebCheckpoint := {
  wcp_step_name : rstring;
  wcp_occurrence : Z;
  wcp_value : rstring;
  wcp_created_at : time;
}.
Record WebSignal := {
  wsg_name : rstring;
  wsg_occurrence : Z;
  wsg_value : rstring;
  wsg_created_at : time;
}.
Record AdministratorAudit := {
  aa_actor : rstring;
  aa_action : rstring;
  aa_occurred_at : time;
}.
Record TaskDetail := {
  td_id : uuid;
  td_parent_task_id : option uuid;
  td_queue_name : rstring;
  td_task_name : rstring;
  td_handler_version : Z;
  td_state : rstring;
  td_attempt : Z;
  td_max_attempts : Z;
  td_payload : rstring;
  td_result : option rstring;
  td_error : option rstring;
  td_run_at : time;
  td_created_at : time;
  td_completed_at : option time;
  td_attempts : list Attempt;
  td_checkpoints : list WebCheckpoint;
  td_signals : list WebSignal;
  td_administrator_audit : list AdministratorAudit;
}.

Definition attempt_as_str (s : AttemptState) : rstring :=
  match s with
  | ARunning => str "running"
  | ASucceeded => str "succeeded"
  | AFailed => str "failed"
  | ALost => str "lost"
  | ACancelled => str "cancelled"
  | ASuspended => str "suspended"
  | AReleased => str "released"
  end.

(** [ORDER BY f]. *)
Definition by_key {A} (f : A -> Z) (a b : A) : Prop := f a <= f b.
Global Instance by_key_dec {A} (f : A -> Z) : RelDecision (by_key f).
Proof. intros a b. unfold by_key. apply _. Defined.
Definition sort_by {A} (f : A -> Z) (l : list A) : list A := merge_sort (by_key f) l.

Definition attempts_of (task_id : uuid) (d : Db) : list Attempt :=
  sort_by at_number (map (fun ka : (Z * Z) * AttemptRec => {|
      at_number := ka.1.2; at_state := attempt_as_str (a_state ka.2); at_started_at := a_started_at ka.2;
      at_finished_at := a_finished_at ka.2; at_error := jsonb_text <$> a_error ka.2 |})
    (filter (fun ka : (Z * Z) * AttemptRec => ka.1.1 = task_id) (map_to_list (attempts d)))).
Definition checkpoints_of (task_id : uuid) (d : Db) : list WebCheckpoint :=
  sort_by wcp_created_at (map (fun kc : StepKey * CheckpointRec => {|
      wcp_step_name := kc.1.1.2; wcp_occurrence := kc.1.2; wcp_value := jsonb_text (c_value kc.2);
      wcp_created_at := c_created_at kc.2 |})
    (filter (fun kc : StepKey * CheckpointRec => step_task kc.1 = task_id) (map_to_list (checkpoints d)))).
Definition signals_of (task_id : uuid) (d : Db) : list WebSignal :=
  sort_by wsg_created_at (map (fun ks : (Z * list Z * Z) * CheckpointRec => {|
      wsg_name := ks.1.1.2; wsg_occurrence := ks.1.2; wsg_value := jsonb_text (c_value ks.2);
      wsg_created_at := c_created_at ks.2 |})
    (filter (fun ks : (Z * list Z * Z) * CheckpointRec => ks.1.1.1 = task_id) (map_to_list (signals d)))).
Definition audit_where (p : AuditRec -> bool) (d : Db) : list AdministratorAudit :=
  sort_by aa_occurred_at (map (fun a => {|
      aa_actor := au_actor a; aa_action := au_action a; aa_occurred_at := au_occurred_at a |})
    (filter (fun a => p a = true) (audit d))).

Definition TaskDetail_load (task_id : uuid) (d : Db) : option TaskDetail :=
  (fun t => {|
     td_id := task_id; td_parent_task_id := k_parent t; td_queue_name := k_queue_name t;
     td_task_name := sp_task_name (k_spec t); td_handler_version := sp_handler_version (k_spec t);
     td_state := state_as_str (k_state t); td_attempt := k_attempt t; td_max_attempts := k_max_attempts t;
     td_payload := jsonb_text (sp_payload (k_spec t)); td_result := jsonb_text <$> k_result t;
     td_error := jsonb_text <$> k_error t; td_run_at := k_run_at t; td_created_at := sp_created_at (k_spec t);
     td_completed_at := k_completed_at t; td_attempts := attempts_of task_id d;
     td_checkpoints := checkpoints_of task_id d; td_signals := signals_of task_id d;
     td_administrator_audit := audit_where (fun a => bool_decide (au_task a = Some task_id)) d |})
  <$> tasks d !! task_id.

(** ** Schedules *)

Record ScheduleSummary := {
  ss_id : uuid;
  ss_name : rstring;
  ss_kind : rstring;
  ss_queue_name : rstring;
  ss_task_name : rstring;
  ss_next_run_at : time;
  ss_paused_at : option time;
}.

Definition schedule_summary (row : Z * ScheduleRow) : ScheduleSummary := {|
  ss_id := row.1; ss_name := sr_name row.2; ss_kind := sr_kind row.2; ss_queue_name := sr_queue_name row.2;
  ss_task_name := sr_task_name row.2; ss_next_run_at := sr_next_run_at row.2; ss_paused_at := sr_paused_at row.2 |}.
Definition ScheduleSummary_page (after : option rstring) (d : Db) : Page ScheduleSummary (list Z) :=
  paginate ss_name name_before after (map schedule_summary (map_to_list (schedules d))).
Definition ScheduleSummary_count (d : Db) : Z := Z.of_nat (size (schedules d)).

Record ScheduleOccurrence := {
  so_scheduled_for : time;
  so_task_id : uuid;
  so_state : rstring;
  so_created_at : time;
  so_completed_at : option time;
}.
Record ScheduleDetail := {
  sd_schedule : ScheduleSummary;
  sd_occurrences : list ScheduleOccurrence;
  sd_administrator_audit : list AdministratorAudit;
}.

Definition occurrences_of (schedule_id : uuid) (d : Db) : list ScheduleOccurrence :=
  take 100 (sort_by (fun o => - so_scheduled_for o) (omap (fun kt : uuid * TaskRec =>
    match sp_scheduled (k_spec kt.2) with
    | Some (schedule, scheduled_for) =>
        if bool_decide (schedule = schedule_id)
        then Some {| so_scheduled_for := scheduled_for; so_task_id := kt.1; so_state := state_as_str (k_state kt.2);
                     so_created_at := sp_created_at (k_spec kt.2); so_completed_at := k_completed_at kt.2 |}
        else None
    | None => None
    end) (map_to_list (tasks d)))).

Definition ScheduleDetail_load (schedule_id : uuid) (d : Db) : option ScheduleDetail :=
  (fun row => {| sd_schedule := schedule_summary (schedule_id, row); sd_occurrences := occurrences_of schedule_id d;
                 sd_administrator_audit := audit_where (fun a => bool_decide (au_schedule a = Some schedule_id)) d |})
  <$> schedules d !! schedule_id.

(** ** Workers *)

Record WorkerSummary := {
  ws_id : uuid;
  ws_queue_name : rstring;
  ws_version : rstring;
  ws_draining : bool;
  ws_live : bool;
  ws_started_at : time;
  ws_heartbeat_at : time;
  ws_expires_at : time;
}.

Definition worker_summary (now : time) (row : Z * WorkerRow) : WorkerSummary := {|
  ws_id := row.1; ws_queue_name := wk_queue_name row.2; ws_version := wk_version row.2;
  ws_draining := wk_draining row.2; ws_live := live now row.2; ws_started_at := wk_started_at row.2;
  ws_heartbeat_at := wk_heartbeat_at row.2; ws_expires_at := wk_expires_at row.2 |}.
Definition worker_cursor (w : WorkerSummary) : time * uuid := (ws_started_at w, ws_id w).
Definition worker_rows (now : time) (d : Db) : list WorkerSummary :=
  map (worker_summary now) (map_to_list (workers d)).
Definition WorkerSummary_page (now : time) (after : option (time * uuid)) (d : Db) : Page WorkerSummary (time * uuid) :=
  paginate worker_cursor worker_before after (worker_rows now d).
Definition WorkerSummary_count (d : Db) : Z := Z.of_nat (size (workers d)).

Record Capability := { cy_task_name : rstring; cy_handler_version : Z }.
Record WorkerDetail := { wd_worker : WorkerSummary; wd_capabilities : list Capability }.
Definition WorkerDetail_load (now : time) (worker_id : uuid) (d : Db) : option WorkerDetail :=
  (fun row => {| wd_worker := worker_summary now (worker_id, row);
                 wd_capabilities := map (fun c => {| cy_task_name := c.1; cy_handler_version := c.2 |})
                                      (capabilities_of worker_id d) |})
  <$> workers d !! worker_id.

(** ** The dashboard *)

Record Dashboard := {
  db_queues : Page QueueSummary (list Z);
  db_tasks : list TaskSummary;
  db_schedule_count : Z;
  db_worker_count : Z;
}.
Definition Dashboard_load (now : time) (after : option rstring) (d : Db) : Dashboard := {|
  db_queues := QueueSummary_page now after d; db_tasks := TaskSummary_search None d;
  db_schedule_count := ScheduleSummary_count d; db_worker_count := WorkerSummary_count d |}.
End Queries.
