(* ===== verification/Pages.v ===== *)
(** The pages of the web console: [pgtask-web/src/pages.rs].

    A page is a list of pieces: literals of the source, numbers, ids and times,
    and strings that [html_escape] encodes as text or as an attribute; [render]
    is the text that is sent.  [format] is [format!] with its arguments in the
    order of the placeholders.  In a literal of this file an apostrophe stands
    for the double quote of the source, which has no apostrophes. *)

From S2P Require Import Prelude Text Identifier Json TaskTypes Outcome Rows Tables Protocol Fleet Store WebModel.

Inductive Piece : Type :=
| Literal (s : rstring)
| EncodedText (s : rstring)
| EncodedAttribute (s : rstring)
| Number (n : Z)
| Id (id : uuid)
| Millis (t : time)
| Nanos (t : time).

Abbreviation Html := (list Piece) (only parsing).

Definition literal (lines : list string) : rstring :=
  map (fun c => if c =? 39 then 34 else c) (flat_map str lines).

Fixpoint format_from (literal_rev : rstring) (template : rstring) (arguments : list Html) : Html :=
  match template with
  | [] => [Literal (rev literal_rev)]
  | c :: template' =>
      match template' with
      | c' :: template'' =>
          if (c =? 123) && (c' =? 125) then
            Literal (rev literal_rev) ::
            match arguments with
            | argument :: arguments' => argument ++ format_from [] template'' arguments'
            | [] => format_from [] template'' []
            end
          else format_from (c :: literal_rev) template' arguments
      | [] => [Literal (rev (c :: literal_rev))]
      end
  end.
Definition format (lines : list string) (arguments : list Html) : Html := format_from [] (literal lines) arguments.

Definition lit (s : string) : Html := [Literal (str s)].
Definition encode_text (s : rstring) : Html := [EncodedText s].
Definition encode_double_quoted_attribute (s : rstring) : Html := [EncodedAttribute s].
Definition number (n : Z) : Html := [Number n].
Definition boolean (b : bool) : Html := lit (if b then "true" else "false").
Definition uuid_ (id : uuid) : Html := [Id id].

Module pages.

Definition STYLE : list string :=
  ["body{font:15px system-ui;max-width:1200px;margin:0 auto;padding:24px;color:#17202a}";
   "nav{display:flex;gap:16px;margin-bottom:24px}a{color:#075985}";
   "table{width:100%;border-collapse:collapse;margin:12px 0 28px}";
   "th,td{text-align:left;padding:8px;border-bottom:1px solid #d5d8dc;vertical-align:top}";
   "th{font-size:13px;color:#566573}code,pre{font:13px ui-monospace,monospace}";
   "pre{white-space:pre-wrap;background:#f4f6f7;padding:12px;border-radius:6px}";
   ".state{font-weight:600}.muted{color:#707b7c}";
   ".grid{display:grid;grid-template-columns:repeat(auto-fit,minmax(240px,1fr));gap:16px}";
   ".card{border:1px solid #d5d8dc;border-radius:8px;padding:16px}.card h2{margin-top:0}";
   "input{padding:8px;width:min(420px,80%)}button{padding:8px;margin-right:8px}";
   ".actions{display:flex;gap:8px}.pagination{display:flex;justify-content:flex-end;margin:0 0 28px}"].

Definition layout (title : rstring) (body : Html) : Html :=
  format
    ["<!doctype html><html lang='en'><head><meta charset='utf-8'>";
     "<meta name='viewport' content='width=device-width,initial-scale=1'><title>{}</title><style>";
     "{}</style></head><body><nav><strong>pgtask</strong><a href='/'>Queues</a><a href='/tasks'>";
     "Tasks</a><a href='/schedules'>Schedules</a><a href='/workers'>Workers</a></nav>{}</body></html>"]
    [encode_text title; [Literal (literal STYLE)]; body].

Definition time_ (value : time) : Html := [Millis value].
Definition optional_time (value : option time) : Html :=
  match value with Some t => time_ t | None => lit "-" end.

(** ** Rows *)

Definition queue_row (queue : QueueSummary) : Html :=
  let status := lit (match qs_paused_at queue with Some _ => "paused" | None => "active" end) in
  let capacity := match qs_max_outstanding_tasks queue with
                  | None => format ["{}/unlimited"] [number (qs_outstanding_count queue)]
                  | Some maximum => format ["{}/{}"] [number (qs_outstanding_count queue); number maximum]
                  end in
  format
    ["<tr><td>{}</td><td class='state'>{}</td><td>{}</td><td>{}</td><td>{}</td><td>{}</td><td>{}</td>";
     "<td>{}</td><td>{}</td><td>{}</td><td>{}s</td></tr>"]
    [encode_text (qs_name queue); status; number (qs_pending_count queue); number (qs_ready_count queue);
     number (qs_routable_count queue); number (qs_unroutable_count queue); number (qs_running_count queue);
     number (qs_waiting_count queue); number (qs_terminal_count queue); capacity;
     number (qs_starvation_timeout_seconds queue)].
Definition queue_rows (queues : list QueueSummary) : Html := flat_map queue_row queues.

Definition task_row (task : TaskSummary) : Html :=
  format
    ["<tr><td><a href='/tasks/{}'><code>{}</code></a></td><td>{}</td><td>{}</td><td class='state'>";
     "{}</td><td>{}</td><td>{}</td><td>{}</td></tr>"]
    [uuid_ (ts_id task); uuid_ (ts_id task); encode_text (ts_queue_name task); encode_text (ts_task_name task);
     encode_text (ts_state task); number (ts_attempt task); time_ (ts_created_at task);
     optional_time (ts_completed_at task)].
Definition task_rows (tasks : list TaskSummary) : Html := flat_map task_row tasks.

Definition schedule_row (schedule : ScheduleSummary) : Html :=
  let status := lit (match ss_paused_at schedule with Some _ => "paused" | None => "active" end) in
  format
    ["<tr><td><a href='/schedules/{}'>{}</a></td><td>{}</td><td>{}</td><td>{}</td><td>{}</td>";
     "<td class='state'>{}</td></tr>"]
    [uuid_ (ss_id schedule); encode_text (ss_name schedule); encode_text (ss_kind schedule);
     encode_text (ss_queue_name schedule); encode_text (ss_task_name schedule);
     time_ (ss_next_run_at schedule); status].
Definition schedule_rows (schedules : list ScheduleSummary) : Html := flat_map schedule_row schedules.

Definition worker_row (worker : WorkerSummary) : Html :=
  let status := lit (if ws_live worker then "live" else "expired") in
  format
    ["<tr><td><a href='/workers/{}'><code>{}</code></a></td><td>{}</td><td>{}</td><td class='state'>";
     "{}</td><td>{}</td><td>{}</td><td>{}</td></tr>"]
    [uuid_ (ws_id worker); uuid_ (ws_id worker); encode_text (ws_queue_name worker);
     encode_text (ws_version worker); status; boolean (ws_draining worker); time_ (ws_heartbeat_at worker);
     time_ (ws_expires_at worker)].
Definition worker_rows (workers : list WorkerSummary) : Html := flat_map worker_row workers.

(** ** Pages *)

Definition dashboard (data : Dashboard) : Html :=
  let pagination := match pg_next (db_queues data) with
                    | None => []
                    | Some cursor =>
                        format
                          ["<div class='pagination'><a href='/?after={}'>Next page</a></div>"]
                          [encode_double_quoted_attribute cursor]
                    end in
  layout (str "pgtask queues") (format
    ["<h1>Queues</h1><table><thead><tr><th>Queue</th><th>Status</th><th>Pending</th><th>Ready</th><th>";
     "Routable</th><th>Unroutable</th><th>Running</th><th>Waiting</th><th>Terminal</th><th>";
     "Capacity</th><th>Starvation rescue</th></tr></thead><tbody>{}</tbody></table>";
     "{}<div class='grid'><div class='card'><h2>Recent tasks</h2><p>{} visible</p><a href='/tasks'>";
     "Inspect tasks</a></div><div class='card'><h2>Schedules</h2><p>{} configured</p>";
     "<a href='/schedules'>Inspect schedules</a></div><div class='card'><h2>Workers</h2><p>";
     "{} registered</p><a href='/workers'>Inspect workers</a></div></div>"]
    [queue_rows (pg_items (db_queues data)); pagination; number (len (db_tasks data));
     number (db_schedule_count data); number (db_worker_count data)]).

Definition tasks (tasks : list TaskSummary) (query : option rstring) : Html :=
  layout (str "pgtask tasks") (format
    ["<h1>Tasks</h1><form method='get'><input name='query' value='{}' placeholder='Task name or task ";
     "ID'><button type='submit'>Search</button></form><table><thead><tr><th>ID</th><th>Queue</th><th>";
     "Task</th><th>State</th><th>Attempt</th><th>Created</th><th>Completed</th></tr></thead><tbody>";
     "{}</tbody></table>"]
    [encode_double_quoted_attribute (default [] query); task_rows tasks]).

Definition attempt_row (attempt : Attempt) : Html :=
  format
    ["<tr><td>{}</td><td>{}</td><td>{}</td><td>{}</td><td><pre>{}</pre></td></tr>"]
    [number (at_number attempt); encode_text (at_state attempt); time_ (at_started_at attempt);
     optional_time (at_finished_at attempt); encode_text (default [] (at_error attempt))].
Definition checkpoint_row (checkpoint : WebCheckpoint) : Html :=
  format
    ["<tr><td>{}</td><td>{}</td><td><pre>{}</pre></td><td>{}</td></tr>"]
    [encode_text (wcp_step_name checkpoint); number (wcp_occurrence checkpoint);
     encode_text (wcp_value checkpoint); time_ (wcp_created_at checkpoint)].
Definition signal_row (signal : WebSignal) : Html :=
  format
    ["<tr><td>{}</td><td>{}</td><td><pre>{}</pre></td><td>{}</td></tr>"]
    [encode_text (wsg_name signal); number (wsg_occurrence signal); encode_text (wsg_value signal);
     time_ (wsg_created_at signal)].
Definition audit_row (event : AdministratorAudit) : Html :=
  format
    ["<tr><td>{}</td><td>{}</td><td>{}</td></tr>"]
    [encode_text (aa_action event); encode_text (aa_actor event); time_ (aa_occurred_at event)].

Definition task (task : TaskDetail) (administrator : bool) : Html :=
  let parent := match td_parent_task_id task with
                | None => lit "root task"
                | Some parent_task_id =>
                    format
                      ["child of <a href='/tasks/{}'><code>{}</code></a>"]
                      [uuid_ parent_task_id; uuid_ parent_task_id]
                end in
  let attempt_rows := flat_map attempt_row (td_attempts task) in
  let checkpoint_rows := flat_map checkpoint_row (td_checkpoints task) in
  let signal_rows := flat_map signal_row (td_signals task) in
  let audit_rows := flat_map audit_row (td_administrator_audit task) in
  let actions := if administrator
                 then format
                   ["<h2>Administrator actions</h2><div class='actions'>";
                    "<form method='post' action='/admin/tasks/{}/cancel'><button type='submit'>Cancel</button></form>";
                    "<form method='post' action='/admin/tasks/{}/retry'><button type='submit'>Retry</button></form>";
                    "</div>"]
                   [uuid_ (td_id task); uuid_ (td_id task)]
                 else [] in
  layout (str "pgtask task") (format
    ["<h1><code>{}</code></h1><p><strong>{}</strong> on {} - {} v{} - attempt {}/{} - {}</p>";
     "<p class='muted'>Run {} - created {} - completed {}</p><h2>Payload</h2><pre>{}</pre><h2>";
     "Result</h2><pre>{}</pre><h2>Error</h2><pre>{}</pre><h2>Attempts</h2><table><tr><th>Attempt</th>";
     "<th>State</th><th>Started</th><th>Finished</th><th>Error</th></tr>{}</table><h2>Checkpoints</h2>";
     "<table><tr><th>Step</th><th>Occurrence</th><th>Value</th><th>Created</th></tr>{}</table><h2>";
     "Signals</h2><table><tr><th>Name</th><th>Occurrence</th><th>Value</th><th>Created</th></tr>";
     "{}</table><h2>Administrator audit</h2><table><tr><th>Action</th><th>Actor</th><th>Time</th></tr>";
     "{}</table>{}"]
    [uuid_ (td_id task); encode_text (td_state task); encode_text (td_queue_name task);
     encode_text (td_task_name task); number (td_handler_version task); number (td_attempt task);
     number (td_max_attempts task); parent; time_ (td_run_at task); time_ (td_created_at task);
     optional_time (td_completed_at task); encode_text (td_payload task);
     encode_text (default [] (td_result task)); encode_text (default [] (td_error task));
     attempt_rows; checkpoint_rows; signal_rows; audit_rows; actions]).

Definition schedules (schedules : list ScheduleSummary) (next : option rstring) : Html :=
  let pagination := match next with
                    | None => []
                    | Some cursor =>
                        format
                          ["<div class='pagination'><a href='/schedules?after={}'>Next page</a></div>"]
                          [encode_double_quoted_attribute cursor]
                    end in
  layout (str "pgtask schedules") (format
    ["<h1>Schedules</h1><table><tr><th>Name</th><th>Kind</th><th>Queue</th><th>Task</th><th>";
     "Next run</th><th>Status</th></tr>{}</table>{}"]
    [schedule_rows schedules; pagination]).

Definition occurrence_row (occurrence : ScheduleOccurrence) : Html :=
  format
    ["<tr><td>{}</td><td><a href='/tasks/{}'><code>{}</code></a></td><td>{}</td><td>{}</td><td>{}</td>";
     "</tr>"]
    [time_ (so_scheduled_for occurrence); uuid_ (so_task_id occurrence); uuid_ (so_task_id occurrence);
     encode_text (so_state occurrence); time_ (so_created_at occurrence);
     optional_time (so_completed_at occurrence)].

Definition schedule (detail : ScheduleDetail) (administrator : bool) : Html :=
  let rows := flat_map occurrence_row (sd_occurrences detail) in
  let audit_rows := flat_map audit_row (sd_administrator_audit detail) in
  let schedule := sd_schedule detail in
  let actions := if administrator
                 then format
                   ["<h2>Administrator actions</h2><div class='actions'>";
                    "<form method='post' action='/admin/schedules/{}/pause'><button type='submit'>Pause</button>";
                    "</form><form method='post' action='/admin/schedules/{}/resume'><button type='submit'>";
                    "Resume</button></form></div>"]
                   [uuid_ (ss_id schedule); uuid_ (ss_id schedule)]
                 else [] in
  layout (str "pgtask schedule") (format
    ["<h1>{}</h1><p>{} schedule for {} on {}. Next run: {}.</p><h2>Occurrences</h2><table><tr><th>";
     "Scheduled for</th><th>Task</th><th>State</th><th>Created</th><th>Completed</th></tr>{}</table>";
     "<h2>Administrator audit</h2><table><tr><th>Action</th><th>Actor</th><th>Time</th></tr>{}</table>";
     "{}"]
    [encode_text (ss_name schedule); encode_text (ss_kind schedule); encode_text (ss_task_name schedule);
     encode_text (ss_queue_name schedule); time_ (ss_next_run_at schedule); rows; audit_rows; actions]).

Definition workers (workers : list WorkerSummary) (next : option (time * uuid)) : Html :=
  let pagination := match next with
                    | None => []
                    | Some (started, id) =>
                        format
                          ["<div class='pagination'><a href='/workers?after_started={}&amp;after_id={}'>Next page</a></div>"]
                          [[Nanos started]; uuid_ id]
                    end in
  layout (str "pgtask workers") (format
    ["<h1>Workers</h1><table><tr><th>ID</th><th>Queue</th><th>Version</th><th>Status</th><th>";
     "Draining</th><th>Heartbeat</th><th>Expires</th></tr>{}</table>{}"]
    [worker_rows workers; pagination]).

Definition capability_row (capability : Capability) : Html :=
  format
    ["<tr><td>{}</td><td>{}</td></tr>"]
    [encode_text (cy_task_name capability); number (cy_handler_version capability)].

Definition worker (detail : WorkerDetail) : Html :=
  let rows := flat_map capability_row (wd_capabilities detail) in
  let worker := wd_worker detail in
  layout (str "pgtask worker") (format
    ["<h1><code>{}</code></h1><p>{} worker on {}. Version {}. Draining: {}.</p><p class='muted'>";
     "Heartbeat {} - expires {}</p><h2>Capabilities</h2><table><tr><th>Task</th><th>Version</th></tr>";
     "{}</table>"]
    [uuid_ (ws_id worker); lit (if ws_live worker then "Live" else "Expired");
     encode_text (ws_queue_name worker); encode_text (ws_version worker); boolean (ws_draining worker);
     time_ (ws_heartbeat_at worker); time_ (ws_expires_at worker); rows]).

Definition error (status : Z) (message : rstring) : Html :=
  layout (str "pgtask error") (format ["<h1>{}</h1><p>{}</p>"] [number status; encode_text message]).

End pages.
