(* ===== verification/Web.v ===== *)
(** The web console: the handlers and the routes of [pgtask-web/src/lib.rs], and
    what a page is as text.

    [html_escape], the text of a time and the parsers of paths and headers are
    parameters.  A request carries its query as [axum] parsed it; what [axum]
    answers itself (no such route, a path or a query that does not parse) is
    [Rejected]. *)

From S2P Require Import Prelude Text Identifier Json TaskTypes Outcome Rows Tables Protocol Fleet.
From S2P Require Import Store WebModel Pages.

(** ** Pages as text *)

(** [html_escape::encode_text] and [encode_double_quoted_attribute], and
    [to_rfc3339_opts] to milliseconds and nanoseconds. *)
Class Encoding := {
  encoded_text : rstring -> rstring;
  encoded_attribute : rstring -> rstring;
  rfc3339_millis : time -> rstring;
  rfc3339_nanos : time -> rstring;
}.

Section Render.
Context `{!Encoding}.

Definition signed_decimal (n : Z) : rstring := if n <? 0 then str "-" ++ decimal (- n) else decimal n.
Definition render_piece (p : Piece) : rstring :=
  match p with
  | Literal s => s
  | EncodedText s => encoded_text s
  | EncodedAttribute s => encoded_attribute s
  | Number n => signed_decimal n
  | Id id => uuid_text id
  | Millis t => rfc3339_millis t
  | Nanos t => rfc3339_nanos t
  end.
Definition render (page : list Piece) : rstring := flat_map render_piece page.
End Render.

(** ** Requests and responses *)

Record AdministratorConfig := { ad_actor_header : rstring }.
Definition AdministratorConfig_default : AdministratorConfig := {| ad_actor_header := str "x-pgtask-actor" |}.

Record AppState := { as_administrator : option AdministratorConfig }.

Inductive WebError : Type :=
| WebDatabase (code : rstring)
| WebNotFound
| InvalidCursor
| Unauthorized.

Inductive Response : Type :=
| HtmlPage (status : Z) (page : list Piece)
| PlainText (body : rstring)
| RedirectTo (location : rstring)
| Rejected.

Definition web_error_text (error : WebError) : rstring :=
  match error with
  | WebDatabase _ => str "database query failed"
  | WebNotFound => str "resource not found"
  | InvalidCursor => str "invalid pagination cursor"
  | Unauthorized => str "administrator identity is required"
  end.
Definition web_error_status (error : WebError) : Z :=
  match error with
  | WebDatabase _ => 500
  | WebNotFound => 404
  | InvalidCursor => 400
  | Unauthorized => 401
  end.
Definition into_response (error : WebError) : Response :=
  HtmlPage (web_error_status error) (pages.error (web_error_status error) (web_error_text error)).

Definition respond {A} (ok : A -> Response) (r : result WebError A) : Response :=
  match r with Ok a => ok a | Err error => into_response error end.
Definition html_page : list Piece -> Response := HtmlPage 200.

Inductive Method : Type := Get | Post.
Global Instance Method_eq_dec : EqDecision Method.
Proof. solve_decision. Defined.

Record Request := {
  rq_method : Method;
  rq_path : list rstring;
  rq_headers : rstring -> option rstring;
  rq_query : option rstring;
  rq_after : option rstring;
  rq_after_started : option time;
  rq_after_id : option uuid;
}.

(** ** Handlers *)

Section Handlers.
Context (fold_case : char -> char) (jsonb_text : Value -> rstring).
(** [HeaderValue::to_str], and the parser of a UUID in a path. *)
Context (to_str : rstring -> option rstring) (parse_uuid : rstring -> option uuid).

Definition dashboard (e : Env) (rq : Request) (d : Db) : Response :=
  html_page (pages.dashboard (Dashboard_load fold_case (e_now e) (rq_after rq) d)).
Definition health : Response := PlainText (str "healthy").
Definition tasks_page (rq : Request) (d : Db) : Response :=
  html_page (pages.tasks (TaskSummary_search fold_case (rq_query rq) d) (rq_query rq)).
Definition administrator_shown (state : AppState) : bool :=
  match as_administrator state with Some _ => true | None => false end.
Definition task_page (state : AppState) (task_id : uuid) (d : Db) : Response :=
  respond (fun detail => html_page (pages.task detail (administrator_shown state)))
    (ok_or WebNotFound (TaskDetail_load jsonb_text task_id d)).
Definition schedules_page (rq : Request) (d : Db) : Response :=
  let page := ScheduleSummary_page (rq_after rq) d in
  html_page (pages.schedules (pg_items page) (pg_next page)).
Definition schedule_page (state : AppState) (schedule_id : uuid) (d : Db) : Response :=
  respond (fun detail => html_page (pages.schedule detail (administrator_shown state)))
    (ok_or WebNotFound (ScheduleDetail_load schedule_id d)).
Definition workers_page (e : Env) (rq : Request) (d : Db) : Response :=
  respond (fun after => let page := WorkerSummary_page (e_now e) after d in
                        html_page (pages.workers (pg_items page) (pg_next page)))
    (match rq_after_started rq, rq_after_id rq with
     | Some started, Some id => Ok (Some (started, id))
     | None, None => Ok None
     | _, _ => Err InvalidCursor
     end).
Definition worker_page (e : Env) (worker_id : uuid) (d : Db) : Response :=
  respond (fun detail => html_page (pages.worker detail)) (ok_or WebNotFound (WorkerDetail_load (e_now e) worker_id d)).

Definition administrator_actor (state : AppState) (rq : Request) : result WebError rstring :=
  let? config := ok_or WebNotFound (as_administrator state) in
  ok_or Unauthorized
    (match rq_headers rq (ad_actor_header config) ≫= to_str with
     | Some actor => if bool_decide (actor = []) then None else Some actor
     | None => None
     end).

(** A statement of its own that says whether it changed something. *)
Definition changing (statement : Db -> stmt bool) (location : rstring) (d : Db) : Db * Response :=
  match statement d with
  | Err code => (d, into_response (WebDatabase code))
  | Ok (d', changed) => (d', if (changed : bool) then RedirectTo location else into_response WebNotFound)
  end.

Definition as_administrator_do (state : AppState) (rq : Request) (statement : rstring -> Db -> stmt bool)
    (location : rstring) (d : Db) : Db * Response :=
  match administrator_actor state rq with
  | Err error => (d, into_response error)
  | Ok actor => changing (statement actor) location d
  end.

Definition cancel_task (e : Env) (state : AppState) (task_id : uuid) (rq : Request) : Db -> Db * Response :=
  as_administrator_do state rq (fun actor => admin_cancel_task e task_id actor)
    (str "/tasks/" ++ uuid_text task_id).
Definition retry_task (e : Env) (state : AppState) (task_id : uuid) (rq : Request) : Db -> Db * Response :=
  as_administrator_do state rq (fun actor => admin_retry_task e task_id actor)
    (str "/tasks/" ++ uuid_text task_id).
Definition set_schedule_paused (e : Env) (state : AppState) (schedule_id : uuid) (rq : Request) (paused : bool)
    : Db -> Db * Response :=
  as_administrator_do state rq (fun actor => admin_set_schedule_paused e schedule_id paused actor)
    (str "/schedules/" ++ uuid_text schedule_id).
Definition pause_schedule (e : Env) (state : AppState) (schedule_id : uuid) (rq : Request) : Db -> Db * Response :=
  set_schedule_paused e state schedule_id rq true.
Definition resume_schedule (e : Env) (state : AppState) (schedule_id : uuid) (rq : Request) : Db -> Db * Response :=
  set_schedule_paused e state schedule_id rq false.

(** ** Routes *)

Inductive Handler : Type :=
| Reads (handler : Env -> AppState -> Request -> Db -> Response)
| ReadsOne (handler : Env -> AppState -> uuid -> Request -> Db -> Response)
| Changes (handler : Env -> AppState -> uuid -> Request -> Db -> Db * Response).

(** A segment of a path: a text, or [{id}]. *)
Inductive Segment : Type := Static (s : rstring) | Capture.

Record Route := { rt_method : Method; rt_path : list Segment; rt_handler : Handler }.

Definition get (path : list Segment) (handler : Handler) : Route :=
  {| rt_method := Get; rt_path := path; rt_handler := handler |}.
Definition post (path : list Segment) (handler : Handler) : Route :=
  {| rt_method := Post; rt_path := path; rt_handler := handler |}.
Definition seg (s : string) : Segment := Static (str s).

Definition build_application (administrator : option AdministratorConfig) : list Route :=
  [get [] (Reads (fun e _ rq d => dashboard e rq d));
   get [seg "healthz"] (Reads (fun _ _ _ _ => health));
   get [seg "tasks"] (Reads (fun _ _ rq d => tasks_page rq d));
   get [seg "tasks"; Capture] (ReadsOne (fun _ state id _ d => task_page state id d));
   get [seg "schedules"] (Reads (fun _ _ rq d => schedules_page rq d));
   get [seg "schedules"; Capture] (ReadsOne (fun _ state id _ d => schedule_page state id d));
   get [seg "workers"] (Reads (fun e _ rq d => workers_page e rq d));
   get [seg "workers"; Capture] (ReadsOne (fun e _ id _ d => worker_page e id d))]
  ++ match administrator with
     | None => []
     | Some _ =>
         [post [seg "admin"; seg "tasks"; Capture; seg "cancel"] (Changes cancel_task);
          post [seg "admin"; seg "tasks"; Capture; seg "retry"] (Changes retry_task);
          post [seg "admin"; seg "schedules"; Capture; seg "pause"] (Changes pause_schedule);
          post [seg "admin"; seg "schedules"; Capture; seg "resume"] (Changes resume_schedule)]
     end.

(** The captured segments, if the path fits. *)
Fixpoint match_path (pattern : list Segment) (path : list rstring) : option (list rstring) :=
  match pattern, path with
  | [], [] => Some []
  | Static s :: pattern', p :: path' => if bool_decide (s = p) then match_path pattern' path' else None
  | Capture :: pattern', p :: path' => cons p <$> match_path pattern' path'
  | _, _ => None
  end.

Fixpoint find_route (routes : list Route) (rq : Request) : option (Handler * list rstring) :=
  match routes with
  | [] => None
  | route :: routes' =>
      match match_path (rt_path route) (rq_path rq) with
      | Some captured =>
          if bool_decide (rt_method route = rq_method rq) then Some (rt_handler route, captured)
          else find_route routes' rq
      | None => find_route routes' rq
      end
  end.

(** One request to the application. *)
Definition serve (e : Env) (administrator : option AdministratorConfig) (rq : Request) (d : Db) : Db * Response :=
  let state := {| as_administrator := administrator |} in
  let id captured := match captured with [p] => parse_uuid p | _ => None end in
  match find_route (build_application administrator) rq with
  | None => (d, Rejected)
  | Some (Reads handler, _) => (d, handler e state rq d)
  | Some (ReadsOne handler, captured) =>
      match id captured with Some id => (d, handler e state id rq d) | None => (d, Rejected) end
  | Some (Changes handler, captured) =>
      match id captured with Some id => handler e state id rq d | None => (d, Rejected) end
  end.
End Handlers.
