(* ===== verification/WebSpec.v ===== *)
(** What the web console promises: changes are authorised and audited, pages
    list every row once, and no stored text becomes markup. *)

From stdpp Require Import sorting.
From S2P Require Import Prelude Text Identifier Json TaskTypes Outcome Rows Tables Protocol Fleet.
From S2P Require Import Lifecycle Store WebModel Pages Web.

(** ** Changes *)

(** What a change leaves at the end of the audit table. *)
Definition audited (actor action : rstring) (task schedule : option uuid) (now : time) (d : Db) : Prop :=
  last (audit d) = Some {| au_actor := actor; au_action := action; au_task := task; au_schedule := schedule;
                           au_occurred_at := now |}.

Lemma record_audit_audited now actor action task schedule d :
  audited actor action task schedule now (record_audit now actor action task schedule d).
Proof. unfold audited, record_audit. cbn. apply last_snoc. Qed.

(** A change of the administrator at [now] by [actor]. *)
Definition change_by (actor : rstring) (now : time) (d : Db) : Prop :=
  exists action task schedule, audited actor action task schedule now d.

Lemma admin_cancel_changes e id actor d d' b :
  admin_cancel_task e id actor d = Ok (d', b) -> (d' = d /\ b = false) \/ (change_by actor (e_now e) d' /\ b = true).
Proof.
  unfold admin_cancel_task. intros H. ok_inv. destruct a as [d1 [t|]]; injection H as <- <-.
  - right. split; [|done]. eexists _, _, _. apply record_audit_audited.
  - left. split; [|done]. unfold Protocol.cancel_task, cancel_outstanding in E0.
    destruct (tasks d !! id) as [t|]; [|by simplify_eq]. destruct (outstanding _); [|by simplify_eq].
    ok_inv. by simplify_eq.
Qed.

Lemma admin_retry_changes e id actor d d' b :
  admin_retry_task e id actor d = Ok (d', b) -> (d' = d /\ b = false) \/ (change_by actor (e_now e) d' /\ b = true).
Proof.
  unfold admin_retry_task. intros H. ok_inv. destruct (tasks d !! id) as [t|]; [|simplify_eq; auto].
  case_bool_decide; [|simplify_eq; auto]. ok_inv. simplify_eq. right. split; [|done].
  eexists _, _, _. apply record_audit_audited.
Qed.

Lemma admin_pause_changes e id paused actor d d' b :
  admin_set_schedule_paused e id paused actor d = Ok (d', b) ->
  (d' = d /\ b = false) \/ (change_by actor (e_now e) d' /\ b = true).
Proof.
  unfold admin_set_schedule_paused. intros H. ok_inv. destruct a as [d1 [t|]]; injection H as <- <-.
  - right. split; [|done]. eexists _, _, _. apply record_audit_audited.
  - left. split; [|done]. unfold Protocol.set_schedule_paused in E0.
    destruct (schedules d !! id); by simplify_eq.
Qed.

Section Authorisation.
Context (fold_case : char -> char) (jsonb_text : Value -> rstring).
Context (to_str : rstring -> option rstring) (parse_uuid : rstring -> option uuid).

Lemma as_administrator_do_changes config rq statement location d d' response :
  (forall actor d d' b, statement actor d = Ok (d', b) ->
     (d' = d /\ b = false) \/ (change_by actor (e_now (config : Env)) d' /\ b = true)) ->
  forall administrator,
  as_administrator_do to_str {| as_administrator := administrator |} rq statement location d = (d', response) ->
  d' = d \/
  exists config' actor, administrator = Some config' /\
    rq_headers rq (ad_actor_header config') ≫= to_str = Some actor /\ actor <> [] /\
    change_by actor (e_now config) d' /\ response = RedirectTo location.
Proof.
  intros Hst administrator H. unfold as_administrator_do, administrator_actor in H. cbn [as_administrator] in H.
  destruct administrator as [config'|]; cbn [ok_or mbind result_bind] in H; [|left; by simplify_eq].
  destruct (rq_headers rq _ ≫= to_str) as [actor|] eqn:Eh; [|cbn in H; left; by simplify_eq].
  case_bool_decide; cbn [ok_or] in H; [left; by simplify_eq|]. unfold changing in H.
  destruct (statement actor d) as [[d1 b]|] eqn:Es; [|left; by simplify_eq].
  destruct (Hst _ _ _ _ Es) as [[-> ->]|[Hc ->]]; injection H as <- <-; [by left|right]. eauto 10.
Qed.

Lemma find_route_in routes rq handler captured :
  find_route routes rq = Some (handler, captured) ->
  exists route, route ∈ routes /\ rt_handler route = handler /\ rt_method route = rq_method rq.
Proof.
  induction routes as [|route routes IH]; cbn; [done|]. intros H.
  assert (find_route routes rq = Some (handler, captured) ->
    exists r, r ∈ route :: routes /\ rt_handler r = handler /\ rt_method r = rq_method rq) as Hrest.
  { intros (r & ? & ?)%IH. exists r. split; [by right|done]. }
  destruct (match_path _ _); [|auto]. case_bool_decide; [|auto]. injection H as <- <-.
  exists route. split; [left|done].
Qed.

(** What may change the database. *)
Definition administrative (route : Route) : Prop :=
  match rt_handler route with
  | Changes handler =>
      rt_method route = Post /\
      (handler = cancel_task to_str \/ handler = retry_task to_str \/ handler = Web.pause_schedule to_str \/
       handler = resume_schedule to_str)
  | _ => True
  end.

Lemma routes_administrative administrator :
  Forall administrative (build_application fold_case jsonb_text to_str administrator).
Proof.
  unfold build_application. apply Forall_app. split; [repeat constructor|].
  destruct administrator; [|constructor]. repeat apply Forall_cons_2; [..|constructor]; (split; [done|auto]).
Qed.

(** Claim C24.  Only an administrator changes anything through the console: a
    request leaves the database as it was unless it is a POST, the console was
    started with an administrator configuration, and the request names a
    non-empty actor in the configured header; then it is answered with a redirect
    and the last row of the audit table records that actor. *)
Theorem web_changes_are_authorised e administrator rq d d' response :
  serve fold_case jsonb_text to_str parse_uuid e administrator rq d = (d', response) ->
  d' = d \/
  (rq_method rq = Post /\ exists config actor, administrator = Some config /\
     rq_headers rq (ad_actor_header config) ≫= to_str = Some actor /\ actor <> [] /\
     change_by actor (e_now e) d' /\ exists location, response = RedirectTo location).
Proof.
  intros H. unfold serve in H.
  destruct (find_route _ rq) as [[handler captured]|] eqn:Ef; [|left; by simplify_eq].
  destruct handler as [handler|handler|handler]; [left; by simplify_eq|left; repeat case_match; by simplify_eq|].
  destruct (match captured with [p] => parse_uuid p | _ => None end) as [id|]; [|left; by simplify_eq].
  assert (rq_method rq = Post /\ (handler = cancel_task to_str \/ handler = retry_task to_str \/
            handler = Web.pause_schedule to_str \/ handler = resume_schedule to_str)) as [Hm Hh].
  { apply find_route_in in Ef as (route & Hin & Eh & <-).
    pose proof (routes_administrative administrator) as HF. rewrite Forall_forall in HF.
    specialize (HF _ Hin). unfold administrative in HF. by rewrite Eh in HF. }
  assert (d' = d \/ exists config actor, administrator = Some config /\
    rq_headers rq (ad_actor_header config) ≫= to_str = Some actor /\ actor <> [] /\
    change_by actor (e_now e) d' /\ exists location, response = RedirectTo location) as [?|?]; [|by left|by right].
  destruct Hh as [->|[->|[->| ->]]]; eapply (as_administrator_do_changes e) in H;
    eauto using admin_cancel_changes, admin_retry_changes, admin_pause_changes;
    (destruct H as [?|(? & ? & ? & ? & ? & ? & ?)]; [by left|right; eauto 10]).
Qed.
End Authorisation.

(** ** Pagination *)

(** Following [next] from the first page. *)
Fixpoint walk {C T} (fuel : nat) (page : option C -> Page T C) (after : option C) : option (list T) :=
  match fuel with
  | O => None
  | S fuel' =>
      match pg_next (page after) with
      | None => Some (pg_items (page after))
      | Some cursor => (fun rest => pg_items (page after) ++ rest) <$> walk fuel' page (Some cursor)
      end
  end.

Lemma filter_all {A} (P : A -> Prop) `{!forall x, Decision (P x)} l : Forall P l -> filter P l = l.
Proof. induction 1; [done|]. rewrite filter_cons_True by done. by f_equal. Qed.
Lemma filter_none {A} (P : A -> Prop) `{!forall x, Decision (P x)} l : Forall (fun x => ~ P x) l -> filter P l = [].
Proof. induction 1; [done|]. by rewrite filter_cons_False. Qed.
Lemma StronglySorted_filter {A} (R : A -> A -> Prop) (P : A -> Prop) `{!forall x, Decision (P x)} l :
  StronglySorted R l -> StronglySorted R (filter P l).
Proof.
  induction 1 as [|x l Hl IH Hx]; [constructor|]. rewrite filter_cons. destruct (decide (P x)); [|done].
  constructor; [done|]. rewrite Forall_forall in *. intros y [_ Hy]%list_elem_of_filter. auto.
Qed.

Section Pagination.
Context {T C : Type} (key : T -> C) (before : C -> C -> Prop) {before_dec : RelDecision before}.
(** The order of the index: strict and total. *)
Context (order : StrictOrder before) (total : forall a b, before a b \/ a = b \/ before b a).
Context (rows : list T) (distinct : NoDup (key <$> rows)).

Abbreviation le := (row_le key before).
Abbreviation sorted := (merge_sort le rows).

Lemma row_le_transitive : Transitive le.
Proof using before_dec order total.
  unfold row_le. intros a b c Hab Hbc Hca. destruct (total (key b) (key a)) as [?|[E|Hlt]]; [done| |].
  - apply Hbc. by rewrite E.
  - apply Hbc. by transitivity (key a).
Qed.

Lemma row_le_total : Total le.
Proof using before_dec order total.
  unfold row_le. intros a b. destruct (decide (before (key b) (key a))) as [H|H]; [right|by left].
  intros H'. by apply (StrictOrder_Irreflexive (key a)); transitivity (key b).
Qed.

Lemma sorted_strict x y : x ∈ rows -> y ∈ rows -> le x y -> x = y \/ before (key x) (key y).
Proof using before_dec distinct total.
  unfold row_le. intros Hx Hy Hle. destruct (total (key x) (key y)) as [?|[E|?]]; [by right| |done].
  left. apply list_elem_of_lookup in Hx as [i Hi], Hy as [j Hj].
  assert (i = j) as ->; [|congruence].
  eapply NoDup_lookup; [exact distinct|..]; rewrite list_lookup_fmap; [by rewrite Hi|rewrite Hj; cbn; by rewrite E].
Qed.

Lemma sorted_perm : sorted ≡ₚ rows.
Proof. apply merge_sort_Permutation. Qed.

(** The rows before a cursor are not selected, and those behind it are. *)
Lemma filter_after pre x post :
  sorted = pre ++ x :: post -> filter (is_after key before (Some (key x))) sorted = post.
Proof using before_dec order total distinct.
  intros E. pose proof row_le_transitive. pose proof row_le_total.
  pose proof (StronglySorted_merge_sort le rows) as Hs.
  assert (forall y, y ∈ sorted -> y ∈ rows) as Hrows by (intros y; rewrite sorted_perm; done).
  assert (NoDup sorted) as Hnd by (rewrite sorted_perm; by eapply NoDup_fmap_1).
  rewrite E in *. rewrite filter_app, filter_cons_False by (cbn; apply StrictOrder_Irreflexive).
  rewrite (filter_none _ pre), (filter_all _ post); [done|..].
  - apply Forall_forall. intros y Hy. apply StronglySorted_app_1_r, StronglySorted_cons in Hs as [Hs _].
    rewrite Forall_forall in Hs.
    destruct (sorted_strict x y) as [->|?]; [apply Hrows; set_solver..|by apply Hs| |done].
    apply NoDup_app in Hnd as (_ & _ & Hnd). by apply NoDup_cons in Hnd as [? _].
  - apply Forall_forall. intros y Hy Hb. cbn in Hb.
    by eapply (StronglySorted_app_1_elem_of _ _ _ y x Hs) in Hy; [apply Hy|left].
Qed.

Lemma filter_sorts (P : T -> Prop) `{!forall x, Decision (P x)} : merge_sort le (filter P rows) = filter P sorted.
Proof using before_dec order total distinct.
  pose proof row_le_transitive. pose proof row_le_total.
  apply (StronglySorted_unique_strong le).
  - intros x y Hx Hy Hxy Hyx. rewrite merge_sort_Permutation in Hx. rewrite sorted_perm in Hy.
    apply list_elem_of_filter in Hx as [_ Hx], Hy as [_ Hy].
    destruct (sorted_strict x y Hx Hy Hxy) as [?|?]; done.
  - apply StronglySorted_merge_sort; done.
  - apply StronglySorted_filter, StronglySorted_merge_sort; done.
  - by rewrite merge_sort_Permutation, sorted_perm.
Qed.

(** What is left behind a cursor. *)
Definition behind (after : option C) (pre : list T) : Prop :=
  match after with None => pre = [] | Some c => exists x, last pre = Some x /\ key x = c end.

Lemma select_behind after pre post :
  sorted = pre ++ post -> behind after pre -> select_page key before after rows = take 101 post.
Proof using before_dec order total distinct.
  intros E Hb. unfold select_page. rewrite filter_sorts. f_equal. destruct after as [c|].
  - destruct Hb as (x & Hl & <-). apply last_Some in Hl as [pre' ->]. rewrite <- app_assoc in E.
    by eapply filter_after.
  - cbn in Hb. subst pre. rewrite E. cbn [app]. apply filter_all, Forall_forall. done.
Qed.

Lemma walk_behind fuel : forall after pre post,
  sorted = pre ++ post -> behind after pre -> (length post < fuel)%nat ->
  walk fuel (fun after => paginate key before after rows) after = Some post.
Proof using before_dec order total distinct.
  induction fuel as [|fuel IH]; intros after pre post E Hb Hf; [lia|]. cbn [walk].
  assert (paginate key before after rows = make_page key (take 101 post)) as ->.
  { unfold paginate. by rewrite (select_behind after pre post E Hb). }
  unfold make_page. cbn [pg_next pg_items].
  unfold PAGE_SIZE. rewrite take_take. replace (100 `min` 101)%nat with 100%nat by lia.
  rewrite length_take. destruct (Nat.ltb_spec 100 (101 `min` length post)) as [Hlt|Hge].
  - destruct (last (take 100 post)) as [x|] eqn:El.
    2: { apply last_None in El. apply (f_equal length) in El. rewrite length_take in El. cbn [length] in El. lia. }
    cbn [fmap option_fmap option_map].
    rewrite (IH (Some (key x)) (pre ++ take 100 post) (drop 100 post)).
    + cbn [fmap option_fmap option_map]. by rewrite take_drop.
    + by rewrite <- app_assoc, take_drop.
    + exists x. split; [|done]. rewrite last_app, El. done.
    + rewrite length_drop. lia.
  - f_equal. apply take_ge. lia.
Qed.

Lemma walk_sorted : walk (S (length rows)) (fun after => paginate key before after rows) None = Some sorted.
Proof using before_dec order total distinct.
  apply (walk_behind _ None []); [done|done|]. rewrite sorted_perm. lia.
Qed.
Lemma sorted_strictly : StronglySorted (fun a b => before (key a) (key b)) sorted.
Proof using before_dec order total distinct.
  pose proof row_le_transitive. pose proof row_le_total.
  pose proof (StronglySorted_merge_sort le rows) as Hs.
  assert (forall y, y ∈ sorted -> y ∈ rows) as Hrows by (intros y; rewrite sorted_perm; done).
  assert (NoDup sorted) as Hnd by (rewrite sorted_perm; by eapply NoDup_fmap_1).
  induction Hs as [|x l Hl IH Hx]; [constructor|]. apply NoDup_cons in Hnd as [Hni Hnd].
  constructor; [apply IH; [set_solver|done]|]. rewrite Forall_forall in *. intros y Hy.
  destruct (sorted_strict x y) as [->|?]; [set_solver..|by apply Hx|done|done].
Qed.

(** Following the pages lists every row once, in order. *)
Definition lists_once (page : option C -> Page T C) : Prop :=
  exists listed, walk (S (length rows)) page None = Some listed /\ listed ≡ₚ rows /\
    StronglySorted (fun a b => before (key a) (key b)) listed.

Lemma paginate_lists_once : lists_once (fun after => paginate key before after rows).
Proof using before_dec order total distinct.
  exists sorted. split_and!; [apply walk_sorted|apply sorted_perm|apply sorted_strictly].
Qed.
End Pagination.

Lemma name_before_order : StrictOrder name_before.
Proof.
  unfold name_before. split.
  - intros a H. by rewrite (proj2 (str_compare_eq a a)) in H.
  - intros a b c. apply str_compare_trans.
Qed.
Lemma name_before_total a b : name_before a b \/ a = b \/ name_before b a.
Proof.
  unfold name_before. rewrite (str_compare_antisym a b). destruct (str_compare a b) eqn:E; [|by left|by right; right].
  right. left. by apply str_compare_eq.
Qed.

Lemma worker_before_order : StrictOrder worker_before.
Proof. unfold worker_before. split; [intros a H; lia|intros a b c Hab Hbc; lia]. Qed.
Lemma worker_before_total a b : worker_before a b \/ a = b \/ worker_before b a.
Proof.
  destruct a as [s i], b as [t j]. unfold worker_before. cbn.
  destruct (Z.lt_trichotomy s t) as [?|[->|?]]; [right; right; lia| |left; lia].
  destruct (Z.lt_trichotomy i j) as [?|[->|?]]; [right; right; lia|by right; left|left; lia].
Qed.

Lemma distinct_keys {K A T} `{Countable K} (f : K * A -> T) (key : T -> K) (m : gmap K A) :
  (forall ka, key (f ka) = ka.1) -> NoDup (key <$> map f (map_to_list m)).
Proof.
  intros Hk. replace (key <$> map f (map_to_list m)) with (fst <$> map_to_list m); [apply NoDup_fst_map_to_list|].
  rewrite <- list_fmap_compose. apply list_fmap_ext. intros i ka _. cbn. by rewrite Hk.
Qed.

(** Claim C26.  The pages of the console miss nothing and repeat nothing: from the
    first page, following each next link of the dashboard visits every queue
    exactly once, in the order of the names, and ends; so do the pages of
    workers, newest first, also when many started at the same time; and the
    pages of schedules, whose names are distinct. *)
Theorem pages_list_every_row_once now d :
  lists_once qs_name name_before (queue_rows now d) (fun after => QueueSummary_page now after d) /\
  lists_once worker_cursor worker_before (worker_rows now d) (fun after => WorkerSummary_page now after d) /\
  (NoDup (ss_name <$> map schedule_summary (map_to_list (schedules d))) ->
   lists_once ss_name name_before (map schedule_summary (map_to_list (schedules d)))
     (fun after => ScheduleSummary_page after d)).
Proof.
  split_and!.
  - apply paginate_lists_once; [apply name_before_order|apply name_before_total|]. by apply distinct_keys.
  - apply paginate_lists_once; [apply worker_before_order|apply worker_before_total|].
    apply (NoDup_fmap_1 snd). rewrite <- list_fmap_compose. by apply (distinct_keys _ (snd ∘ worker_cursor)).
  - intros Hn. apply paginate_lists_once; [apply name_before_order|apply name_before_total|done].
Qed.

(** ** Stored text never becomes markup *)

(** How a browser reads a page: content, inside a tag, or inside a quoted
    attribute of a tag. *)
Inductive Reading : Type := Content | Tag | Quoted.

Definition read (r : Reading) (c : char) : Reading :=
  match r with
  | Content => if c =? 60 then Tag else Content
  | Tag => if c =? 62 then Content else if c =? 34 then Quoted else Tag
  | Quoted => if c =? 34 then Tag else Quoted
  end.

(** The characters that are markup: everything but content and the insides of
    quotes. *)
Definition is_markup (r : Reading) (c : char) : bool :=
  match r with Content => c =? 60 | Tag => true | Quoted => c =? 34 end.

Fixpoint markup (r : Reading) (text : rstring) : rstring :=
  match text with
  | [] => []
  | c :: text' => if is_markup r c then c :: markup (read r c) text' else markup (read r c) text'
  end.
Definition read_all (r : Reading) (text : rstring) : Reading := foldl read r text.

Lemma markup_app r s t : markup r (s ++ t) = markup r s ++ markup (read_all r s) t.
Proof. revert r. induction s as [|c s IH]; intros r; [done|]. cbn. rewrite IH. by destruct (is_markup r c). Qed.
Lemma read_all_app r s t : read_all r (s ++ t) = read_all (read_all r s) t.
Proof. apply foldl_app. Qed.

(** Where a text that is not of the source may stand. *)
Definition quiet (r : Reading) (s : rstring) : Prop := markup r s = [] /\ read_all r s = r.

Lemma quiet_content s : Forall (fun c => c <> 60) s -> quiet Content s.
Proof.
  induction 1 as [|c s Hc _ [IH1 IH2]]; [done|]. unfold quiet. cbn. by rewrite (proj2 (Z.eqb_neq c 60)).
Qed.
Lemma quiet_quoted s : Forall (fun c => c <> 34) s -> quiet Quoted s.
Proof.
  induction 1 as [|c s Hc _ [IH1 IH2]]; [done|]. unfold quiet. cbn. by rewrite (proj2 (Z.eqb_neq c 34)).
Qed.

(** [check r page] is where reading [page] ends, if every piece of it that is
    not a literal stands where it may. *)
Definition check_piece (r : Reading) (p : Piece) : option Reading :=
  match p, r with
  | Literal s, _ => Some (read_all r s)
  | EncodedText _, Content => Some Content
  | EncodedAttribute _, Quoted => Some Quoted
  | (Number _ | Id _ | Millis _ | Nanos _), (Content | Quoted) => Some r
  | _, _ => None
  end.
Fixpoint check (r : Reading) (page : list Piece) : option Reading :=
  match page with [] => Some r | p :: page' => check_piece r p ≫= fun r' => check r' page' end.

Lemma check_app r p q : check r (p ++ q) = check r p ≫= fun r' => check r' q.
Proof. revert r. induction p as [|a p IH]; intros r; [done|]. cbn. destruct (check_piece r a); [apply IH|done]. Qed.

Lemma check_flat_map {A} (f : A -> list Piece) l r :
  (forall a, check r (f a) = Some r) -> check r (flat_map f l) = Some r.
Proof. intros Hf. induction l as [|a l IH]; [done|]. cbn. rewrite check_app, Hf. done. Qed.

(** The literals of a page. *)
Definition literals (page : list Piece) : rstring :=
  flat_map (fun p => match p with Literal s => s | _ => [] end) page.

(** The documented behaviour of what the pages use: [encode_text] replaces [<],
    [encode_double_quoted_attribute] replaces the double quote, and neither is in
    an RFC 3339 time. *)
Class SafeEncoding `{Encoding} := {
  encoded_text_safe s : Forall (fun c => c <> 60) (encoded_text s);
  encoded_attribute_safe s : Forall (fun c => c <> 34) (encoded_attribute s);
  rfc3339_millis_safe t : Forall (fun c => c <> 60 /\ c <> 34) (rfc3339_millis t);
  rfc3339_nanos_safe t : Forall (fun c => c <> 60 /\ c <> 34) (rfc3339_nanos t);
}.

Section Inert.
Context {encoding : Encoding} {safe : SafeEncoding}.

Lemma plain_quiet r s : r <> Tag -> Forall (fun c => c <> 60 /\ c <> 34) s -> quiet r s.
Proof.
  intros Hr Hs. destruct r; [apply quiet_content|done|apply quiet_quoted];
    eapply Forall_impl; [exact Hs|naive_solver|exact Hs|naive_solver].
Qed.

Lemma digits_fuel_plain fuel n acc :
  0 <= n -> Forall (fun c => c <> 60 /\ c <> 34) acc -> Forall (fun c => c <> 60 /\ c <> 34) (digits_fuel fuel n acc).
Proof.
  revert n acc. induction fuel as [|fuel IH]; intros n acc Hn Hacc; [done|]. cbn.
  pose proof (Z.mod_pos_bound n 10 ltac:(lia)).
  assert (Forall (fun c => c <> 60 /\ c <> 34) ((48 + n mod 10) :: acc)) by (constructor; [lia|done]).
  case_Z; [done|]. apply IH; [|done]. apply Z.div_pos; lia.
Qed.

Lemma signed_decimal_plain n : Forall (fun c => c <> 60 /\ c <> 34) (signed_decimal n).
Proof.
  unfold signed_decimal, decimal. case_Z.
  - apply Forall_app. split; [by repeat constructor|]. apply digits_fuel_plain; [lia|constructor].
  - apply digits_fuel_plain; [lia|constructor].
Qed.

Lemma hex_text_plain k n : Forall (fun c => c <> 60 /\ c <> 34) (hex_text k n).
Proof.
  unfold hex_text. apply Forall_forall. intros c (i & -> & _)%list_elem_of_fmap.
  pose proof (Z.mod_pos_bound (n / 16 ^ Z.of_nat i) 16 ltac:(lia)). unfold hex_digit. case_Z; lia.
Qed.
Lemma uuid_text_plain u : Forall (fun c => c <> 60 /\ c <> 34) (uuid_text u).
Proof.
  unfold uuid_text. repeat (apply Forall_app; split); try apply hex_text_plain; repeat constructor; discriminate.
Qed.

Lemma check_piece_quiet r p r' :
  check_piece r p = Some r' -> match p with Literal s => r' = read_all r s | _ => r' = r /\ quiet r (render_piece p) end.
Proof using safe.
  destruct p as [s|s|s|n|u|t|t], r; cbn; intros [= <-]; try done; split; try done;
    first [apply quiet_content, encoded_text_safe|apply quiet_quoted, encoded_attribute_safe
          |apply plain_quiet; [done|];
           first [apply signed_decimal_plain|apply uuid_text_plain|apply rfc3339_millis_safe|apply rfc3339_nanos_safe]].
Qed.

Lemma check_markup page : forall r r',
  check r page = Some r' ->
  markup r (render page) = markup r (literals page) /\ read_all r (render page) = r' /\ read_all r (literals page) = r'.
Proof using safe.
  induction page as [|p page IH]; intros r r' Hc; cbn in Hc; [by injection Hc as <-|].
  destruct (check_piece r p) as [r1|] eqn:Ep; [|done]. cbn in Hc. destruct (IH r1 r' Hc) as (IH1 & IH2 & IH3).
  apply check_piece_quiet in Ep. unfold render, literals in *. cbn [flat_map].
  rewrite !markup_app, !read_all_app. destruct p; cbn [render_piece] in *;
    [by subst r1; rewrite IH1, IH2, IH3|destruct Ep as [-> [-> ->]]; cbn; rewrite IH1, IH2, IH3; done..].
Qed.
End Inert.

(** *** Templates *)

(** [argument] may stand wherever [f] says, and reading goes on as [f] says. *)
Definition fits (argument : list Piece) (f : Reading -> option Reading) : Prop :=
  forall r r', f r = Some r' -> check r argument = Some r'.

Definition in_content (r : Reading) : option Reading := match r with Content => Some Content | _ => None end.
Definition in_quotes (r : Reading) : option Reading := match r with Quoted => Some Quoted | _ => None end.
Definition outside_tags (r : Reading) : option Reading := match r with Tag => None | _ => Some r end.

(** Reading a template. *)
Fixpoint scan (r : Reading) (template : rstring) (fs : list (Reading -> option Reading)) : option Reading :=
  match template with
  | [] => Some r
  | c :: template' =>
      match template' with
      | c' :: template'' =>
          if (c =? 123) && (c' =? 125) then
            match fs with
            | f :: fs' => f r ≫= fun r' => scan r' template'' fs'
            | [] => scan r template'' []
            end
          else scan (read r c) template' fs
      | [] => Some (read r c)
      end
  end.

Lemma scan_ok n : forall template acc args fs r r',
  (length template <= n)%nat -> Forall2 fits args fs -> scan (read_all r (rev acc)) template fs = Some r' ->
  check r (format_from acc template args) = Some r'.
Proof.
  induction n as [|n IH]; intros template acc args fs r r' Hn Hargs Hs;
    (destruct template as [|c template]; [by cbn in *; injection Hs as <-|]); [cbn in Hn; lia|].
  cbn [format_from scan length] in *. destruct template as [|c' template].
  { injection Hs as <-. cbn. by rewrite read_all_app. }
  destruct ((c =? 123) && (c' =? 125)).
  - cbn [check check_piece mbind option_bind]. cbn [length] in Hn. destruct Hargs as [|a f args fs Ha Hargs].
    + apply (IH _ [] _ []); [lia|constructor|done].
    + destruct (f _) as [r1|] eqn:Ef; [|done]. cbn in Hs. rewrite check_app, (Ha _ _ Ef). cbn.
      eapply (IH _ []); [lia|done|done].
  - eapply IH; [cbn [length] in *; lia|done|]. cbn [rev]. rewrite read_all_app. exact Hs.
Qed.

Lemma format_ok lines args fs r r' :
  Forall2 fits args fs -> scan r (literal lines) fs = Some r' -> check r (format lines args) = Some r'.
Proof. intros. eapply scan_ok; [reflexivity|done|done]. Qed.

Create HintDb pages.
Lemma text_fits s : fits (encode_text s) in_content.
Proof. intros [] ?; by intros [= <-]. Qed.
Lemma attribute_fits s : fits (encode_double_quoted_attribute s) in_quotes.
Proof. intros [] ?; by intros [= <-]. Qed.
Lemma number_fits n : fits (number n) outside_tags.
Proof. intros [] ?; by intros [= <-]. Qed.
Lemma uuid_fits u : fits (uuid_ u) outside_tags.
Proof. intros [] ?; by intros [= <-]. Qed.
Lemma time_fits t : fits (pages.time_ t) outside_tags.
Proof. intros [] ?; by intros [= <-]. Qed.
Lemma nanos_fits t : fits [Nanos t] outside_tags.
Proof. intros [] ?; by intros [= <-]. Qed.
Lemma content_fits html : check Content html = Some Content -> fits html in_content.
Proof. intros Hh [] ?; by intros [= <-]. Qed.
Lemma optional_time_fits t : fits (pages.optional_time t) in_content.
Proof. apply content_fits. by destruct t. Qed.
Lemma boolean_fits b : fits (boolean b) in_content.
Proof. apply content_fits. by destruct b. Qed.
Lemma status_fits (b : bool) s t :
  check Content (lit s) = Some Content -> check Content (lit t) = Some Content -> fits (lit (if b then s else t)) in_content.
Proof. intros. apply content_fits. by destruct b. Qed.
#[export] Hint Resolve text_fits attribute_fits number_fits uuid_fits time_fits nanos_fits optional_time_fits
  boolean_fits content_fits : pages.

(** A template with arguments that fit. *)
Ltac template := eapply format_ok; [repeat constructor; eauto with pages|vm_compute; reflexivity].

Lemma queue_row_ok q : check Content (pages.queue_row q) = Some Content.
Proof.
  unfold pages.queue_row. destruct (qs_paused_at q), (qs_max_outstanding_tasks q).
  all: template.
Qed.
Lemma task_row_ok t : check Content (pages.task_row t) = Some Content.
Proof. template. Qed.
Lemma schedule_row_ok s : check Content (pages.schedule_row s) = Some Content.
Proof. unfold pages.schedule_row. destruct (ss_paused_at s); template. Qed.
Lemma worker_row_ok w : check Content (pages.worker_row w) = Some Content.
Proof. unfold pages.worker_row. destruct (ws_live w); template. Qed.
Lemma attempt_row_ok a : check Content (pages.attempt_row a) = Some Content.
Proof. template. Qed.
Lemma checkpoint_row_ok c : check Content (pages.checkpoint_row c) = Some Content.
Proof. template. Qed.
Lemma signal_row_ok c : check Content (pages.signal_row c) = Some Content.
Proof. template. Qed.
Lemma audit_row_ok c : check Content (pages.audit_row c) = Some Content.
Proof. template. Qed.
Lemma occurrence_row_ok c : check Content (pages.occurrence_row c) = Some Content.
Proof. template. Qed.
Lemma capability_row_ok c : check Content (pages.capability_row c) = Some Content.
Proof. template. Qed.

Lemma rows_fit {A} (f : A -> list Piece) l : (forall a, check Content (f a) = Some Content) -> fits (flat_map f l) in_content.
Proof. intros. by apply content_fits, check_flat_map. Qed.
Lemma nothing_fits : fits [] in_content.
Proof. by apply content_fits. Qed.
#[export] Hint Resolve rows_fit nothing_fits queue_row_ok task_row_ok schedule_row_ok worker_row_ok attempt_row_ok
  checkpoint_row_ok signal_row_ok audit_row_ok occurrence_row_ok capability_row_ok : pages.
#[export] Hint Unfold pages.queue_rows pages.task_rows pages.schedule_rows pages.worker_rows : pages.

Lemma layout_ok title body : check Content body = Some Content -> check Content (pages.layout title body) = Some Content.
Proof.
  intros Hbody. eapply (format_ok _ _ [in_content; in_content; in_content]).
  - repeat constructor; [apply text_fits|apply content_fits; vm_compute; reflexivity|by apply content_fits].
  - vm_compute. reflexivity.
Qed.

Lemma dashboard_ok data : check Content (pages.dashboard data) = Some Content.
Proof.
  unfold pages.dashboard. apply layout_ok. destruct (pg_next (db_queues data)); template.
Qed.
Lemma tasks_ok l query : check Content (pages.tasks l query) = Some Content.
Proof. unfold pages.tasks. apply layout_ok. template. Qed.
Lemma task_parent_ok parent :
  fits (match parent with
        | None => lit "root task"
        | Some id => format ["child of <a href='/tasks/{}'><code>{}</code></a>"] [uuid_ id; uuid_ id]
        end) in_content.
Proof. apply content_fits. destruct parent; [template|done]. Qed.
#[export] Hint Resolve task_parent_ok : pages.

Lemma task_ok detail administrator : check Content (pages.task detail administrator) = Some Content.
Proof. unfold pages.task. apply layout_ok. destruct administrator; template. Qed.
Lemma schedules_ok l next : check Content (pages.schedules l next) = Some Content.
Proof. unfold pages.schedules. apply layout_ok. destruct next; template. Qed.
Lemma schedule_ok detail administrator : check Content (pages.schedule detail administrator) = Some Content.
Proof. unfold pages.schedule. apply layout_ok. destruct administrator; template. Qed.
Lemma workers_ok l next : check Content (pages.workers l next) = Some Content.
Proof. unfold pages.workers. apply layout_ok. destruct next as [[started id]|]; template. Qed.
Lemma worker_ok detail : check Content (pages.worker detail) = Some Content.
Proof. unfold pages.worker. apply layout_ok. destruct (ws_live (wd_worker detail)); template. Qed.
Lemma error_ok status message : check Content (pages.error status message) = Some Content.
Proof. unfold pages.error. apply layout_ok. template. Qed.

(** The pages of the console. *)
Inductive page : list Piece -> Prop :=
| page_dashboard data : page (pages.dashboard data)
| page_tasks l query : page (pages.tasks l query)
| page_task detail administrator : page (pages.task detail administrator)
| page_schedules l next : page (pages.schedules l next)
| page_schedule detail administrator : page (pages.schedule detail administrator)
| page_workers l next : page (pages.workers l next)
| page_worker detail : page (pages.worker detail)
| page_error status message : page (pages.error status message).

Lemma page_ok p : page p -> check Content p = Some Content.
Proof.
  destruct 1; eauto using dashboard_ok, tasks_ok, task_ok, schedules_ok, schedule_ok, workers_ok, worker_ok, error_ok.
Qed.

(** Claim C25.  No stored text becomes markup: on every page of the console, for
    every data it shows, the markup of the text that is sent is that of the
    literals of the source alone, and reading it ends outside tags; whatever the
    names, payloads, results, errors, signals, actors or the search text hold. *)
Theorem pages_are_inert `{SafeEncoding} p :
  page p -> markup Content (render p) = markup Content (literals p) /\ read_all Content (render p) = Content.
Proof. intros Hp%page_ok. by destruct (check_markup _ _ _ Hp) as (? & ? & _). Qed.

(** ** Witnesses *)

Definition replace_with (c : char) (by_ : string) (s : rstring) : rstring :=
  flat_map (fun x => if x =? c then str by_ else [x]) s.
#[local] Instance demo_encoding : Encoding := {|
  encoded_text s := replace_with 60 "&lt;" s;
  encoded_attribute s := replace_with 34 "&quot;" s;
  rfc3339_millis t := uuid_text t;
  rfc3339_nanos t := uuid_text t |}.

Lemma replace_with_safe c by_ s :
  Forall (fun x => x <> c) (str by_) -> Forall (fun x => x <> c) (replace_with c by_ s).
Proof.
  intros Hb. induction s as [|x s IH]; [constructor|]. cbn. apply Forall_app. split; [|done].
  destruct (Z.eqb_spec x c); [done|]. by constructor.
Qed.

#[local] Instance demo_safe : SafeEncoding.
Proof.
  split; cbn; intros.
  - apply replace_with_safe. by repeat constructor.
  - apply replace_with_safe. by repeat constructor.
  - apply uuid_text_plain.
  - apply uuid_text_plain.
Qed.

Lemma pages_are_inert_witness :
  markup Content (render (pages.error 404 (str "<script>"))) =
  markup Content (literals (pages.error 404 (str "<script>"))) /\
  read_all Content (render (pages.error 404 (str "<script>"))) = Content.
Proof. apply (pages_are_inert (pages.error 404 (str "<script>"))). constructor. Defined.

Definition demo_request : Request := {|
  rq_method := Post;
  rq_path := [str "admin"; str "tasks"; str "100"; str "cancel"];
  rq_headers := fun name => if bool_decide (name = str "x-pgtask-actor") then Some (str "ada") else None;
  rq_query := None; rq_after := None; rq_after_started := None; rq_after_id := None |}.
Definition demo_serve : Db * Response :=
  serve (fun c => c) (fun _ => []) (fun s => Some s) (fun _ => Some 100) (demo_env 40 0)
    (Some AdministratorConfig_default) demo_request demo1.

Lemma web_changes_are_authorised_witness :
  demo_serve.1 = demo1 \/
  (rq_method demo_request = Post /\ exists config actor, Some AdministratorConfig_default = Some config /\
     rq_headers demo_request (ad_actor_header config) ≫= (fun s => Some s) = Some actor /\ actor <> [] /\
     change_by actor (e_now (demo_env 40 0)) demo_serve.1 /\ exists location, demo_serve.2 = RedirectTo location).
Proof.
  apply (web_changes_are_authorised (fun c => c) (fun _ => []) (fun s => Some s) (fun _ => Some 100) (demo_env 40 0)
           (Some AdministratorConfig_default) demo_request demo1 demo_serve.1 demo_serve.2).
  vm_compute. reflexivity.
Defined.
