(* ===== verification/Processes.v ===== *)
(** The programs around the library: the benchmark [pgtask-bench/src/main.rs], the
    smoke test [pgtask-bench/src/smoke.rs] and the process of the console
    [pgtask-web/src/main.rs].

    They read their configuration from the environment, which is an argument; text
    is parsed as the standard library does, on a 64-bit machine.  What they print
    and how long they take is not modelled.

    What they configure is accepted by [Worker::new], and the loop that empties a
    queue ends. *)

From stdpp Require Import sorting.

From S2P Require Import Prelude Text Identifier Json Retry TaskTypes Chrono Schedule Outcome Rows Tables Protocol.
From S2P Require Import Lifecycle Dispatch Store Registry Control Python Web.

(** ** The environment *)

(** [std::env::var]. *)
Inductive Variable_ : Type := Present (value : rstring) | NotPresent | NotUnicode.
Definition Environment : Type := rstring -> Variable_.

Inductive IntErrorKind : Type := Empty_ | InvalidDigit | PosOverflow.

(** [Box<dyn Error>]. *)
Inductive ProcessError : Type :=
| VarError
| ParseIntError (kind : IntErrorKind)
| ParseBoolError
| TryFromIntError
| ParseAddressError
| ParseHeaderError
| ProcessName (error : NameError)
| ProcessSchedule (error : ScheduleError)
| ProcessStore (error : PostgresError)
| ProcessWorker (error : WorkerError)
| ProcessMessage (message : rstring).

(** [str::parse] of an unsigned integer. *)
Definition is_digit (c : char) : bool := (48 <=? c) && (c <=? 57).
Fixpoint parse_digits (max acc : Z) (s : rstring) : result IntErrorKind Z :=
  match s with
  | [] => Ok acc
  | c :: s' =>
      if is_digit c then
        let n := acc * 10 + (c - 48) in
        if max <? n then Err PosOverflow else parse_digits max n s'
      else Err InvalidDigit
  end.
Definition parse_unsigned (max : Z) (s : rstring) : result ProcessError Z :=
  map_err ParseIntError
    match s with
    | [] => Err Empty_
    | c :: s' =>
        if c =? 43 then match s' with [] => Err InvalidDigit | _ => parse_digits max 0 s' end
        else parse_digits max 0 s
    end.
Definition parse_bool (s : rstring) : result ProcessError bool :=
  if bool_decide (s = str "true") then Ok true
  else if bool_decide (s = str "false") then Ok false
  else Err ParseBoolError.

(** [match std::env::var(name) { Ok(value) => Ok(value.parse()?), Err(NotPresent) => Ok(default), ... }]. *)
Definition environment_value {A} (parse : rstring -> result ProcessError A) (env : Environment) (name : rstring)
    (default : A) : result ProcessError A :=
  match env name with
  | Present value => parse value
  | NotPresent => Ok default
  | NotUnicode => Err VarError
  end.
Definition environment_usize : Environment -> rstring -> Z -> result ProcessError Z :=
  environment_value (parse_unsigned u64_max).
Definition environment_u16 : Environment -> rstring -> Z -> result ProcessError Z :=
  environment_value (parse_unsigned u16_max).
Definition environment_bool : Environment -> rstring -> bool -> result ProcessError bool :=
  environment_value parse_bool.

Definition greater_than_zero (name : rstring) : ProcessError :=
  ProcessMessage (name ++ str " must be greater than zero").

Definition environment_optional_nonzero_u64 (env : Environment) (name : rstring) : result ProcessError (option Z) :=
  match env name with
  | Present value =>
      let? value := parse_unsigned u64_max value in
      let? value := ok_or (greater_than_zero name) (nonzero value) in
      Ok (Some value)
  | NotPresent => Ok None
  | NotUnicode => Err VarError
  end.
Definition environment_nonzero_u32 (env : Environment) (name : rstring) (default : Z) : result ProcessError Z :=
  let? value := environment_value (parse_unsigned u32_max) env name default in
  ok_or (greater_than_zero name) (nonzero value).

(** ** The benchmark *)

Inductive Scenario : Type :=
| CpuBound | SNoop | DelayedBurst | DatabaseDisconnect | IoBound | MultiScheduler | RateLimited
| RetainedHistory | RetryStorm | WorkerDeath.
Global Instance scenario_eq_dec : EqDecision Scenario.
Proof. solve_decision. Defined.

Definition scenario_name (s : Scenario) : rstring :=
  match s with
  | CpuBound => str "cpu-bound"
  | SNoop => str "noop"
  | DelayedBurst => str "delayed-burst"
  | DatabaseDisconnect => str "database-disconnect"
  | IoBound => str "io-bound"
  | MultiScheduler => str "multi-scheduler"
  | RateLimited => str "rate-limited"
  | RetainedHistory => str "retained-history"
  | RetryStorm => str "retry-storm"
  | WorkerDeath => str "worker-death"
  end.

(** [debug] prints a string as [{:?}] does. *)
Definition Scenario_from_environment (debug : rstring -> rstring) (env : Environment) : result ProcessError Scenario :=
  match env (str "PGTASK_BENCH_SCENARIO") with
  | Present value =>
      if bool_decide (value = str "noop") then Ok SNoop
      else if bool_decide (value = str "cpu-bound") then Ok CpuBound
      else if bool_decide (value = str "delayed-burst") then Ok DelayedBurst
      else if bool_decide (value = str "database-disconnect") then Ok DatabaseDisconnect
      else if bool_decide (value = str "io-bound") then Ok IoBound
      else if bool_decide (value = str "multi-scheduler") then Ok MultiScheduler
      else if bool_decide (value = str "rate-limited") then Ok RateLimited
      else if bool_decide (value = str "retained-history") then Ok RetainedHistory
      else if bool_decide (value = str "retry-storm") then Ok RetryStorm
      else if bool_decide (value = str "worker-death") then Ok WorkerDeath
      else Err (ProcessMessage (str "unknown benchmark scenario " ++ debug value))
  | NotPresent => Ok SNoop
  | NotUnicode => Err VarError
  end.

Record Configuration := {
  bc_task_count : Z;
  bc_batch_size : Z;
  bc_worker_count : Z;
  bc_concurrency : Z;
  bc_timeout : Z;
  bc_scenario : Scenario;
  bc_retry_attempts : Z;
  bc_queue_capacity : option Z;
}.

Definition u16_try_from (n : Z) : result ProcessError Z := ok_or TryFromIntError (try_u16 n).

Definition Configuration_from_environment (debug : rstring -> rstring) (env : Environment)
    : result ProcessError Configuration :=
  let? task_count := environment_usize env (str "PGTASK_BENCH_TASKS") 1000 in
  let? batch_size := environment_usize env (str "PGTASK_BENCH_BATCH_SIZE") 100 in
  let? worker_count := environment_usize env (str "PGTASK_BENCH_WORKERS") 1 in
  let? concurrency := environment_usize env (str "PGTASK_BENCH_CONCURRENCY") 100 in
  let? concurrency := u16_try_from concurrency in
  let? timeout := environment_usize env (str "PGTASK_BENCH_TIMEOUT_SECONDS") 300 in
  let? timeout := ok_or TryFromIntError (try_u64 timeout) in
  let? scenario := Scenario_from_environment debug env in
  let? retry_attempts := environment_usize env (str "PGTASK_BENCH_RETRY_ATTEMPTS") 3 in
  let? retry_attempts := u16_try_from retry_attempts in
  let? queue_capacity := environment_optional_nonzero_u64 env (str "PGTASK_BENCH_QUEUE_CAPACITY") in
  guard? negb ((task_count =? 0) || (batch_size =? 0) || (worker_count =? 0) || (concurrency =? 0)
               || is_zero (from_secs timeout))
    else ProcessMessage (str "task, batch, worker, concurrency, and timeout values must be greater than zero");
  guard? negb (bool_decide (scenario = RetryStorm) && (retry_attempts <? 2))
    else ProcessMessage (str "retry storm attempts must be at least two");
  guard? negb (bool_decide (scenario = WorkerDeath) && (worker_count <? 2))
    else ProcessMessage (str "worker death requires at least two workers");
  guard? negb (from_option (fun capacity => capacity <? default u64_max (try_u64 task_count)) false queue_capacity)
    else ProcessMessage (str "queue capacity must be at least the benchmark task count");
  Ok {| bc_task_count := task_count; bc_batch_size := batch_size; bc_worker_count := worker_count;
        bc_concurrency := concurrency; bc_timeout := from_secs timeout; bc_scenario := scenario;
        bc_retry_attempts := retry_attempts; bc_queue_capacity := queue_capacity |}.

(** The queue [main] puts, if it puts one. *)
Definition bench_queue (config : Configuration) (queue_name : rstring) : option QueueConfig :=
  let retained := bool_decide (bc_scenario config = RetainedHistory) in
  if retained || bool_decide (is_Some (bc_queue_capacity config))
  then let queue := QueueConfig_new queue_name in
       Some {| qc_name := qc_name queue;
               qc_terminal_retention := if retained then 0 else qc_terminal_retention queue;
               qc_idempotency_retention := qc_idempotency_retention queue;
               qc_max_outstanding_tasks := bc_queue_capacity config;
               qc_starvation_timeout := qc_starvation_timeout queue |}
  else None.

(** [(0..config.task_count).map(...)]. *)
Definition bench_request (config : Configuration) (queue_name task_name : rstring) (delayed_until : time)
    (sequence : Z) : EnqueueRequest := {|
  er_task_name := task_name; er_handler_version := HandlerVersion_default;
  er_payload := VObject (map_collect [(str "sequence", json_number sequence)]);
  er_queue_name := queue_name;
  er_run_at := if bool_decide (bc_scenario config = DelayedBurst) then Some delayed_until else None;
  er_priority := 0;
  er_max_attempts := if bool_decide (bc_scenario config = RetryStorm) then bc_retry_attempts config else 5;
  er_idempotency_key := None; er_headers := [] |}.
Definition bench_requests (config : Configuration) (queue_name task_name : rstring) (delayed_until : time)
    : list EnqueueRequest :=
  map (fun n => bench_request config queue_name task_name delayed_until (Z.of_nat n))
    (seq 0 (Z.to_nat (bc_task_count config))).

(** [requests.chunks(batch_size)]; there are at most as many chunks as elements. *)
Fixpoint chunks_fuel {A} (fuel size : nat) (l : list A) : list (list A) :=
  match fuel, l with
  | S fuel', _ :: _ => take size l :: chunks_fuel fuel' size (drop size l)
  | _, _ => []
  end.
Definition chunks {A} (size : nat) (l : list A) : list (list A) := chunks_fuel (length l) size l.

(** [for batch in requests.chunks(config.batch_size) { store.enqueue_many(batch).await?; }]. *)
Fixpoint enqueue_batches (timestamptz_of_text : time -> time) (context : list (rstring * rstring))
    (e : nat -> Env) (n : nat) (batches : list (list EnqueueRequest)) : io unit :=
  match batches with
  | [] => lift (Ok tt)
  | batch :: batches' =>
      let? _ := Store.enqueue_many timestamptz_of_text context (e n) batch in
      enqueue_batches timestamptz_of_text context e (S n) batches'
  end.

(** The schedule of a request in the multi-scheduler scenario; [id] and [suffix] are
    random. *)
Definition bench_schedule (id suffix : uuid) (now : time) (sequence : Z) (request : EnqueueRequest)
    : result ProcessError ScheduleConfig :=
  let? name := map_err ProcessName
    (ScheduleName_new (str "benchmark-schedule-" ++ decimal sequence ++ str "-" ++ uuid_text suffix)) in
  let? definition := map_err ProcessSchedule (interval (from_hours 1)) in
  let config := ScheduleConfig_new id name definition request in
  Ok {| sc_id := sc_id config; sc_name := sc_name config; sc_definition := sc_definition config;
        sc_misfire_policy := sc_misfire_policy config; sc_task := sc_task config; sc_start_at := Some now |}.

(** [for (sequence, request) in requests.into_iter().enumerate() { ... }]; [ids] are the
    random numbers and [clock] the readings of the clock. *)
Fixpoint put_schedules (ids : nat -> uuid * uuid) (clock : nat -> time * time) (e : nat -> Env) (n : nat)
    (requests : list EnqueueRequest) (d : Db) : Db * result ProcessError unit :=
  match requests with
  | [] => (d, Ok tt)
  | request :: requests' =>
      match bench_schedule (ids n).1 (ids n).2 (clock n).1 (Z.of_nat n) request with
      | Err error => (d, Err error)
      | Ok schedule =>
          match Store.put_schedule (clock n).2 (e n) schedule d with
          | (d, Err error) => (d, Err (ProcessStore error))
          | (d, Ok _) => put_schedules ids clock e (S n) requests' d
          end
      end
  end.

(** [main] up to the start of the workers. *)
Definition bench_enqueue (timestamptz_of_text : time -> time) (context : list (rstring * rstring))
    (ids : nat -> uuid * uuid) (clock : nat -> time * time) (e_queue : Env) (e : nat -> Env)
    (config : Configuration) (bench_id : uuid) (delayed_until : time) (d : Db) : Db * result ProcessError rstring :=
  match map_err ProcessName (QueueName_new (str "bench-" ++ uuid_text bench_id)) with
  | Err error => (d, Err error)
  | Ok queue_name =>
      match match bench_queue config queue_name with
            | Some queue => let (d, answer) := Store.put_queue e_queue queue d in (d, match answer with Ok _ => Ok tt | Err error => Err error end)
            | None => (d, Ok tt)
            end with
      | (d, Err error) => (d, Err (ProcessStore error))
      | (d, Ok _) =>
          match map_err ProcessName (TaskName_new (str "benchmark.noop")) with
          | Err error => (d, Err error)
          | Ok task_name =>
              let requests := bench_requests config queue_name task_name delayed_until in
              let (d, answer) :=
                if bool_decide (bc_scenario config = MultiScheduler) then put_schedules ids clock e 0 requests d
                else let (d, answer) := enqueue_batches timestamptz_of_text context e 0
                                          (chunks (Z.to_nat (bc_batch_size config)) requests) d in
                     (d, map_err ProcessStore answer) in
              (d, match answer with Ok _ => Ok queue_name | Err error => Err error end)
          end
      end
  end.

(** The condition of the drain loop. *)
Definition drained (config : Configuration) (queue_name : rstring) (d : Db) : bool :=
  match (task_count_by_state queue_name Succeeded d).2 with
  | Ok count => count =? default u64_max (try_u64 (bc_task_count config))
  | Err _ => false
  end.

(** [cleanup_history]: what it deleted and the database, unless a statement fails;
    [None] when the fuel does not last. *)
Fixpoint cleanup_loop (fuel : nat) (e : nat -> Env) (n : nat) (queue_name : rstring) (deleted : Z) (d : Db)
    : option (Db * result PostgresError Z) :=
  match fuel with
  | O => None
  | S fuel' =>
      match Store.delete_expired_terminal (e n) queue_name 1000 d with
      | (d, Err error) => Some (d, Err error)
      | (d, Ok batch) =>
          if batch =? 0 then Some (d, Ok (deleted + batch))
          else cleanup_loop fuel' e (S n) queue_name (deleted + batch) d
      end
  end.
Definition cleanup_history (e : nat -> Env) (queue_name : rstring) (scenario : Scenario) (d : Db)
    : option (Db * result PostgresError (option Z)) :=
  if bool_decide (scenario = RetainedHistory)
  then match cleanup_loop (S (size (tasks d))) e 0 queue_name 0 d with
       | Some (d, Ok deleted) => Some (d, Ok (Some deleted))
       | Some (d, Err error) => Some (d, Err error)
       | None => None
       end
  else Some (d, Ok None).

(** What the handler returns; [None] is the handler of the worker that is to die,
    which never does. *)
Definition bench_handler (config : Configuration) (worker_index : Z) (task : Task) : option HandlerOutcome :=
  if bool_decide (bc_scenario config = WorkerDeath) && (worker_index =? 0) then None
  else if bool_decide (bc_scenario config = RetryStorm) && (t_attempt task <? bc_retry_attempts config)
  then Some (Raised (HandlerError_retryable (str "benchmark retry")))
  else Some (Returned VNull).

Definition bench_retry_policy (config : Configuration) : RetryPolicy :=
  if bool_decide (bc_scenario config = RetryStorm) then Fixed (from_millis 1) else Never.

(** The loop of the cpu-bound handler. *)
Definition u64_wrap (n : Z) : Z := n mod (u64_max + 1).
Definition cpu_step (value sequence : Z) : Z := u64_wrap (u64_wrap (value * 6364136223846793005) + sequence).
Definition cpu_bound (attempt : Z) (rounds : nat) : Z :=
  foldl cpu_step attempt (map Z.of_nat (seq 0 rounds)).

Definition with_lease (lease_duration : Z) (c : WorkerConfig) : WorkerConfig := {|
  cf_queues := cf_queues c; cf_concurrency := cf_concurrency c; cf_claim_batch_size := cf_claim_batch_size c;
  cf_recovery_batch_size := cf_recovery_batch_size c; cf_lease_duration := lease_duration;
  cf_poll_interval := cf_poll_interval c; cf_shutdown_grace := cf_shutdown_grace c;
  cf_worker_heartbeat_interval := cf_worker_heartbeat_interval c; cf_worker_ttl := cf_worker_ttl c;
  cf_scheduler_enabled := cf_scheduler_enabled c; cf_schedule_batch_size := cf_schedule_batch_size c;
  cf_wait_batch_size := cf_wait_batch_size c;
  cf_schedule_reconciliation_interval := cf_schedule_reconciliation_interval c;
  cf_retention_enabled := cf_retention_enabled c; cf_retention_batch_size := cf_retention_batch_size c;
  cf_retention_interval := cf_retention_interval c; cf_expired_worker_retention := cf_expired_worker_retention c;
  cf_declared_schedules := cf_declared_schedules c; cf_supervisor_interval := cf_supervisor_interval c;
  cf_overload_protection := cf_overload_protection c |}.
Definition with_slots (concurrency : Z) (scheduler_enabled : bool) (c : WorkerConfig) : WorkerConfig := {|
  cf_queues := cf_queues c; cf_concurrency := concurrency; cf_claim_batch_size := concurrency;
  cf_recovery_batch_size := cf_recovery_batch_size c; cf_lease_duration := cf_lease_duration c;
  cf_poll_interval := cf_poll_interval c; cf_shutdown_grace := cf_shutdown_grace c;
  cf_worker_heartbeat_interval := cf_worker_heartbeat_interval c; cf_worker_ttl := cf_worker_ttl c;
  cf_scheduler_enabled := scheduler_enabled; cf_schedule_batch_size := cf_schedule_batch_size c;
  cf_wait_batch_size := cf_wait_batch_size c;
  cf_schedule_reconciliation_interval := cf_schedule_reconciliation_interval c;
  cf_retention_enabled := cf_retention_enabled c; cf_retention_batch_size := cf_retention_batch_size c;
  cf_retention_interval := cf_retention_interval c; cf_expired_worker_retention := cf_expired_worker_retention c;
  cf_declared_schedules := cf_declared_schedules c; cf_supervisor_interval := cf_supervisor_interval c;
  cf_overload_protection := cf_overload_protection c |}.
Definition with_retention (enabled : bool) (batch_size interval : Z) (c : WorkerConfig) : WorkerConfig := {|
  cf_queues := cf_queues c; cf_concurrency := cf_concurrency c; cf_claim_batch_size := cf_claim_batch_size c;
  cf_recovery_batch_size := cf_recovery_batch_size c; cf_lease_duration := cf_lease_duration c;
  cf_poll_interval := cf_poll_interval c; cf_shutdown_grace := cf_shutdown_grace c;
  cf_worker_heartbeat_interval := cf_worker_heartbeat_interval c; cf_worker_ttl := cf_worker_ttl c;
  cf_scheduler_enabled := cf_scheduler_enabled c; cf_schedule_batch_size := cf_schedule_batch_size c;
  cf_wait_batch_size := cf_wait_batch_size c;
  cf_schedule_reconciliation_interval := cf_schedule_reconciliation_interval c;
  cf_retention_enabled := enabled; cf_retention_batch_size := batch_size;
  cf_retention_interval := interval; cf_expired_worker_retention := cf_expired_worker_retention c;
  cf_declared_schedules := cf_declared_schedules c; cf_supervisor_interval := cf_supervisor_interval c;
  cf_overload_protection := cf_overload_protection c |}.

(** The configuration of the workers. *)
Definition bench_worker_config (config : Configuration) (queue_name : rstring) : result ProcessError WorkerConfig :=
  let? concurrency := ok_or (ProcessMessage (str "concurrency must be nonzero")) (nonzero (bc_concurrency config)) in
  let worker_config := with_slots concurrency (bool_decide (bc_scenario config = MultiScheduler))
                         (WorkerConfig_new queue_name) in
  Ok (if bool_decide (bc_scenario config = WorkerDeath \/ bc_scenario config = DatabaseDisconnect)
      then with_lease (from_secs 2) worker_config else worker_config).

(** ** The smoke test *)

Inductive SmokeCommand : Type := SmokeWorker | SmokeEnqueue.
Definition smoke_command (debug : rstring -> rstring) (argument : option rstring) : result ProcessError SmokeCommand :=
  let? command := ok_or (ProcessMessage (str "expected worker or enqueue")) argument in
  if bool_decide (command = str "worker") then Ok SmokeWorker
  else if bool_decide (command = str "enqueue") then Ok SmokeEnqueue
  else Err (ProcessMessage (str "unknown command " ++ debug command)).

Definition smoke_store_config (env : Environment) : result ProcessError StoreConfig :=
  let? url := match env (str "PGTASK_DATABASE_URL") with Present value => Ok value | _ => Err VarError end in
  let store_config := StoreConfig_new url in
  let store_config := match env (str "PGTASK_LISTENER_DATABASE_URL") with
                      | Present listener_url => with_listener_url listener_url store_config
                      | _ => store_config
                      end in
  let? query := environment_nonzero_u32 env (str "PGTASK_MAX_QUERY_CONNECTIONS") 10 in
  let? listener := environment_nonzero_u32 env (str "PGTASK_MAX_LISTENER_CONNECTIONS") 1 in
  Ok (with_listener_connections listener (with_query_connections query store_config)).

Definition smoke_queue_name (env : Environment) : result ProcessError rstring :=
  map_err ProcessName (QueueName_new match env (str "PGTASK_QUEUE") with
                                     | Present value => value
                                     | _ => str "default"
                                     end).

(** [parse_address] is the parser of socket addresses. *)
Definition smoke_worker_config (parse_address : rstring -> bool) (env : Environment) : result ProcessError WorkerConfig :=
  let? queue_name := smoke_queue_name env in
  let? _ := environment_u16 env (str "PGTASK_SMOKE_HANDLER_MILLISECONDS") 0 in
  let nonzero_u16 name value := ok_or (greater_than_zero name) (nonzero value) in
  let? concurrency := environment_u16 env (str "PGTASK_CONCURRENCY") 10 in
  let? concurrency := nonzero_u16 (str "PGTASK_CONCURRENCY") concurrency in
  let? scheduler_enabled := environment_bool env (str "PGTASK_SCHEDULER_ENABLED") true in
  let? retention_enabled := environment_bool env (str "PGTASK_RETENTION_ENABLED") true in
  let? retention_batch_size := environment_u16 env (str "PGTASK_RETENTION_BATCH_SIZE") 100 in
  let? retention_batch_size := nonzero_u16 (str "PGTASK_RETENTION_BATCH_SIZE") retention_batch_size in
  let? retention_interval := environment_u16 env (str "PGTASK_RETENTION_INTERVAL_SECONDS") 60 in
  let? lease := environment_u16 env (str "PGTASK_SMOKE_LEASE_SECONDS") 30 in
  guard? match env (str "PGTASK_HEALTH_ADDRESS") with Present value => parse_address value | _ => true end
    else ParseAddressError;
  Ok (with_lease (from_secs lease)
       (with_retention retention_enabled retention_batch_size (from_secs retention_interval)
         (with_slots concurrency scheduler_enabled (WorkerConfig_new queue_name)))).

(** The requests of [enqueue_and_wait], sent one by one. *)
Definition TASK_NAME : rstring := str "pgtask.smoke".
Definition smoke_request (queue_name task_name : rstring) (sequence : Z) : EnqueueRequest := {|
  er_task_name := task_name; er_handler_version := HandlerVersion_default;
  er_payload := VObject (map_collect [(str "sequence", json_number sequence)]);
  er_queue_name := queue_name; er_run_at := None; er_priority := 0; er_max_attempts := 5;
  er_idempotency_key := None; er_headers := [] |}.
Fixpoint enqueue_each (context : list (rstring * rstring)) (e : nat -> Env) (n : nat)
    (requests : list EnqueueRequest) : io (list uuid) :=
  match requests with
  | [] => lift (Ok [])
  | request :: requests' =>
      let? row := Store.enqueue context (e n) request in
      let? task_ids := enqueue_each context e (S n) requests' in
      lift (Ok (eres_task_id row :: task_ids))
  end.

(** The condition of the loop of [enqueue_and_wait]. *)
Definition all_succeeded (task_ids : list uuid) (d : Db) : result PostgresError bool :=
  let? states := collect (fun id => (task_result id d).2) task_ids in
  Ok (len (filter (fun result => tr_state <$> result = Some Succeeded) states) =? len task_ids).

(** ** The process of the console *)

(** Which application [main] serves; [parse_header] is the parser of header names. *)
Definition web_application (parse_address : rstring -> bool) (parse_header : rstring -> option rstring)
    (env : Environment) : result ProcessError (option AdministratorConfig) :=
  let? _ := match env (str "PGTASK_DATABASE_URL") with Present value => Ok value | _ => Err VarError end in
  guard? parse_address match env (str "PGTASK_WEB_ADDRESS") with Present value => value | _ => str "0.0.0.0:8080" end
    else ParseAddressError;
  match env (str "PGTASK_WEB_ADMINISTRATOR") with
  | Present value =>
      if bool_decide (value = str "true") then
        let? actor_header := ok_or ParseHeaderError (parse_header
          match env (str "PGTASK_WEB_ADMINISTRATOR_ACTOR_HEADER") with
          | Present value => value
          | _ => str "x-pgtask-actor"
          end) in
        Ok (Some {| ad_actor_header := actor_header |})
      else Ok None
  | _ => Ok None
  end.

(** ** Parsing *)

Lemma parse_decimal_fuel max fuel : forall n rest,
  0 <= n <= max -> n < 10 ^ Z.of_nat fuel ->
  parse_digits max 0 (digits_fuel fuel n rest) = parse_digits max n rest.
Proof.
  induction fuel as [|fuel IH]; intros n rest Hn Hf; cbn [digits_fuel].
  { cbn in Hf. by replace n with 0 by lia. }
  pose proof (Z.mod_pos_bound n 10 ltac:(lia)). pose proof (Z.div_mod n 10 ltac:(lia)).
  assert (is_digit (48 + n mod 10) = true) as Hd
    by (unfold is_digit; rewrite andb_true_iff, !Z.leb_le; lia).
  destruct (Z.ltb_spec n 10).
  - cbn [parse_digits]. rewrite Hd. rewrite (Z.mod_small n 10) by lia.
    replace (0 * 10 + (48 + n - 48)) with n by lia. destruct (Z.ltb_spec max n); [lia|done].
  - rewrite IH; [|lia|rewrite Nat2Z.inj_succ, Z.pow_succ_r in Hf by lia; nia]. cbn [parse_digits]. rewrite Hd.
    replace (n / 10 * 10 + (48 + n mod 10 - 48)) with n by lia. destruct (Z.ltb_spec max n); [lia|done].
Qed.

Lemma digits_nonempty fuel : forall n acc, acc <> [] -> digits_fuel fuel n acc <> [].
Proof. induction fuel as [|fuel IH]; intros n acc Ha; cbn [digits_fuel]; [done|]. case_match; [done|by apply IH]. Qed.

(** A number in the environment reads as that number, if it fits. *)
Lemma parse_unsigned_decimal max n : 0 <= n <= max -> parse_unsigned max (decimal n) = Ok n.
Proof.
  intros Hn. unfold parse_unsigned. pose proof (decimal_digits n ltac:(lia)) as Hd.
  assert (parse_digits max 0 (decimal n) = Ok n) as Hp.
  { unfold decimal. rewrite parse_decimal_fuel; [done|lia|apply decimal_fuel; lia]. }
  assert (decimal n <> []) as Hne.
  { unfold decimal. cbn [digits_fuel]. case_match; [done|by apply digits_nonempty]. }
  destruct (decimal n) as [|c s] eqn:E; [done|].
  apply Forall_cons in Hd as [Hc _]. destruct (Z.eqb_spec c 43); [lia|]. by rewrite Hp.
Qed.

(** A name of a scenario selects it. *)
Theorem scenario_roundtrip debug env s :
  env (str "PGTASK_BENCH_SCENARIO") = Present (scenario_name s) -> Scenario_from_environment debug env = Ok s.
Proof. intros H. unfold Scenario_from_environment. rewrite H. by destruct s. Qed.

(** ** Batches *)

Lemma chunks_fuel_concat {A} size fuel : forall l : list A,
  (0 < size)%nat -> (length l <= fuel)%nat ->
  concat (chunks_fuel fuel size l) = l /\ Forall (fun c => (0 < length c <= size)%nat) (chunks_fuel fuel size l).
Proof.
  induction fuel as [|fuel IH]; intros l Hs Hl.
  - destruct l; [done|cbn in Hl; lia].
  - destruct l as [|x l]; [done|]. cbn [chunks_fuel concat].
    destruct (IH (drop size (x :: l)) Hs) as [Hc HF].
    { rewrite length_drop. cbn [length] in *. lia. }
    rewrite Hc, take_drop. split; [done|]. constructor; [|done]. rewrite length_take. cbn [length]. lia.
Qed.

(** The batches hold every request once, in order; none is empty or larger than
    [batch_size]. *)
Theorem chunks_partition {A} size (l : list A) :
  (0 < size)%nat -> concat (chunks size l) = l /\ Forall (fun c => (0 < length c <= size)%nat) (chunks size l).
Proof. intros Hs. by apply chunks_fuel_concat. Qed.

(** ** Cleanup *)

Lemma delete_tasks_size now l : forall d,
  NoDup (map fst l) -> Forall (fun kt => is_Some (tasks d !! kt.1)) l ->
  (size (tasks (foldl (delete_task now) d l)) + length l = size (tasks d))%nat.
Proof.
  induction l as [|kt l IH]; intros d Hn HF; cbn [foldl length]; [lia|].
  cbn in Hn. apply NoDup_cons in Hn as [Hni Hn]. apply Forall_cons in HF as [[t Ht] HF].
  specialize (IH (delete_task now d kt) Hn). rewrite delete_task_tasks, map_size_delete_Some in IH by eauto.
  assert (size (tasks d) <> 0%nat) by (intros Hz; apply map_size_empty_iff in Hz; rewrite Hz in Ht; done).
  enough (Forall (fun k => is_Some (delete kt.1 (tasks d) !! k.1)) l) as HF' by (specialize (IH HF'); lia).
  rewrite Forall_forall in *. intros k Hk. rewrite lookup_delete_ne; [by apply HF|].
  intros Heq. apply Hni. rewrite Heq. by apply (list_elem_of_fmap_2 fst).
Qed.

(** One batch: how many tasks are gone, and that a batch of none has left nothing to
    delete. *)
Lemma delete_batch e queue d :
  exists d' n, Store.delete_expired_terminal e queue 1000 d = (d', Ok n) /\ 0 <= n /\
    (size (tasks d') + Z.to_nat n = size (tasks d))%nat /\
    (n = 0 -> d' = d /\ forall id t, tasks d !! id = Some t -> deletable e queue d (id, t) = true -> id ∈ e_locked e).
Proof.
  set (rows := select_tasks e d (deletable e queue d) completion_le 1000).
  exists (foldl (delete_task (e_now e)) d rows), (len rows).
  assert (len rows <= 1000) as Hl by (unfold rows, select_tasks, len; rewrite length_take; lia).
  destruct (select_tasks_spec e d (deletable e queue d) completion_le 1000) as [Hnd HF]. fold rows in Hnd, HF.
  split_and!.
  - unfold Store.delete_expired_terminal, count_with_limit, Protocol.delete_expired_terminal, execute. cbn -[select_tasks number].
    unfold mbind, io_bind. fold rows. unfold lift, number, try_u64. rewrite try_from_Some; [done|]. unfold u64_max, len in *. lia.
  - unfold len. lia.
  - unfold len. rewrite Nat2Z.id. apply delete_tasks_size; [done|].
    eapply Forall_impl; [exact HF|]. intros kt (Ht & _). rewrite Ht. by eexists.
  - intros H0. assert (rows = []) as Hr by (destruct rows; [done|discriminate H0]).
    rewrite Hr. split; [done|]. intros id t Ht Hd.
    destruct (decide (id ∈ e_locked e)) as [|Hni]; [done|exfalso].
    assert ((id, t) ∈ rows) as Hin.
    { unfold rows, select_tasks in Hr |- *. rewrite take_ge.
      - rewrite (merge_sort_Permutation completion_le), list_elem_of_filter. by rewrite elem_of_map_to_list.
      - destruct (merge_sort _ _); [cbn; lia|discriminate Hr]. }
    rewrite Hr in Hin. by apply not_elem_of_nil in Hin.
Qed.

(** Cleanup ends, counts every task it deletes, and leaves no task of the queue that
    the last statement could delete. *)
Theorem cleanup_ends e queue : forall fuel n deleted d,
  (size (tasks d) < fuel)%nat ->
  exists d' m total, cleanup_loop fuel e n queue deleted d = Some (d', Ok total) /\
    total = deleted + Z.of_nat (size (tasks d)) - Z.of_nat (size (tasks d')) /\
    forall id t, tasks d' !! id = Some t -> deletable (e m) queue d' (id, t) = true -> id ∈ e_locked (e m).
Proof.
  induction fuel as [|fuel IH]; intros n deleted d Hf; [lia|]. cbn [cleanup_loop].
  destruct (delete_batch (e n) queue d) as (d' & k & -> & Hk & Hs & H0).
  destruct (Z.eqb_spec k 0) as [->|Hne].
  - destruct (H0 eq_refl) as [-> Hnone]. exists d, n. eexists. split; [done|]. split; [lia|done].
  - destruct (IH (S n) (deleted + k) d') as (d2 & m & total & E & Ht & Hnone); [lia|].
    exists d2, m, total. split; [done|]. split; [lia|done].
Qed.

(** ** Workers *)

(** What an accepted configuration promises. *)
Lemma configuration_accepted debug env config :
  Configuration_from_environment debug env = Ok config ->
  bc_task_count config <> 0 /\ bc_batch_size config <> 0 /\ bc_worker_count config <> 0 /\
  1 <= bc_concurrency config <= u16_max /\ bc_retry_attempts config <= u16_max /\
  (bc_scenario config = RetryStorm -> 2 <= bc_retry_attempts config) /\
  (bc_scenario config = WorkerDeath -> 2 <= bc_worker_count config) /\
  (forall c, bc_queue_capacity config = Some c -> default u64_max (try_u64 (bc_task_count config)) <= c).
Proof.
  intros H. unfold Configuration_from_environment in H. ok_inv.
  repeat match goal with E : negb _ = true |- _ => apply negb_true_iff in E end.
  unfold u16_try_from, try_u16 in *.
  repeat match goal with
  | E : ok_or _ (try_from ?l ?h ?x) = Ok _ |- _ =>
      let F := fresh "F" in destruct (try_from l h x) eqn:F; [|discriminate E]; injection E as ->; apply try_from_inv in F
  | E : _ || _ = false |- _ => apply orb_false_iff in E as [E ?]
  | E : (_ =? 0) = false |- _ => apply Z.eqb_neq in E
  end.
  cbn [bc_task_count bc_batch_size bc_worker_count bc_concurrency bc_retry_attempts bc_scenario bc_queue_capacity].
  split_and!; try lia; intros; subst; cbn [from_option bool_decide andb] in *;
    match goal with E : _ = false |- _ <= _ => apply Z.ltb_ge in E; exact E end.
Qed.

(** A configuration that is accepted starts workers: [Worker::new] takes what
    [start_workers] builds from it, and admits as many tasks as it asks for. *)
Theorem accepted_configuration_starts debug env config queue registry :
  Configuration_from_environment debug env = Ok config -> registry_capabilities registry <> [] ->
  exists c control, bench_worker_config config queue = Ok c /\ Worker_new registry c = Ok control /\
    wc_effective control = bc_concurrency config.
Proof.
  intros H Hr. apply configuration_accepted in H as (_ & _ & _ & Hc & _).
  unfold bench_worker_config, nonzero. destruct (Z.eqb_spec (bc_concurrency config) 0); [lia|].
  eexists _, _. split; [reflexivity|]. unfold Worker_new.
  case_bool_decide; cbn -[registry_capabilities Z.ltb];
    (rewrite bool_decide_eq_false_2 by done); (destruct (Z.ltb_spec (bc_concurrency config) 1); [lia|]).
  all: split; reflexivity.
Qed.

(** In the retry storm a handler succeeds at the last attempt its request allows, and
    at no earlier one. *)
Theorem retry_storm_succeeds_last config queue name until sequence worker task :
  bc_scenario config = RetryStorm -> t_max_attempts task = er_max_attempts (bench_request config queue name until sequence) ->
  t_attempt task <= t_max_attempts task ->
  bench_handler config worker task = Some (Returned VNull) <-> t_attempt task = t_max_attempts task.
Proof.
  intros Hs Hm Ha. unfold bench_handler. cbn [bench_request er_max_attempts] in Hm. rewrite Hs in *.
  rewrite bool_decide_eq_true_2 in Hm by done. rewrite Hm in *.
  rewrite bool_decide_eq_false_2, bool_decide_eq_true_2 by done. cbn [andb].
  destruct (Z.ltb_spec (t_attempt task) (bc_retry_attempts config)); split; intros; (done || lia).
Qed.

(** The console lets an administrator in only when the variable says [true]. *)
Theorem administrator_is_opt_in parse_address parse_header env c :
  web_application parse_address parse_header env = Ok (Some c) ->
  env (str "PGTASK_WEB_ADMINISTRATOR") = Present (str "true").
Proof.
  unfold web_application. intros H. ok_inv. destruct (env (str "PGTASK_WEB_ADMINISTRATOR")); [|discriminate H..].
  case_bool_decide; [by subst|discriminate H].
Qed.

(** No request of an accepted configuration is refused by the client's own checks. *)
Theorem bench_requests_are_valid debug env config queue name until :
  Configuration_from_environment debug env = Ok config ->
  Forall (fun request => validate_request request = Ok tt) (bench_requests config queue name until).
Proof.
  intros H. apply configuration_accepted in H as (_ & _ & _ & _ & _ & Hr & _).
  unfold bench_requests. apply Forall_fmap, Forall_forall. intros n _. cbn.
  unfold validate_request. cbn [bench_request er_max_attempts].
  case_bool_decide as Hs; [|done]. specialize (Hr Hs). destruct (Z.eqb_spec (bc_retry_attempts config) 0); [lia|done].
Qed.
